(* ===== verification/_CoqProject ===== *)
-Q . S2P
Prelude.v
Checked.v
SdkMath.v
Bounds.v
EconomicAddress.v
RewardsTypes.v
Collections.v
Bytes.v
Paging.v
Emission.v
Allocation.v
EpochHistory.v
RewardConfig.v
Bank.v
CoreSlotTypes.v
CoreSlotState.v
CoreSlot.v
CoreSlotMsgs.v
CoreSlotEndBlock.v
CoreSlotInvariant.v
CoreSlotLifecycle.v
CoreSlotValidators.v
CoreSlotPolicy.v
CoreSlotRows.v
CoreSlotBlocks.v
CoreSlotGenesis.v
CoreSlotGenesisInvariant.v
CoreSlotTheorems.v
Pause.v
Entitlement.v
RewardsKeeper.v
RewardsInvariant.v
Release.v
Finalize.v
Lifecycle.v
Chain.v
RewardsGenesis.v
RewardsGenesisTheorems.v
Selection.v
SelectionTheorems.v
CoreSlotQueries.v
CoreSlotUpgrades.v
RewardsQueries.v
MiningTypes.v
MiningHistory.v
MiningKeeper.v
MiningSettlement.v
MiningHistories.v
MiningInvariant.v
MiningBlocks.v
MiningMessages.v
MiningRuns.v
MiningQueries.v
MiningRewards.v
MiningGenesis.v
AppChain.v
AppSample.v
MiningTheorems.v
App.v
MiningQueryTheorems.v
RewardsQueryTheorems.v
Telemetry.v
AppWiring.v
