(* ===== verification/Prelude.v ===== *)
(** * Verification library for twilight-core

    twilight-core is a Cosmos SDK chain whose own logic is in three modules:
    - [x/rewards] mints the epoch emission, divides it between the CoreSlots that
      were active, keeps what each slot is owed and pays it out;
    - [x/coreslot] is the registry of the slots: who operates them, which are
      active, their consensus keys and their selection policies; its end block
      is what tells the consensus engine the validator set;
    - [x/mining] settles each entitlement: the settlement address of the slot pays
      participants out of it in chunks while a window is open, and a finalization
      pays the rest to the operator; [x/mining/types/selectionv1] holds the rules
      by which participants are selected.
    Shared packages: [internal/checked] (machine arithmetic),
    [internal/economicaddress] (which addresses may receive value) and
    [app/params] (protocol bounds).

    ** Files and code

    - [Prelude]: results, the state monad [M], loops, their inversion tactics
      ([minv]) and forward rule ([M_bind_run]), machine integers.
    - [Collections]: [cosmossdk.io/collections] maps with ordered iteration;
      [Bytes]: hexadecimal and big-endian text; [Paging]: the SDK paginator, gRPC
      codes, and what following the pages of a listing returns.
    - [Checked] ([internal/checked]), [Bounds] ([app/params/bounds.go]),
      [EconomicAddress] ([internal/economicaddress]), [SdkMath] (amount parsing of
      [x/rewards/types] over a class for [cosmossdk.io/math]).
    - rewards, data and pure rules: [RewardsTypes] ([types]), [Emission]
      ([emission.go]), [Allocation] ([distribution.go], [pool.go]),
      [EpochHistory] ([epochhistory.go]), [RewardConfig] ([rewardconfig.go]),
      [Pause] ([pause.go]), [Entitlement] ([entitlement.go] and the books of
      [release.go]).
    - rewards, keeper: [Bank] (the bank interface), [RewardsKeeper] (the store as
      one record, every accessor), [RewardsInvariant] (the ledger invariant),
      [Release] ([release.go]), [Finalize] ([finalize.go]), [Lifecycle] (block
      hooks, message server, registered invariants), [Chain] (blocks as a
      transition system), [RewardsGenesis] and [RewardsGenesisTheorems]
      ([genesis.go] of types and keeper), [RewardsQueries] and
      [RewardsQueryTheorems] ([query_server.go]).
    - coreslot, model: [CoreSlotTypes], [CoreSlotState] (messages, parameters,
      consensus keys, the store), [CoreSlot] ([keeper.go], [invariants.go]),
      [CoreSlotMsgs] ([msg_server.go], [authority.go]), [CoreSlotEndBlock]
      ([endblock.go]), [CoreSlotGenesis] ([genesis.go] of types and keeper).
    - coreslot, proofs: [CoreSlotInvariant] (the invariant), [CoreSlotLifecycle]
      (every handler keeps it), [CoreSlotValidators] (end block),
      [CoreSlotPolicy] (policy histories), [CoreSlotRows] (what a message may
      change), [CoreSlotBlocks] (runs), [CoreSlotGenesisInvariant] (import),
      [CoreSlotTheorems] (the properties); [CoreSlotQueries] ([query_server.go],
      model and properties).
    - upgrades: [CoreSlotUpgrades] (the two upgrade messages of [msg_server.go],
      the scheduler, registry, handlers and store loader of [app/upgrades.go], and
      [app/consensusparams.go]).
    - [Selection], [SelectionTheorems]: [x/mining/types/selectionv1].
    - mining, model: [MiningTypes] (records and messages, [types]),
      [MiningHistory] ([history.go], [versionlookup.go]), [MiningKeeper]
      ([keeper.go], [mode.go], [settlementparams.go], [materialize.go],
      [endblock.go]; the interface [RewardsKeeper]), [MiningSettlement]
      ([chunk.go], [finalize.go], [msg_server.go]), [MiningGenesis] ([genesis.go]
      of types and keeper).
    - mining, proofs: [MiningHistories] (the three versioned families),
      [MiningInvariant] (what is relied on of rewards, the invariant),
      [MiningBlocks] (end block), [MiningMessages] (chunks and finalizations),
      [MiningRuns] (runs), [MiningTheorems] (the properties).
    - mining, queries: [MiningQueries] ([query_server.go]), [MiningQueryTheorems].
    - [MiningRewards]: the rewards keeper as the implementation of [RewardsKeeper].
    - [AppChain]: CoreSlot as the implementation of the interface [CoreSlotKeeper]
      of the rewards module, and the three modules composed as [app/config.go]
      orders them; [AppSample]: a chain of 361 blocks, executed; [App]: the
      properties of the whole; [AppWiring]: module accounts, the construction of
      the address rule ([app.go], [config.go]), [sendrestriction.go] and
      [antehandler.go]; [Telemetry]: the snapshots of the keepers and their export
      after a commit ([telemetry.go] of the three keepers and of [app]).

    A Go method over a store is a function of [M]; on an error it still returns
    the store as it was at that point, and [cached] is the cache around a message
    or around a finalization.  A panic is the error [Panic].  Machine integers
    are integers with the wrap-around written out ([u64], [i64]); a nil pointer
    in a message is [None].

    ** What the theorems show

    - The application: [App.app_never_halts] (from accepted genesis documents no
      block hook of the three modules ever fails), [App.app_entitlements_settle]
      (entitlements and settlements correspond, in every reachable state),
      [App.app_settlement_available] (what is owed can be collected).
    - The rewards chain, over any CoreSlot that keeps its interface:
      [Chain.chain_never_halts], [Chain.chain_invariant_preserved] (the escrow is
      exactly what is owed plus the carry, the supply is what was there plus the
      cumulative emission, which stays below its maximum),
      [Chain.emission_only_at_epoch_close], [Chain.registered_invariants_silent].
    - Emission and allocation: the halving loops against closed forms, additivity
      and the cap, the final supply is reached; allocation conserves the pool and
      ignores the order of its rows.
    - Epochs: the history tiles the heights, appending and consuming changes keep
      it, the projection agrees with what consumption will do; the reward
      configuration of a bound target never changes.
    - Finalization and release: an epoch is closed exactly and once; payouts are
      exact, within the entitlement, and idempotent at the remainder.
    - CoreSlot: the validator updates always reproduce the active slots, the
      store stays good along any run, slots keep their identity, statuses change
      only on the lifecycle's edges by permitted senders, authority moves only by
      acceptance, policy histories resolve uniquely and never change backwards.
    - Settlement: chunks and finalizations pay exactly and once, the end block
      turns the entitlements of a closed epoch into settlements and each scheduled
      change that is due into the next version of its history, a settlement keeps its terms and its deadline for life, version
      lookups are sound, a window too long for a uint64 stalls its settlement.
    - Genesis: import establishes the invariants of the three modules, is all or
      nothing, and export returns the document.
    - Queries: in every reachable state they answer, and truthfully: what rewards
      reports of its ledger, its epochs to come and its entitlements, what CoreSlot
      finds by operator, by consensus address and by policy version, what mining
      reports of a settlement, on which a client can act.  Listings are complete:
      following the pages with any page size returns every row.  NotFound means
      absent, and corruption is never reported of a state the chain can reach.
    - Telemetry: after every committed block the metrics are the values of the
      ledger, the escrow delta is zero, the backlog of an active slot agrees with
      the settlement query, and no read fails on a chain that can be reached but
      for a settlement without deadline; float32 gauges keep the order and zero.
    - Wiring: the address rule that is built satisfies [environment]; the funding
      minimum never stops a payment of the protocol; the bank messages of an
      admitted transaction create at most 32 accounts, each funded by an output of
      it (what its other messages create is not bounded); a name identifies one
      upgrade, only the authority schedules one, and the block gas upgrade changes
      nothing else.
    - Selection: the evaluation succeeds exactly on well-formed input, with the
      prescribed result in every field, the number of selected participants is
      exact and bounded, the heights of a selection are ordered inside their
      epoch, preimages of different inputs differ, a slot's own blocks do not
      count, a published result is accepted only if derived.

    ** Parameters and hypotheses

    Code outside the repository is a class with a concrete instance: [SdkInt]
    ([math.Int]), [DecCodec] ([math.LegacyDec]), [Bech32], [BankKeeper],
    [PubKeyCodec] (ed25519 and protobuf), [Sha256] (the hash functions),
    [Paginator] and [FilteredPaginator] (pages of a collection), [UpgradeKeeper]
    (x/upgrade), [CometParams] and [CometConversions] (consensus parameters).
    [environment] states how the application wires them: the module account exists
    and is refused as a destination, the bank blocks no admitted address, the text
    of an admitted address is admitted; [AppWiring.wired_environment] derives it
    from the construction in [app.go] and the documented behaviour of the keepers
    and of the address codec ([keepers_documented]).
    [genesis_fits] asks that the maximum supply and the supply that existed before
    be below 2^128, so that no amount of [math.Int] overflows; [genesis_typed] that
    fields of machine type are in range; [distinct_consensus] that slots whose
    keys differ as bytes have different consensus addresses, which the validation
    of CoreSlot compares by encoding.
    What the rewards module needs of CoreSlot is the record [coreslot_contract],
    what mining needs of rewards the record [rewards_contract]; both are proved of
    the models, in [AppChain] and [MiningRewards].  [app_genesis_fits] collects
    what the documents and the bank must meet at the start.

    ** Fuel

    The Go loops without a bound are those that halve a supply or a subsidy; they
    carry [halving_fuel], 258, enough to halve any 256-bit integer to zero, and
    the theorems say that no run ends in [OutOfFuel].  Every other loop is over a
    list.

    ** Not modelled

    Events, logging and the command line change no state; protobuf and JSON
    coding and the REST gateways are generated or belong to the SDK; stored bytes
    that do not decode and reads that are canceled have no representation, the
    stores hold values.  Of [app], dependency injection, store mounting, the
    commands and the node configuration are glue of the SDK; [x/bank], [x/auth] and
    the wrapped ante chain are known by the documented behaviour stated where it is
    used.  The packages under [tools] and the vector generators of [internal]
    are not part of the chain. *)

From stdpp Require Export base tactics decidable option list numbers gmap strings
  fin_maps fin_map_dom sorting.
From Stdlib Require Export ZArith Lia.

#[export] Set Default Goal Selector "!".
Open Scope Z_scope.

(** ** Sentinel errors

    One constructor per sentinel of the Go packages ([errorsmod.Register] and
    [errors.New]); the text a call site wraps around a sentinel is dropped.
    [Panic] is a Go run-time panic, [ErrNotFound] the absence sentinel of the
    collections store, [ErrPlain] an error built with [fmt.Errorf] or
    [errors.New] that wraps no sentinel, [ErrExternal] an error returned by a
    package outside this repository.  [OutOfFuel] is no value of the program: it is
    what a loop translated with fuel would return if the fuel ran out. *)
Inductive error : Set :=
  | Panic | ErrNotFound | ErrPlain | ErrExternal | OutOfFuel
  (* internal/checked *)
  | ErrOverflow | ErrUnderflow | ErrRange
  (* internal/economicaddress *)
  | EAUnconfigured | EAEmptyAddress | EAInvalidAddress | EAModuleAccount | EABlockedAddress
  (* x/rewards/types/errors.go *)
  | RwInvalidParams | RwInvalidGenesis | RwImmutableParam | RwUnsupportedFeature
  | RwInvalidState | RwInvalidAddress | RwEpochConfigNotFound | RwRewardConfigNotFound
  | RwEpochBeyondProjectionHorizon
  (* x/coreslot/types/errors.go *)
  | CsUnauthorized | CsSlotNotFound | CsInvalidTransition | CsDuplicateOperator
  | CsDuplicateConsensusKey | CsMinActiveSlots | CsMaxActiveSlots | CsInvalidPubKey
  | CsInvalidParams | CsPendingRotationExists | CsCannotRemoveLastValidator
  | CsInvalidGenesis | CsInvalidAddress | CsInvalidSelectionPolicy | CsNoOpUpdate
  | CsSelectionPolicyNotFound | CsSelectionPolicyCooldown | CsUpgradeUnavailable
  | CsInvalidUpgrade | CsInvalidAuthorityRole | CsNoPendingNomination
  (* x/mining/types/errors.go *)
  | MnInvalidGenesis | MnInvalidState | MnSettlementNotFound | MnParamsNotFound
  | MnInvalidAddress | MnUnsupportedFeature
  (* x/mining/types/selectionv1/errors.go *)
  | SelInvalidLength | SelMalformedHex | SelNotCanonical | SelChainIDTooLong
  | SelCandidateListNotCanonical | SelCandidateCountMismatch | SelCandidateSetHashMismatch
  | SelBeaconHashMismatch | SelSelectedSetMismatch | SelSelectedCountMismatch
  | SelDuplicateSelectedID | SelSelectionKeyMismatch | SelCommitmentWindow
  | SelBeaconWindowDoesNotFit | SelLateResult | SelResultBeforeEpochStart
  | SelResultBeforeBeaconEnd | SelInvalidParams | SelInvalidBeaconWindow
  (* google.golang.org/grpc/status: what a query server answers instead of a value *)
  | StatusInvalidArgument | StatusNotFound | StatusOutOfRange | StatusFailedPrecondition
  | StatusInternal
  (* cosmos-sdk/types/errors: ErrInvalidRequest *)
  | SdkInvalidRequest.

#[export] Instance error_eq_dec : EqDecision error.
Proof. solve_decision. Defined.

(** ** Results: a Go function returning [(T, error)] *)
Inductive res (A : Type) : Type :=
  | Ok (a : A)
  | Err (e : error).
Arguments Ok {_} _.
Arguments Err {_} _.

#[export] Instance res_ret : MRet res := λ A a, Ok a.
#[export] Instance res_bind : MBind res := λ A B k m,
  match m with Ok a => k a | Err e => Err e end.
#[export] Instance res_throw : MThrow error res := λ A e, Err e.

(** [fmt.Errorf("%w: ...", sentinel, err)] and the module errors' [Wrapf]: the
    new sentinel replaces the cause. *)
Definition wrap {A} (e : error) (m : res A) : res A :=
  match m with Ok a => Ok a | Err _ => Err e end.

Definition is_ok {A} (m : res A) : bool :=
  match m with Ok _ => true | Err _ => false end.

(** ** Stateful code: a Go method over a store

    The state is returned on both paths: a Go method that fails after a write
    leaves the write in the context it was given.  [cached] is
    [CacheContext]/[write()]: the writes of a failed call are discarded. *)
Definition M (S A : Type) : Type := S → S * res A.

#[export] Instance M_ret {S} : MRet (M S) := λ A a s, (s, Ok a).
#[export] Instance M_bind {S} : MBind (M S) := λ A B k m s,
  match m s with
  | (s', Ok a) => k a s'
  | (s', Err e) => (s', Err e)
  end.
#[export] Instance M_throw {S} : MThrow error (M S) := λ A e s, (s, Err e).

Definition lift {S A} (r : res A) : M S A := λ s, (s, r).
Definition gets {S A} (f : S → A) : M S A := λ s, (s, Ok (f s)).
Definition modify {S} (f : S → S) : M S unit := λ s, (f s, Ok tt).
Definition reads {S A} (f : S → res A) : M S A := λ s, (s, f s).

Definition cached {S A} (m : M S A) : M S A := λ s,
  match m s with
  | (s', Ok a) => (s', Ok a)
  | (_, Err e) => (s, Err e)
  end.

(** A component's code run on the part of a larger store it owns. *)
Definition zoom {S T A} (get : S → T) (put : T → S → S) (m : M T A) : M S A := λ s,
  let '(t, r) := m (get s) in (put t s, r).

(** A nil pointer dereferenced. *)
Definition deref_ptr {A} (o : option A) : res A :=
  match o with Some a => Ok a | None => Err Panic end.

(** [if cond { return err }] *)
Definition fail_if {F} `{MThrow error F, MRet F} (b : bool) (e : error) : F unit :=
  if b then mthrow e else mret tt.

(** [for _, x := range l { if err := f(x); err != nil { return err } }] *)
Fixpoint for_each {F} `{MBind F, MRet F} {A} (f : A → F unit) (l : list A) : F unit :=
  match l with
  | [] => mret tt
  | x :: l' => f x ;; for_each f l'
  end.

(** The same loop with an accumulator carried from one iteration to the next. *)
Fixpoint fold_m {F} `{MBind F, MRet F} {A B} (f : B → A → F B) (l : list A) (b : B) : F B :=
  match l with
  | [] => mret b
  | x :: l' => b' ← f b x; fold_m f l' b'
  end.

(** ** Inverting monadic runs *)
Section inversion.
Context {S A B : Type}.
Implicit Types (s t : S).

Lemma res_bind_Ok (m : res A) (k : A → res B) b :
  m ≫= k = Ok b ↔ ∃ a, m = Ok a ∧ k a = Ok b.
Proof. destruct m; simpl; split; naive_solver. Qed.

Lemma res_bind_Err (m : res A) (k : A → res B) e :
  m ≫= k = Err e ↔ m = Err e ∨ ∃ a, m = Ok a ∧ k a = Err e.
Proof. destruct m; simpl; split; naive_solver. Qed.

Lemma wrap_Ok e (m : res A) a : wrap e m = Ok a ↔ m = Ok a.
Proof. destruct m; simpl; split; naive_solver. Qed.

Lemma M_bind_Ok (m : M S A) (k : A → M S B) s s' b :
  (m ≫= k) s = (s', Ok b) ↔ ∃ a s1, m s = (s1, Ok a) ∧ k a s1 = (s', Ok b).
Proof.
  unfold mbind, M_bind. destruct (m s) as [s1 [a|e]]; split; naive_solver.
Qed.

Lemma M_bind_run (m : M S A) (k : A → M S B) s s1 a :
  m s = (s1, Ok a) → (m ≫= k) s = k a s1.
Proof. unfold mbind, M_bind. by intros ->. Qed.

Lemma M_bind_run_err (m : M S A) (k : A → M S B) s s1 e :
  m s = (s1, Err e) → (m ≫= k) s = (s1, Err e).
Proof. unfold mbind, M_bind. by intros ->. Qed.

Lemma lift_Ok (r : res A) s s' a :
  lift r s = (s', Ok a) ↔ s' = s ∧ r = Ok a.
Proof. unfold lift. split; naive_solver. Qed.

Lemma reads_Ok (f : S → res A) s s' a :
  reads f s = (s', Ok a) ↔ s' = s ∧ f s = Ok a.
Proof. unfold reads. split; [intros H; by inversion H | by intros [-> ->]]. Qed.

Lemma gets_Ok (f : S → A) s s' a :
  gets f s = (s', Ok a) ↔ s' = s ∧ a = f s.
Proof. unfold gets. split; [intros H; by inversion H | by intros [-> ->]]. Qed.

Lemma modify_Ok (f : S → S) s s' u :
  modify f s = (s', Ok u) ↔ s' = f s.
Proof. unfold modify. destruct u. split; [intros H; by inversion H | by intros ->]. Qed.

Lemma M_ret_Ok (a a' : A) s s' :
  (mret a : M S A) s = (s', Ok a') ↔ s' = s ∧ a' = a.
Proof. unfold mret, M_ret. split; [intros H; by inversion H | by intros [-> ->]]. Qed.

Lemma M_throw_Ok (e : error) (a : A) s s' : (mthrow e : M S A) s = (s', Ok a) ↔ False.
Proof. unfold mthrow, M_throw. split; [intros H; by inversion H | done]. Qed.

Lemma cached_Ok (m : M S A) s s' a :
  cached m s = (s', Ok a) ↔ m s = (s', Ok a).
Proof. unfold cached. destruct (m s) as [t [x|e]]; split; naive_solver. Qed.

Lemma cached_Err (m : M S A) s s' e : cached m s = (s', Err e) → s' = s.
Proof. unfold cached. destruct (m s) as [t [x|y]]; naive_solver. Qed.

Lemma M_fail_if_Ok b e s s' u :
  (fail_if b e : M S unit) s = (s', Ok u) ↔ s' = s ∧ b = false.
Proof. destruct b, u; simpl; (split; [intros H; inversion H; auto | intros [-> ?]; done]). Qed.

Lemma res_fail_if_Ok b e u : (fail_if b e : res unit) = Ok u ↔ b = false.
Proof. destruct b, u; simpl; (split; [intros H; inversion H; auto | done]). Qed.

Lemma fail_if_false e : (fail_if false e : res unit) = Ok tt.
Proof. reflexivity. Qed.
Lemma M_fail_if_false e s : (fail_if false e : M S unit) s = (s, Ok tt).
Proof. reflexivity. Qed.
End inversion.

Lemma zoom_Ok {S T A} (get : S → T) (put : T → S → S) (m : M T A) s s' a :
  zoom get put m s = (s', Ok a) ↔ ∃ t, m (get s) = (t, Ok a) ∧ s' = put t s.
Proof. unfold zoom. destruct (m (get s)) as [t [x|e]]; split; naive_solver. Qed.

Lemma zoom_run {S T A} (get : S → T) (put : T → S → S) (m : M T A) s t r :
  m (get s) = (t, r) → zoom get put m s = (put t s, r).
Proof. unfold zoom. by intros ->. Qed.

Lemma zoom_any {S T A} (get : S → T) (put : T → S → S) (m : M T A) s s' r :
  zoom get put m s = (s', r) → ∃ t, m (get s) = (t, r) ∧ s' = put t s.
Proof. unfold zoom. destruct (m (get s)) as [t x]. intros [= <- <-]. eauto. Qed.

(** Running a program forward, one statement at a time. *)
Section forward.
Context {S T A B : Type}.
Implicit Types (s : S).

Lemma lift_step (r : res A) (k : A → M S B) s a : r = Ok a → (lift r ≫= k) s = k a s.
Proof. by intros ->. Qed.
Lemma reads_step (f : S → res A) (k : A → M S B) s a : f s = Ok a → (reads f ≫= k) s = k a s.
Proof. intros H. unfold reads, mbind, M_bind. by rewrite H. Qed.
Lemma gets_step (f : S → A) (k : A → M S B) s : (gets f ≫= k) s = k (f s) s.
Proof. reflexivity. Qed.
Lemma modify_step (f : S → S) (k : unit → M S B) s : (modify f ≫= k) s = k tt (f s).
Proof. reflexivity. Qed.
Lemma fail_if_step b e (k : unit → M S B) s : b = false → (fail_if b e ≫= k) s = k tt s.
Proof. by intros ->. Qed.
Lemma ret_step (a : A) (k : A → M S B) s : ((mret a : M S A) ≫= k) s = k a s.
Proof. reflexivity. Qed.
Lemma zoom_step (get : S → T) (put : T → S → S) (m : M T A) (k : A → M S B) s t a :
  m (get s) = (t, Ok a) → (zoom get put m ≫= k) s = k a (put t s).
Proof. intros H. unfold zoom, mbind, M_bind. by rewrite H. Qed.
End forward.

(** [mrun]: the next statement, when it needs nothing or what it needs is at hand. *)
Ltac mrun :=
  first [ rewrite gets_step | rewrite modify_step | rewrite ret_step
        | erewrite lift_step by eassumption | erewrite reads_step by eassumption
        | rewrite fail_if_step by (assumption || lia) | erewrite zoom_step by eassumption ];
  cbv beta.

(** [minv] turns every hypothesis saying that a monadic program succeeded into
    the facts about its steps. *)
Ltac minv_step :=
  match goal with
  | H : (_ ≫= _) = Ok _ |- _ => apply res_bind_Ok in H as (?&?&?)
  | H : (_ ≫= _) _ = (_, Ok _) |- _ => apply M_bind_Ok in H as (?&?&?&?)
  | H : wrap _ _ = Ok _ |- _ => apply wrap_Ok in H
  | H : lift _ _ = (_, Ok _) |- _ => apply lift_Ok in H as [? H]
  | H : reads _ _ = (_, Ok _) |- _ => apply reads_Ok in H as [? H]
  | H : gets _ _ = (_, Ok _) |- _ => apply gets_Ok in H as [? ?]
  | H : modify _ _ = (_, Ok _) |- _ => apply modify_Ok in H
  | H : cached _ _ = (_, Ok _) |- _ => apply cached_Ok in H
  | H : zoom _ _ _ _ = (_, Ok _) |- _ => apply zoom_Ok in H as (?&?&?)
  | H : fail_if _ _ _ = (_, Ok _) |- _ => apply M_fail_if_Ok in H as [? H]
  | H : fail_if _ _ = Ok _ |- _ => apply res_fail_if_Ok in H
  | H : mret _ _ = (_, Ok _) |- _ => apply M_ret_Ok in H as [? ?]
  | H : mthrow _ _ = (_, Ok _) |- _ => apply M_throw_Ok in H as []
  | H : mthrow _ = Ok _ |- _ => discriminate H
  | H : mret _ = Ok _ |- _ => injection H as H
  | H : Ok _ = Ok _ |- _ => injection H as H
  | H : Err _ = Ok _ |- _ => discriminate H
  | H : (_, Ok _) = (_, Ok _) |- _ => injection H as ? H
  | H : (_, Err _) = (_, Ok _) |- _ => discriminate H
  | H : (_ || _) = false |- _ => apply orb_false_iff in H as [? ?]
  | H : (_ && _) = true |- _ => apply andb_true_iff in H as [? ?]
  | H : negb _ = false |- _ => apply negb_false_iff in H
  | H : negb _ = true |- _ => apply negb_true_iff in H
  | u : unit |- _ => destruct u
  end.
Ltac minv := repeat (minv_step; subst).

(** A loop of checks passes when every check does. *)
Lemma for_each_Ok {A} (f : A → res unit) l :
  for_each f l = Ok tt ↔ ∀ x, x ∈ l → f x = Ok tt.
Proof.
  induction l as [|y l IH]; cbn [for_each]; [split; [set_solver | done]|].
  setoid_rewrite elem_of_cons. split.
  - intros H. minv. intros x [->|Hx]; [done|]. by apply IH.
  - intros H. rewrite (H y) by auto. simpl. apply IH. auto.
Qed.

(** Boolean comparisons of the code to propositions. *)
Ltac zify_bool :=
  repeat match goal with
  | H : (_ =? _) = true |- _ => apply Z.eqb_eq in H
  | H : (_ =? _) = false |- _ => apply Z.eqb_neq in H
  | H : (_ <? _) = true |- _ => apply Z.ltb_lt in H
  | H : (_ <? _) = false |- _ => apply Z.ltb_ge in H
  | H : (_ <=? _) = true |- _ => apply Z.leb_le in H
  | H : (_ <=? _) = false |- _ => apply Z.leb_gt in H
  | H : (_ >? _) = true |- _ => rewrite Z.gtb_ltb in H
  | H : (_ >? _) = false |- _ => rewrite Z.gtb_ltb in H
  | H : (_ >=? _) = true |- _ => rewrite Z.geb_leb in H
  | H : (_ >=? _) = false |- _ => rewrite Z.geb_leb in H
  end.

(** A closed equation between values, by running both sides. *)
Ltac vm_eq := match goal with |- @eq ?T _ ?b => vm_cast_no_check (@eq_refl T b) end.

(** Closed goals, by evaluation. *)
Ltac ground :=
  first [ reflexivity | vm_compute; reflexivity | vm_compute; discriminate
        | vm_compute; repeat split; first [discriminate | reflexivity] ].

(** ** Machine integers

    A Go [uint64] or [int64] is an integer of [Z]; [u64] and [i64] are the
    wrap-around of an unchecked Go operation. *)
Definition MaxUint64 : Z := 2 ^ 64 - 1.
Definition MaxInt64 : Z := 2 ^ 63 - 1.
Definition MinInt64 : Z := - 2 ^ 63.
Definition u64 (z : Z) : Z := z mod 2 ^ 64.
Definition i64 (z : Z) : Z := (z + 2 ^ 63) mod 2 ^ 64 - 2 ^ 63.
Definition is_u64 (z : Z) : Prop := 0 ≤ z ≤ MaxUint64.
Definition is_i64 (z : Z) : Prop := MinInt64 ≤ z ≤ MaxInt64.

#[export] Instance is_u64_dec z : Decision (is_u64 z).
Proof. unfold is_u64. apply _. Defined.
#[export] Instance is_i64_dec z : Decision (is_i64 z).
Proof. unfold is_i64. apply _. Defined.

Ltac widths := unfold is_u64, is_i64, MaxUint64, MaxInt64, MinInt64 in *.

Lemma u64_small z : is_u64 z → u64 z = z.
Proof. intros. unfold u64. apply Z.mod_small. widths. lia. Qed.
Lemma i64_small z : is_i64 z → i64 z = z.
Proof. intros. unfold i64. rewrite Z.mod_small; widths; lia. Qed.
Lemma i64_range z : is_i64 (i64 z).
Proof.
  unfold i64. pose proof (Z.mod_pos_bound (z + 2 ^ 63) (2 ^ 64) ltac:(lia)). widths. lia.
Qed.
Lemma i64_quotient z : ∃ k, i64 z = z - k * 2 ^ 64.
Proof.
  exists ((z + 2 ^ 63) / 2 ^ 64). unfold i64.
  pose proof (Z.div_mod (z + 2 ^ 63) (2 ^ 64) ltac:(lia)). lia.
Qed.

(** ** Sums over lists *)

Definition sum_of {A} (f : A → Z) (l : list A) : Z := foldr (λ x acc, f x + acc) 0 l.

Section sums.
Context {A : Type}.
Implicit Types (f g : A → Z) (l k : list A).

Lemma sum_of_cons f x l : sum_of f (x :: l) = f x + sum_of f l.
Proof. reflexivity. Qed.
Lemma sum_of_app f l k : sum_of f (l ++ k) = sum_of f l + sum_of f k.
Proof. induction l as [|x l IH]; simpl; lia. Qed.
Lemma sum_of_nonneg f l : Forall (λ x, 0 ≤ f x) l → 0 ≤ sum_of f l.
Proof. induction 1; simpl; lia. Qed.
Lemma sum_of_ext f g l : (∀ x, x ∈ l → f x = g x) → sum_of f l = sum_of g l.
Proof.
  induction l as [|x l IH]; intros H; simpl; [done|].
  rewrite H, IH; [done | | set_solver]. intros y Hy. apply H. set_solver.
Qed.
Lemma sum_of_mul f c l : sum_of (λ x, c * f x) l = c * sum_of f l.
Proof. induction l as [|x l IH]; simpl; lia. Qed.
Lemma sum_of_elem f l x : Forall (λ x, 0 ≤ f x) l → x ∈ l → f x ≤ sum_of f l.
Proof.
  induction 1 as [|y l Hy Hl IH]; [by intros ?%not_elem_of_nil|].
  intros [->|Hx]%elem_of_cons; simpl; [pose proof (sum_of_nonneg f l Hl); lia|].
  specialize (IH Hx). lia.
Qed.
#[export] Instance sum_of_Permutation f : Proper ((≡ₚ) ==> (=)) (sum_of f).
Proof. intros l k H. induction H; simpl; lia. Qed.
End sums.

(** ** Sorted lists *)
Lemma StronglySorted_filtered {A} (R : relation A) (P : A → Prop) `{!∀ x, Decision (P x)} l :
  StronglySorted R l → StronglySorted R (base.filter P l).
Proof.
  induction 1 as [|x l Hl IH Hx]; [constructor|]. rewrite filter_cons. case_decide; [|done].
  constructor; [done|]. rewrite Forall_forall in Hx |- *.
  intros y Hy. apply list_elem_of_filter in Hy as [_ Hy]. by apply Hx.
Qed.

Lemma filter_all {A} (P : A → Prop) `{!∀ x, Decision (P x)} (l : list A) :
  (∀ x, x ∈ l → P x) → base.filter P l = l.
Proof.
  induction l as [|x l IH]; intros Hall; [done|].
  rewrite filter_cons_True by (apply Hall; set_solver).
  f_equal. apply IH. intros y Hy. apply Hall. set_solver.
Qed.

Lemma StronglySorted_fmap_in {A B} (f : A → B) (R : relation A) (S : relation B) l :
  (∀ x y, x ∈ l → y ∈ l → R x y → S (f x) (f y)) → StronglySorted R l → StronglySorted S (f <$> l).
Proof.
  induction l as [|x l IH]; intros HRS Hl; [constructor|].
  apply StronglySorted_inv in Hl as [Hs Hall]. rewrite fmap_cons. constructor.
  - apply IH; [|done]. intros y z Hy Hz. apply HRS; set_solver.
  - rewrite Forall_forall in Hall. rewrite Forall_forall. intros z (y & -> & Hy)%list_elem_of_fmap.
    apply HRS; [set_solver | set_solver | by apply Hall].
Qed.

Lemma StronglySorted_cons_app {A} (R : relation A) l x k :
  StronglySorted R (l ++ x :: k) → ∀ y, y ∈ k → R x y.
Proof.
  induction l as [|z l IH]; simpl; inversion 1 as [|? ? Hs Hall]; subst; [|by apply IH].
  rewrite Forall_forall in Hall. exact Hall.
Qed.

(** ** Lists without repeated keys *)
Lemma NoDup_fmap_inj_on {A B} (f : A → B) (l : list A) a b :
  NoDup (f <$> l) → a ∈ l → b ∈ l → f a = f b → a = b.
Proof.
  induction l as [|x l IH]; intros Hnd Ha Hb Hf; [by apply elem_of_nil in Ha|].
  rewrite fmap_cons in Hnd. apply NoDup_cons in Hnd as [Hout Hnd].
  apply elem_of_cons in Ha as [->|Ha], Hb as [->|Hb]; [done| | |by apply IH].
  - destruct Hout. apply list_elem_of_fmap. eauto.
  - destruct Hout. apply list_elem_of_fmap. eauto.
Qed.
