(* ===== verification/Checked.v ===== *)
(** * internal/checked: overflow-safe fixed-width arithmetic

    Models [internal/checked/checked.go] in full: the six 64-bit operations and
    the two conversions, with every intermediate Go expression wrapped at its
    width.  The theorems say that each helper returns the exact mathematical
    result when it is representable and the right sentinel otherwise, the
    multiplication included, whose overflow test divides a wrapped product. *)
From S2P Require Import Prelude.

Definition AddUint64 (a b : Z) : res Z :=
  if a >? u64 (MaxUint64 - b) then Err ErrOverflow else Ok (u64 (a + b)).

Definition SubUint64 (a b : Z) : res Z :=
  if a <? b then Err ErrUnderflow else Ok (u64 (a - b)).

Definition MulUint64 (a b : Z) : res Z :=
  if (a =? 0) || (b =? 0) then Ok 0
  else if a >? MaxUint64 `quot` b then Err ErrOverflow
  else Ok (u64 (a * b)).

Definition AddInt64 (a b : Z) : res Z :=
  if (b >? 0) && (a >? i64 (MaxInt64 - b)) then Err ErrOverflow
  else if (b <? 0) && (a <? i64 (MinInt64 - b)) then Err ErrUnderflow
  else Ok (i64 (a + b)).

Definition SubInt64 (a b : Z) : res Z :=
  if (b <? 0) && (a >? i64 (MaxInt64 + b)) then Err ErrOverflow
  else if (b >? 0) && (a <? i64 (MinInt64 + b)) then Err ErrUnderflow
  else Ok (i64 (a - b)).

Definition MulInt64 (a b : Z) : res Z :=
  if (a =? 0) || (b =? 0) then Ok 0
  else if ((a =? MinInt64) && (b =? -1)) || ((b =? MinInt64) && (a =? -1))
  then Err ErrOverflow
  else
    let product := i64 (a * b) in
    if negb (i64 (product `quot` b) =? a) then
      if Bool.eqb (a >? 0) (b >? 0) then Err ErrOverflow else Err ErrUnderflow
    else Ok product.

Definition Uint64FromInt64 (v : Z) : res Z :=
  if v <? 0 then Err ErrRange else Ok (u64 v).

Definition Int64FromUint64 (v : Z) : res Z :=
  if v >? MaxInt64 then Err ErrRange else Ok (i64 v).

(** ** Exactness *)

(** What a checked operation on 64-bit operands promises: [z] itself when it
    lies between [lo] and [hi], the overflow sentinel above, the underflow
    sentinel below. *)
Definition exact_in (lo hi z : Z) : res Z :=
  if z >? hi then Err ErrOverflow else if z <? lo then Err ErrUnderflow else Ok z.

Lemma exact_in_Ok lo hi z r : exact_in lo hi z = Ok r ↔ r = z ∧ lo ≤ z ≤ hi.
Proof.
  unfold exact_in. rewrite Z.gtb_ltb.
  destruct (Z.ltb_spec hi z), (Z.ltb_spec z lo); split; try naive_solver lia.
  all: intros [-> ?]; lia.
Qed.

Lemma AddUint64_exact a b :
  is_u64 a → is_u64 b → AddUint64 a b = exact_in 0 MaxUint64 (a + b).
Proof.
  intros Ha Hb. unfold AddUint64, exact_in.
  rewrite (u64_small (MaxUint64 - b)) by (widths; lia). rewrite !Z.gtb_ltb.
  destruct (Z.ltb_spec (MaxUint64 - b) a), (Z.ltb_spec MaxUint64 (a + b)),
    (Z.ltb_spec (a + b) 0); widths; try lia; try done.
  rewrite u64_small; [done | widths; lia].
Qed.

Lemma SubUint64_exact a b :
  is_u64 a → is_u64 b → SubUint64 a b = exact_in 0 MaxUint64 (a - b).
Proof.
  intros Ha Hb. unfold SubUint64, exact_in. rewrite Z.gtb_ltb.
  destruct (Z.ltb_spec a b), (Z.ltb_spec MaxUint64 (a - b)),
    (Z.ltb_spec (a - b) 0); widths; try lia; try done.
  rewrite u64_small; [done | widths; lia].
Qed.

Lemma MulUint64_exact a b :
  is_u64 a → is_u64 b → MulUint64 a b = exact_in 0 MaxUint64 (a * b).
Proof.
  intros Ha Hb. unfold MulUint64, exact_in. rewrite !Z.gtb_ltb.
  destruct (Z.eqb_spec a 0) as [->|Ha0]; [reflexivity|].
  destruct (Z.eqb_spec b 0) as [->|Hb0]; [by rewrite Z.mul_0_r|].
  rewrite Z.quot_div_nonneg by (widths; lia). simpl.
  assert (a ≤ MaxUint64 / b ↔ a * b ≤ MaxUint64) as Hiff.
  { split; intros H; [|apply Z.div_le_lower_bound; widths; lia].
    pose proof (Z.mul_div_le MaxUint64 b ltac:(widths; lia)). widths. nia. }
  destruct (Z.ltb_spec (MaxUint64 / b) a), (Z.ltb_spec MaxUint64 (a * b)),
    (Z.ltb_spec (a * b) 0); try done; try (widths; nia).
  rewrite u64_small; [done | widths; nia].
Qed.

Lemma AddInt64_exact a b :
  is_i64 a → is_i64 b → AddInt64 a b = exact_in MinInt64 MaxInt64 (a + b).
Proof.
  intros Ha Hb. unfold AddInt64, exact_in. rewrite !Z.gtb_ltb.
  destruct (Z.ltb_spec 0 b) as [Hp|Hp]; simpl.
  - rewrite (i64_small (MaxInt64 - b)) by (widths; lia).
    destruct (Z.ltb_spec (MaxInt64 - b) a), (Z.ltb_spec b 0),
      (Z.ltb_spec MaxInt64 (a + b)), (Z.ltb_spec (a + b) MinInt64);
      widths; try lia; try done.
    simpl. rewrite i64_small; [done | widths; lia].
  - destruct (Z.ltb_spec b 0); simpl.
    + rewrite (i64_small (MinInt64 - b)) by (widths; lia).
      destruct (Z.ltb_spec a (MinInt64 - b)),
        (Z.ltb_spec MaxInt64 (a + b)), (Z.ltb_spec (a + b) MinInt64);
        widths; try lia; try done.
      rewrite i64_small; [done | widths; lia].
    + destruct (Z.ltb_spec MaxInt64 (a + b)), (Z.ltb_spec (a + b) MinInt64);
        widths; try lia.
      rewrite i64_small; [done | widths; lia].
Qed.

Lemma SubInt64_exact a b :
  is_i64 a → is_i64 b → SubInt64 a b = exact_in MinInt64 MaxInt64 (a - b).
Proof.
  intros Ha Hb. unfold SubInt64, exact_in. rewrite !Z.gtb_ltb.
  destruct (Z.ltb_spec b 0) as [Hp|Hp]; simpl.
  - rewrite (i64_small (MaxInt64 + b)) by (widths; lia).
    destruct (Z.ltb_spec (MaxInt64 + b) a), (Z.ltb_spec 0 b),
      (Z.ltb_spec MaxInt64 (a - b)), (Z.ltb_spec (a - b) MinInt64);
      widths; try lia; try done.
    simpl. rewrite i64_small; [done | widths; lia].
  - destruct (Z.ltb_spec 0 b); simpl.
    + rewrite (i64_small (MinInt64 + b)) by (widths; lia).
      destruct (Z.ltb_spec a (MinInt64 + b)),
        (Z.ltb_spec MaxInt64 (a - b)), (Z.ltb_spec (a - b) MinInt64);
        widths; try lia; try done.
      rewrite i64_small; [done | widths; lia].
    + destruct (Z.ltb_spec MaxInt64 (a - b)), (Z.ltb_spec (a - b) MinInt64);
        widths; try lia.
      rewrite i64_small; [done | widths; lia].
Qed.

(** A wrapped 64-bit product passes the division test only when it did not wrap. *)
Lemma wrapped_product_test a b :
  is_i64 a → is_i64 b → b ≠ 0 → ¬ (a = MinInt64 ∧ b = -1) → ¬ (b = MinInt64 ∧ a = -1) →
  i64 (i64 (a * b) `quot` b) = a ↔ is_i64 (a * b).
Proof.
  intros Ha Hb Hb0 Hmin Hmin'. set (p := i64 (a * b)).
  pose proof (i64_range (a * b)) as Hp. fold p in Hp.
  destruct (i64_quotient (a * b)) as [k Hk]. fold p in Hk.
  pose proof (Z.quot_rem p b Hb0) as Hqr.
  pose proof (Z.rem_bound_abs p b Hb0) as Hrem.
  split.
  - intros Hq. destruct (decide (b = -1)) as [->|Hb1].
    { widths. lia. }
    assert (p `quot` b = a) as Hqa.
    { rewrite <- Hq. symmetry. apply i64_small.
      destruct (decide (b = 1)) as [->|]; [rewrite Z.quot_1_r; done|].
      assert (2 * Z.abs (p `quot` b) ≤ Z.abs p); [|widths; lia].
      rewrite <- Z.quot_abs by done. rewrite Z.quot_div_nonneg by lia.
      pose proof (Z.mul_div_le (Z.abs p) (Z.abs b) ltac:(lia)).
      pose proof (Z.div_pos (Z.abs p) (Z.abs b) ltac:(lia) ltac:(lia)).
      assert (2 ≤ Z.abs b) by lia. nia. }
    rewrite Hqa in Hqr. assert (k = 0) as -> by (widths; nia).
    rewrite Z.mul_0_l, Z.sub_0_r in Hk. by rewrite <- Hk.
  - intros Hr. unfold p. rewrite (i64_small (a * b)) by done.
    rewrite Z.quot_mul by done. by apply i64_small.
Qed.

Lemma MulInt64_exact a b :
  is_i64 a → is_i64 b → MulInt64 a b = exact_in MinInt64 MaxInt64 (a * b).
Proof.
  intros Ha Hb. unfold MulInt64.
  destruct (Z.eqb_spec a 0) as [->|Ha0]; [reflexivity|].
  destruct (Z.eqb_spec b 0) as [->|Hb0]; [by rewrite Z.mul_0_r|].
  simpl. destruct (_ || _) eqn:Hm.
  - apply orb_true_iff in Hm as [H|H]; apply andb_true_iff in H as [H1 H2];
      zify_bool; subst; reflexivity.
  - apply orb_false_iff in Hm as [H1 H2].
    assert (i64 (i64 (a * b) `quot` b) = a ↔ is_i64 (a * b)) as Htest.
    { apply wrapped_product_test; try done; intros [-> ->]; done. }
    unfold exact_in. rewrite !Z.gtb_ltb.
    destruct (Z.eqb_spec (i64 (i64 (a * b) `quot` b)) a) as [He|He]; simpl.
    + apply Htest in He as Hr.
      destruct (Z.ltb_spec MaxInt64 (a * b)), (Z.ltb_spec (a * b) MinInt64);
        try (widths; lia). by rewrite i64_small.
    + assert (¬ is_i64 (a * b)) as Hr by tauto.
      destruct (Z.ltb_spec 0 a), (Z.ltb_spec 0 b); simpl;
      destruct (Z.ltb_spec MaxInt64 (a * b)), (Z.ltb_spec (a * b) MinInt64);
        try done; exfalso; widths; nia.
Qed.

(** ** Interface for the callers *)

Lemma AddUint64_Ok a b r :
  is_u64 a → is_u64 b → AddUint64 a b = Ok r ↔ r = a + b ∧ a + b ≤ MaxUint64.
Proof.
  intros Ha Hb. rewrite AddUint64_exact, exact_in_Ok by done. widths.
  split; intros [-> ?]; split; lia.
Qed.
Lemma SubUint64_Ok a b r :
  is_u64 a → is_u64 b → SubUint64 a b = Ok r ↔ r = a - b ∧ b ≤ a.
Proof.
  intros Ha Hb. rewrite SubUint64_exact, exact_in_Ok by done. widths.
  split; intros [-> ?]; split; lia.
Qed.
Lemma MulUint64_Ok a b r :
  is_u64 a → is_u64 b → MulUint64 a b = Ok r ↔ r = a * b ∧ a * b ≤ MaxUint64.
Proof.
  intros Ha Hb. rewrite MulUint64_exact, exact_in_Ok by done. widths.
  split; intros [-> ?]; split; nia.
Qed.
Lemma AddInt64_Ok a b r :
  is_i64 a → is_i64 b → AddInt64 a b = Ok r ↔ r = a + b ∧ is_i64 (a + b).
Proof. intros Ha Hb. by rewrite AddInt64_exact, exact_in_Ok by done. Qed.
Lemma Uint64FromInt64_Ok v r :
  is_i64 v → Uint64FromInt64 v = Ok r ↔ r = v ∧ 0 ≤ v.
Proof.
  intros Hv. unfold Uint64FromInt64. destruct (Z.ltb_spec v 0).
  { split; [done | lia]. }
  rewrite u64_small by (widths; lia). split; [intros [= ->]; lia | by intros [-> _]].
Qed.
Lemma Int64FromUint64_Ok v r :
  is_u64 v → Int64FromUint64 v = Ok r ↔ r = v ∧ v ≤ MaxInt64.
Proof.
  intros Hv. unfold Int64FromUint64. rewrite Z.gtb_ltb. destruct (Z.ltb_spec MaxInt64 v).
  { split; [done | lia]. }
  rewrite i64_small by (widths; lia). split; [intros [= ->]; lia | by intros [-> _]].
Qed.

(** ** Properties *)

(** On uint64 operands, AddUint64, SubUint64 and MulUint64 return the exact
    mathematical result when it fits in 64 bits, ErrOverflow when it is above
    the maximum and ErrUnderflow when it is negative; no result ever wraps. *)
Theorem checked_uint64_exact (a b : Z) :
  is_u64 a → is_u64 b →
  AddUint64 a b = exact_in 0 MaxUint64 (a + b) ∧
  SubUint64 a b = exact_in 0 MaxUint64 (a - b) ∧
  MulUint64 a b = exact_in 0 MaxUint64 (a * b).
Proof. auto using AddUint64_exact, SubUint64_exact, MulUint64_exact. Qed.

Lemma checked_uint64_exact_witness :
  MulUint64 (2 ^ 32) (2 ^ 32) = Err ErrOverflow ∧
  AddUint64 MaxUint64 0 = Ok MaxUint64 ∧ SubUint64 0 1 = Err ErrUnderflow.
Proof.
  split; [|split].
  - apply (checked_uint64_exact (2 ^ 32) (2 ^ 32)); vm_compute; split; discriminate.
  - apply (checked_uint64_exact MaxUint64 0); vm_compute; split; discriminate.
  - apply (checked_uint64_exact 0 1); vm_compute; split; discriminate.
Defined.

(** On int64 operands, AddInt64, SubInt64 and MulInt64 are exact in the same
    sense (the division test of MulInt64 detects every wrapped product, and
    MinInt64 times minus one is an overflow), and the two height conversions are
    mutually inverse where they are defined. *)
Theorem checked_int64_exact (a b : Z) :
  is_i64 a → is_i64 b →
  AddInt64 a b = exact_in MinInt64 MaxInt64 (a + b) ∧
  SubInt64 a b = exact_in MinInt64 MaxInt64 (a - b) ∧
  MulInt64 a b = exact_in MinInt64 MaxInt64 (a * b) ∧
  (Uint64FromInt64 a = if decide (0 ≤ a) then Ok a else Err ErrRange) ∧
  (∀ u, Uint64FromInt64 a = Ok u → Int64FromUint64 u = Ok a).
Proof.
  intros Ha Hb. split_and!; auto using AddInt64_exact, SubInt64_exact, MulInt64_exact.
  - unfold Uint64FromInt64. case_decide; destruct (Z.ltb_spec a 0); try lia; [|done].
    rewrite u64_small; [done | widths; lia].
  - intros u Hu. apply Uint64FromInt64_Ok in Hu as [-> ?]; [|done].
    apply Int64FromUint64_Ok; widths; lia.
Qed.

Lemma checked_int64_exact_witness :
  MulInt64 MinInt64 (-1) = Err ErrOverflow ∧ MulInt64 (2 ^ 62) (-4) = Err ErrUnderflow.
Proof.
  split.
  - apply (checked_int64_exact MinInt64 (-1)); vm_compute; split; discriminate.
  - apply (checked_int64_exact (2 ^ 62) (-4)); vm_compute; split; discriminate.
Defined.
