(* ===== verification/SdkMath.v ===== *)
(** * cosmossdk.io/math and the amount parsers

    [cosmossdk.io/math.Int] is not part of this repository: its operations are
    the fields of the class [SdkInt], with the documented behaviour the code
    relies on as laws (a range of 256 bits plus sign; the checked operations
    report an overflow, the plain ones panic).  [sdkint_256] is a concrete
    instance.  The parsers [ParseAmountString] and [ParseCanonicalAmount] of
    [x/rewards/types] are modelled on top of it; the canonical one is proved to
    be the exact inverse of decimal printing. *)
From S2P Require Import Prelude.
From Stdlib Require Import Ascii String DecimalString DecimalN Decimal.
Local Open Scope Z_scope.

(** [math.Int] holds a big integer of at most 256 bits, plus its sign. *)
Definition int_ok (z : Z) : bool := Z.abs z <? 2 ^ 256.

(** Decimal notation of a natural number, without leading zeros. *)
Definition dec (n : N) : string := NilZero.string_of_uint (N.to_uint n).

(** A partial operation: [None] is a panic of the plain operations and an error
    of the [Safe] ones. *)
Definition in_range (z : Z) : option Z := if int_ok z then Some z else None.

Class SdkInt := {
  NewIntFromString : string → option Z;
  Int_String : Z → string;
  Int_SafeAdd : Z → Z → option Z;
  Int_SafeSub : Z → Z → option Z;
  Int_Add : Z → Z → option Z;
  Int_Sub : Z → Z → option Z;
  Int_Mul : Z → Z → option Z;
  Int_Quo : Z → Z → option Z;
  NewIntFromString_dec n : NewIntFromString (dec n) = in_range (Z.of_N n);
  NewIntFromString_range s z : NewIntFromString s = Some z → int_ok z = true;
  NewIntFromString_empty : NewIntFromString EmptyString = None;
  Int_String_nonneg z : 0 ≤ z → Int_String z = dec (Z.to_N z);
  Int_SafeAdd_spec a b : Int_SafeAdd a b = in_range (a + b);
  Int_SafeSub_spec a b : Int_SafeSub a b = in_range (a - b);
  Int_Add_spec a b : Int_Add a b = in_range (a + b);
  Int_Sub_spec a b : Int_Sub a b = in_range (a - b);
  Int_Mul_spec a b : Int_Mul a b = in_range (a * b);
  Int_Quo_spec a b : b ≠ 0 → Int_Quo a b = in_range (a `quot` b)
}.

(** A decimal with 18 places, read from text; its sign is all the code asks. *)
Class DecCodec := { LegacyNewDecFromStr : string → option Z }.

(** The outcome of a plain operation, and of a [Safe] one whose error the caller
    reports as [e]. *)
Definition or_panic (o : option Z) : res Z :=
  match o with Some z => Ok z | None => Err Panic end.
Definition or_err (e : error) (o : option Z) : res Z :=
  match o with Some z => Ok z | None => Err e end.

(** A nil [math.Int] (the zero value of the type) is [None]; a method other than
    [IsNil] dereferences the nil pointer. *)
Definition deref (o : option Z) : res Z :=
  match o with Some z => Ok z | None => Err Panic end.

Section ops.
Context {SI : SdkInt}.

Definition iadd (a b : Z) : res Z := or_panic (Int_Add a b).
Definition isub (a b : Z) : res Z := or_panic (Int_Sub a b).
Definition imul (a b : Z) : res Z := or_panic (Int_Mul a b).
Definition iquo (a b : Z) : res Z := or_panic (Int_Quo a b).

Lemma in_range_Some z r : in_range z = Some r ↔ r = z ∧ int_ok z = true.
Proof. unfold in_range. destruct (int_ok z); naive_solver. Qed.

Lemma or_panic_in_range z r :
  or_panic (in_range z) = Ok r ↔ r = z ∧ int_ok z = true.
Proof. unfold in_range. destruct (int_ok z); naive_solver. Qed.

Lemma or_err_in_range e z r :
  or_err e (in_range z) = Ok r ↔ r = z ∧ int_ok z = true.
Proof. unfold in_range. destruct (int_ok z); naive_solver. Qed.

Lemma iadd_Ok a b r : iadd a b = Ok r ↔ r = a + b ∧ int_ok (a + b) = true.
Proof. unfold iadd. rewrite Int_Add_spec. apply or_panic_in_range. Qed.
Lemma isub_Ok a b r : isub a b = Ok r ↔ r = a - b ∧ int_ok (a - b) = true.
Proof. unfold isub. rewrite Int_Sub_spec. apply or_panic_in_range. Qed.
Lemma imul_Ok a b r : imul a b = Ok r ↔ r = a * b ∧ int_ok (a * b) = true.
Proof. unfold imul. rewrite Int_Mul_spec. apply or_panic_in_range. Qed.
Lemma iquo_Ok a b r :
  b ≠ 0 → iquo a b = Ok r ↔ r = a `quot` b ∧ int_ok (a `quot` b) = true.
Proof. intros Hb. unfold iquo. rewrite Int_Quo_spec by done. apply or_panic_in_range. Qed.

Lemma SafeAdd_Ok e a b r :
  or_err e (Int_SafeAdd a b) = Ok r ↔ r = a + b ∧ int_ok (a + b) = true.
Proof. rewrite Int_SafeAdd_spec. apply or_err_in_range. Qed.
Lemma SafeSub_Ok e a b r :
  or_err e (Int_SafeSub a b) = Ok r ↔ r = a - b ∧ int_ok (a - b) = true.
Proof. rewrite Int_SafeSub_spec. apply or_err_in_range. Qed.
End ops.

Lemma int_ok_true z : int_ok z = true ↔ - 2 ^ 256 < z < 2 ^ 256.
Proof. unfold int_ok. rewrite Z.ltb_lt. lia. Qed.

Lemma int_ok_le a b : int_ok b = true → 0 ≤ a ≤ b → int_ok a = true.
Proof. rewrite !int_ok_true. lia. Qed.

(** Side conditions of the amount arithmetic. *)
Ltac int_solve :=
  repeat match goal with
  | H : int_ok _ = true |- _ => apply int_ok_true in H
  | |- int_ok _ = true => apply int_ok_true
  end; lia.

(** ** Strings *)

Definition is_digit (c : ascii) : bool :=
  ((48 <=? Z.of_nat (nat_of_ascii c)) && (Z.of_nat (nat_of_ascii c) <=? 57))%Z.

(** White space in the ASCII range: tab, line feed, vertical tab, form feed,
    carriage return, space.  The wider Unicode spaces [strings.TrimSpace] also
    trims are not represented: a string holding one fails the digit scan or the
    integer decoder instead, with the same sentinel. *)
Definition is_space (c : ascii) : bool :=
  let n := Z.of_nat (nat_of_ascii c) in ((n =? 32) || ((9 <=? n) && (n <=? 13)))%Z.

Fixpoint string_forall (p : ascii → bool) (s : string) : bool :=
  match s with
  | EmptyString => true
  | String c s' => p c && string_forall p s'
  end.

Fixpoint trim_left (s : string) : string :=
  match s with
  | EmptyString => EmptyString
  | String c s' => if is_space c then trim_left s' else s
  end.
Fixpoint trim_right (s : string) : string :=
  match s with
  | EmptyString => EmptyString
  | String c s' =>
      match trim_right s' with
      | EmptyString => if is_space c then EmptyString else String c EmptyString
      | t => String c t
      end
  end.
Definition TrimSpace (s : string) : string := trim_right (trim_left s).

(** [strings.ContainsAny(s, " \t\r\n")] *)
Definition contains_blank (s : string) : bool :=
  negb (string_forall (λ c,
    let n := Z.of_nat (nat_of_ascii c) in
    negb ((n =? 32) || (n =? 9) || (n =? 13) || (n =? 10))%Z) s).

Section parsers.
Context {SI : SdkInt}.

Definition ParseAmountString (value : string) : res Z :=
  fail_if (bool_decide (TrimSpace value = EmptyString)) RwInvalidParams ;;
  match NewIntFromString value with
  | None => Err RwInvalidParams
  | Some amount =>
      fail_if (amount <? 0) RwInvalidParams ;;
      mret amount
  end.

Definition leading_zero (value : string) : bool :=
  match value with
  | String c (String _ _) => bool_decide (c = "0"%char)
  | _ => false
  end.

Definition ParseCanonicalAmount (value : string) : res Z :=
  fail_if (bool_decide (value = EmptyString)) RwInvalidState ;;
  fail_if (negb (bool_decide (TrimSpace value = value)) || contains_blank value)
    RwInvalidState ;;
  fail_if (negb (string_forall is_digit value)) RwInvalidState ;;
  fail_if (leading_zero value) RwInvalidState ;;
  match NewIntFromString value with
  | None => Err RwInvalidState
  | Some amount =>
      fail_if (amount <? 0) RwInvalidState ;;
      mret amount
  end.

Definition ParseCanonicalPayoutAmount (value : string) : res Z := ParseCanonicalAmount value.
End parsers.

(** ** Decimal strings *)

Lemma NilEmpty_digits d : string_forall is_digit (NilEmpty.string_of_uint d) = true.
Proof. induction d; simpl; auto. Qed.

Lemma to_uint_nonnil n : N.to_uint n ≠ Decimal.Nil.
Proof.
  destruct (DecimalN.Unsigned.to_uint_surj (N.to_uint n)) as [p Hp].
  pose proof (DecimalN.Unsigned.to_of (N.to_uint n)) as H.
  rewrite DecimalN.Unsigned.of_to in H. rewrite H. unfold unorm.
  destruct (nzhead _); discriminate.
Qed.

Lemma dec_NilEmpty n : dec n = NilEmpty.string_of_uint (N.to_uint n).
Proof.
  unfold dec, NilZero.string_of_uint. pose proof (to_uint_nonnil n).
  destruct (N.to_uint n); done.
Qed.

Lemma dec_digits n : string_forall is_digit (dec n) = true.
Proof. rewrite dec_NilEmpty. apply NilEmpty_digits. Qed.

Lemma dec_nonempty n : dec n ≠ EmptyString.
Proof.
  rewrite dec_NilEmpty. pose proof (to_uint_nonnil n). destruct (N.to_uint n); done.
Qed.

Lemma dec_inj n m : dec n = dec m → n = m.
Proof.
  rewrite !dec_NilEmpty. intros H. apply DecimalN.Unsigned.to_uint_inj.
  apply (f_equal NilEmpty.uint_of_string) in H. rewrite !NilEmpty.usu in H. by injection H.
Qed.

Lemma nzhead_not_D0 d d' : nzhead d = Decimal.D0 d' → False.
Proof. induction d; simpl; try discriminate. auto. Qed.

Lemma dec_no_leading_zero n : leading_zero (dec n) = false.
Proof.
  rewrite dec_NilEmpty. pose proof (DecimalN.Unsigned.to_of (N.to_uint n)) as H.
  rewrite DecimalN.Unsigned.of_to in H. rewrite H. unfold unorm.
  destruct (nzhead (N.to_uint n)) as [|d| | | | | | | | |] eqn:E; try reflexivity.
  1: destruct (nzhead_not_D0 _ _ E).
  all: simpl; destruct (NilEmpty.string_of_uint _); reflexivity.
Qed.

Lemma digit_char c d :
  is_digit c = true → ∃ d', NilEmpty.uint_of_string (String c (NilEmpty.string_of_uint d)) = Some d'
    ∧ NilEmpty.string_of_uint d' = String c (NilEmpty.string_of_uint d).
Proof.
  destruct c as [[] [] [] [] [] [] [] []]; intros H; try discriminate H;
  simpl; rewrite NilEmpty.usu; simpl; eexists; split; reflexivity.
Qed.

Lemma digits_uint s :
  string_forall is_digit s = true → ∃ d, NilEmpty.string_of_uint d = s.
Proof.
  induction s as [|c s IH]; simpl; intros H.
  - by exists Decimal.Nil.
  - apply andb_true_iff in H as [Hc Hs]. destruct (IH Hs) as [d <-].
    destruct (digit_char c d Hc) as (d' & _ & ?). eauto.
Qed.

(** A nonempty digit string without a leading zero is the decimal notation of a
    number. *)
Lemma canonical_is_dec s :
  s ≠ EmptyString → string_forall is_digit s = true → leading_zero s = false →
  ∃ n, s = dec n.
Proof.
  intros Hne Hd Hz. destruct (digits_uint s Hd) as [d <-].
  exists (N.of_uint d). rewrite dec_NilEmpty, DecimalN.Unsigned.to_of.
  destruct d; try reflexivity; [done|].
  simpl in Hz. destruct d; [reflexivity|..]; simpl in Hz;
    try (destruct (NilEmpty.string_of_uint d)); discriminate Hz.
Qed.

Lemma is_digit_not_space c : is_digit c = true → is_space c = false.
Proof.
  unfold is_digit, is_space. intros H. apply andb_true_iff in H as [H1 H2]. zify_bool.
  destruct (Z.eqb_spec (Z.of_nat (nat_of_ascii c)) 32); [lia|].
  destruct (Z.leb_spec 9 (Z.of_nat (nat_of_ascii c)));
    destruct (Z.leb_spec (Z.of_nat (nat_of_ascii c)) 13); done || lia.
Qed.

Lemma trim_right_digits s : string_forall is_digit s = true → trim_right s = s.
Proof.
  induction s as [|c s IH]; simpl; [done|]. intros H. apply andb_true_iff in H as [Hc Hs].
  rewrite IH by done. destruct s; [|done]. by rewrite is_digit_not_space.
Qed.

Lemma digits_no_space s :
  string_forall is_digit s = true → TrimSpace s = s ∧ contains_blank s = false.
Proof.
  intros H. split.
  - unfold TrimSpace. replace (trim_left s) with s; [by apply trim_right_digits|].
    destruct s as [|c s]; [done|]. simpl in *. apply andb_true_iff in H as [Hc _].
    by rewrite is_digit_not_space.
  - unfold contains_blank. apply negb_false_iff. induction s as [|c s IH]; [done|].
    simpl in *. apply andb_true_iff in H as [Hc Hs]. rewrite (IH Hs), andb_true_r.
    unfold is_digit in Hc. apply andb_true_iff in Hc as [H1 H2]. zify_bool.
    destruct (Z.eqb_spec (Z.of_nat (nat_of_ascii c)) 32),
      (Z.eqb_spec (Z.of_nat (nat_of_ascii c)) 9),
      (Z.eqb_spec (Z.of_nat (nat_of_ascii c)) 13),
      (Z.eqb_spec (Z.of_nat (nat_of_ascii c)) 10); done || lia.
Qed.

#[export] Hint Resolve dec_digits dec_nonempty dec_no_leading_zero : amounts.

Section parser_lemmas.
Context {SI : SdkInt}.

Lemma Int_String_parse z :
  0 ≤ z → int_ok z = true → NewIntFromString (Int_String z) = Some z.
Proof.
  intros Hz Hok. rewrite Int_String_nonneg by done. rewrite NewIntFromString_dec.
  rewrite Z2N.id by done. apply in_range_Some. done.
Qed.

(** Reading back an amount the chain wrote. *)
Lemma ParseAmountString_String z :
  0 ≤ z → int_ok z = true → ParseAmountString (Int_String z) = Ok z.
Proof.
  intros Hz Hok. unfold ParseAmountString. rewrite Int_String_parse by done.
  rewrite Int_String_nonneg by done.
  destruct (digits_no_space (dec (Z.to_N z)) (dec_digits _)) as [-> _].
  rewrite bool_decide_eq_false_2 by apply dec_nonempty. simpl.
  destruct (Z.ltb_spec z 0); [lia | done].
Qed.

Lemma ParseAmountString_zero : ParseAmountString "0" = Ok 0.
Proof.
  rewrite <- (ParseAmountString_String 0) by done. by rewrite Int_String_nonneg.
Qed.

Lemma ParseAmountString_Ok s z :
  ParseAmountString s = Ok z → 0 ≤ z ∧ int_ok z = true.
Proof.
  unfold ParseAmountString. intros H. minv.
  destruct (NewIntFromString s) as [a|] eqn:E; [|discriminate].
  minv. zify_bool. eauto using NewIntFromString_range.
Qed.

Lemma ParseCanonicalAmount_iff s z :
  ParseCanonicalAmount s = Ok z ↔ s = dec (Z.to_N z) ∧ 0 ≤ z ∧ int_ok z = true.
Proof.
  unfold ParseCanonicalAmount. split.
  - intros H. minv. apply bool_decide_eq_false in H.
    destruct (canonical_is_dec s) as [n ->]; auto.
    rewrite NewIntFromString_dec in *. destruct (in_range (Z.of_N n)) as [a|] eqn:E;
      [|discriminate]. minv. apply in_range_Some in E as [-> ?]. zify_bool.
    by rewrite N2Z.id.
  - intros (-> & Hz & Hok).
    rewrite (bool_decide_eq_false_2 (dec _ = EmptyString)) by apply dec_nonempty. simpl.
    destruct (digits_no_space (dec (Z.to_N z)) (dec_digits _)) as [-> ->].
    rewrite bool_decide_eq_true_2, dec_digits, dec_no_leading_zero by done. simpl.
    rewrite NewIntFromString_dec, Z2N.id by done. unfold in_range. rewrite Hok. simpl.
    destruct (Z.ltb_spec z 0); [lia | done].
Qed.

(** A canonical amount reads the same through the lenient parser. *)
Lemma ParseCanonicalAmount_Amount s z :
  ParseCanonicalAmount s = Ok z → ParseAmountString s = Ok z.
Proof.
  intros (-> & Hz & Hok)%ParseCanonicalAmount_iff. rewrite <- Int_String_nonneg by done.
  by apply ParseAmountString_String.
Qed.
End parser_lemmas.

(** ** A concrete instance *)

#[program] Definition sdkint_256 : SdkInt := {|
  NewIntFromString s :=
    match NilZero.int_of_string s with
    | Some d => in_range (Z.of_int d)
    | None => None
    end;
  Int_String z := NilZero.string_of_int (Z.to_int z);
  Int_SafeAdd a b := in_range (a + b);
  Int_SafeSub a b := in_range (a - b);
  Int_Add a b := in_range (a + b);
  Int_Sub a b := in_range (a - b);
  Int_Mul a b := in_range (a * b);
  Int_Quo a b := if b =? 0 then None else in_range (a `quot` b)
|}.
Next Obligation.
  intros n. simpl.
  replace (dec n) with (NilZero.string_of_int (Decimal.Pos (N.to_uint n))) by done.
  rewrite NilZero.isi; [|injection; apply to_uint_nonnil | discriminate].
  simpl. unfold Z.of_uint. by rewrite DecimalN.Unsigned.of_to.
Qed.
Next Obligation.
  intros s z. simpl. destruct (NilZero.int_of_string s); [|discriminate].
  intros H. by apply in_range_Some in H as [-> ?].
Qed.
Next Obligation. reflexivity. Qed.
Next Obligation.
  intros z Hz. destruct z as [|p|p]; [reflexivity | | lia]. reflexivity.
Qed.
Next Obligation. reflexivity. Qed.
Next Obligation. reflexivity. Qed.
Next Obligation. reflexivity. Qed.
Next Obligation. reflexivity. Qed.
Next Obligation. reflexivity. Qed.
Next Obligation. intros a b Hb. simpl. by destruct (Z.eqb_spec b 0). Qed.

(** ** Properties *)

(** [ParseCanonicalAmount] accepts exactly the decimal notations of the
    integers in [0, 2^256): every such amount has one accepted spelling, the one
    [Int.String] prints, and no other string parses to it. *)
Theorem canonical_amount_roundtrip {SI : SdkInt} (s : string) (z : Z) :
  ParseCanonicalAmount s = Ok z ↔ (s = Int_String z ∧ 0 ≤ z < 2 ^ 256).
Proof.
  rewrite ParseCanonicalAmount_iff. split; intros (-> & H).
  - destruct H as [Hz Hok]. rewrite Int_String_nonneg by done.
    apply int_ok_true in Hok. split; [done | lia].
  - rewrite Int_String_nonneg by lia. split_and!; [done | lia | int_solve].
Qed.

Lemma canonical_amount_roundtrip_witness :
  @ParseCanonicalAmount sdkint_256 "10"%string = Ok 10.
Proof.
  apply (@canonical_amount_roundtrip sdkint_256 "10"%string 10).
  split; [reflexivity | split; [discriminate | reflexivity]].
Defined.
