(* ===== verification/Bounds.v ===== *)
(** * app/params/bounds.go: hard protocol bounds

    The ratified constants and the validation relations over them, plus the
    native denomination of [app/params/params.go].  Every error of this package
    is an unwrapped [fmt.Errorf], modelled as [ErrPlain]. *)
From S2P Require Import Prelude Checked SdkMath.
From Stdlib Require Import String.
Local Open Scope Z_scope.

Definition NativeBaseDenom : string := "utwlt"%string.
Definition BasisPointsDenominator : Z := 10000.
Definition AbsoluteMaxSelectionRateBps : Z := 5000.
Definition HardMaxActiveCoreSlots : Z := 100.
Definition HardMinSelectionPolicyUpdateCooldownBlocks : Z := 360.
Definition HardMinEpochLengthBlocks : Z := 360.
Definition HardMaxEpochLengthBlocks : Z := 720.
Definition HardMaxEmissionTreasuryShareBps : Z := 5000.
Definition HardMinSettlementWindowEpochs : Z := 1.
Definition HardMinRecipientsPerChunk : Z := 1.
Definition HardMaxRecipientsPerChunk : Z := 32.
Definition HardMinChunksPerSettlement : Z := 1.
Definition HardMaxChunksPerSettlement : Z := 4.
Definition HardMinSettlementPayoutAmount : Z := 10000.

Definition requirePositiveAtLeast (value hardMin : Z) : res unit :=
  fail_if (hardMin =? 0) ErrPlain ;;
  fail_if (value <? hardMin) ErrPlain.

Definition requirePositiveAtMost (value hardMax : Z) : res unit :=
  fail_if (hardMax =? 0) ErrPlain ;;
  fail_if ((value =? 0) || (value >? hardMax)) ErrPlain.

Definition ValidateSettlementWindowEpochs (value : Z) : res unit :=
  requirePositiveAtLeast value HardMinSettlementWindowEpochs.

Definition ValidateMaxRecipientsPerChunk (value : Z) : res unit :=
  requirePositiveAtLeast value HardMinRecipientsPerChunk ;;
  requirePositiveAtMost value HardMaxRecipientsPerChunk.

Definition ValidateMaxChunksPerSettlement (value : Z) : res unit :=
  requirePositiveAtLeast value HardMinChunksPerSettlement ;;
  requirePositiveAtMost value HardMaxChunksPerSettlement.

Definition ValidateMaxActiveSlots (configured : Z) : res unit :=
  fail_if ((configured =? 0) || (configured >? HardMaxActiveCoreSlots)) ErrPlain.

Definition ValidateSelectionRateBps (rateBps operationalMaxBps : Z) : res unit :=
  fail_if ((operationalMaxBps =? 0) || (operationalMaxBps >? AbsoluteMaxSelectionRateBps))
    ErrPlain ;;
  fail_if ((rateBps =? 0) || (rateBps >? operationalMaxBps)) ErrPlain.

Definition ValidateMaxSelectedParticipants (value hardMax : Z) : res unit :=
  requirePositiveAtMost value hardMax.

Definition ValidateMinRecipientPayoutAmount (amount hardMin : option Z) : res unit :=
  match amount, hardMin with
  | None, _ => Err ErrPlain
  | _, None => Err ErrPlain
  | Some a, Some h =>
      fail_if (negb (h >? 0)) ErrPlain ;;
      fail_if (a <? h) ErrPlain
  end.

Definition ValidateSelectionPolicyUpdateCooldownBlocks (value hardMin : Z) : res unit :=
  requirePositiveAtLeast value hardMin.

Record SelectionParams := {
  MaxSelectionRateBps : Z;
  BeaconStartOffsetBlocks : Z;
  BeaconWindowBlocks : Z;
  MinExternalBeaconBlocks : Z;
  MinDistinctExternalProposers : Z
}.

(** [SelectionParams.Validate] *)
Definition SelectionParams_Validate (p : SelectionParams) (hardMinEpochLengthBlocks : Z)
    : res unit :=
  fail_if ((MaxSelectionRateBps p =? 0) || (MaxSelectionRateBps p >? AbsoluteMaxSelectionRateBps))
    ErrPlain ;;
  fail_if (BeaconStartOffsetBlocks p =? 0) ErrPlain ;;
  fail_if (BeaconWindowBlocks p =? 0) ErrPlain ;;
  requirePositiveAtMost (MinExternalBeaconBlocks p) (BeaconWindowBlocks p) ;;
  requirePositiveAtMost (MinDistinctExternalProposers p) (MinExternalBeaconBlocks p) ;;
  fail_if (hardMinEpochLengthBlocks =? 0) ErrPlain ;;
  span ← wrap ErrPlain (AddUint64 (BeaconStartOffsetBlocks p) (BeaconWindowBlocks p));
  span ← wrap ErrPlain (AddUint64 span 1);
  fail_if (span >? hardMinEpochLengthBlocks) ErrPlain.

Definition ValidateEpochLengthBlocks (value : Z) : res unit :=
  fail_if ((value <? HardMinEpochLengthBlocks) || (value >? HardMaxEpochLengthBlocks)) ErrPlain.

Definition ValidateEmissionTreasuryShareBps (shareBps : Z) : res unit :=
  fail_if (HardMaxEmissionTreasuryShareBps >=? BasisPointsDenominator) ErrPlain ;;
  fail_if (shareBps >? HardMaxEmissionTreasuryShareBps) ErrPlain.

Record CalibratedBounds := {
  CB_MaxActiveCoreSlots : Z;
  CB_MinEpochLengthBlocks : Z;
  CB_MaxEpochLengthBlocks : Z;
  CB_MaxSelectedParticipants : Z;
  CB_MaxCandidatesPerSelection : Z;
  CB_MaxRecipientsPerChunk : Z;
  CB_MaxChunksPerSettlement : Z;
  CB_MinSelectionPolicyUpdateCooldownBlocks : Z;
  CB_MaxEmissionTreasuryShareBps : Z;
  CB_MaxCoreSlotMetadataBytes : Z;
  CB_MaxTxMessageBytes : Z;
  CB_MinSettlementPayoutAmount : option Z
}.

(** [CalibratedBounds.ValidateStructural] *)
Definition ValidateStructural (b : CalibratedBounds) : res unit :=
  for_each (λ value, fail_if (value =? 0) ErrPlain) [
    CB_MaxActiveCoreSlots b; CB_MinEpochLengthBlocks b; CB_MaxEpochLengthBlocks b;
    CB_MaxSelectedParticipants b; CB_MaxCandidatesPerSelection b; CB_MaxRecipientsPerChunk b;
    CB_MaxChunksPerSettlement b; CB_MinSelectionPolicyUpdateCooldownBlocks b;
    CB_MaxCoreSlotMetadataBytes b; CB_MaxTxMessageBytes b] ;;
  match CB_MinSettlementPayoutAmount b with
  | None => Err ErrPlain
  | Some amount => fail_if (negb (amount >? 0)) ErrPlain
  end ;;
  fail_if (CB_MinEpochLengthBlocks b >? CB_MaxEpochLengthBlocks b) ErrPlain ;;
  fail_if (CB_MaxEmissionTreasuryShareBps b >=? BasisPointsDenominator) ErrPlain.

(** ** What the validators admit *)

Lemma requirePositiveAtLeast_Ok v lo :
  requirePositiveAtLeast v lo = Ok tt ↔ lo ≠ 0 ∧ lo ≤ v.
Proof.
  unfold requirePositiveAtLeast. split.
  - intros H. minv. zify_bool. lia.
  - intros [H1 H2]. destruct (Z.eqb_spec lo 0), (Z.ltb_spec v lo); try lia. done.
Qed.

Lemma requirePositiveAtMost_Ok v hi :
  requirePositiveAtMost v hi = Ok tt ↔ hi ≠ 0 ∧ v ≠ 0 ∧ v ≤ hi.
Proof.
  unfold requirePositiveAtMost. rewrite Z.gtb_ltb. split.
  - intros H. minv. zify_bool. lia.
  - intros (H1 & H2 & H3).
    destruct (Z.eqb_spec hi 0), (Z.eqb_spec v 0), (Z.ltb_spec hi v); try lia. done.
Qed.

Lemma ValidateEpochLengthBlocks_Ok v :
  ValidateEpochLengthBlocks v = Ok tt ↔ HardMinEpochLengthBlocks ≤ v ≤ HardMaxEpochLengthBlocks.
Proof.
  unfold ValidateEpochLengthBlocks. split.
  - intros H. minv. zify_bool. lia.
  - intros H. rewrite Z.gtb_ltb.
    destruct (Z.ltb_spec v HardMinEpochLengthBlocks), (Z.ltb_spec HardMaxEpochLengthBlocks v);
      try lia. done.
Qed.

Lemma ValidateEmissionTreasuryShareBps_Ok v :
  ValidateEmissionTreasuryShareBps v = Ok tt ↔ v ≤ HardMaxEmissionTreasuryShareBps.
Proof.
  unfold ValidateEmissionTreasuryShareBps. simpl. rewrite Z.gtb_ltb. split.
  - intros H. minv. zify_bool. lia.
  - intros H. destruct (Z.ltb_spec HardMaxEmissionTreasuryShareBps v); [lia | done].
Qed.

(** A beacon geometry that validates fits inside the epoch, without wrapping. *)
Lemma SelectionParams_Validate_fits p h :
  is_u64 (BeaconStartOffsetBlocks p) → is_u64 (BeaconWindowBlocks p) →
  SelectionParams_Validate p h = Ok tt →
  0 < BeaconStartOffsetBlocks p ∧ 0 < BeaconWindowBlocks p ∧
  BeaconStartOffsetBlocks p + BeaconWindowBlocks p + 1 ≤ h.
Proof.
  intros H1 H2 H. unfold SelectionParams_Validate in H. minv. zify_bool.
  repeat match goal with H : AddUint64 _ _ = Ok _ |- _ =>
    apply AddUint64_Ok in H as [-> ?]; [|widths; lia..] end.
  widths. lia.
Qed.
