(* ===== verification/EconomicAddress.v ===== *)
(** * internal/economicaddress: who may receive protocol value

    Models [internal/economicaddress/economicaddress.go] in full.  The chain's
    account codec and [authtypes.NewModuleAddress] are not part of this
    repository: the codec is the value a [Validator] carries, the derivation a
    parameter.  Raw addresses are byte strings, as the Go code keys its sets. *)
From S2P Require Import Prelude.
From Stdlib Require Import String Ascii.
Local Open Scope Z_scope.

Definition AccAddress := string.
(** [address.Codec.StringToBytes] *)
Definition Codec := string → option AccAddress.

(** [Validator]; the zero value has no codec and two nil sets. *)
Record Validator := {
  codec : option Codec;
  moduleAccounts : gset string;
  blocked : gset string
}.

Definition str_le (a b : string) : Prop := String.leb a b = true.
#[export] Instance str_le_dec : RelDecision str_le.
Proof. unfold RelDecision, str_le. intros. apply _. Defined.

(** Go compares strings bytewise: a total order. *)
Lemma str_compare_trans a b c :
  String.compare a b ≠ Gt → String.compare b c ≠ Gt → String.compare a c ≠ Gt.
Proof.
  revert b c. induction a as [|x a IH]; intros [|y b] [|z c]; simpl; try congruence.
  unfold Ascii.compare.
  destruct (N.compare_spec (N_of_ascii x) (N_of_ascii y)),
    (N.compare_spec (N_of_ascii y) (N_of_ascii z)),
    (N.compare_spec (N_of_ascii x) (N_of_ascii z)); try congruence; try lia. apply IH.
Qed.
#[export] Instance str_le_trans : Transitive str_le.
Proof.
  intros a b c. unfold str_le, String.leb. pose proof (str_compare_trans a b c) as H.
  destruct (String.compare a b), (String.compare b c), (String.compare a c); done || naive_solver.
Qed.
#[export] Instance str_le_total : Total str_le.
Proof.
  intros a b. unfold str_le. destruct (String.leb_total a b); auto.
Qed.

(** The strict order of Go's [<] on strings. *)
Definition str_lt (a b : string) : Prop := String.compare a b = Lt.

Lemma str_compare_refl a : String.compare a a = Eq.
Proof.
  pose proof (String.compare_antisym a a). destruct (String.compare a a); done.
Qed.
Lemma str_lt_trans a b c : str_lt a b → str_lt b c → str_lt a c.
Proof.
  unfold str_lt. intros Hab Hbc. pose proof (str_compare_trans a b c) as H.
  rewrite Hab, Hbc in H. specialize (H ltac:(done) ltac:(done)).
  destruct (String.compare a c) eqn:E; [|done|done].
  apply String.compare_eq_iff in E as ->. rewrite String.compare_antisym, Hbc in Hab. discriminate.
Qed.
Lemma sorted_NoDup ids : StronglySorted str_lt ids → NoDup ids.
Proof.
  induction 1 as [|a ids Hs IH Ha]; constructor; [|done]. intros Hin.
  rewrite Forall_forall in Ha. specialize (Ha a Hin). unfold str_lt in Ha.
  by rewrite str_compare_refl in Ha.
Qed.

Section construction.
Context (NewModuleAddress : string → AccAddress).

Definition moduleAccountSet (names : list string) : res (gset string) :=
  fold_m (λ acc name,
    fail_if (bool_decide (name = EmptyString)) ErrPlain ;;
    mret ({[NewModuleAddress name]} ∪ acc)) names ∅.

(** The true-valued keys of the bank's set, sorted. *)
Definition prohibited (blocked : gmap string bool) : list string :=
  merge_sort str_le (fst <$> base.filter (λ kv, snd kv = true) (map_to_list blocked)).

Definition blockedSet (c : Codec) (encodings : list string) : res (gset string) :=
  fold_m (λ acc encoded,
    match c encoded with
    | None => Err ErrPlain
    | Some raw => mret ({[raw]} ∪ acc)
    end) encodings ∅.

Definition New (c : option Codec) (moduleAccountNames : list string)
    (blocked : gmap string bool) : res Validator :=
  match c with
  | None => Err ErrPlain
  | Some c =>
      fail_if (bool_decide (moduleAccountNames = [])) ErrPlain ;;
      modules ← moduleAccountSet moduleAccountNames;
      bl ← blockedSet c (prohibited blocked);
      mret {| codec := Some c; moduleAccounts := modules; blocked := bl |}
  end.
End construction.

Definition IsConfigured (v : Validator) : bool :=
  match codec v with Some _ => true | None => false end.

Definition ParseAccountAddress (v : Validator) (address : string) : res AccAddress :=
  match codec v with
  | None => Err EAUnconfigured
  | Some c =>
      fail_if (bool_decide (address = EmptyString)) EAEmptyAddress ;;
      match c address with
      | None => Err EAInvalidAddress
      | Some raw =>
          fail_if (bool_decide (raw = EmptyString)) EAEmptyAddress ;;
          mret raw
      end
  end.

Fixpoint isZero (raw : string) : bool :=
  match raw with
  | EmptyString => true
  | String b raw' => if bool_decide (b ≠ zero) then false else isZero raw'
  end.

Definition Validate (v : Validator) (address : string) : res AccAddress :=
  raw ← ParseAccountAddress v address;
  fail_if (isZero raw) EAInvalidAddress ;;
  fail_if (bool_decide (raw ∈ moduleAccounts v)) EAModuleAccount ;;
  fail_if (bool_decide (raw ∈ blocked v)) EABlockedAddress ;;
  mret raw.

Definition ValidateOptional (v : Validator) (address : string) : res (option AccAddress) :=
  if bool_decide (address = EmptyString) then
    fail_if (negb (IsConfigured v)) EAUnconfigured ;;
    mret None
  else
    raw ← Validate v address;
    mret (Some raw).

(** ** What the construction collects *)
Section construction_lemmas.
Context (NewModuleAddress : string → AccAddress).

Lemma moduleAccountSet_Ok names (acc s : gset string) :
  fold_m (λ acc name,
    fail_if (bool_decide (name = EmptyString)) ErrPlain ;;
    mret ({[NewModuleAddress name]} ∪ acc)) names acc = Ok s →
  ∀ raw, raw ∈ s ↔ raw ∈ acc ∨ ∃ name, name ∈ names ∧ raw = NewModuleAddress name.
Proof.
  revert acc. induction names as [|n names IH]; intros acc H raw; simpl in H; minv.
  - set_solver.
  - erewrite IH by eassumption. set_solver.
Qed.

Lemma blockedSet_Ok (c : Codec) encodings (acc s : gset string) :
  fold_m (λ acc encoded,
    match c encoded with
    | None => Err ErrPlain
    | Some raw => mret ({[raw]} ∪ acc)
    end) encodings acc = Ok s →
  ∀ raw, raw ∈ s ↔ raw ∈ acc ∨ ∃ e, e ∈ encodings ∧ c e = Some raw.
Proof.
  revert acc. induction encodings as [|e encodings IH]; intros acc H raw; simpl in H; minv.
  - set_solver.
  - destruct (c e) as [r|] eqn:E; minv. erewrite IH by eassumption. set_solver.
Qed.

Lemma elem_of_prohibited (b : gmap string bool) e :
  e ∈ prohibited b ↔ b !! e = Some true.
Proof.
  unfold prohibited. rewrite merge_sort_Permutation, list_elem_of_fmap.
  setoid_rewrite list_elem_of_filter. split.
  - intros ([k x] & -> & Hx & H). simpl in *. subst. by apply elem_of_map_to_list.
  - intros H. exists (e, true). split_and!; [done..|]. by apply elem_of_map_to_list.
Qed.

Lemma New_Ok c names b v :
  New NewModuleAddress (Some c) names b = Ok v →
  codec v = Some c ∧
  (∀ raw, raw ∈ moduleAccounts v ↔ ∃ name, name ∈ names ∧ raw = NewModuleAddress name) ∧
  (∀ raw, raw ∈ blocked v ↔ ∃ e, b !! e = Some true ∧ c e = Some raw).
Proof.
  unfold New, moduleAccountSet, blockedSet. intros H. minv. simpl. split_and!; [done| |].
  - intros raw. erewrite moduleAccountSet_Ok by done. set_solver.
  - intros raw. erewrite blockedSet_Ok by done. setoid_rewrite elem_of_prohibited.
    set_solver.
Qed.
End construction_lemmas.

Lemma ParseAccountAddress_Ok v a raw :
  ParseAccountAddress v a = Ok raw ↔
  ∃ c, codec v = Some c ∧ a ≠ EmptyString ∧ c a = Some raw ∧ raw ≠ EmptyString.
Proof.
  unfold ParseAccountAddress. destruct (codec v) as [c|]; [|naive_solver].
  destruct (decide (a = EmptyString)) as [->|Ha].
  { rewrite bool_decide_eq_true_2 by done. naive_solver. }
  rewrite bool_decide_eq_false_2 by done. simpl.
  destruct (c a) as [r|] eqn:E; [|naive_solver].
  destruct (decide (r = EmptyString)) as [->|Hr].
  - rewrite bool_decide_eq_true_2 by done. simpl. naive_solver.
  - rewrite bool_decide_eq_false_2 by done. simpl. unfold mret, res_ret. naive_solver.
Qed.

Lemma Validate_Ok v a raw :
  Validate v a = Ok raw ↔
  ParseAccountAddress v a = Ok raw ∧ isZero raw = false ∧
  raw ∉ moduleAccounts v ∧ raw ∉ blocked v.
Proof.
  unfold Validate. split.
  - intros H. minv. split_and!; [done..| |]; by eapply bool_decide_eq_false_1.
  - intros (-> & Hz & Hm & Hb). simpl. rewrite Hz. simpl.
    rewrite (bool_decide_eq_false_2 (raw ∈ moduleAccounts v)) by done. simpl.
    by rewrite (bool_decide_eq_false_2 (raw ∈ blocked v)) by done.
Qed.

(** ** Properties *)

(** A validator built from the application's inputs admits an address as a
    destination of protocol value exactly when it is nonempty text the chain's
    codec decodes to a nonempty, not all-zero byte string that is neither the
    address of a declared module account nor one of the addresses the bank
    blocks (false-valued entries of the bank's map block nothing), whatever
    spelling is used; and it returns those bytes. *)
Theorem economic_address_admission
    (NewModuleAddress : string → AccAddress) (c : Codec) (names : list string)
    (bank : gmap string bool) (v : Validator) (a : string) (raw : AccAddress) :
  New NewModuleAddress (Some c) names bank = Ok v →
  Validate v a = Ok raw ↔
    (a ≠ EmptyString ∧ c a = Some raw ∧ raw ≠ EmptyString ∧ isZero raw = false ∧
     (∀ name, name ∈ names → raw ≠ NewModuleAddress name) ∧
     (∀ e, bank !! e = Some true → c e ≠ Some raw)).
Proof.
  intros HN. apply New_Ok in HN as (Hc & Hm & Hb).
  rewrite Validate_Ok, ParseAccountAddress_Ok, Hm, Hb, Hc. naive_solver.
Qed.

Lemma economic_address_admission_witness :
  let c : Codec := λ s, Some s in
  let v := {| codec := Some c; moduleAccounts := {["rewards"%string]};
              blocked := {["blocked"%string]} |} in
  Validate v "alice"%string = Ok "alice"%string ∧ ¬ Validate v "rewards"%string = Ok "rewards"%string.
Proof.
  split.
  - apply (economic_address_admission (λ n, n) (λ s, Some s) ["rewards"%string]
      {["blocked"%string := true; "free"%string := false]}); [vm_compute; reflexivity|].
    split_and!; try discriminate.
    + reflexivity.
    + reflexivity.
    + intros name Hn <-. apply list_elem_of_singleton in Hn. discriminate Hn.
    + intros e He [= ->]. vm_compute in He. discriminate He.
  - intros H. vm_compute in H. discriminate H.
Defined.
