(* ===== verification/RewardsTypes.v ===== *)
(** * x/rewards/types: the data of the rewards module

    Records for the protobuf messages the keeper stores, with the validation
    methods of [validation.go], [epochconfig.go], [rewardconfig.go] and
    [entitlement.go].  uint64 fields are integers of [Z], amounts the decimal
    strings the store holds; enumerations have the declared constants. *)
From S2P Require Import Prelude Checked SdkMath Bounds EconomicAddress.
From Stdlib Require Import String.
Local Open Scope Z_scope.

(** The global bech32 configuration of the SDK ([sdk.AccAddressFromBech32],
    [AccAddress.String]), outside this repository.  Only address well-formedness
    and the text form of a raw address are used; nonempty addresses have distinct
    texts, as bech32 encoding under one prefix gives them. *)
Class Bech32 := {
  AccAddressFromBech32 : string → option AccAddress;
  AccAddress_String : AccAddress → string;
  AccAddress_String_inj a b :
    a ≠ EmptyString → b ≠ EmptyString → AccAddress_String a = AccAddress_String b → a = b
}.

(** ** Enumerations *)
Inductive HalvingMode := HALVING_MODE_UNSPECIFIED | HALVING_MODE_SUPPLY_THRESHOLD.
Inductive DistributionMethod :=
  | DISTRIBUTION_METHOD_UNSPECIFIED | DISTRIBUTION_METHOD_UNIFORM_ACTIVE_BLOCKS
  | DISTRIBUTION_METHOD_WEIGHTED_ACTIVE_BLOCKS | DISTRIBUTION_METHOD_SNAPSHOT_UNIFORM.
Inductive RemainderPolicy :=
  | REMAINDER_POLICY_UNSPECIFIED | REMAINDER_POLICY_CARRY_FORWARD | REMAINDER_POLICY_BURN.
Inductive FeeDistributionMode :=
  | FEE_DISTRIBUTION_MODE_UNSPECIFIED | FEE_DISTRIBUTION_MODE_NONE
  | FEE_DISTRIBUTION_MODE_ACTIVE_SET_POOL | FEE_DISTRIBUTION_MODE_TREASURY_ONLY
  | FEE_DISTRIBUTION_MODE_BURN.
(** [x/coreslot/types.SlotStatus] *)
Inductive SlotStatus :=
  | SLOT_STATUS_UNSPECIFIED | SLOT_STATUS_PENDING | SLOT_STATUS_ACTIVE
  | SLOT_STATUS_INACTIVE | SLOT_STATUS_SUSPENDED | SLOT_STATUS_REMOVED.

#[export] Instance HalvingMode_eq_dec : EqDecision HalvingMode.
Proof. solve_decision. Defined.
#[export] Instance DistributionMethod_eq_dec : EqDecision DistributionMethod.
Proof. solve_decision. Defined.
#[export] Instance RemainderPolicy_eq_dec : EqDecision RemainderPolicy.
Proof. solve_decision. Defined.
#[export] Instance FeeDistributionMode_eq_dec : EqDecision FeeDistributionMode.
Proof. solve_decision. Defined.
#[export] Instance SlotStatus_eq_dec : EqDecision SlotStatus.
Proof. solve_decision. Defined.

(** ** Messages *)
Record Params := {
  P_EmissionsEnabled : bool;
  P_EpochSettlementEnabled : bool;
  P_ClaimsEnabled : bool;
  P_NativeDenom : string;
  P_MaxSupply : string;
  P_InitialBlockSubsidy : string;
  P_TargetBlockTimeSeconds : Z;
  P_EpochLengthBlocks : Z;
  P_HalvingMode : HalvingMode;
  P_DistributionMethod : DistributionMethod;
  P_RemainderPolicy : RemainderPolicy;
  P_MaxClaimEpochsPerTx : Z;
  P_FeeCollectionEnabled : bool;
  P_FeeDistributionEnabled : bool;
  P_FeeDenom : string;
  P_FeeDistributionMode : FeeDistributionMode;
  P_TreasuryAddress : string;
  P_EmissionTreasuryShareBps : Z;
  P_FeeTreasuryShareBps : Z;
  P_WeightedRewardsEnabled : bool
}.

Record EpochConfigSnapshot := {
  Snap_SnapshotVersion : Z;
  Snap_EpochLengthBlocks : Z;
  Snap_DistributionMethod : DistributionMethod;
  Snap_RemainderPolicy : RemainderPolicy;
  Snap_InitialBlockSubsidy : string;
  Snap_HalvingMode : HalvingMode;
  Snap_WeightedRewardsEnabled : bool;
  Snap_FeeCollectionEnabled : bool;
  Snap_FeeDistributionEnabled : bool;
  Snap_FeeDenom : string;
  Snap_FeeDistributionMode : FeeDistributionMode;
  Snap_TreasuryAddress : string;
  Snap_EmissionTreasuryShareBps : Z;
  Snap_FeeTreasuryShareBps : Z
}.

Record RewardsState := {
  CurrentEpoch : Z;
  CurrentEpochStartHeight : Z;
  CumulativeEmitted : string;
  CarryForwardRemainder : string
}.

Record EpochConfigVersion := {
  ECV_Version : Z;
  ECV_EffectiveEpoch : Z;
  ECV_EffectiveStartHeight : Z;
  ECV_EpochLengthBlocks : Z
}.

Record ScheduledEpochConfig := {
  SEC_EffectiveEpoch : Z;
  SEC_EpochLengthBlocks : Z
}.

Record RewardConfigVersion := {
  RCV_Version : Z;
  RCV_EffectiveEpoch : Z;
  RCV_InitialBlockSubsidy : string;
  RCV_EmissionTreasuryShareBps : Z;
  RCV_TreasuryAddress : string
}.

Record ScheduledRewardConfig := {
  SRC_EffectiveEpoch : Z;
  SRC_InitialBlockSubsidy : string;
  SRC_EmissionTreasuryShareBps : Z;
  SRC_TreasuryAddress : string
}.

Record RewardsPauseState := {
  CurrentPaused : bool;
  HasPending : bool;
  PendingValue : bool;
  PendingEffectiveHeight : Z
}.

Record SlotActiveBlocks := {
  AB_SlotId : Z;
  AB_BlocksActive : Z
}.

Record EligibleSlotReward := {
  ESR_SlotId : Z;
  ESR_OperatorAddress : string;
  ESR_PayoutAddress : string;
  ESR_BlocksActive : Z;
  ESR_RewardWeight : string;
  ESR_EffectiveWeight : string;
  ESR_Amount : string;
  ESR_Claimed : bool;
  ESR_ClaimedAtHeight : Z;
  ESR_EpochNumber : Z
}.

Record EpochReward := {
  EpochNumber : Z;
  StartHeight : Z;
  EndHeight : Z;
  MintedEmission : string;
  CarryIn : string;
  DistributableFees : string;
  TreasuryAmount : string;
  RewardPool : string;
  AllocatedAmount : string;
  CarryOut : string;
  ER_DistributionMethod : DistributionMethod;
  ER_RemainderPolicy : RemainderPolicy;
  Rewards : list (option EligibleSlotReward);
  CumulativeEmittedAfterEpoch : string;
  Config : option EpochConfigSnapshot;
  RewardEnabledBlocks : Z
}.

Record SlotEntitlement := {
  Ent_SlotId : Z;
  Ent_Epoch : Z;
  Ent_TotalBlocksActive : Z;
  Ent_EntitlementAmount : string;
  Ent_ReleasedAmount : string;
  Ent_PayoutAddress : string;
  Ent_RewardConfigVersion : Z;
  Ent_SlotStatusAtEpochClose : SlotStatus;
  Ent_ActivationSequenceAtEpochClose : Z;
  Ent_CreatedHeight : Z
}.

Record EntitlementPayout := {
  Payout_Recipient : string;
  Payout_Amount : string
}.

(** ** Validation *)
Definition MaxBasisPoints : Z := 10000.

Definition ValidateDenom (denom : string) : res unit :=
  fail_if (bool_decide (denom ≠ NativeBaseDenom)) RwInvalidParams.

Definition ValidateBasisPoints (value : Z) : res unit :=
  fail_if (value >? MaxBasisPoints) RwInvalidParams.

Section validation.
Context {SI : SdkInt} {BE : Bech32}.

(** [Params.Validate] *)
Definition Params_Validate (p : Params) : res unit :=
  maxSupply ← ParseAmountString (P_MaxSupply p);
  fail_if (negb (maxSupply >? 0)) RwInvalidParams ;;
  subsidy ← ParseAmountString (P_InitialBlockSubsidy p);
  fail_if (negb (subsidy >? 0)) RwInvalidParams ;;
  ValidateDenom (P_NativeDenom p) ;;
  fail_if (bool_decide (P_FeeDenom p ≠ P_NativeDenom p)) RwInvalidParams ;;
  ValidateDenom (P_FeeDenom p) ;;
  fail_if ((P_TargetBlockTimeSeconds p =? 0) || (P_EpochLengthBlocks p =? 0) ||
           (P_MaxClaimEpochsPerTx p =? 0)) RwInvalidParams ;;
  fail_if (bool_decide (P_HalvingMode p ≠ HALVING_MODE_SUPPLY_THRESHOLD)) RwInvalidParams ;;
  fail_if (bool_decide (P_DistributionMethod p ≠ DISTRIBUTION_METHOD_UNIFORM_ACTIVE_BLOCKS))
    RwUnsupportedFeature ;;
  fail_if (bool_decide (P_RemainderPolicy p ≠ REMAINDER_POLICY_CARRY_FORWARD))
    RwUnsupportedFeature ;;
  fail_if (bool_decide (P_FeeDistributionMode p ≠ FEE_DISTRIBUTION_MODE_NONE))
    RwUnsupportedFeature ;;
  fail_if (P_FeeCollectionEnabled p || P_FeeDistributionEnabled p) RwUnsupportedFeature ;;
  fail_if (P_WeightedRewardsEnabled p) RwUnsupportedFeature ;;
  ValidateBasisPoints (P_EmissionTreasuryShareBps p) ;;
  ValidateBasisPoints (P_FeeTreasuryShareBps p) ;;
  if (P_EmissionTreasuryShareBps p >? 0) || (P_FeeTreasuryShareBps p >? 0) then
    match AccAddressFromBech32 (P_TreasuryAddress p) with
    | None => Err RwInvalidParams
    | Some _ => mret tt
    end
  else mret tt.

Definition DefaultMaxSupply : string := "21000000000000".
Definition DefaultInitialBlockSubsidy : string := "416190".
Definition DefaultTargetBlockTimeSeconds : Z := 5.
Definition DefaultEpochLengthBlocks : Z := 360.
Definition DefaultMaxClaimEpochsPerTx : Z := 100.
Definition DefaultEpochSnapshotVersion : Z := 1.

Definition DefaultParams : Params := {|
  P_EmissionsEnabled := true;
  P_EpochSettlementEnabled := true;
  P_ClaimsEnabled := true;
  P_NativeDenom := NativeBaseDenom;
  P_MaxSupply := DefaultMaxSupply;
  P_InitialBlockSubsidy := DefaultInitialBlockSubsidy;
  P_TargetBlockTimeSeconds := DefaultTargetBlockTimeSeconds;
  P_EpochLengthBlocks := DefaultEpochLengthBlocks;
  P_HalvingMode := HALVING_MODE_SUPPLY_THRESHOLD;
  P_DistributionMethod := DISTRIBUTION_METHOD_UNIFORM_ACTIVE_BLOCKS;
  P_RemainderPolicy := REMAINDER_POLICY_CARRY_FORWARD;
  P_MaxClaimEpochsPerTx := DefaultMaxClaimEpochsPerTx;
  P_FeeCollectionEnabled := false;
  P_FeeDistributionEnabled := false;
  P_FeeDenom := NativeBaseDenom;
  P_FeeDistributionMode := FEE_DISTRIBUTION_MODE_NONE;
  P_TreasuryAddress := EmptyString;
  P_EmissionTreasuryShareBps := 0;
  P_FeeTreasuryShareBps := 0;
  P_WeightedRewardsEnabled := false
|}.

(** [EpochConfigSnapshot.Validate]: the snapshot's fields over the default
    parameters. *)
Definition Snapshot_Validate (s : EpochConfigSnapshot) : res unit :=
  fail_if ((Snap_SnapshotVersion s =? 0) || (Snap_EpochLengthBlocks s =? 0))
    RwInvalidGenesis ;;
  _ ← wrap RwInvalidGenesis (ParseAmountString (Snap_InitialBlockSubsidy s));
  let params := {|
    P_EmissionsEnabled := P_EmissionsEnabled DefaultParams;
    P_EpochSettlementEnabled := P_EpochSettlementEnabled DefaultParams;
    P_ClaimsEnabled := P_ClaimsEnabled DefaultParams;
    P_NativeDenom := P_NativeDenom DefaultParams;
    P_MaxSupply := P_MaxSupply DefaultParams;
    P_InitialBlockSubsidy := Snap_InitialBlockSubsidy s;
    P_TargetBlockTimeSeconds := P_TargetBlockTimeSeconds DefaultParams;
    P_EpochLengthBlocks := Snap_EpochLengthBlocks s;
    P_HalvingMode := Snap_HalvingMode s;
    P_DistributionMethod := Snap_DistributionMethod s;
    P_RemainderPolicy := Snap_RemainderPolicy s;
    P_MaxClaimEpochsPerTx := P_MaxClaimEpochsPerTx DefaultParams;
    P_FeeCollectionEnabled := Snap_FeeCollectionEnabled s;
    P_FeeDistributionEnabled := Snap_FeeDistributionEnabled s;
    P_FeeDenom := Snap_FeeDenom s;
    P_FeeDistributionMode := Snap_FeeDistributionMode s;
    P_TreasuryAddress := Snap_TreasuryAddress s;
    P_EmissionTreasuryShareBps := Snap_EmissionTreasuryShareBps s;
    P_FeeTreasuryShareBps := Snap_FeeTreasuryShareBps s;
    P_WeightedRewardsEnabled := Snap_WeightedRewardsEnabled s
  |} in
  wrap RwInvalidGenesis (Params_Validate params).

(** [ValidateUpdate] and [validateRewardEconomicsUnchanged] *)
Definition validateRewardEconomicsUnchanged (current next : Params) : res unit :=
  fail_if (bool_decide (P_InitialBlockSubsidy current ≠ P_InitialBlockSubsidy next))
    RwImmutableParam ;;
  fail_if (bool_decide (P_EmissionTreasuryShareBps current ≠ P_EmissionTreasuryShareBps next))
    RwImmutableParam ;;
  fail_if (bool_decide (P_TreasuryAddress current ≠ P_TreasuryAddress next))
    RwImmutableParam ;;
  fail_if (bool_decide (P_HalvingMode current ≠ P_HalvingMode next)) RwImmutableParam ;;
  fail_if (bool_decide (P_RemainderPolicy current ≠ P_RemainderPolicy next)) RwImmutableParam ;;
  fail_if (bool_decide (P_DistributionMethod current ≠ P_DistributionMethod next))
    RwImmutableParam ;;
  fail_if (bool_decide (P_FeeTreasuryShareBps current ≠ P_FeeTreasuryShareBps next))
    RwImmutableParam.

Definition ValidateUpdate (current next : Params) : res unit :=
  fail_if (bool_decide (P_NativeDenom current ≠ P_NativeDenom next)) RwImmutableParam ;;
  fail_if (bool_decide (P_MaxSupply current ≠ P_MaxSupply next)) RwImmutableParam ;;
  fail_if (bool_decide (P_EpochLengthBlocks current ≠ P_EpochLengthBlocks next))
    RwImmutableParam ;;
  validateRewardEconomicsUnchanged current next ;;
  Params_Validate next.

(** [EpochConfigVersion.Validate], [ScheduledEpochConfig.Validate] *)
Definition ECV_Validate (v : EpochConfigVersion) : res unit :=
  fail_if (ECV_Version v =? 0) RwInvalidState ;;
  fail_if (ECV_EffectiveEpoch v =? 0) RwInvalidState ;;
  fail_if (ECV_EffectiveStartHeight v =? 0) RwInvalidState ;;
  fail_if (ECV_EpochLengthBlocks v =? 0) RwInvalidState.

Definition SEC_Validate (s : ScheduledEpochConfig) : res unit :=
  fail_if (SEC_EffectiveEpoch s =? 0) RwInvalidState ;;
  fail_if (SEC_EpochLengthBlocks s =? 0) RwInvalidState.

(** [RewardsPauseState.Validate] *)
Definition Pause_Validate (p : RewardsPauseState) : res unit :=
  if HasPending p then
    fail_if (PendingEffectiveHeight p =? 0) RwInvalidState ;;
    mret tt
  else
    fail_if (PendingValue p) RwInvalidState ;;
    fail_if (negb (PendingEffectiveHeight p =? 0)) RwInvalidState ;;
    mret tt.

Definition validateRewardEconomics (subsidy : string) (shareBps : Z) : res unit :=
  amount ← ParseCanonicalAmount subsidy;
  fail_if (negb (amount >? 0)) RwInvalidState ;;
  wrap RwInvalidState (ValidateEmissionTreasuryShareBps shareBps).

(** [RewardConfigVersion.Validate], [ScheduledRewardConfig.Validate] *)
Definition RCV_Validate (v : RewardConfigVersion) : res unit :=
  fail_if (RCV_Version v =? 0) RwInvalidState ;;
  fail_if (RCV_EffectiveEpoch v =? 0) RwInvalidState ;;
  validateRewardEconomics (RCV_InitialBlockSubsidy v) (RCV_EmissionTreasuryShareBps v).

Definition SRC_Validate (s : ScheduledRewardConfig) : res unit :=
  fail_if (SRC_EffectiveEpoch s =? 0) RwInvalidState ;;
  validateRewardEconomics (SRC_InitialBlockSubsidy s) (SRC_EmissionTreasuryShareBps s).

(** [SlotEntitlement.Amount], [.Released], [.Remaining], [.Validate] *)
Definition Ent_Amount (e : SlotEntitlement) : res Z :=
  wrap RwInvalidState (ParseAmountString (Ent_EntitlementAmount e)).
Definition Ent_Released (e : SlotEntitlement) : res Z :=
  wrap RwInvalidState (ParseAmountString (Ent_ReleasedAmount e)).
Definition Ent_Remaining (e : SlotEntitlement) : res Z :=
  amount ← Ent_Amount e;
  released ← Ent_Released e;
  or_err RwInvalidState (Int_SafeSub amount released).
Definition Ent_Validate (e : SlotEntitlement) : res unit :=
  fail_if (Ent_SlotId e =? 0) RwInvalidState ;;
  fail_if (Ent_Epoch e =? 0) RwInvalidState ;;
  fail_if (Ent_RewardConfigVersion e =? 0) RwInvalidState ;;
  fail_if (Ent_CreatedHeight e =? 0) RwInvalidState ;;
  fail_if (Ent_TotalBlocksActive e =? 0) RwInvalidState ;;
  amount ← Ent_Amount e;
  fail_if (negb (amount >? 0)) RwInvalidState ;;
  released ← Ent_Released e;
  fail_if (released >? amount) RwInvalidState.
End validation.

(** [defaults.go]: the snapshot of a parameter set. *)
Definition DefaultEpochConfigSnapshot (params : Params) : EpochConfigSnapshot := {|
  Snap_SnapshotVersion := DefaultEpochSnapshotVersion;
  Snap_EpochLengthBlocks := P_EpochLengthBlocks params;
  Snap_DistributionMethod := P_DistributionMethod params;
  Snap_RemainderPolicy := P_RemainderPolicy params;
  Snap_InitialBlockSubsidy := P_InitialBlockSubsidy params;
  Snap_HalvingMode := P_HalvingMode params;
  Snap_WeightedRewardsEnabled := P_WeightedRewardsEnabled params;
  Snap_FeeCollectionEnabled := P_FeeCollectionEnabled params;
  Snap_FeeDistributionEnabled := P_FeeDistributionEnabled params;
  Snap_FeeDenom := P_FeeDenom params;
  Snap_FeeDistributionMode := P_FeeDistributionMode params;
  Snap_TreasuryAddress := P_TreasuryAddress params;
  Snap_EmissionTreasuryShareBps := P_EmissionTreasuryShareBps params;
  Snap_FeeTreasuryShareBps := P_FeeTreasuryShareBps params |}.

Definition DefaultEpochConfigVersion (params : Params) (initialHeight : Z) : EpochConfigVersion := {|
  ECV_Version := 1;
  ECV_EffectiveEpoch := 1;
  ECV_EffectiveStartHeight := initialHeight;
  ECV_EpochLengthBlocks := P_EpochLengthBlocks params |}.

Definition DefaultRewardConfigVersion (params : Params) : RewardConfigVersion := {|
  RCV_Version := 1;
  RCV_EffectiveEpoch := 1;
  RCV_InitialBlockSubsidy := P_InitialBlockSubsidy params;
  RCV_EmissionTreasuryShareBps := P_EmissionTreasuryShareBps params;
  RCV_TreasuryAddress := P_TreasuryAddress params |}.
