(* ===== verification/Collections.v ===== *)
(** * cosmossdk.io/collections: ordered key-value stores

    A [collections.Map] is a finite map; ranged iteration is ordered by key, as
    the big-endian uint64 key codec makes it.  [seek_last] is the first element of
    a descending range, [entries] an ascending walk.  Decoding failures of stored
    bytes are not represented: the maps hold decoded values. *)
From S2P Require Import Prelude.
Local Open Scope Z_scope.

(** [collections.Map.Get]: absence is an error of its own. *)
Definition coll_get {A} (o : option A) : res A :=
  match o with Some a => Ok a | None => Err ErrNotFound end.

Lemma coll_get_Ok {A} (o : option A) a : coll_get o = Ok a ↔ o = Some a.
Proof. destruct o; simpl; split; congruence. Qed.

Section seek.
Context {A : Type}.
Implicit Types (m : gmap Z A) (k : Z).

(** The entry with the greatest key satisfying [P]. *)
Definition seek_last (P : Z → bool) (m : gmap Z A) : option (Z * A) :=
  map_fold (λ k x acc,
    if P k then
      match acc with
      | Some (k', _) => if k' <? k then Some (k, x) else acc
      | None => Some (k, x)
      end
    else acc) None m.

Definition seek_le (k : Z) (m : gmap Z A) : option (Z * A) := seek_last (λ j, j <=? k) m.
Definition seek_lt (k : Z) (m : gmap Z A) : option (Z * A) := seek_last (λ j, j <? k) m.
Definition seek_max (m : gmap Z A) : option (Z * A) := seek_last (λ _, true) m.

Definition key_le (a b : Z * A) : Prop := fst a ≤ fst b.
#[export] Instance key_le_dec : RelDecision key_le.
Proof. intros a b. unfold key_le. apply _. Defined.

(** Ascending iteration. *)
Definition entries (m : gmap Z A) : list (Z * A) := merge_sort key_le (map_to_list m).

Lemma seek_last_spec P m r :
  seek_last P m = r →
  match r with
  | Some (k, x) => m !! k = Some x ∧ P k = true ∧ ∀ j y, m !! j = Some y → P j = true → j ≤ k
  | None => ∀ j y, m !! j = Some y → P j = false
  end.
Proof.
  intros <-. unfold seek_last.
  apply (map_fold_weak_ind (λ r m, match r with
    | Some (k, x) => m !! k = Some x ∧ P k = true ∧ ∀ j y, m !! j = Some y → P j = true → j ≤ k
    | None => ∀ j y, m !! j = Some y → P j = false
    end)).
  - intros j y H. by rewrite lookup_empty in H.
  - intros k x m' acc Hk IH. destruct (P k) eqn:HP.
    + destruct acc as [[k' x']|].
      * destruct IH as (H1 & H2 & H3). destruct (Z.ltb_spec k' k).
        -- split_and!; [by rewrite lookup_insert_eq | done|].
           intros j y Hj HPj. destruct (decide (j = k)) as [->|]; [lia|].
           rewrite lookup_insert_ne in Hj by done. specialize (H3 j y Hj HPj). lia.
        -- split_and!; [|done|].
           ++ rewrite lookup_insert_ne; [done|]. intros ->. congruence.
           ++ intros j y Hj HPj. destruct (decide (j = k)) as [->|]; [lia|].
              rewrite lookup_insert_ne in Hj by done. eauto.
      * split_and!; [by rewrite lookup_insert_eq | done|].
        intros j y Hj HPj. destruct (decide (j = k)) as [->|]; [lia|].
        rewrite lookup_insert_ne in Hj by done. rewrite (IH _ _ Hj) in HPj. done.
    + destruct acc as [[k' x']|].
      * destruct IH as (H1 & H2 & H3). split_and!; [|done|].
        -- rewrite lookup_insert_ne; [done|]. intros ->. congruence.
        -- intros j y Hj HPj. destruct (decide (j = k)) as [->|]; [congruence|].
           rewrite lookup_insert_ne in Hj by done. eauto.
      * intros j y Hj. destruct (decide (j = k)) as [->|]; [done|].
        rewrite lookup_insert_ne in Hj by done. eauto.
Qed.

Lemma seek_last_Some P m k x :
  seek_last P m = Some (k, x) ↔
  m !! k = Some x ∧ P k = true ∧ ∀ j y, m !! j = Some y → P j = true → j ≤ k.
Proof.
  split; [exact (seek_last_spec P m (Some (k, x)))|]. intros (H1 & H2 & H3).
  pose proof (seek_last_spec P m _ eq_refl) as Hs.
  destruct (seek_last P m) as [[k' x']|].
  - destruct Hs as (G1 & G2 & G3). specialize (H3 _ _ G1 G2). specialize (G3 _ _ H1 H2).
    assert (k = k') as -> by lia. congruence.
  - rewrite (Hs _ _ H1) in H2. done.
Qed.

Lemma seek_last_None P m :
  seek_last P m = None ↔ ∀ j y, m !! j = Some y → P j = false.
Proof.
  split; [exact (seek_last_spec P m None)|]. intros H. destruct (seek_last P m) as [[k x]|] eqn:E; [|done].
  apply seek_last_Some in E as (H1 & H2 & _). rewrite (H _ _ H1) in H2. done.
Qed.

Lemma seek_le_Some k m j x :
  seek_le k m = Some (j, x) ↔
  m !! j = Some x ∧ j ≤ k ∧ ∀ i y, m !! i = Some y → i ≤ k → i ≤ j.
Proof.
  unfold seek_le. rewrite seek_last_Some, Z.leb_le. split.
  - intros (? & ? & H). split_and!; [done..|]. intros i y Hi Hle. apply (H i y Hi). by apply Z.leb_le.
  - intros (? & ? & H). split_and!; [done..|]. intros i y Hi Hle. apply (H i y Hi). by apply Z.leb_le.
Qed.

Lemma seek_lt_Some k m j x :
  seek_lt k m = Some (j, x) ↔
  m !! j = Some x ∧ j < k ∧ ∀ i y, m !! i = Some y → i < k → i ≤ j.
Proof.
  unfold seek_lt. rewrite seek_last_Some, Z.ltb_lt. split.
  - intros (? & ? & H). split_and!; [done..|]. intros i y Hi Hle. apply (H i y Hi). by apply Z.ltb_lt.
  - intros (? & ? & H). split_and!; [done..|]. intros i y Hi Hle. apply (H i y Hi). by apply Z.ltb_lt.
Qed.

Lemma seek_max_Some m j x :
  seek_max m = Some (j, x) ↔ m !! j = Some x ∧ ∀ i y, m !! i = Some y → i ≤ j.
Proof. unfold seek_max. rewrite seek_last_Some. naive_solver. Qed.

Lemma seek_le_None k m : seek_le k m = None ↔ ∀ i y, m !! i = Some y → k < i.
Proof.
  unfold seek_le. rewrite seek_last_None. split; intros H i y Hi; specialize (H i y Hi);
    [apply Z.leb_gt in H | apply Z.leb_gt]; lia.
Qed.

Lemma seek_lt_None k m : seek_lt k m = None ↔ ∀ i y, m !! i = Some y → k ≤ i.
Proof.
  unfold seek_lt. rewrite seek_last_None. split; intros H i y Hi; specialize (H i y Hi);
    [apply Z.ltb_ge in H | apply Z.ltb_ge]; lia.
Qed.

Lemma seek_max_None m : seek_max m = None ↔ m = ∅.
Proof.
  unfold seek_max. rewrite seek_last_None. split.
  - intros H. apply map_eq. intros i. rewrite lookup_empty.
    destruct (m !! i) as [y|] eqn:E; [|done]. by specialize (H i y E).
  - intros -> j y H. by rewrite lookup_empty in H.
Qed.

Lemma elem_of_entries m k x : (k, x) ∈ entries m ↔ m !! k = Some x.
Proof. unfold entries. by rewrite merge_sort_Permutation, elem_of_map_to_list. Qed.

Lemma entries_sorted m : StronglySorted key_le (entries m).
Proof.
  assert (Transitive key_le) by (intros a b c; unfold key_le; lia).
  assert (Total key_le) by (intros a b; unfold key_le; lia).
  by apply StronglySorted_merge_sort.
Qed.

Lemma entries_keys_NoDup m : NoDup (fst <$> entries m).
Proof. unfold entries. rewrite merge_sort_Permutation. apply NoDup_fst_map_to_list. Qed.

Lemma entries_length m : List.length (entries m) = size m.
Proof. unfold entries. rewrite merge_sort_Permutation. apply length_map_to_list. Qed.

Lemma entries_strict m : StronglySorted (λ p q : Z * A, fst p < fst q) (entries m).
Proof.
  pose proof (entries_sorted m) as Hs. pose proof (entries_keys_NoDup m) as Hnd.
  induction (entries m) as [|p l IH]; [constructor|].
  inversion Hs as [|? ? Hl Hall]; subst. apply NoDup_cons in Hnd as [Hp Hnd].
  constructor; [by apply IH|]. rewrite Forall_forall in Hall |- *. intros q Hq.
  specialize (Hall q Hq). unfold key_le in Hall.
  destruct (decide (fst p = fst q)) as [E|]; [|lia]. destruct Hp. rewrite E.
  apply list_elem_of_fmap. by exists q.
Qed.
End seek.

(** ** The next key *)
Section seek_next.
Context {A : Type}.
Implicit Types (m : gmap Z A) (k : Z).

(** The first entry of the ascending range that starts after [k]. *)
Definition seek_gt (k : Z) m : option (Z * A) :=
  List.find (λ kv, k <? fst kv) (entries m).

Lemma seek_gt_Some k m j x :
  seek_gt k m = Some (j, x) ↔
  m !! j = Some x ∧ k < j ∧ ∀ i y, m !! i = Some y → k < i → j ≤ i.
Proof.
  assert (∀ l : list (Z * A), StronglySorted key_le l → NoDup (fst <$> l) →
    List.find (λ kv, k <? fst kv) l = Some (j, x) ↔
    (j, x) ∈ l ∧ k < j ∧ ∀ i y, (i, y) ∈ l → k < i → j ≤ i) as Hl.
  { induction l as [|[i y] l IH]; intros Hs Hnd; simpl.
    { split; [done|]. by intros [?%elem_of_nil _]. }
    inversion Hs as [|? ? Hs' Hall]; subst. apply NoDup_cons in Hnd as [Hni Hnd].
    rewrite Forall_forall in Hall. setoid_rewrite elem_of_cons.
    destruct (Z.ltb_spec k i) as [Hk|Hk].
    - split.
      + intros [= <- <-]. split_and!; [by left | done|].
        intros i' y' [[= -> ->]|Hin] _; [done|]. by apply (Hall _ Hin).
      + intros ([[= <- <-]|Hin] & Hj & Hmin); [done|]. exfalso.
        specialize (Hmin i y ltac:(by left) Hk). specialize (Hall _ Hin). unfold key_le in Hall.
        simpl in Hall. apply Hni. apply list_elem_of_fmap. exists (j, x). split; [simpl; lia | done].
    - rewrite IH by done. split.
      + intros (Hin & Hj & Hmin). split_and!; [by right | done|].
        intros i' y' [[= -> ->]|Hi']; [lia | eauto].
      + intros ([[= <- <-]|Hin] & Hj & Hmin); [lia|]. split_and!; [done..|]. eauto. }
  unfold seek_gt. rewrite Hl by auto using entries_sorted, entries_keys_NoDup.
  setoid_rewrite elem_of_entries. done.
Qed.

Lemma seek_gt_None k m : seek_gt k m = None ↔ ∀ i y, m !! i = Some y → i ≤ k.
Proof.
  unfold seek_gt. split.
  - intros H i y Hi. pose proof (List.find_none _ _ H (i, y)) as Hn. simpl in Hn.
    apply Z.ltb_ge, Hn. apply list_elem_of_In. by apply elem_of_entries.
  - intros H. destruct (List.find _ _) as [[i y]|] eqn:E; [|done].
    apply List.find_some in E as [Hin Hk]. apply list_elem_of_In, elem_of_entries in Hin.
    simpl in Hk. apply Z.ltb_lt in Hk. specialize (H _ _ Hin). lia.
Qed.
End seek_next.

(** ** Insertions and ranged lookups *)
Section seek_insert.
Context {A : Type}.
Implicit Types (m : gmap Z A) (k : Z).

Lemma seek_last_ext P Q m :
  (∀ j y, m !! j = Some y → P j = Q j) → seek_last P m = seek_last Q m.
Proof.
  intros H. destruct (seek_last P m) as [[k x]|] eqn:E; symmetry.
  - apply seek_last_Some in E as (H1 & H2 & H3). apply seek_last_Some.
    split_and!; [done | by rewrite <- (H _ _ H1) |].
    intros j y Hj HQ. apply (H3 j y Hj). by rewrite (H _ _ Hj).
  - apply seek_last_None. intros j y Hj. rewrite <- (H _ _ Hj).
    by apply (proj1 (seek_last_None P m) E j y).
Qed.

Lemma seek_last_insert_out P m k x :
  P k = false → seek_last P (<[k:=x]> m) = seek_last P m.
Proof.
  intros HP. destruct (seek_last P m) as [[j y]|] eqn:E.
  - apply seek_last_Some in E as (H1 & H2 & H3). apply seek_last_Some.
    assert (k ≠ j) by congruence. split_and!; [by rewrite lookup_insert_ne | done|].
    intros i z Hi Hz. apply lookup_insert_Some in Hi as [[-> _]|[_ Hi]]; [congruence | eauto].
  - apply seek_last_None. intros i z Hi.
    apply lookup_insert_Some in Hi as [[-> _]|[_ Hi]]; [done|].
    by apply (proj1 (seek_last_None P m) E i z).
Qed.

Lemma seek_last_insert_in P m k x :
  P k = true → (∀ j y, m !! j = Some y → P j = true → j ≤ k) →
  seek_last P (<[k:=x]> m) = Some (k, x).
Proof.
  intros HP H. apply seek_last_Some. split_and!; [by rewrite lookup_insert_eq | done|].
  intros j y Hj HPj. apply lookup_insert_Some in Hj as [[-> _]|[_ Hj]]; [lia | eauto].
Qed.

Lemma seek_le_insert_gt m k x e : e < k → seek_le e (<[k:=x]> m) = seek_le e m.
Proof. intros. apply seek_last_insert_out. by apply Z.leb_gt. Qed.
Lemma seek_lt_insert_ge m k x e : e ≤ k → seek_lt e (<[k:=x]> m) = seek_lt e m.
Proof. intros. apply seek_last_insert_out. by apply Z.ltb_ge. Qed.
Lemma seek_le_insert_last m k x e :
  k ≤ e → (∀ j y, m !! j = Some y → j ≤ k) → seek_le e (<[k:=x]> m) = Some (k, x).
Proof. intros ? H. apply seek_last_insert_in; [by apply Z.leb_le | eauto]. Qed.
Lemma seek_max_insert_last m k x :
  (∀ j y, m !! j = Some y → j ≤ k) → seek_max (<[k:=x]> m) = Some (k, x).
Proof. intros H. apply seek_last_insert_in; eauto. Qed.
(** Beyond the last key the ranged lookups return the last entry. *)
Lemma seek_le_max m e : (∀ j y, m !! j = Some y → j ≤ e) → seek_le e m = seek_max m.
Proof. intros H. apply seek_last_ext. intros j y Hj. apply Z.leb_le. eauto. Qed.
Lemma seek_lt_max m e : (∀ j y, m !! j = Some y → j < e) → seek_lt e m = seek_max m.
Proof. intros H. apply seek_last_ext. intros j y Hj. apply Z.ltb_lt. eauto. Qed.
End seek_insert.

(** ** Pair keys

    [collections.PairKeyCodec] over two uint64 keys orders pairs
    lexicographically; a prefixed range fixes the first component. *)
Section pairs.
Context {A : Type}.
Definition pair_key_le (a b : (Z * Z) * A) : Prop :=
  fst (fst a) < fst (fst b) ∨ (fst (fst a) = fst (fst b) ∧ snd (fst a) ≤ snd (fst b)).
#[export] Instance pair_key_le_dec : RelDecision pair_key_le.
Proof. intros a b. unfold pair_key_le. apply _. Defined.

Definition pair_entries (m : gmap (Z * Z) A) : list ((Z * Z) * A) :=
  merge_sort pair_key_le (map_to_list m).
Definition prefix_entries (k1 : Z) (m : gmap (Z * Z) A) : list ((Z * Z) * A) :=
  base.filter (λ kv, fst (fst kv) = k1) (pair_entries m).

Lemma pair_entries_Permutation m : pair_entries m ≡ₚ map_to_list m.
Proof. apply merge_sort_Permutation. Qed.
Lemma elem_of_pair_entries m k x : (k, x) ∈ pair_entries m ↔ m !! k = Some x.
Proof. by rewrite pair_entries_Permutation, elem_of_map_to_list. Qed.
Lemma elem_of_prefix_entries k1 m k x :
  (k, x) ∈ prefix_entries k1 m ↔ m !! k = Some x ∧ fst k = k1.
Proof.
  unfold prefix_entries. rewrite list_elem_of_filter, elem_of_pair_entries. simpl. tauto.
Qed.
Lemma prefix_entries_keys_NoDup k1 m : NoDup (fst <$> prefix_entries k1 m).
Proof.
  unfold prefix_entries. eapply sublist_NoDup; [|apply fmap_sublist, sublist_filter].
  rewrite pair_entries_Permutation. apply NoDup_fst_map_to_list.
Qed.
(** The part of a pair-keyed collection under one first component: what a
    prefixed, ranged iteration walks. *)
Definition prefix_map (k1 : Z) (m : gmap (Z * Z) A) : gmap Z A :=
  default ∅ (map_curry (M1 := gmap Z) (M2 := gmap Z) m !! k1).

Lemma lookup_prefix_map k1 k2 m : prefix_map k1 m !! k2 = m !! (k1, k2).
Proof.
  unfold prefix_map. rewrite <- (lookup_map_curry (M1 := gmap Z) (M2 := gmap Z) m k1 k2).
  destruct (map_curry (M1 := gmap Z) (M2 := gmap Z) m !! k1); [done | apply lookup_empty].
Qed.

#[export] Instance pair_key_le_total : Total pair_key_le.
Proof. intros a b. unfold pair_key_le. lia. Qed.
#[export] Instance pair_key_le_trans : Transitive pair_key_le.
Proof. intros a b c. unfold pair_key_le. lia. Qed.

(** Walking a prefix is walking the part under it. *)
Lemma prefix_entries_map k1 m :
  prefix_entries k1 m = (λ kv, ((k1, fst kv), snd kv)) <$> entries (prefix_map k1 m).
Proof.
  assert (∀ p, p ∈ (λ kv, ((k1, fst kv), snd kv)) <$> entries (prefix_map k1 m) ↔
    p ∈ prefix_entries k1 m) as Helem.
  { intros [[j k2] x]. rewrite elem_of_prefix_entries, list_elem_of_fmap. simpl. split.
    - intros ([k y] & [= -> -> ->] & Hin%elem_of_entries). by rewrite lookup_prefix_map in Hin.
    - intros [Hin ->]. exists (k2, x). split; [done|]. apply elem_of_entries.
      by rewrite lookup_prefix_map. }
  pose proof (prefix_entries_keys_NoDup k1 m) as Hnd.
  apply (StronglySorted_unique_strong pair_key_le).
  - intros [[a b] x] [[a' b'] y] Hx Hy Hab Hba. apply (NoDup_fmap_inj_on fst _ _ _ Hnd Hx); [by apply Helem|].
    apply elem_of_prefix_entries in Hx as [_ Ha]. apply Helem, elem_of_prefix_entries in Hy as [_ Ha'].
    unfold pair_key_le in *. simpl in *. f_equal; lia.
  - unfold prefix_entries. apply StronglySorted_filtered, (StronglySorted_merge_sort pair_key_le).
  - apply (StronglySorted_fmap_in _ key_le); [|apply entries_sorted].
    intros [k x] [k' y] _ _ Hk. unfold pair_key_le, key_le in *. simpl in *. lia.
  - apply NoDup_Permutation; [by eapply NoDup_fmap_1| |intros p; symmetry; apply Helem].
    apply (NoDup_fmap_1 (λ p, snd (fst p))). rewrite <- list_fmap_compose.
    apply (entries_keys_NoDup (prefix_map k1 m)).
Qed.
End pairs.

(** ** The [Walk]s of the genesis exports

    Pointers to the records, in ascending key order. *)
Definition walk {A} (m : gmap Z A) : list (option A) := Some ∘ snd <$> entries m.
Definition walk_pairs {A} (m : gmap (Z * Z) A) : list (option A) := Some ∘ snd <$> pair_entries m.

Lemma entries_singleton {A} k (x : A) : entries {[k := x]} = [(k, x)].
Proof. unfold entries. by rewrite map_to_list_singleton. Qed.
Lemma walk_singleton {A} k (x : A) : walk {[k := x]} = [Some x].
Proof. unfold walk. by rewrite entries_singleton. Qed.
Lemma walk_empty {A} : walk (∅ : gmap Z A) = [].
Proof. unfold walk, entries. by rewrite map_to_list_empty. Qed.
Lemma walk_pairs_empty {A} : walk_pairs (∅ : gmap (Z * Z) A) = [].
Proof. unfold walk_pairs, pair_entries. by rewrite map_to_list_empty. Qed.

(** ** Sums over stores *)
Section map_sums.
Context {K A : Type} `{Countable K}.
Implicit Types (m : gmap K A) (f : A → Z).

Definition map_sum (f : A → Z) (m : gmap K A) : Z := sum_of (λ kv, f (snd kv)) (map_to_list m).

Lemma map_sum_empty f : map_sum f (∅ : gmap K A) = 0.
Proof. unfold map_sum. by rewrite map_to_list_empty. Qed.
Lemma map_sum_insert_new f m k x :
  m !! k = None → map_sum f (<[k:=x]> m) = f x + map_sum f m.
Proof.
  intros Hk. unfold map_sum.
  by rewrite (sum_of_Permutation _ _ _ (map_to_list_insert m k x Hk)).
Qed.
Lemma map_sum_delete f m k x :
  m !! k = Some x → map_sum f m = f x + map_sum f (delete k m).
Proof.
  intros Hk. rewrite <- (insert_delete_id m k x Hk) at 1.
  apply map_sum_insert_new. apply lookup_delete_eq.
Qed.
Lemma map_sum_insert f m k x y :
  m !! k = Some x → map_sum f (<[k:=y]> m) = map_sum f m - f x + f y.
Proof.
  intros Hk. rewrite (map_sum_delete f m k x Hk), <- insert_delete_eq.
  rewrite map_sum_insert_new by apply lookup_delete_eq. lia.
Qed.
Lemma map_sum_nonneg f m : (∀ k x, m !! k = Some x → 0 ≤ f x) → 0 ≤ map_sum f m.
Proof.
  intros Hf. apply sum_of_nonneg. apply Forall_forall. intros [k x] Hx.
  apply elem_of_map_to_list in Hx. by eapply Hf.
Qed.
Lemma map_sum_elem f m k x :
  (∀ k x, m !! k = Some x → 0 ≤ f x) → m !! k = Some x → f x ≤ map_sum f m.
Proof.
  intros Hf Hk. rewrite (map_sum_delete f m k x Hk).
  assert (0 ≤ map_sum f (delete k m)); [|lia].
  apply map_sum_nonneg. intros k' x' Hk'. apply lookup_delete_Some in Hk' as [_ ?]. eauto.
Qed.
End map_sums.

(** ** Records written one by one *)
Section insert_all.
Context {K A B : Type} `{Countable K} (key : A → K) (val : A → B).

Definition insert_all (l : list A) (m : gmap K B) : gmap K B :=
  foldl (λ m a, <[key a := val a]> m) m l.

Lemma insert_all_lookup l m k b :
  NoDup (key <$> l) →
  insert_all l m !! k = Some b ↔
    (∃ a, a ∈ l ∧ key a = k ∧ val a = b) ∨ ((∀ a, a ∈ l → key a ≠ k) ∧ m !! k = Some b).
Proof.
  revert m. induction l as [|a l IH]; intros m Hnd; simpl.
  { split; [right; split; [set_solver | done]|]. intros [(a & ?%elem_of_nil & _)|[_ ?]]; done. }
  rewrite fmap_cons in Hnd. apply NoDup_cons in Hnd as [Hout Hnd].
  rewrite (IH _ Hnd), lookup_insert_Some. setoid_rewrite elem_of_cons. split.
  - intros [(x & Hx & Hk & Hv)|[Hne [[Hk Hv]|[Hk Hm]]]]; [left; eauto | left; eauto |].
    right. split; [|done]. intros x [->|Hx]; auto.
  - intros [(x & [->|Hx] & Hk & Hv)|[Hne Hm]].
    + right. split; [|by left]. intros y Hy Hy'. apply Hout. apply list_elem_of_fmap.
      exists y. split; [congruence | done].
    + left. eauto.
    + right. split; [by auto|]. right. split; [by apply Hne; left | done].
Qed.

Lemma insert_all_empty l k b :
  NoDup (key <$> l) → insert_all l ∅ !! k = Some b ↔ ∃ a, a ∈ l ∧ key a = k ∧ val a = b.
Proof.
  intros Hnd. rewrite insert_all_lookup by done. rewrite lookup_empty. naive_solver.
Qed.
End insert_all.

(** A loop that refuses what it has seen collects a list of distinct items. *)
Lemma fold_collect `{Countable K} {A} (key : A → K) (e : error) (l : list A) (seen : gset K) :
  NoDup (key <$> l) → (∀ a, a ∈ l → key a ∉ seen) →
  fold_m (λ (seen : gset K) a,
    fail_if (bool_decide (key a ∈ seen)) e ;; mret ({[key a]} ∪ seen)) l seen =
    Ok (list_to_set (key <$> l) ∪ seen).
Proof.
  revert seen. induction l as [|a l IH]; intros seen Hnd Hout; cbn [fold_m].
  { simpl. by rewrite (left_id_L ∅ (∪)). }
  rewrite fmap_cons in Hnd. apply NoDup_cons in Hnd as [Hna Hnd].
  rewrite bool_decide_eq_false_2 by (apply Hout; left). simpl. rewrite IH; [|done|].
  - f_equal. set_solver.
  - intros x Hx. assert (key x ≠ key a).
    { intros He. apply Hna. apply list_elem_of_fmap. by exists x. }
    specialize (Hout x ltac:(by right)). set_solver.
Qed.
