(* ===== verification/Bytes.v ===== *)
(** * Byte strings: hexadecimal and big-endian numbers

    [encoding/hex] and [encoding/binary] as the code uses them; bytes are strings.
    What is written reads back ([be_value_be]), and numbers of one width with the
    same bytes are equal ([be_inj]). *)
From S2P Require Import Prelude.
From Stdlib Require Import Ascii String.
Local Open Scope Z_scope.

Definition len (s : string) : Z := Z.of_nat (String.length s).

(** [hex.DecodeString]: digits of either case, in pairs. *)
Definition hex_value (c : ascii) : option N :=
  let n := N_of_ascii c in
  if ((48 <=? n) && (n <=? 57))%N then Some (n - 48)%N
  else if ((97 <=? n) && (n <=? 102))%N then Some (n - 87)%N
  else if ((65 <=? n) && (n <=? 70))%N then Some (n - 55)%N
  else None.
Fixpoint hex_decode (s : string) : option string :=
  match s with
  | EmptyString => Some EmptyString
  | String hi (String lo s) =>
      match hex_value hi, hex_value lo, hex_decode s with
      | Some h, Some l, Some t => Some (String (ascii_of_N (16 * h + l)) t)
      | _, _, _ => None
      end
  | _ => None
  end.
(** [strings.ToLower] on ASCII; a byte beyond it is refused as no hexadecimal
    digit at the latest. *)
Definition lower (c : ascii) : ascii :=
  let n := N_of_ascii c in
  if ((65 <=? n) && (n <=? 90))%N then ascii_of_N (n + 32) else c.
Fixpoint to_lower (s : string) : string :=
  match s with EmptyString => EmptyString | String c s => String (lower c) (to_lower s) end.

(** [binary.BigEndian.AppendUint16], [AppendUint64]: the last [n] bytes of a
    number, most significant first. *)
Fixpoint be (n : nat) (z : Z) : string :=
  match n with
  | O => EmptyString
  | S n => String (ascii_of_N (Z.to_N (Z.land (Z.shiftr z (8 * Z.of_nat n)) 255))) (be n z)
  end.

(** [binary.BigEndian.Uint64], of as many bytes as there are. *)
Fixpoint be_value (s : string) : Z :=
  match s with
  | EmptyString => 0
  | String c s => Z.of_N (N_of_ascii c) * 2 ^ (8 * len s) + be_value s
  end.

(** ** Concatenation *)
Lemma len_app a b : len (a +:+ b) = len a + len b.
Proof.
  unfold len. induction a as [|c a IH]; simpl; [done|]. rewrite Nat2Z.inj_succ. lia.
Qed.
Lemma len_nonneg a : 0 ≤ len a.
Proof. unfold len. lia. Qed.

Lemma app_inj a b c d : len a = len c → a +:+ b = c +:+ d → a = c ∧ b = d.
Proof.
  unfold len. revert c. induction a as [|x a IH]; intros [|y c] Hl H; simpl in *; try lia; [done|].
  injection H as -> H. destruct (IH c) as [-> ->]; [lia | done | done].
Qed.

Lemma app_assoc_str (a b c : string) : a +:+ b +:+ c = (a +:+ b) +:+ c.
Proof. induction a as [|x a IH]; [done|]. exact (f_equal (String x) IH). Qed.

Lemma be_len n z : len (be n z) = Z.of_nat n.
Proof.
  induction n as [|n IH]; [done|]. change (len (be (S n) z)) with (Z.of_nat (S (String.length (be n z)))).
  unfold len in IH. lia.
Qed.

Lemma byte_of_inj a b : 0 ≤ a < 256 → 0 ≤ b < 256 →
  ascii_of_N (Z.to_N a) = ascii_of_N (Z.to_N b) → a = b.
Proof.
  intros Ha Hb H. apply (f_equal N_of_ascii) in H. rewrite !N_ascii_embedding in H by lia. lia.
Qed.

Lemma be_mod n z : be n z = be n (z mod 2 ^ (8 * Z.of_nat n)).
Proof.
  assert (∀ m k, (k ≤ m)%nat → be k z = be k (z mod 2 ^ (8 * Z.of_nat m))) as H; [|by apply H].
  intros m k. induction k as [|k IH]; intros Hk; [done|]. cbn [be].
  rewrite <- (IH ltac:(lia)). do 3 f_equal.
  apply Z.bits_inj'. intros i Hi. rewrite !Z.land_spec, !Z.shiftr_spec by done.
  change 255 with (Z.ones 8). destruct (Z.lt_ge_cases i 8).
  - rewrite Z.mod_pow2_bits_low; [done | lia].
  - by rewrite !(Z.ones_spec_high 8 i), !andb_false_r by lia.
Qed.

Lemma be_inj n a b : 0 ≤ a < 2 ^ (8 * Z.of_nat n) → 0 ≤ b < 2 ^ (8 * Z.of_nat n) →
  be n a = be n b → a = b.
Proof.
  revert a b. induction n as [|n IH]; intros a b Ha Hb H; [simpl in *; lia|].
  cbn [be] in H. injection H as Hc Hr.
  assert (0 < 2 ^ (8 * Z.of_nat n)) as Hp by (apply Z.pow_pos_nonneg; lia).
  assert (2 ^ (8 * Z.of_nat (S n)) = 2 ^ (8 * Z.of_nat n) * 256) as Hs.
  { rewrite Nat2Z.inj_succ. replace (8 * Z.succ (Z.of_nat n)) with (8 * Z.of_nat n + 8) by lia.
    by rewrite Z.pow_add_r by lia. }
  change 255 with (Z.ones 8) in Hc. rewrite !Z.land_ones, !Z.shiftr_div_pow2 in Hc by lia.
  assert (∀ z, 0 ≤ z < 2 ^ (8 * Z.of_nat n) * 256 → 0 ≤ z / 2 ^ (8 * Z.of_nat n) < 256) as Hq
    by (intros z Hz; split; [apply Z.div_pos; lia | apply Z.div_lt_upper_bound; lia]).
  change (2 ^ 8) with 256 in Hc.
  rewrite !Z.mod_small in Hc by (apply Hq; lia).
  apply byte_of_inj in Hc; [|apply Hq; lia|apply Hq; lia].
  rewrite (be_mod n a), (be_mod n b) in Hr. apply IH in Hr; [|by apply Z.mod_pos_bound..].
  rewrite (Z.div_mod a (2 ^ (8 * Z.of_nat n))), (Z.div_mod b (2 ^ (8 * Z.of_nat n))) by lia.
  by rewrite Hc, Hr.
Qed.

Lemma be8_inj a b : is_u64 a → is_u64 b → be 8 a = be 8 b → a = b.
Proof. intros Ha Hb. apply be_inj; simpl; widths; lia. Qed.

(** ** Reading back *)
Lemma be_value_be n z : 0 ≤ z < 2 ^ (8 * Z.of_nat n) → be_value (be n z) = z.
Proof.
  revert z. induction n as [|n IH]; intros z Hz; [simpl in *; lia|]. cbn [be be_value].
  assert (0 < 2 ^ (8 * Z.of_nat n)) as Hp by (apply Z.pow_pos_nonneg; lia).
  assert (2 ^ (8 * Z.of_nat (S n)) = 2 ^ (8 * Z.of_nat n) * 256) as Hs.
  { rewrite Nat2Z.inj_succ. replace (8 * Z.succ (Z.of_nat n)) with (8 * Z.of_nat n + 8) by lia.
    by rewrite Z.pow_add_r by lia. }
  rewrite be_len, (be_mod n z), IH by (apply Z.mod_pos_bound; lia).
  change 255 with (Z.ones 8). rewrite Z.land_ones, Z.shiftr_div_pow2 by lia.
  assert (0 ≤ z / 2 ^ (8 * Z.of_nat n) < 256) as Hq
    by (split; [apply Z.div_pos; lia | apply Z.div_lt_upper_bound; lia]).
  change (2 ^ 8) with 256. rewrite Z.mod_small, N_ascii_embedding by lia.
  pose proof (Z.div_mod z (2 ^ (8 * Z.of_nat n)) ltac:(lia)). lia.
Qed.

Lemma be8_value z : is_u64 z → be_value (be 8 z) = z.
Proof. intros Hz. apply be_value_be. simpl. widths. lia. Qed.
Lemma be8_nonempty z : be 8 z ≠ EmptyString.
Proof. intros H. apply (f_equal len) in H. by rewrite be_len in H. Qed.
