(* ===== verification/Paging.v ===== *)
(** * Query servers: page requests and answers

    A query is a function of the state that answers with a value or with a gRPC
    status; the statuses are among the errors of [Prelude].  Listings go through
    pages: a request names a cursor and a limit, an answer the cursor of the next
    page.  [boundedPage] is the policy of the mining and rewards servers.
    [query.CollectionPaginate] belongs to the Cosmos SDK: [Paginator] says what it
    does with a cursor and a limit, [page_rows], and following the cursors visits
    every entry once, in order ([pages_from]). *)
From S2P Require Import Prelude Collections Bytes.
From Stdlib Require Import Ascii String.
Local Open Scope Z_scope.

(** ** cosmos-sdk types/query: requests and responses *)
Record PageRequest := {
  Pg_Key : string;
  Pg_Offset : Z;
  Pg_Limit : Z;
  Pg_CountTotal : bool;
  Pg_Reverse : bool
}.
Record PageResponse := { Pg_NextKey : string; Pg_Total : Z }.

Definition page_by_key (key : string) (limit : Z) : PageRequest :=
  {| Pg_Key := key; Pg_Offset := 0; Pg_Limit := limit; Pg_CountTotal := false; Pg_Reverse := false |}.
Definition next_page (key : string) : PageResponse := {| Pg_NextKey := key; Pg_Total := 0 |}.

(** An error that names its own gRPC code. *)
Definition is_status (e : error) : bool :=
  match e with
  | StatusInvalidArgument | StatusNotFound | StatusOutOfRange | StatusFailedPrecondition
  | StatusInternal => true
  | _ => false
  end.

(** [return nil, f(err)]; a panic is not an error value. *)
Definition map_err {A} (f : error → error) (m : res A) : res A :=
  match m with
  | Ok a => Ok a
  | Err Panic => Err Panic
  | Err OutOfFuel => Err OutOfFuel
  | Err e => Err (f e)
  end.

Lemma map_err_Ok {A} f (m : res A) a : map_err f m = Ok a ↔ m = Ok a.
Proof. destruct m as [?|[]]; simpl; split; congruence. Qed.

(** A program that fails, if it does, with an error value: [plain] is shown
    statement by statement. *)
Definition error_value (e : error) : bool :=
  match e with Panic | OutOfFuel => false | _ => true end.
Definition plain {A} (m : res A) : Prop :=
  match m with Ok _ => True | Err e => error_value e = true end.

Lemma map_err_plain {A} f (m : res A) e : plain m → m = Err e → map_err f (Err e : res A) = Err (f e).
Proof. intros H ->. by destruct e. Qed.
Lemma plain_bind {A B} (m : res A) (k : A → res B) :
  plain m → (∀ a, plain (k a)) → plain (m ≫= k).
Proof. destruct m as [a|e]; simpl; auto. Qed.
Lemma plain_ret {A} (a : A) : plain (mret a : res A).
Proof. exact I. Qed.
Lemma plain_wrap {A} e (m : res A) : error_value e = true → plain (wrap e m).
Proof. by destruct m. Qed.
Lemma plain_fail_if b e : error_value e = true → plain (fail_if b e : res unit).
Proof. by destruct b. Qed.
Lemma plain_coll_get {A} (o : option A) : plain (coll_get o).
Proof. by destruct o. Qed.
Create HintDb plain.
#[export] Hint Resolve plain_bind plain_ret plain_wrap plain_fail_if plain_coll_get : plain.
#[export] Hint Extern 1 (plain (Ok _)) => exact I : plain.
#[export] Hint Extern 1 (plain (Err _)) => reflexivity : plain.
#[export] Hint Extern 1 (plain (mthrow _)) => reflexivity : plain.
#[export] Hint Extern 1 (error_value _ = true) => reflexivity : plain.

(** [plain], by following the statements and their branches. *)
Ltac plain :=
  repeat first
    [ solve [eauto with plain]
    | match goal with |- plain (match ?x with _ => _ end) => destruct x end
    | apply plain_bind; [|intros] ].

(** ** query_server.go: the page policy *)
Definition maxCollectionPageSize : Z := 100.

Definition boundedPage (page : option PageRequest) : res PageRequest :=
  match page with
  | None => mret (page_by_key EmptyString maxCollectionPageSize)
  | Some page =>
      fail_if (negb (Pg_Offset page =? 0)) StatusInvalidArgument ;;
      fail_if (Pg_CountTotal page) StatusInvalidArgument ;;
      fail_if (Pg_Reverse page) StatusInvalidArgument ;;
      mret (page_by_key (Pg_Key page)
        (if negb (Pg_Limit page =? 0) && (Pg_Limit page <? maxCollectionPageSize)
         then Pg_Limit page else maxCollectionPageSize))
  end.

Lemma boundedPage_Ok page bounded :
  (∀ p, page = Some p → 0 ≤ Pg_Limit p) → boundedPage page = Ok bounded →
  ∃ limit, bounded = page_by_key (default EmptyString (Pg_Key <$> page)) limit ∧ 1 ≤ limit ≤ 100.
Proof.
  intros Hl H. destruct page as [p|]; simpl in H; minv.
  - specialize (Hl p eq_refl). eexists. split; [reflexivity|]. unfold maxCollectionPageSize.
    destruct (Z.eqb_spec (Pg_Limit p) 0); simpl; [lia|].
    destruct (Z.ltb_spec (Pg_Limit p) 100); lia.
  - eexists. split; [reflexivity|]. unfold maxCollectionPageSize. lia.
Qed.

Lemma boundedPage_by_key key limit : 1 ≤ limit ≤ 100 →
  boundedPage (Some (page_by_key key limit)) = Ok (page_by_key key limit).
Proof.
  intros Hl. unfold boundedPage, page_by_key, maxCollectionPageSize. simpl.
  destruct (Z.eqb_spec limit 0); [lia|]. simpl. destruct (Z.ltb_spec limit 100); [done|].
  by replace limit with 100 by lia.
Qed.

(** A request is refused for what is wrong with it, whatever the state. *)
Lemma boundedPage_Err page e : boundedPage page = Err e → e = StatusInvalidArgument.
Proof.
  unfold boundedPage. destruct page as [p|]; [|done].
  destruct (negb (Pg_Offset p =? 0)); [by intros [= <-]|].
  destruct (Pg_CountTotal p); [by intros [= <-]|].
  by destruct (Pg_Reverse p); intros [= <-].
Qed.

(** ** Rows from a key on *)
Section rows.
Context {A : Type}.
Implicit Types (m : gmap Z A) (l : list (Z * A)).

Definition from_key (k : Z) m : list (Z * A) := base.filter (λ kv, k ≤ fst kv) (entries m).

Lemma elem_of_from_key k m j x : (j, x) ∈ from_key k m ↔ m !! j = Some x ∧ k ≤ j.
Proof. unfold from_key. rewrite list_elem_of_filter, elem_of_entries. simpl. tauto. Qed.

Lemma from_key_low k m : (∀ j x, m !! j = Some x → k ≤ j) → from_key k m = entries m.
Proof.
  intros H. unfold from_key. apply filter_all.
  intros [j x] Hj. apply elem_of_entries in Hj. by eapply H.
Qed.

(** Entries are strictly ascending, so a key splits them. *)
Lemma sorted_split k (l l1 l2 : list (Z * A)) j x :
  StronglySorted key_le l → NoDup (fst <$> l) → base.filter (λ kv, k ≤ fst kv) l = l1 ++ (j, x) :: l2 →
  base.filter (λ kv, j ≤ fst kv) l = (j, x) :: l2.
Proof.
  revert l1. induction l as [|[i y] l IH]; intros l1 Hs Hnd H.
  { rewrite filter_nil in H. by destruct l1. }
  inversion Hs as [|? ? Hs' Hall]; subst. rewrite Forall_forall in Hall.
  apply NoDup_cons in Hnd as [Hni Hnd]. rewrite filter_cons in H |- *. simpl in *.
  assert (∀ z, (j, z) ∈ l → i < j) as Hlt.
  { intros z Hz. specialize (Hall _ Hz). unfold key_le in Hall. simpl in Hall.
    destruct (decide (i = j)) as [->|]; [|lia]. destruct Hni. apply list_elem_of_fmap. by exists (j, z). }
  destruct (decide (k ≤ i)) as [Hk|Hk].
  - destruct l1 as [|p l1]; simpl in H.
    + injection H as -> -> H. rewrite decide_True by lia. f_equal. rewrite <- H.
      rewrite !filter_all; [done|..]; intros [i' y'] Hin; specialize (Hall _ Hin);
        unfold key_le in Hall; simpl in *; lia.
    + injection H as <- H. specialize (IH l1 Hs' Hnd H).
      assert ((j, x) ∈ l) as Hin.
      { assert ((j, x) ∈ base.filter (λ kv, k ≤ fst kv) l) as Hf by (rewrite H; set_solver).
        by apply list_elem_of_filter in Hf as [_ Hf]. }
      specialize (Hlt x Hin). by rewrite decide_False by lia.
  - specialize (IH l1 Hs' Hnd H).
    assert ((j, x) ∈ base.filter (λ kv, k ≤ fst kv) l) as Hf by (rewrite H; set_solver).
    apply list_elem_of_filter in Hf as [_ Hf]. specialize (Hlt x Hf). by rewrite decide_False by lia.
Qed.

Lemma from_key_split k m l1 j x l2 :
  from_key k m = l1 ++ (j, x) :: l2 → from_key j m = (j, x) :: l2.
Proof. intros H. eapply sorted_split; [apply entries_sorted | apply entries_keys_NoDup | exact H]. Qed.

Lemma entries_split m l1 j x l2 :
  entries m = l1 ++ (j, x) :: l2 → from_key j m = (j, x) :: l2 ∧ m !! j = Some x.
Proof.
  intros He. split; [|apply elem_of_entries; rewrite He; set_solver].
  eapply sorted_split with (k := j) (l1 := base.filter (λ kv, j ≤ fst kv) l1);
    [apply entries_sorted | apply entries_keys_NoDup |].
  rewrite He, filter_app. f_equal. rewrite filter_cons_True by (simpl; lia). f_equal.
  apply filter_all. intros p Hp. pose proof (entries_sorted m) as Hs. rewrite He in Hs.
  by apply (StronglySorted_cons_app _ _ _ _ Hs p).
Qed.
End rows.

(** ** query.CollectionPaginate

    What the callers rely on: with a cursor and a limit alone, a page is the rows
    from the cursor on, up to the limit, and its next key is the cursor of the row
    that would have followed.  [collection_page] is the selection of the rows;
    [CollectionPaginate] applies the caller's function to them in order and fails
    with the first failure. *)
Definition page_rows {A} (cursor : Z → string) (limit : Z) (l : list (Z * A))
    : list (Z * A) * PageResponse :=
  (take (Z.to_nat limit) l,
   next_page match drop (Z.to_nat limit) l with [] => EmptyString | (k, _) :: _ => cursor k end).

Class Paginator := {
  collection_page : ∀ {A}, gmap Z A → option PageRequest → res (list (Z * A) * PageResponse);
  page_cursor : Z → string;
  page_cursor_nonempty k : page_cursor k ≠ EmptyString;
  page_first {A} (m : gmap Z A) limit : 1 ≤ limit →
    collection_page m (Some (page_by_key EmptyString limit)) =
      Ok (page_rows page_cursor limit (entries m));
  page_next {A} (m : gmap Z A) limit k : 1 ≤ limit → is_u64 k →
    collection_page m (Some (page_by_key (page_cursor k) limit)) =
      Ok (page_rows page_cursor limit (from_key k m))
}.

Section paginate.
Context {PG : Paginator}.

Definition map_m {A B} (f : A → res B) (l : list A) : res (list B) :=
  fold_m (λ acc x, y ← f x; mret (acc ++ [y])) l [].

Definition CollectionPaginate {A B} (m : gmap Z A) (page : option PageRequest)
    (transform : Z → A → res B) : res (list B * PageResponse) :=
  '(rows, response) ← collection_page m page;
  results ← map_m (λ kv, transform (fst kv) (snd kv)) rows;
  mret (results, response).

Lemma map_m_acc {A B} (f : A → res B) l acc :
  fold_m (λ acc x, y ← f x; mret (acc ++ [y])) l acc =
    (rest ← map_m f l; mret (acc ++ rest)).
Proof.
  unfold map_m. revert acc. induction l as [|x l IH]; intros acc; cbn [fold_m].
  { simpl. by rewrite app_nil_r. }
  destruct (f x) as [y|e]; [|done]. cbn [mbind res_bind mret res_ret].
  rewrite IH, (IH ([] ++ [y])). simpl. destruct (fold_m _ l []) as [rest|e]; [|done]. simpl.
  by rewrite <- app_assoc.
Qed.

Lemma map_m_cons {A B} (f : A → res B) x l :
  map_m f (x :: l) = (y ← f x; rest ← map_m f l; mret (y :: rest)).
Proof.
  unfold map_m at 1. cbn [fold_m]. destruct (f x) as [y|e]; [|done].
  cbn [mbind res_bind mret res_ret]. by rewrite map_m_acc.
Qed.

(** Every row passes, and is returned as [g] of it. *)
Lemma map_m_total {A B} (f : A → res B) (g : A → B) l :
  (∀ x, x ∈ l → f x = Ok (g x)) → map_m f l = Ok (g <$> l).
Proof.
  induction l as [|x l IH]; intros H; [done|]. rewrite map_m_cons, (H x) by set_solver.
  cbn [mbind res_bind]. rewrite IH by set_solver. done.
Qed.
End paginate.

(** ** Following the cursors *)
Section follow.
Context {A B : Type} (query : string → res (list B * PageResponse)).

(** All pages, from a cursor on. *)
Fixpoint follow (fuel : nat) (key : string) : res (list B) :=
  match fuel with
  | O => Err OutOfFuel
  | S fuel =>
      '(rows, response) ← query key;
      if bool_decide (Pg_NextKey response = EmptyString) then mret rows
      else
        rest ← follow fuel (Pg_NextKey response);
        mret (rows ++ rest)
  end.

(** If each page is [f] of the rows it covers and ends where the next begins,
    following them returns [f] of all rows; one page per [limit] rows is enough. *)
Lemma pages_from (f : list (Z * A) → list B) (cursor : Z → string) (limit : Z) (m : gmap Z A) :
  (∀ l1 l2, f (l1 ++ l2) = f l1 ++ f l2) → (∀ k, cursor k ≠ EmptyString) → 1 ≤ limit →
  (∀ k x, m !! k = Some x → query (cursor k) =
     Ok (let '(rows, response) := page_rows cursor limit (from_key k m) in (f rows, response))) →
  query EmptyString =
     Ok (let '(rows, response) := page_rows cursor limit (entries m) in (f rows, response)) →
  ∀ fuel, (List.length (entries m) < fuel)%nat → follow fuel EmptyString = Ok (f (entries m)).
Proof.
  intros Hf Hc Hl Hnext Hfirst.
  assert (∀ fuel key l, (List.length l < fuel)%nat →
    (∀ l1 j x l2, l = l1 ++ (j, x) :: l2 → from_key j m = (j, x) :: l2 ∧ m !! j = Some x) →
    query key = Ok (let '(rows, response) := page_rows cursor limit l in (f rows, response)) →
    follow fuel key = Ok (f l)) as Hgen.
  { induction fuel as [|fuel IH]; intros key l Hfuel Hsplit Hq; [lia|].
    cbn [follow]. rewrite Hq. unfold page_rows. cbn [mbind res_bind next_page Pg_NextKey].
    pose proof (take_drop (Z.to_nat limit) l) as Htd.
    destruct (drop (Z.to_nat limit) l) as [|[j x] l2] eqn:Hd.
    - rewrite bool_decide_eq_true_2 by done. rewrite app_nil_r in Htd. by rewrite Htd.
    - rewrite bool_decide_eq_false_2 by done. destruct (Hsplit (take (Z.to_nat limit) l) j x l2) as [Hj Hm].
      { by rewrite Htd. }
      rewrite (IH (cursor j) ((j, x) :: l2)).
      + cbn [mbind res_bind mret res_ret]. by rewrite <- Hf, Htd.
      + apply (f_equal List.length) in Hd. rewrite length_drop in Hd. simpl in *. lia.
      + intros l1 j' x' l2' He. apply (Hsplit (take (Z.to_nat limit) l ++ l1)).
        by rewrite <- app_assoc, <- He, Htd.
      + rewrite <- Hj. by apply (Hnext j x). }
  intros fuel Hfuel. apply Hgen; [done| |done]. intros l1 j x l2. apply entries_split.
Qed.
End follow.

(** ** Listings through the paginator *)
Section listing.
Context {PG : Paginator}.

Lemma paginate_total {A B} (m : gmap Z A) page rows response (f : Z → A → res B) g :
  collection_page m page = Ok (rows, response) → (∀ k x, (k, x) ∈ rows → f k x = Ok (g k x)) →
  CollectionPaginate m page f = Ok ((λ kv, g (fst kv) (snd kv)) <$> rows, response).
Proof.
  intros Hp Hf. unfold CollectionPaginate. rewrite Hp. cbn [mbind res_bind].
  rewrite (map_m_total _ (λ kv, g (fst kv) (snd kv))); [done|].
  intros [k x] Hin. by apply Hf.
Qed.

(** A listing whose rows all pass is complete: following it returns every row. *)
Lemma paginate_follow {A B} (m : gmap Z A) (f : Z → A → res B) g limit query :
  1 ≤ limit → (∀ k x, m !! k = Some x → is_u64 k ∧ f k x = Ok (g k x)) →
  (∀ key r, CollectionPaginate m (Some (page_by_key key limit)) f = Ok r → query key = Ok r) →
  ∀ fuel, (size m < fuel)%nat →
    follow query fuel EmptyString = Ok ((λ kv, g (fst kv) (snd kv)) <$> entries m).
Proof.
  intros Hl Hf Hq fuel Hfuel.
  assert (∀ l k x, (k, x) ∈ take (Z.to_nat limit) l → (∀ p, p ∈ l → p ∈ entries m) →
    f k x = Ok (g k x)) as Hrow.
  { intros l k x Hin Hsub. apply Hf, elem_of_entries, Hsub. rewrite <- (take_drop (Z.to_nat limit) l). apply elem_of_app. by left. }
  apply (pages_from query (λ rows, (λ kv, g (fst kv) (snd kv)) <$> rows) page_cursor limit m);
    [intros; apply fmap_app | exact page_cursor_nonempty | done | | | by rewrite entries_length].
  - intros k x Hk. apply Hq. rewrite (paginate_total m _ _ _ f g (page_next m limit k Hl (proj1 (Hf k x Hk)))).
    { done. } intros k' x' Hin. apply (Hrow _ _ _ Hin). unfold from_key.
    intros p Hp. by apply list_elem_of_filter in Hp as [_ Hp].
  - apply Hq. rewrite (paginate_total m _ _ _ f g (page_first m limit Hl)); [done|].
    intros k x Hin. by apply (Hrow _ _ _ Hin).
Qed.
End listing.

(** ** A concrete paginator: cursors are big-endian keys *)
Definition key_page {A} (m : gmap Z A) (page : option PageRequest)
    : res (list (Z * A) * PageResponse) :=
  let page := default {| Pg_Key := EmptyString; Pg_Offset := 0; Pg_Limit := 0;
    Pg_CountTotal := true; Pg_Reverse := false |} page in
  let rows := if Pg_Reverse page then rev (entries m) else entries m in
  let limit := if Pg_Limit page =? 0 then 100 else Pg_Limit page in
  if bool_decide (Pg_Key page = EmptyString) then
    let '(results, response) := page_rows (be 8) limit (drop (Z.to_nat (Pg_Offset page)) rows) in
    mret (results, {| Pg_NextKey := Pg_NextKey response;
      Pg_Total := if Pg_CountTotal page then Z.of_nat (List.length rows) else 0 |})
  else
    fail_if (negb (Pg_Offset page =? 0)) ErrPlain ;;
    let cursor := be_value (Pg_Key page) in
    mret (page_rows (be 8) limit
      (if Pg_Reverse page then base.filter (λ kv, fst kv ≤ cursor) rows
       else base.filter (λ kv, cursor ≤ fst kv) rows)).

#[program] Definition key_paginator : Paginator := {|
  collection_page := @key_page;
  page_cursor := be 8
|}.
Next Obligation. exact be8_nonempty. Qed.
Next Obligation.
  intros A m limit Hl. unfold key_page. cbn [page_by_key default id Pg_Key Pg_Offset Pg_Limit Pg_CountTotal Pg_Reverse].
  destruct (Z.eqb_spec limit 0); [lia|]. by rewrite bool_decide_eq_true_2.
Qed.
Next Obligation.
  intros A m limit k Hl Hk. unfold key_page.
  cbn [page_by_key default id Pg_Key Pg_Offset Pg_Limit Pg_CountTotal Pg_Reverse].
  destruct (Z.eqb_spec limit 0); [lia|]. rewrite bool_decide_eq_false_2 by apply be8_nonempty.
  cbn [Z.eqb negb fail_if mret res_ret mbind res_bind]. cbv zeta. rewrite be8_value by done. reflexivity.
Qed.
