(* ===== verification/Emission.v ===== *)
(** * x/rewards/keeper/emission.go: the emission schedule

    The halving tier, the next threshold, the block subsidy and the epoch
    emission, over [math.Int] arguments that may be nil.  The two threshold loops
    halve a 256-bit integer, so [halving_fuel] iterations always suffice; the
    theorems prove that they never run out. *)
From S2P Require Import Prelude SdkMath RewardsTypes.
Local Open Scope Z_scope.

Section emission.
Context {SI : SdkInt}.

Definition validateSupply (cumulativeEmitted maxSupply : option Z) : res unit :=
  match maxSupply with
  | None => Err ErrPlain
  | Some maxSupply =>
      fail_if (negb (maxSupply >? 0)) ErrPlain ;;
      match cumulativeEmitted with
      | None => Err ErrPlain
      | Some cumulativeEmitted =>
          fail_if (cumulativeEmitted <? 0) ErrPlain ;;
          fail_if (cumulativeEmitted >? maxSupply) ErrPlain
      end
  end.

Definition validateEmissionInputs (cumulativeEmitted maxSupply initialBlockSubsidy : option Z)
    : res unit :=
  validateSupply cumulativeEmitted maxSupply ;;
  match initialBlockSubsidy with
  | None => Err ErrPlain
  | Some s => fail_if (s <? 0) ErrPlain
  end.

(** 256 halvings bring any [math.Int] to zero; one more iteration sees it. *)
Definition halving_fuel : nat := 258.

(** The loop of [HalvingTier]. *)
Fixpoint tier_loop (fuel : nat) (cumulativeEmitted maxSupply remaining tier : Z) : res Z :=
  match fuel with
  | O => Err OutOfFuel
  | S fuel =>
      if remaining >? 0 then
        threshold ← isub maxSupply remaining;
        if cumulativeEmitted <? threshold then mret tier
        else
          remaining ← iquo remaining 2;
          tier_loop fuel cumulativeEmitted maxSupply remaining (u64 (tier + 1))
      else mret tier
  end.

Definition HalvingTier (cumulativeEmitted maxSupply : option Z) : res Z :=
  validateSupply cumulativeEmitted maxSupply ;;
  cum ← deref cumulativeEmitted;
  max ← deref maxSupply;
  remaining ← iquo max 2;
  tier_loop halving_fuel cum max remaining 0.

(** The loop of [NextHalvingThreshold]. *)
Fixpoint threshold_loop (fuel : nat) (cumulativeEmitted maxSupply remaining : Z) : res Z :=
  match fuel with
  | O => Err OutOfFuel
  | S fuel =>
      if remaining >? 0 then
        threshold ← isub maxSupply remaining;
        if cumulativeEmitted <? threshold then mret threshold
        else
          remaining ← iquo remaining 2;
          threshold_loop fuel cumulativeEmitted maxSupply remaining
      else mret maxSupply
  end.

Definition NextHalvingThreshold (cumulativeEmitted maxSupply : option Z) : res (Z * bool) :=
  validateSupply cumulativeEmitted maxSupply ;;
  cum ← deref cumulativeEmitted;
  max ← deref maxSupply;
  if cum =? max then mret (0, false)
  else
    remaining ← iquo max 2;
    threshold ← threshold_loop halving_fuel cum max remaining;
    mret (threshold, true).

(** [for i := 0; i < tier && subsidy.IsPositive(); i++ { subsidy /= 2 }] *)
Fixpoint halve_loop (tier : nat) (subsidy : Z) : res Z :=
  match tier with
  | O => mret subsidy
  | S tier =>
      if subsidy >? 0 then
        subsidy ← iquo subsidy 2;
        halve_loop tier subsidy
      else mret subsidy
  end.

Definition NextBlockSubsidy (cumulativeEmitted maxSupply initialBlockSubsidy : option Z)
    : res Z :=
  validateEmissionInputs cumulativeEmitted maxSupply initialBlockSubsidy ;;
  cum ← deref cumulativeEmitted;
  max ← deref maxSupply;
  initial ← deref initialBlockSubsidy;
  if (cum =? max) || (initial =? 0) then mret 0
  else
    tier ← HalvingTier cumulativeEmitted maxSupply;
    subsidy ← halve_loop (Z.to_nat tier) initial;
    if subsidy =? 0 then mret 0
    else
      '(nextThreshold, found) ← NextHalvingThreshold cumulativeEmitted maxSupply;
      remaining ← isub max cum;
      remaining ←
        (if found : bool then
           toThreshold ← isub nextThreshold cum;
           mret (if toThreshold <? remaining then toThreshold else remaining)
         else mret remaining);
      if subsidy >? remaining then mret remaining else mret subsidy.

(** The block loop of [ComputeEpochEmission]. *)
Fixpoint emission_loop (blocks : nat) (max initial : option Z) (emission cumulativeAfter : Z)
    : res (Z * Z) :=
  match blocks with
  | O => mret (emission, cumulativeAfter)
  | S blocks =>
      subsidy ← NextBlockSubsidy (Some cumulativeAfter) max initial;
      if subsidy =? 0 then mret (emission, cumulativeAfter)
      else
        emission ← iadd emission subsidy;
        cumulativeAfter ← iadd cumulativeAfter subsidy;
        emission_loop blocks max initial emission cumulativeAfter
  end.

Definition ComputeEpochEmission (cumulativeEmitted : option Z) (blockCount : Z)
    (maxSupply initialBlockSubsidy : option Z) (halvingMode : HalvingMode) : res (Z * Z) :=
  fail_if (bool_decide (halvingMode ≠ HALVING_MODE_SUPPLY_THRESHOLD)) ErrPlain ;;
  validateEmissionInputs cumulativeEmitted maxSupply initialBlockSubsidy ;;
  cum ← deref cumulativeEmitted;
  emission_loop (Z.to_nat blockCount) maxSupply initialBlockSubsidy 0 cum.
End emission.

(** ** The schedule in closed form

    The reference definitions: with [max] the supply and [cum] already emitted,
    the tier is the number of halvings of [max] that are still at least the
    remaining supply, the subsidy is the initial one halved that often, clipped
    at the next threshold. *)
Definition tier_of (max cum : Z) : Z := Z.log2 (max / Z.max 1 (max - cum)).
Definition threshold_of (max t : Z) : Z := max - max / 2 ^ t.
Definition subsidy_of (max s0 cum : Z) : Z :=
  if cum =? max then 0
  else Z.min (s0 / 2 ^ tier_of max cum) (threshold_of max (tier_of max cum + 1) - cum).
Fixpoint emit (max s0 : Z) (n : nat) (cum : Z) : Z :=
  match n with O => cum | S n => emit max s0 n (cum + subsidy_of max s0 cum) end.
(** Where emission stops for good: the first threshold at which the halved
    subsidy is zero. *)
Definition final_supply (max s0 : Z) : Z := threshold_of max (Z.log2 s0 + 1).

(** The inputs the keeper computes with. *)
Definition supply_ok (max cum : Z) : Prop := 0 ≤ cum ≤ max ∧ 0 < max < 2 ^ 256.
Definition subsidy_ok (s0 : Z) : Prop := 0 ≤ s0 < 2 ^ 256.

(** ** The arithmetic of halving *)
Section arithmetic.
Implicit Types (max cum t k : Z).

Lemma pow_pos k : 0 ≤ k → 0 < 2 ^ k.
Proof. intros. apply Z.pow_pos_nonneg; lia. Qed.

Lemma half_pow max k : 0 ≤ k → max / 2 ^ k / 2 = max / 2 ^ (k + 1).
Proof.
  intros. rewrite Z.div_div by (pose proof (pow_pos k); lia).
  by rewrite Z.pow_add_r, Z.pow_1_r by lia.
Qed.

Lemma quot_half z : 0 ≤ z → z `quot` 2 = z / 2.
Proof. intros. apply Z.quot_div_nonneg; lia. Qed.

(** The [k]-th threshold has been reached exactly when [k] is at most the tier. *)
Lemma reached_iff max cum k :
  supply_ok max cum → 0 ≤ k → 0 < max / 2 ^ k →
  threshold_of max k ≤ cum ↔ k ≤ tier_of max cum.
Proof.
  intros [Hc Hm] Hk Hp. unfold threshold_of, tier_of. pose proof (pow_pos k Hk) as H2.
  set (r := Z.max 1 (max - cum)). assert (1 ≤ r ≤ max) as Hr by lia.
  assert (0 < max / r) as Hq by (apply Z.div_str_pos; lia).
  rewrite <- Z.log2_le_pow2 by done.
  transitivity (r ≤ max / 2 ^ k); [lia|].
  split; intros H.
  - apply Z.div_le_lower_bound; [lia|].
    pose proof (Z.mul_div_le max (2 ^ k) H2). nia.
  - apply Z.div_le_lower_bound; [lia|].
    pose proof (Z.mul_div_le max r ltac:(lia)). nia.
Qed.

Lemma tier_nonneg max cum : 0 ≤ tier_of max cum.
Proof. apply Z.log2_nonneg. Qed.

Lemma tier_bound max cum : supply_ok max cum → tier_of max cum ≤ 255.
Proof.
  intros [Hc Hm]. unfold tier_of.
  assert (max / Z.max 1 (max - cum) ≤ max) as H by (apply Z.div_le_upper_bound; nia).
  transitivity (Z.log2 (2 ^ 256 - 1)); [apply Z.log2_le_mono; lia | by vm_compute].
Qed.

Lemma div_pow_zero max k : 0 ≤ max < 2 ^ 256 → 256 ≤ k → max / 2 ^ k = 0.
Proof.
  intros Hm Hk. apply Z.div_small. split; [lia|].
  apply Z.lt_le_trans with (2 ^ 256); [lia|]. by apply Z.pow_le_mono_r.
Qed.

Lemma div_pow_mono max j k : 0 ≤ max → 0 ≤ j ≤ k → max / 2 ^ k ≤ max / 2 ^ j.
Proof.
  intros Hm Hj. apply Z.div_le_compat_l; [done|].
  split; [apply pow_pos; lia | apply Z.pow_le_mono_r; lia].
Qed.

Lemma div_pow_range max k : 0 ≤ max → 0 ≤ k → 0 ≤ max / 2 ^ k ≤ max.
Proof.
  intros Hm Hk. pose proof (pow_pos k Hk). split; [apply Z.div_pos; lia|].
  apply Z.div_le_upper_bound; nia.
Qed.

Lemma tier_pow_le max cum : supply_ok max cum → 1 ≤ max / 2 ^ tier_of max cum.
Proof.
  intros [Hc Hm]. unfold tier_of. set (q := max / Z.max 1 (max - cum)).
  assert (0 < q) as Hq by (apply Z.div_str_pos; lia).
  pose proof (Z.log2_spec q Hq) as [Hlo _].
  assert (q ≤ max) by (apply Z.div_le_upper_bound; nia).
  apply Z.div_le_lower_bound; [apply pow_pos, Z.log2_nonneg | lia].
Qed.

(** Where nothing is left to halve, the tier has not been reached. *)
Lemma tier_lt_exhausted max cum k :
  supply_ok max cum → 0 ≤ k → max / 2 ^ k = 0 → tier_of max cum < k.
Proof.
  intros Hs Hk Hz. apply Z.nle_gt. intros Hle.
  pose proof (tier_pow_le max cum Hs). destruct Hs as [Hc Hm].
  pose proof (div_pow_mono max k (tier_of max cum) ltac:(lia) ltac:(lia)). lia.
Qed.
End arithmetic.

(** ** The code computes the closed forms *)
Section closed_forms.
Context {SI : SdkInt}.
Implicit Types (max cum k init : Z).

Lemma validateSupply_Ok max cum :
  supply_ok max cum → validateSupply (Some cum) (Some max) = Ok tt.
Proof.
  intros [Hc Hm]. simpl. rewrite !Z.gtb_ltb.
  destruct (Z.ltb_spec 0 max), (Z.ltb_spec cum 0), (Z.ltb_spec max cum); done || lia.
Qed.

Lemma validateEmissionInputs_Ok max cum init :
  supply_ok max cum → subsidy_ok init →
  validateEmissionInputs (Some cum) (Some max) (Some init) = Ok tt.
Proof.
  intros Hs [Hi _]. unfold validateEmissionInputs. rewrite validateSupply_Ok by done. simpl.
  by destruct (Z.ltb_spec init 0); [lia|].
Qed.

Lemma isub_max max cum k : supply_ok max cum → 0 ≤ k →
  isub max (max / 2 ^ k) = Ok (threshold_of max k).
Proof.
  intros [Hc Hm] Hk. apply isub_Ok. split; [done|].
  pose proof (div_pow_range max k ltac:(lia) Hk). int_solve.
Qed.

Lemma iquo_half z : 0 ≤ z < 2 ^ 256 → iquo z 2 = Ok (z / 2).
Proof.
  intros Hz. apply iquo_Ok; [done|]. rewrite quot_half by lia. split; [done|].
  pose proof (Z.div_pos z 2 ltac:(lia) ltac:(lia)).
  assert (z / 2 ≤ z) by (apply Z.div_le_upper_bound; lia). int_solve.
Qed.

Lemma iquo_half_pow max cum k : supply_ok max cum → 0 ≤ k →
  iquo (max / 2 ^ k) 2 = Ok (max / 2 ^ (k + 1)).
Proof.
  intros [Hc Hm] Hk. pose proof (div_pow_range max k ltac:(lia) Hk).
  rewrite iquo_half by lia. by rewrite half_pow.
Qed.

(** One test of the two threshold loops. *)
Lemma threshold_test max cum k :
  supply_ok max cum → 0 ≤ k → 0 < max / 2 ^ k →
  (cum <? threshold_of max k) = (tier_of max cum <? k).
Proof.
  intros Hs Hk Hp. pose proof (reached_iff max cum k Hs Hk Hp).
  destruct (Z.ltb_spec cum (threshold_of max k)), (Z.ltb_spec (tier_of max cum) k); lia.
Qed.

Lemma tier_loop_spec fuel max cum k :
  supply_ok max cum → 1 ≤ k ≤ tier_of max cum + 1 → 258 - k ≤ Z.of_nat fuel →
  tier_loop fuel cum max (max / 2 ^ k) (k - 1) = Ok (tier_of max cum).
Proof.
  intros Hs. revert k. induction fuel as [|fuel IH]; intros k Hk Hf;
    pose proof (tier_bound max cum Hs) as Ht; [lia|].
  simpl. rewrite Z.gtb_ltb. destruct (Z.ltb_spec 0 (max / 2 ^ k)) as [Hp|Hp].
  - rewrite (isub_max max cum) by (done || lia). simpl.
    rewrite threshold_test by (done || lia).
    destruct (Z.ltb_spec (tier_of max cum) k).
    + simpl. unfold mret, res_ret. f_equal. lia.
    + rewrite (iquo_half_pow max cum) by (done || lia). simpl.
      rewrite u64_small by (widths; lia).
      replace (k - 1 + 1) with (k + 1 - 1) by lia. apply IH; lia.
  - destruct Hs as [Hc Hm] eqn:E. pose proof (div_pow_range max k ltac:(lia) ltac:(lia)).
    pose proof (tier_lt_exhausted max cum k (conj Hc Hm) ltac:(lia) ltac:(lia)).
    unfold mret, res_ret. f_equal. lia.
Qed.

Lemma HalvingTier_spec max cum :
  supply_ok max cum → HalvingTier (Some cum) (Some max) = Ok (tier_of max cum).
Proof.
  intros Hs. unfold HalvingTier. rewrite validateSupply_Ok by done. cbn [mbind res_bind deref].
  pose proof (iquo_half_pow max cum 0 Hs ltac:(lia)) as H.
  rewrite Z.pow_0_r, Z.div_1_r in H. rewrite H. cbn [mbind res_bind].
  apply (tier_loop_spec halving_fuel max cum 1); [done | | unfold halving_fuel; lia].
  pose proof (tier_nonneg max cum). lia.
Qed.

Lemma threshold_loop_spec fuel max cum k :
  supply_ok max cum → 1 ≤ k ≤ tier_of max cum + 1 → 258 - k ≤ Z.of_nat fuel →
  threshold_loop fuel cum max (max / 2 ^ k) = Ok (threshold_of max (tier_of max cum + 1)).
Proof.
  intros Hs. revert k. induction fuel as [|fuel IH]; intros k Hk Hf;
    pose proof (tier_bound max cum Hs) as Ht; [lia|].
  simpl. rewrite Z.gtb_ltb. destruct (Z.ltb_spec 0 (max / 2 ^ k)) as [Hp|Hp].
  - rewrite (isub_max max cum) by (done || lia). simpl.
    rewrite threshold_test by (done || lia).
    destruct (Z.ltb_spec (tier_of max cum) k).
    + unfold mret, res_ret. do 2 f_equal. lia.
    + rewrite (iquo_half_pow max cum) by (done || lia). simpl. apply IH; lia.
  - destruct Hs as [Hc Hm]. pose proof (div_pow_range max k ltac:(lia) ltac:(lia)).
    pose proof (tier_lt_exhausted max cum k (conj Hc Hm) ltac:(lia) ltac:(lia)).
    unfold mret, res_ret, threshold_of.
    replace (tier_of max cum + 1) with k by lia. f_equal. lia.
Qed.

Lemma NextHalvingThreshold_spec max cum :
  supply_ok max cum → NextHalvingThreshold (Some cum) (Some max) =
    Ok (if cum =? max then (0, false) else (threshold_of max (tier_of max cum + 1), true)).
Proof.
  intros Hs. unfold NextHalvingThreshold. rewrite validateSupply_Ok by done. cbn [mbind res_bind deref].
  destruct (Z.eqb_spec cum max); [done|].
  pose proof (iquo_half_pow max cum 0 Hs ltac:(lia)) as H.
  rewrite Z.pow_0_r, Z.div_1_r in H. rewrite H. cbn [mbind res_bind].
  change (max / 2 ^ (0 + 1)) with (max / 2 ^ 1).
  rewrite threshold_loop_spec; [done | done | | unfold halving_fuel; lia].
  pose proof (tier_nonneg max cum). lia.
Qed.

Lemma halve_loop_spec n z :
  0 ≤ z < 2 ^ 256 → halve_loop n z = Ok (z / 2 ^ Z.of_nat n).
Proof.
  revert z. induction n as [|n IH]; intros z Hz; simpl halve_loop.
  - change (Z.of_nat 0) with 0. by rewrite Z.pow_0_r, Z.div_1_r.
  - rewrite Z.gtb_ltb. destruct (Z.ltb_spec 0 z).
    + rewrite iquo_half by done. cbn [mbind res_bind]. rewrite IH.
      * rewrite Nat2Z.inj_succ. rewrite Z.div_div by (try apply pow_pos; lia).
        by rewrite Z.pow_succ_r by lia.
      * split; [apply Z.div_pos; lia|]. apply Z.div_lt_upper_bound; lia.
    + assert (z = 0) as -> by lia. by rewrite Z.div_0_l by (pose proof (pow_pos (Z.of_nat (S n))); lia).
Qed.

(** The next threshold lies above what is emitted and at most at the supply. *)
Lemma next_threshold_bounds max cum :
  supply_ok max cum → cum ≠ max → cum < threshold_of max (tier_of max cum + 1) ≤ max.
Proof.
  intros Hs Hne. pose proof (tier_nonneg max cum) as Ht.
  destruct (Z.eq_dec (max / 2 ^ (tier_of max cum + 1)) 0) as [Hz|Hz].
  { unfold threshold_of. rewrite Hz. destruct Hs. lia. }
  pose proof Hs as [Hc Hm].
  pose proof (div_pow_range max (tier_of max cum + 1) ltac:(lia) ltac:(lia)).
  pose proof (reached_iff max cum (tier_of max cum + 1) Hs ltac:(lia) ltac:(lia)).
  split; [lia|]. unfold threshold_of. lia.
Qed.

Lemma NextBlockSubsidy_spec max cum init :
  supply_ok max cum → subsidy_ok init →
  NextBlockSubsidy (Some cum) (Some max) (Some init) = Ok (subsidy_of max init cum).
Proof.
  intros Hs Hi. unfold NextBlockSubsidy, subsidy_of.
  rewrite validateEmissionInputs_Ok by done. cbn [mbind res_bind deref].
  pose proof (tier_nonneg max cum) as Ht. destruct Hi as [Hi0 Hi1].
  destruct (Z.eqb_spec cum max) as [->|Hne]; [done|]. cbn [orb].
  pose proof (next_threshold_bounds max cum Hs Hne) as Hb.
  destruct (Z.eqb_spec init 0) as [->|Hi0'].
  { rewrite Z.div_0_l by (pose proof (pow_pos (tier_of max cum)); lia).
    unfold mret, res_ret. f_equal. lia. }
  rewrite HalvingTier_spec by done. cbn [mbind res_bind].
  rewrite halve_loop_spec by done. cbn [mbind res_bind]. rewrite Z2Nat.id by done.
  pose proof (div_pow_range init (tier_of max cum) Hi0 Ht) as Hr.
  destruct (Z.eqb_spec (init / 2 ^ tier_of max cum) 0) as [->|Hz].
  { unfold mret, res_ret. f_equal. lia. }
  rewrite NextHalvingThreshold_spec by done.
  destruct (Z.eqb_spec cum max); [done|]. cbn [mbind res_bind].
  set (thr := threshold_of max (tier_of max cum + 1)) in *.
  destruct Hs as [Hc Hm].
  assert (isub max cum = Ok (max - cum)) as -> by (apply isub_Ok; split; [done | int_solve]).
  cbn [mbind res_bind].
  assert (isub thr cum = Ok (thr - cum)) as -> by (apply isub_Ok; split; [done | int_solve]).
  cbn [mbind res_bind mret res_ret]. rewrite Z.gtb_ltb.
  destruct (Z.ltb_spec (thr - cum) (max - cum));
    match goal with |- context [?a <? ?b] => destruct (Z.ltb_spec a b) end; f_equal; lia.
Qed.
End closed_forms.

(** ** The reference schedule *)
Section schedule.
Implicit Types (max cum init : Z).

Lemma subsidy_nonneg max init cum :
  supply_ok max cum → subsidy_ok init → 0 ≤ subsidy_of max init cum ≤ max - cum.
Proof.
  intros Hs Hi. unfold subsidy_of. destruct (Z.eqb_spec cum max); [lia|].
  pose proof (next_threshold_bounds max cum Hs n).
  pose proof (div_pow_range init (tier_of max cum) ltac:(apply Hi) (tier_nonneg _ _)). lia.
Qed.

Lemma subsidy_supply_ok max init cum :
  supply_ok max cum → subsidy_ok init → supply_ok max (cum + subsidy_of max init cum).
Proof.
  intros Hs Hi. pose proof (subsidy_nonneg max init cum Hs Hi).
  destruct Hs. split; lia.
Qed.

Lemma emit_supply_ok max init n cum :
  supply_ok max cum → subsidy_ok init → supply_ok max (emit max init n cum).
Proof.
  revert cum. induction n as [|n IH]; intros cum Hs Hi; simpl; [done|].
  apply IH; [by apply subsidy_supply_ok | done].
Qed.

Lemma emit_mono max init n cum :
  supply_ok max cum → subsidy_ok init → cum ≤ emit max init n cum.
Proof.
  revert cum. induction n as [|n IH]; intros cum Hs Hi; simpl; [done|].
  pose proof (subsidy_nonneg max init cum Hs Hi).
  pose proof (IH _ (subsidy_supply_ok max init cum Hs Hi) Hi). lia.
Qed.

Lemma emit_stuck max init n cum :
  subsidy_of max init cum = 0 → emit max init n cum = cum.
Proof.
  intros H. induction n as [|n IH]; simpl; [done|]. by rewrite H, Z.add_0_r.
Qed.

Lemma emit_add max init n m cum :
  emit max init (n + m) cum = emit max init m (emit max init n cum).
Proof. revert cum. induction n as [|n IH]; intros cum; simpl; [done | apply IH]. Qed.

(** The tier never skips a threshold: a block ends at most at the next one. *)
Lemma subsidy_below_threshold max init cum :
  supply_ok max cum → subsidy_ok init → cum ≠ max →
  cum + subsidy_of max init cum ≤ threshold_of max (tier_of max cum + 1).
Proof.
  intros Hs Hi Hne. unfold subsidy_of. destruct (Z.eqb_spec cum max); [done|]. lia.
Qed.

Lemma threshold_mono max j k : 0 ≤ max → 0 ≤ j ≤ k → threshold_of max j ≤ threshold_of max k.
Proof.
  intros Hm Hj. unfold threshold_of. pose proof (div_pow_mono max j k Hm Hj). lia.
Qed.

(** Emission stops exactly at [final_supply]. *)
Lemma subsidy_positive_iff max init cum :
  supply_ok max cum → 0 < init < 2 ^ 256 → cum ≠ max →
  0 < subsidy_of max init cum ↔ tier_of max cum ≤ Z.log2 init.
Proof.
  intros Hs Hi Hne. unfold subsidy_of. destruct (Z.eqb_spec cum max); [done|].
  pose proof (next_threshold_bounds max cum Hs Hne).
  pose proof (tier_nonneg max cum) as Ht. pose proof (pow_pos _ Ht).
  rewrite <- Z.log2_le_pow2 by lia.
  assert (0 < init / 2 ^ tier_of max cum ↔ 2 ^ tier_of max cum ≤ init); [|lia].
  split; intros Hx.
  - pose proof (Z.mul_div_le init (2 ^ tier_of max cum) ltac:(lia)). nia.
  - apply Z.div_str_pos. lia.
Qed.

Lemma below_final_iff max init cum :
  supply_ok max cum → 0 < init → cum ≠ max →
  cum < final_supply max init ↔ tier_of max cum ≤ Z.log2 init.
Proof.
  intros Hs Hi Hne. unfold final_supply. pose proof (Z.log2_nonneg init) as Hl.
  destruct (Z.eq_dec (max / 2 ^ (Z.log2 init + 1)) 0) as [Hz|Hz].
  - pose proof (tier_lt_exhausted max cum (Z.log2 init + 1) Hs ltac:(lia) Hz).
    unfold threshold_of. rewrite Hz. destruct Hs. lia.
  - pose proof (div_pow_range max (Z.log2 init + 1) ltac:(destruct Hs; lia) ltac:(lia)).
    pose proof (reached_iff max cum (Z.log2 init + 1) Hs ltac:(lia) ltac:(lia)). lia.
Qed.

Lemma step_stays_below_final max init cum :
  supply_ok max cum → 0 < init < 2 ^ 256 → cum ≤ final_supply max init →
  cum + subsidy_of max init cum ≤ final_supply max init ∧
  (cum < final_supply max init → 0 < subsidy_of max init cum).
Proof.
  intros Hs Hi Hle. destruct (Z.eq_dec cum max) as [->|Hne].
  { unfold subsidy_of. rewrite Z.eqb_refl. unfold final_supply, threshold_of in *.
    pose proof (div_pow_range max (Z.log2 init + 1) ltac:(destruct Hs; lia)
      ltac:(pose proof (Z.log2_nonneg init); lia)). lia. }
  pose proof (below_final_iff max init cum Hs ltac:(lia) Hne) as Hb.
  pose proof (subsidy_positive_iff max init cum Hs Hi Hne) as Hp.
  pose proof (tier_nonneg max cum).
  split; [|tauto].
  destruct (Z.eq_dec (subsidy_of max init cum) 0) as [->|Hz]; [lia|].
  pose proof (subsidy_nonneg max init cum Hs ltac:(unfold subsidy_ok; lia)).
  pose proof (subsidy_below_threshold max init cum Hs ltac:(unfold subsidy_ok; lia) Hne).
  pose proof (threshold_mono max (tier_of max cum + 1) (Z.log2 init + 1)
    ltac:(destruct Hs; lia) ltac:(lia)).
  unfold final_supply. lia.
Qed.

Lemma emit_final max init n cum :
  supply_ok max cum → 0 < init < 2 ^ 256 → cum ≤ final_supply max init →
  final_supply max init - cum ≤ Z.of_nat n →
  emit max init n cum = final_supply max init.
Proof.
  revert cum. induction n as [|n IH]; intros cum Hs Hi Hle Hn; simpl; [lia|].
  pose proof (step_stays_below_final max init cum Hs Hi Hle) as [H1 H2].
  assert (subsidy_ok init) as Hi' by (unfold subsidy_ok; lia).
  pose proof (subsidy_nonneg max init cum Hs Hi').
  apply IH; [by apply subsidy_supply_ok | done | done |].
  destruct (Z.eq_dec cum (final_supply max init)); lia.
Qed.
End schedule.

Section epoch_emission.
Context {SI : SdkInt}.

Lemma emission_loop_spec n max init e cum :
  supply_ok max cum → subsidy_ok init → 0 ≤ e ≤ cum →
  emission_loop n (Some max) (Some init) e cum =
    Ok (e + (emit max init n cum - cum), emit max init n cum).
Proof.
  revert e cum. induction n as [|n IH]; intros e cum Hs Hi He; simpl.
  { unfold mret, res_ret. f_equal. f_equal. lia. }
  rewrite NextBlockSubsidy_spec by done. cbn [mbind res_bind].
  pose proof (subsidy_nonneg max init cum Hs Hi) as Hb.
  destruct (Z.eqb_spec (subsidy_of max init cum) 0) as [Hz|Hz].
  { rewrite Hz, Z.add_0_r, emit_stuck by done. unfold mret, res_ret. do 2 f_equal. lia. }
  pose proof Hs as [Hc Hm].
  assert (iadd e (subsidy_of max init cum) = Ok (e + subsidy_of max init cum)) as ->
    by (apply iadd_Ok; split; [done | int_solve]).
  cbn [mbind res_bind].
  assert (iadd cum (subsidy_of max init cum) = Ok (cum + subsidy_of max init cum)) as ->
    by (apply iadd_Ok; split; [done | int_solve]).
  cbn [mbind res_bind]. rewrite IH by (done || lia || by apply subsidy_supply_ok).
  do 2 f_equal. lia.
Qed.

Lemma ComputeEpochEmission_spec cum n max init :
  supply_ok max cum → subsidy_ok init →
  ComputeEpochEmission (Some cum) n (Some max) (Some init) HALVING_MODE_SUPPLY_THRESHOLD =
    Ok (emit max init (Z.to_nat n) cum - cum, emit max init (Z.to_nat n) cum).
Proof.
  intros Hs Hi. unfold ComputeEpochEmission.
  rewrite bool_decide_eq_false_2 by naive_solver. cbn [mbind res_bind fail_if mret res_ret].
  rewrite validateEmissionInputs_Ok by done. cbn [mbind res_bind deref].
  rewrite emission_loop_spec; [done | done | done | destruct Hs; lia].
Qed.
End epoch_emission.

(** ** Properties *)

(** C22: for every supply and amount already emitted in range, the code's loops
    compute the closed forms: the tier is the base-2 logarithm of
    [max / max(1, remaining)], the next threshold is the supply less its
    [tier + 1]-fold halving, the block subsidy is the initial subsidy halved
    [tier] times, clipped so that a block ends at most at that threshold, and
    nothing overflows or runs out of iterations on the way. *)
Theorem emission_schedule_closed_form {SI : SdkInt} (max init cum : Z) :
  0 ≤ cum ≤ max → 0 < max < 2 ^ 256 → 0 ≤ init < 2 ^ 256 →
  HalvingTier (Some cum) (Some max) = Ok (tier_of max cum) ∧
  NextHalvingThreshold (Some cum) (Some max) =
    Ok (if cum =? max then (0, false) else (threshold_of max (tier_of max cum + 1), true)) ∧
  NextBlockSubsidy (Some cum) (Some max) (Some init) = Ok (subsidy_of max init cum) ∧
  (cum < max → cum < threshold_of max (tier_of max cum + 1) ∧
     cum + subsidy_of max init cum ≤ threshold_of max (tier_of max cum + 1) ≤ max).
Proof.
  intros Hc Hm Hi. assert (supply_ok max cum) as Hs by done.
  split_and!; auto using HalvingTier_spec, NextHalvingThreshold_spec, NextBlockSubsidy_spec.
  intros Hlt. assert (cum ≠ max) as Hne by lia.
  pose proof (next_threshold_bounds max cum Hs Hne).
  pose proof (subsidy_below_threshold max init cum Hs Hi Hne). lia.
Qed.

Lemma emission_schedule_closed_form_witness :
  @HalvingTier sdkint_256 (Some 600) (Some 1000) = Ok 1 ∧
  @NextHalvingThreshold sdkint_256 (Some 600) (Some 1000) = Ok (750, true) ∧
  @NextBlockSubsidy sdkint_256 (Some 700) (Some 1000) (Some 120) = Ok 50.
Proof.
  split_and!.
  - apply (@emission_schedule_closed_form sdkint_256 1000 120 600); lia.
  - apply (@emission_schedule_closed_form sdkint_256 1000 120 600); lia.
  - apply (@emission_schedule_closed_form sdkint_256 1000 120 700); lia.
Defined.

(** The epoch emission is total on in-range inputs, never negative, never
    takes the cumulative amount above the maximum supply, and depends only on the
    number of blocks: emitting [n] blocks and then [m] more equals emitting
    [n + m], so epoch boundaries do not affect what is minted. *)
Theorem epoch_emission_bounded_and_additive {SI : SdkInt} (max init cum n m : Z) :
  0 ≤ cum ≤ max → 0 < max < 2 ^ 256 → 0 ≤ init < 2 ^ 256 → 0 ≤ n → 0 ≤ m →
  let epoch c k := ComputeEpochEmission (Some c) k (Some max) (Some init)
    HALVING_MODE_SUPPLY_THRESHOLD in
  ∃ e1 e2,
    epoch cum n = Ok (e1, cum + e1) ∧
    epoch (cum + e1) m = Ok (e2, cum + e1 + e2) ∧
    epoch cum (n + m) = Ok (e1 + e2, cum + e1 + e2) ∧
    0 ≤ e1 ∧ 0 ≤ e2 ∧ cum + e1 + e2 ≤ max.
Proof.
  intros Hc Hm Hi Hn Hm' epoch. unfold epoch. assert (supply_ok max cum) as Hs by done.
  set (c1 := emit max init (Z.to_nat n) cum). set (c2 := emit max init (Z.to_nat m) c1).
  assert (supply_ok max c1) as Hs1 by (by apply emit_supply_ok).
  assert (supply_ok max c2) as [? _] by (by apply emit_supply_ok).
  pose proof (emit_mono max init (Z.to_nat n) cum Hs Hi). fold c1 in H0.
  pose proof (emit_mono max init (Z.to_nat m) c1 Hs1 Hi). fold c2 in H1.
  exists (c1 - cum), (c2 - c1).
  replace (cum + (c1 - cum)) with c1 by lia. replace (c1 + (c2 - c1)) with c2 by lia.
  rewrite !ComputeEpochEmission_spec by done.
  rewrite Z2Nat.inj_add, emit_add by done. fold c1 c2.
  split_and!; try done; try lia. do 2 f_equal. lia.
Qed.

Lemma epoch_emission_bounded_and_additive_witness :
  ∃ e1 e2,
    @ComputeEpochEmission sdkint_256 (Some 0) 3 (Some 1000) (Some 120)
      HALVING_MODE_SUPPLY_THRESHOLD = Ok (e1, 0 + e1) ∧ 0 + e1 + e2 ≤ 1000.
Proof.
  destruct (@epoch_emission_bounded_and_additive sdkint_256 1000 120 0 3 4)
    as (e1 & e2 & H1 & _ & _ & _ & _ & H2); try lia.
  exists e1, e2. split; [exact H1 | exact H2].
Defined.

(** C39: emission reaches its limit and stops there: with a positive initial
    subsidy, from any cumulative amount up to the first threshold at which the
    halved subsidy is zero, enough blocks bring the cumulative amount exactly to
    that threshold, and any number of further blocks mints nothing. *)
Theorem emission_reaches_final_supply {SI : SdkInt} (max init cum n m : Z) :
  0 ≤ cum ≤ final_supply max init → 0 < max < 2 ^ 256 → 0 < init < 2 ^ 256 →
  final_supply max init - cum ≤ n → 0 ≤ m →
  ComputeEpochEmission (Some cum) n (Some max) (Some init) HALVING_MODE_SUPPLY_THRESHOLD =
    Ok (final_supply max init - cum, final_supply max init) ∧
  ComputeEpochEmission (Some (final_supply max init)) m (Some max) (Some init)
    HALVING_MODE_SUPPLY_THRESHOLD = Ok (0, final_supply max init).
Proof.
  intros Hc Hm Hi Hn Hm'.
  assert (0 ≤ final_supply max init ≤ max) as Hf.
  { unfold final_supply, threshold_of.
    pose proof (div_pow_range max (Z.log2 init + 1) ltac:(lia)
      ltac:(pose proof (Z.log2_nonneg init); lia)). lia. }
  assert (supply_ok max cum) by (split; lia).
  assert (supply_ok max (final_supply max init)) by (split; lia).
  assert (subsidy_ok init) by (unfold subsidy_ok; lia).
  rewrite !ComputeEpochEmission_spec by done.
  rewrite !emit_final by (done || lia). by rewrite Z.sub_diag.
Qed.

Lemma emission_reaches_final_supply_witness :
  @ComputeEpochEmission sdkint_256 (Some 0) 1000 (Some 1000) (Some 7)
    HALVING_MODE_SUPPLY_THRESHOLD = Ok (875, 875).
Proof.
  apply (@emission_reaches_final_supply sdkint_256 1000 7 0 1000 0);
    vm_compute; try (split; discriminate); try (split; reflexivity); discriminate.
Defined.
