(* ===== verification/Allocation.v ===== *)
(** * x/rewards/keeper: how an epoch's emission is divided

    The pure part of finalization: [treasury.go]'s treasury share, [pool.go]'s
    reward pool, [distribution.go]'s largest-floor allocation over the
    participation rows, and the conservation check of [finalize.go]. *)
From S2P Require Import Prelude SdkMath Bounds EconomicAddress RewardsTypes.
Local Open Scope Z_scope.

(** [SlotRewardSnapshot] of [coreslot_reader.go] *)
Record SlotRewardSnapshot := {
  SRS_SlotID : Z;
  SRS_OperatorAddress : AccAddress;
  SRS_PayoutAddress : AccAddress;
  SRS_Status : SlotStatus;
  SRS_ActivationSequence : Z
}.

Section allocation.
Context {SI : SdkInt} {BE : Bech32}.

Definition ComputeEmissionTreasuryAmount (emission : option Z) (shareBps : Z) : res Z :=
  match emission with
  | None => Err RwInvalidState
  | Some emission =>
      fail_if (emission <? 0) RwInvalidState ;;
      fail_if (shareBps >? MaxBasisPoints) RwInvalidParams ;;
      product ← imul emission (i64 shareBps);
      iquo product (i64 MaxBasisPoints)
  end.

(** One operand check of [ComputeRewardPoolV2]. *)
Definition pool_operand (value : option Z) : res Z :=
  match value with
  | None => Err RwInvalidState
  | Some v => fail_if (v <? 0) RwInvalidState ;; mret v
  end.

Definition ComputeRewardPoolV2 (mintedEmission treasuryAmount carryIn : option Z) : res Z :=
  minted ← pool_operand mintedEmission;
  treasury ← pool_operand treasuryAmount;
  carry ← pool_operand carryIn;
  fail_if (treasury >? minted) RwInvalidState ;;
  distributable ← or_err RwInvalidState (Int_SafeSub minted treasury);
  or_err RwInvalidState (Int_SafeAdd distributable carry).

Definition row_le (a b : SlotActiveBlocks) : Prop := AB_SlotId a ≤ AB_SlotId b.
#[export] Instance row_le_dec : RelDecision row_le.
Proof. intros a b. unfold row_le. apply _. Defined.

(** The first loop: total weight and number of positive rows. *)
Definition weigh (acc : Z * Z) (row : SlotActiveBlocks) : res (Z * Z) :=
  let '(totalWeight, nPos) := acc in
  if AB_BlocksActive row >? 0 then
    totalWeight ← iadd totalWeight (AB_BlocksActive row);
    mret (totalWeight, u64 (nPos + 1))
  else mret (totalWeight, nPos).

(** The second loop: one entitlement per row with a positive share. *)
Definition allocate_row (epoch pool totalWeight : Z) (snapshots : gmap Z SlotRewardSnapshot)
    (rewardConfigVersion createdHeight : Z)
    (acc : list SlotEntitlement * Z) (row : SlotActiveBlocks)
    : res (list SlotEntitlement * Z) :=
  let '(entitlements, allocated) := acc in
  if AB_BlocksActive row =? 0 then mret (entitlements, allocated)
  else
    match snapshots !! AB_SlotId row with
    | None => Err RwInvalidState
    | Some snapshot =>
        product ← imul pool (AB_BlocksActive row);
        amount ← iquo product totalWeight;
        allocated ← iadd allocated amount;
        if amount =? 0 then mret (entitlements, allocated)
        else
          mret (entitlements ++ [{|
            Ent_SlotId := AB_SlotId row;
            Ent_Epoch := epoch;
            Ent_TotalBlocksActive := AB_BlocksActive row;
            Ent_EntitlementAmount := Int_String amount;
            Ent_ReleasedAmount := "0"%string;
            Ent_PayoutAddress := AccAddress_String (SRS_PayoutAddress snapshot);
            Ent_RewardConfigVersion := rewardConfigVersion;
            Ent_SlotStatusAtEpochClose := SRS_Status snapshot;
            Ent_ActivationSequenceAtEpochClose := SRS_ActivationSequence snapshot;
            Ent_CreatedHeight := createdHeight |}], allocated)
    end.

(** Result: entitlements, allocated amount, carried remainder, positive rows. *)
Definition AllocateSlotEntitlements (epoch : Z) (pool : option Z)
    (rows : list SlotActiveBlocks) (snapshots : gmap Z SlotRewardSnapshot)
    (rewardConfigVersion createdHeight : Z) : res (list SlotEntitlement * Z * Z * Z) :=
  match pool with
  | None => Err RwInvalidState
  | Some pool =>
      fail_if (pool <? 0) RwInvalidState ;;
      let rows := merge_sort row_le rows in
      '(totalWeight, nPos) ← fold_m weigh rows (0, 0);
      if totalWeight =? 0 then mret ([], 0, pool, 0)
      else
        '(entitlements, allocated) ←
          fold_m (allocate_row epoch pool totalWeight snapshots rewardConfigVersion
            createdHeight) rows ([], 0);
        carryOut ← isub pool allocated;
        mret (entitlements, allocated, carryOut, nPos)
  end.

Definition assertAllocationConservation (pool allocated carryOut nPos : Z) : res unit :=
  fail_if (allocated <? 0) RwInvalidState ;;
  fail_if (allocated >? pool) RwInvalidState ;;
  fail_if (carryOut <? 0) RwInvalidState ;;
  if nPos =? 0 then mret tt
  else
    bound ← isub nPos 1;
    fail_if (carryOut >? bound) RwInvalidState.
End allocation.

(** ** Reference definitions *)

Definition positive (rows : list SlotActiveBlocks) : list SlotActiveBlocks :=
  base.filter (λ r, 0 < AB_BlocksActive r) rows.
Definition weight_of (rows : list SlotActiveBlocks) : Z := sum_of AB_BlocksActive rows.
(** The floor share of one row. *)
Definition share (pool total : Z) (row : SlotActiveBlocks) : Z :=
  pool * AB_BlocksActive row / total.
Definition rows_ok (rows : list SlotActiveBlocks) : Prop :=
  Forall (λ r, is_u64 (AB_BlocksActive r)) rows.

Section reference.
Context {SI : SdkInt} {BE : Bech32}.
Context (epoch pool total : Z) (snapshots : gmap Z SlotRewardSnapshot).
Context (rewardConfigVersion createdHeight : Z).

(** The entitlement one participation row earns, if its share is positive. *)
Definition entitlement_for (row : SlotActiveBlocks) : option SlotEntitlement :=
  snapshot ← snapshots !! AB_SlotId row;
  if share pool total row =? 0 then None
  else Some {|
    Ent_SlotId := AB_SlotId row;
    Ent_Epoch := epoch;
    Ent_TotalBlocksActive := AB_BlocksActive row;
    Ent_EntitlementAmount := Int_String (share pool total row);
    Ent_ReleasedAmount := "0"%string;
    Ent_PayoutAddress := AccAddress_String (SRS_PayoutAddress snapshot);
    Ent_RewardConfigVersion := rewardConfigVersion;
    Ent_SlotStatusAtEpochClose := SRS_Status snapshot;
    Ent_ActivationSequenceAtEpochClose := SRS_ActivationSequence snapshot;
    Ent_CreatedHeight := createdHeight |}.
End reference.

(** ** The floor shares *)
Section shares.
Implicit Types (rows : list SlotActiveBlocks).

Lemma weight_of_positive rows :
  rows_ok rows → weight_of (positive rows) = weight_of rows ∧ 0 ≤ weight_of rows.
Proof.
  unfold weight_of, positive. induction 1 as [|r rows Hr _ [IH1 IH2]]; simpl; [done|].
  rewrite filter_cons. case_decide; simpl; widths; lia.
Qed.

Lemma positive_elem rows r : r ∈ positive rows ↔ r ∈ rows ∧ 0 < AB_BlocksActive r.
Proof. unfold positive. rewrite list_elem_of_filter. tauto. Qed.

Lemma rows_ok_positive rows : rows_ok rows → rows_ok (positive rows).
Proof.
  unfold rows_ok. rewrite !Forall_forall. intros H r Hr.
  apply positive_elem in Hr as [? _]. auto.
Qed.

(** The floors of the shares lose less than one unit per positive row. *)
Lemma shares_sum_bounds pool total rows :
  0 ≤ pool → 0 < total → rows_ok rows →
  let q := sum_of (share pool total) rows in
  0 ≤ q ∧ total * q ≤ pool * weight_of rows ≤ total * q + (total - 1) * Z.of_nat (length rows).
Proof.
  intros Hp Ht. induction 1 as [|r rows Hr Hrs IH]; simpl; [unfold weight_of; simpl; lia|].
  unfold weight_of in *. simpl in *.
  assert (share pool total r = pool * AB_BlocksActive r / total) as Hsh by done.
  set (w := AB_BlocksActive r) in *. assert (0 ≤ w) by (widths; lia).
  pose proof (Z.div_mod (pool * w) total ltac:(lia)).
  pose proof (Z.mod_pos_bound (pool * w) total Ht).
  pose proof (Z.div_pos (pool * w) total ltac:(nia) Ht). 
  set (m := (pool * w) mod total) in *. rewrite <- Hsh in *.
  set (q := share pool total r) in *.
  set (qs := sum_of (share pool total) rows) in *. nia.
Qed.

Lemma carry_bounds pool rows :
  0 ≤ pool → rows_ok rows → 0 < weight_of rows →
  let allocated := sum_of (share pool (weight_of rows)) (positive rows) in
  0 ≤ allocated ≤ pool ∧ pool - allocated ≤ Z.of_nat (length (positive rows)) - 1.
Proof.
  intros Hp Hr Hw. destruct (weight_of_positive rows Hr) as [Hwp _].
  destruct (shares_sum_bounds pool (weight_of rows) (positive rows)) as [H1 H2];
    [done | done | by apply rows_ok_positive |].
  rewrite Hwp in H2. simpl.
  assert (1 ≤ Z.of_nat (length (positive rows))) as Hn.
  { destruct (positive rows); simpl; [unfold weight_of in *; simpl in *; lia | lia]. }
  set (T := weight_of rows) in *. set (n := Z.of_nat (length (positive rows))) in *.
  set (q := sum_of (share pool T) (positive rows)) in *.
  assert (q ≤ pool) by nia. assert (pool - q < n); [|lia].
  apply Z.nle_gt. intros Hle. assert (T * n ≤ T * (pool - q)) by nia. nia.
Qed.
End shares.

(** ** The loops compute the shares *)
Section loops.
Context {SI : SdkInt} {BE : Bech32}.
Context (epoch pool : Z) (snapshots : gmap Z SlotRewardSnapshot).
Context (rewardConfigVersion createdHeight : Z).

Lemma fold_weigh_spec rows tw n :
  rows_ok rows → 0 ≤ tw → 0 ≤ n → tw + weight_of rows < 2 ^ 256 →
  n + Z.of_nat (length rows) ≤ MaxUint64 →
  fold_m weigh rows (tw, n) =
    Ok (tw + weight_of rows, n + Z.of_nat (length (positive rows))).
Proof.
  intros H. revert tw n. unfold weight_of, positive.
  induction H as [|r rows Hr Hrs IH]; intros tw n Htw Hn Hb Hl; simpl in *.
  { unfold mret, res_ret. do 2 f_equal; lia. }
  destruct (weight_of_positive rows Hrs) as [_ Hw]. unfold weight_of in Hw.
  rewrite filter_cons, Z.gtb_ltb. destruct (Z.ltb_spec 0 (AB_BlocksActive r)).
  - rewrite decide_True by done.
    assert (iadd tw (AB_BlocksActive r) = Ok (tw + AB_BlocksActive r)) as ->
      by (apply iadd_Ok; split; [done | int_solve]).
    cbn [mbind res_bind mret res_ret]. rewrite u64_small by (widths; lia).
    rewrite IH by (widths; lia). simpl. do 2 f_equal; lia.
  - rewrite decide_False by lia. cbn [mbind res_bind mret res_ret].
    assert (AB_BlocksActive r = 0) as -> by (widths; lia).
    rewrite IH by (widths; lia). do 2 f_equal; lia.
Qed.

Lemma fold_allocate_spec total rows ents alloc :
  0 ≤ pool < 2 ^ 256 → 0 < total → rows_ok rows →
  Forall (λ r, pool * AB_BlocksActive r < 2 ^ 256) rows →
  (∀ r, r ∈ rows → 0 < AB_BlocksActive r → is_Some (snapshots !! AB_SlotId r)) →
  0 ≤ alloc → alloc + sum_of (share pool total) (positive rows) < 2 ^ 256 →
  fold_m (allocate_row epoch pool total snapshots rewardConfigVersion createdHeight)
    rows (ents, alloc) =
    Ok (ents ++ omap (entitlement_for epoch pool total snapshots rewardConfigVersion
                        createdHeight) (positive rows),
        alloc + sum_of (share pool total) (positive rows)).
Proof.
  intros Hp Ht H. revert ents alloc. unfold positive.
  induction H as [|r rows Hr Hrs IH]; intros ents alloc Hov Hsn Ha Hb; simpl in *.
  { unfold mret, res_ret. rewrite app_nil_r. do 2 f_equal; lia. }
  apply Forall_cons in Hov as [Hov Hovs]. rewrite filter_cons in Hb |- *.
  destruct (Z.eqb_spec (AB_BlocksActive r) 0) as [Hz|Hz].
  { rewrite decide_False in Hb |- * by lia. cbn [mbind res_bind mret res_ret].
    apply IH; [done | | done | done]. intros r' ?. apply Hsn. by right. }
  rewrite decide_True in Hb |- * by (widths; lia).
  destruct (Hsn r ltac:(by left) ltac:(widths; lia)) as [sn Hs]. rewrite Hs.
  simpl in Hb.
  assert (0 ≤ pool * AB_BlocksActive r) by (widths; nia).
  assert (imul pool (AB_BlocksActive r) = Ok (pool * AB_BlocksActive r)) as ->
    by (apply imul_Ok; split; [done | int_solve]).
  cbn [mbind res_bind].
  assert (share pool total r ≤ pool * AB_BlocksActive r ∧ 0 ≤ share pool total r) as [Hle Hge].
  { unfold share. split; [apply Z.div_le_upper_bound; nia | apply Z.div_pos; lia]. }
  assert (iquo (pool * AB_BlocksActive r) total = Ok (share pool total r)) as ->.
  { apply iquo_Ok; [lia|]. rewrite Z.quot_div_nonneg by lia. split; [done|].
    fold (share pool total r). int_solve. }
  cbn [mbind res_bind].
  destruct (shares_sum_bounds pool total (positive rows)) as [Hpos _];
    [lia | lia | by apply rows_ok_positive |]. unfold positive in Hpos.
  assert (iadd alloc (share pool total r) = Ok (alloc + share pool total r)) as ->
    by (apply iadd_Ok; split; [done | int_solve]).
  cbn [mbind res_bind]. cbn [omap list_omap foldr].
  unfold entitlement_for at 1. rewrite Hs. cbn [mbind option_bind].
  assert (∀ r', r' ∈ rows → 0 < AB_BlocksActive r' → is_Some (snapshots !! AB_SlotId r')) as Hsn'
    by (intros r' ?; apply Hsn; by right).
  destruct (Z.eqb_spec (share pool total r) 0) as [Hs0|Hs0];
    cbn [mret res_ret mbind res_bind]; rewrite IH by (done || lia).
  - simpl. do 2 f_equal. lia.
  - rewrite <- app_assoc. simpl. do 2 f_equal. lia.
Qed.

Lemma positive_sort rows : positive (merge_sort row_le rows) ≡ₚ positive rows.
Proof. unfold positive. by rewrite (merge_sort_Permutation row_le rows). Qed.

Lemma row_overflow rows :
  0 ≤ pool → rows_ok rows → pool * weight_of rows < 2 ^ 256 →
  Forall (λ r, pool * AB_BlocksActive r < 2 ^ 256) rows.
Proof.
  intros Hp Hr Hb. apply Forall_forall. intros r Hin.
  assert (AB_BlocksActive r ≤ weight_of rows); [|nia].
  apply sum_of_elem; [|done]. eapply Forall_impl; [exact Hr|]. simpl. intros. widths. lia.
Qed.

Lemma AllocateSlotEntitlements_spec rows :
  0 ≤ pool < 2 ^ 256 → rows_ok rows → pool * weight_of rows < 2 ^ 256 →
  weight_of rows < 2 ^ 256 → Z.of_nat (length rows) ≤ MaxUint64 →
  (∀ r, r ∈ rows → 0 < AB_BlocksActive r → is_Some (snapshots !! AB_SlotId r)) →
  AllocateSlotEntitlements epoch (Some pool) rows snapshots rewardConfigVersion createdHeight =
    Ok (if weight_of rows =? 0 then ([], 0, pool, 0)
        else
          let allocated := sum_of (share pool (weight_of rows)) (positive rows) in
          (omap (entitlement_for epoch pool (weight_of rows) snapshots rewardConfigVersion
                   createdHeight) (positive (merge_sort row_le rows)),
           allocated, pool - allocated, Z.of_nat (length (positive rows)))).
Proof.
  intros Hp Hr Hov Hw Hl Hsn. unfold AllocateSlotEntitlements.
  destruct (Z.ltb_spec pool 0); [lia|]. cbn [fail_if mret res_ret mbind res_bind].
  pose proof (merge_sort_Permutation row_le rows) as Hperm.
  set (rows' := merge_sort row_le rows) in *.
  assert (rows_ok rows') as Hr' by (unfold rows_ok; by rewrite Hperm).
  assert (weight_of rows' = weight_of rows) as Hw' by (unfold weight_of; by rewrite Hperm).
  assert (length rows' = length rows) as Hl' by (by rewrite Hperm).
  rewrite fold_weigh_spec by (done || lia). cbn [mbind res_bind]. rewrite Hw', !Z.add_0_l.
  destruct (weight_of_positive rows Hr) as [_ Hw0].
  destruct (Z.eqb_spec (weight_of rows) 0) as [|Hne]; [done|].
  destruct (carry_bounds pool rows) as [Hal _]; [lia | done | lia |].
  assert (positive rows' ≡ₚ positive rows) as Hpp by apply positive_sort.
  rewrite fold_allocate_spec; [|done|lia|done| |..|done|].
  - cbn [mbind res_bind]. simpl app.
    rewrite Z.add_0_l, (sum_of_Permutation _ _ _ Hpp), (Permutation_length Hpp).
    assert (isub pool (sum_of (share pool (weight_of rows)) (positive rows)) =
      Ok (pool - sum_of (share pool (weight_of rows)) (positive rows))) as ->
      by (apply isub_Ok; split; [done | int_solve]).
    done.
  - rewrite Hperm. apply row_overflow; done || lia.
  - intros r Hin. apply Hsn. by rewrite <- Hperm.
  - rewrite (sum_of_Permutation _ _ _ Hpp). lia.
Qed.
End loops.

(** The amount an entitlement records, zero when unreadable. *)
Definition amount_of {SI : SdkInt} (e : SlotEntitlement) : Z :=
  match Ent_Amount e with Ok a => a | Err _ => 0 end.

Section entitlements.
Context {SI : SdkInt} {BE : Bech32}.
Context (epoch pool total : Z) (snapshots : gmap Z SlotRewardSnapshot).
Context (rewardConfigVersion createdHeight : Z).
Context (Hpool : 0 ≤ pool < 2 ^ 256) (Htotal : 0 < total).
Let ent := entitlement_for epoch pool total snapshots rewardConfigVersion createdHeight.

Lemma share_ok row : 0 ≤ AB_BlocksActive row → pool * AB_BlocksActive row < 2 ^ 256 →
  0 ≤ share pool total row ∧ int_ok (share pool total row) = true.
Proof using Hpool Htotal.
  intros Hw Hb. unfold share.
  assert (0 ≤ pool * AB_BlocksActive row) by nia.
  assert (0 ≤ pool * AB_BlocksActive row / total) by (apply Z.div_pos; lia).
  assert (pool * AB_BlocksActive row / total ≤ pool * AB_BlocksActive row)
    by (apply Z.div_le_upper_bound; nia).
  split; [done | int_solve].
Qed.

Lemma entitlement_for_Some row e :
  0 ≤ AB_BlocksActive row → pool * AB_BlocksActive row < 2 ^ 256 →
  ent row = Some e →
  Ent_Amount e = Ok (share pool total row) ∧ 0 < share pool total row ∧
  Ent_SlotId e = AB_SlotId row ∧ Ent_Epoch e = epoch ∧
  (∃ sn, snapshots !! AB_SlotId row = Some sn ∧
     Ent_PayoutAddress e = AccAddress_String (SRS_PayoutAddress sn)).
Proof using Hpool Htotal.
  intros Hw Hb. unfold ent, entitlement_for.
  destruct (snapshots !! AB_SlotId row) as [sn|] eqn:E; [|done]. simpl.
  destruct (Z.eqb_spec (share pool total row) 0); [done|]. intros [= <-]. simpl.
  destruct (share_ok row Hw Hb) as [Hs Hok].
  split_and!; [|lia|done|done|by exists sn].
  unfold Ent_Amount. simpl. by rewrite ParseAmountString_String.
Qed.

Lemma entitlements_sum rows :
  rows_ok rows → Forall (λ r, pool * AB_BlocksActive r < 2 ^ 256) rows →
  (∀ r, r ∈ rows → is_Some (snapshots !! AB_SlotId r)) →
  sum_of amount_of (omap ent rows) = sum_of (share pool total) rows.
Proof using Hpool Htotal.
  intros Hr. induction Hr as [|r rows Hr Hrs IH]; intros Hb Hsn; [done|].
  apply Forall_cons in Hb as [Hb Hbs].
  assert (sum_of amount_of (omap ent rows) = sum_of (share pool total) rows) as IH'.
  { apply IH; [done|]. intros r' ?. apply Hsn. by right. }
  cbn [omap list_omap]. rewrite (sum_of_cons _ r). destruct (ent r) as [e|] eqn:E.
  - destruct (entitlement_for_Some r e ltac:(widths; lia) Hb E) as (Ha & _).
    rewrite sum_of_cons, IH'. unfold amount_of. by rewrite Ha.
  - rewrite IH'. unfold ent, entitlement_for in E.
    destruct (Hsn r ltac:(by left)) as [sn Hs]. rewrite Hs in E. simpl in E.
    destruct (Z.eqb_spec (share pool total r) 0); [lia | done].
Qed.
End entitlements.

Lemma merge_sort_rows_unique rows rows' :
  NoDup (AB_SlotId <$> rows) → rows ≡ₚ rows' →
  merge_sort row_le rows = merge_sort row_le rows'.
Proof.
  intros Hnd Hp.
  assert (Transitive row_le) as Htr by (intros a b c; unfold row_le; lia).
  assert (Total row_le) as Hto by (intros a b; unfold row_le; lia).
  apply (StronglySorted_unique_strong row_le).
  - intros a b Ha Hb Hab Hba. rewrite merge_sort_Permutation in Ha, Hb.
    rewrite <- Hp in Hb. assert (AB_SlotId a = AB_SlotId b) as Heq by (unfold row_le in *; lia).
    apply list_elem_of_lookup in Ha as [i Hi], Hb as [j Hj].
    assert (i = j) as ->; [|congruence].
    eapply (NoDup_lookup _ i j _ Hnd); rewrite list_lookup_fmap.
    + by rewrite Hi.
    + rewrite Hj. simpl. by rewrite Heq.
  - by apply StronglySorted_merge_sort.
  - by apply StronglySorted_merge_sort.
  - by rewrite !merge_sort_Permutation.
Qed.

Lemma assertAllocationConservation_Ok {SI : SdkInt} pool allocated carry nPos :
  0 ≤ allocated ≤ pool → 0 ≤ carry → 0 ≤ nPos ≤ MaxUint64 → (nPos ≠ 0 → carry ≤ nPos - 1) →
  assertAllocationConservation pool allocated carry nPos = Ok tt.
Proof.
  intros Ha Hc Hn Hb. unfold assertAllocationConservation. rewrite !Z.gtb_ltb.
  destruct (Z.ltb_spec allocated 0); [lia|]. destruct (Z.ltb_spec pool allocated); [lia|].
  destruct (Z.ltb_spec carry 0); [lia|]. cbn [fail_if mret res_ret mbind res_bind].
  destruct (Z.eqb_spec nPos 0) as [|Hne]; [done|].
  assert (isub nPos 1 = Ok (nPos - 1)) as -> by (apply isub_Ok; split; [done | widths; int_solve]).
  cbn [mbind res_bind]. rewrite Z.gtb_ltb.
  destruct (Z.ltb_spec (nPos - 1) carry); [lia | done].
Qed.

(** ** Properties *)

(** C21: allocating a pool over participation rows succeeds whenever the product
    of pool and weight fits an [Int] and every positive row has a snapshot; each
    positive row whose floor share [pool * blocks / total] is positive gets
    exactly one entitlement of exactly that amount, to its snapshot's payout
    address; the entitlements sum to the allocated amount; allocated plus carry
    is the pool; the carry is below the number of participating slots; and so
    the conservation check of the finalizer never fails on the result. *)
Theorem allocation_conserves_pool {SI : SdkInt} {BE : Bech32}
    (epoch pool ver height : Z) (rows : list SlotActiveBlocks)
    (snapshots : gmap Z SlotRewardSnapshot) :
  0 ≤ pool < 2 ^ 256 → rows_ok rows →
  pool * weight_of rows < 2 ^ 256 → weight_of rows < 2 ^ 256 →
  Z.of_nat (length rows) ≤ MaxUint64 →
  (∀ r, r ∈ rows → 0 < AB_BlocksActive r → is_Some (snapshots !! AB_SlotId r)) →
  ∃ ents allocated carry nPos,
    AllocateSlotEntitlements epoch (Some pool) rows snapshots ver height =
      Ok (ents, allocated, carry, nPos) ∧
    ents = omap (entitlement_for epoch pool (weight_of rows) snapshots ver height)
             (positive (merge_sort row_le rows)) ∧
    sum_of amount_of ents = allocated ∧ allocated + carry = pool ∧ 0 ≤ allocated ∧
    nPos = Z.of_nat (length (positive rows)) ∧
    (weight_of rows = 0 → carry = pool) ∧ (0 < weight_of rows → 0 ≤ carry ≤ nPos - 1) ∧
    assertAllocationConservation pool allocated carry nPos = Ok tt.
Proof.
  intros Hp Hr Hov Hw Hl Hsn. rewrite AllocateSlotEntitlements_spec by done.
  destruct (weight_of_positive rows Hr) as [Hwp Hw0].
  destruct (Z.eqb_spec (weight_of rows) 0) as [Hz|Hz].
  - assert (positive rows = []) as Hnil.
    { apply rows_ok_positive in Hr as Hrp. destruct (positive rows) as [|r l] eqn:E; [done|].
      exfalso. assert (r ∈ positive rows) as Hin by (rewrite E; left).
      apply positive_elem in Hin as [_ ?]. unfold weight_of in *. simpl in Hwp.
      apply Forall_cons in Hrp as [_ Hrp].
      pose proof (sum_of_nonneg AB_BlocksActive l
        ltac:(eapply Forall_impl; [exact Hrp|]; simpl; intros; widths; lia)). lia. }
    pose proof (positive_sort rows) as Hs. rewrite Hnil in Hs.
    apply Permutation_nil_r in Hs. rewrite Hs, Hnil.
    exists [], 0, pool, 0. split_and!; try done; try lia.
    apply assertAllocationConservation_Ok; lia.
  - destruct (carry_bounds pool rows) as [Hal Hc]; [lia | done | lia |].
    eexists _, _, _, _. split; [reflexivity|]. cbn zeta in *.
    pose proof (positive_sort rows) as Hs.
    split_and!; try done; try lia.
    + rewrite entitlements_sum; [by apply sum_of_Permutation | lia | lia | | |].
      * unfold rows_ok. rewrite Hs. by apply rows_ok_positive.
      * rewrite Hs. apply Forall_forall. intros r [Hin _]%positive_elem.
        pose proof (row_overflow pool rows ltac:(lia) Hr Hov) as Hf.
        rewrite Forall_forall in Hf. by apply Hf.
      * intros r Hin. rewrite Hs in Hin. apply positive_elem in Hin as [? ?]. by apply Hsn.
    + apply assertAllocationConservation_Ok; [lia..| |lia]. widths.
      pose proof (length_filter (λ r, 0 < AB_BlocksActive r) rows).
      unfold positive. lia.
Qed.

(** A concrete address configuration: raw addresses are their own text. *)
#[program] Definition bech32_id : Bech32 := {|
  AccAddressFromBech32 s := if decide (s = EmptyString) then None else Some s;
  AccAddress_String a := a
|}.
Next Obligation. done. Qed.

Definition sample_rows : list SlotActiveBlocks :=
  [{| AB_SlotId := 2; AB_BlocksActive := 1 |}; {| AB_SlotId := 1; AB_BlocksActive := 2 |}].
Definition sample_snapshot (id : Z) : SlotRewardSnapshot := {|
  SRS_SlotID := id; SRS_OperatorAddress := "op"%string; SRS_PayoutAddress := "pay"%string;
  SRS_Status := SLOT_STATUS_ACTIVE; SRS_ActivationSequence := id |}.
Definition sample_snapshots : gmap Z SlotRewardSnapshot :=
  {[1 := sample_snapshot 1; 2 := sample_snapshot 2]}.

Lemma allocation_conserves_pool_witness :
  ∃ ents allocated carry nPos,
    @AllocateSlotEntitlements sdkint_256 bech32_id 7 (Some 100) sample_rows sample_snapshots 1 9 =
      Ok (ents, allocated, carry, nPos) ∧ allocated + carry = 100.
Proof.
  destruct (@allocation_conserves_pool sdkint_256 bech32_id 7 100 1 9 sample_rows
    sample_snapshots) as (ents & al & c & n & H & _ & _ & Hs & _).
  - lia.
  - repeat constructor; discriminate.
  - reflexivity.
  - reflexivity.
  - discriminate.
  - intros r Hr _. unfold sample_rows in Hr.
    apply elem_of_cons in Hr as [->|Hr]; [eexists; reflexivity|].
    apply elem_of_cons in Hr as [->|Hr]; [eexists; reflexivity|].
    by apply not_elem_of_nil in Hr.
  - exists ents, al, c, n. split; [exact H | exact Hs].
Defined.

(** The order in which the participation rows are handed to the allocator
    does not affect the outcome: for rows of distinct slots, any permutation
    gives the same result, entitlement order and errors included. *)
Theorem allocation_order_independent {SI : SdkInt} {BE : Bech32}
    (epoch : Z) (pool : option Z) (ver height : Z) (rows rows' : list SlotActiveBlocks)
    (snapshots : gmap Z SlotRewardSnapshot) :
  NoDup (AB_SlotId <$> rows) → rows ≡ₚ rows' →
  AllocateSlotEntitlements epoch pool rows snapshots ver height =
  AllocateSlotEntitlements epoch pool rows' snapshots ver height.
Proof.
  intros Hnd Hp. unfold AllocateSlotEntitlements.
  by rewrite (merge_sort_rows_unique rows rows' Hnd Hp).
Qed.

Lemma allocation_order_independent_witness :
  @AllocateSlotEntitlements sdkint_256 bech32_id 7 (Some 100) sample_rows sample_snapshots 1 9 =
  @AllocateSlotEntitlements sdkint_256 bech32_id 7 (Some 100) (reverse sample_rows)
    sample_snapshots 1 9.
Proof.
  apply (@allocation_order_independent sdkint_256 bech32_id).
  - apply NoDup_cons. split; [|apply NoDup_singleton].
    intros H%list_elem_of_singleton. discriminate H.
  - symmetry. apply reverse_Permutation.
Defined.

(** ** The treasury share and the pool *)
Section treasury.
Context {SI : SdkInt}.

Lemma ComputeEmissionTreasuryAmount_spec emission share :
  0 ≤ emission → 0 ≤ share ≤ MaxBasisPoints → emission * MaxBasisPoints < 2 ^ 256 →
  ComputeEmissionTreasuryAmount (Some emission) share = Ok (emission * share / MaxBasisPoints).
Proof.
  intros He Hs Hb. unfold ComputeEmissionTreasuryAmount, MaxBasisPoints in *.
  destruct (Z.ltb_spec emission 0); [lia|]. rewrite Z.gtb_ltb.
  destruct (Z.ltb_spec 10000 share); [lia|]. cbn [fail_if mret res_ret mbind res_bind].
  rewrite !i64_small by (widths; lia).
  assert (imul emission share = Ok (emission * share)) as ->.
  { apply imul_Ok. split; [done|]. assert (0 ≤ emission * share ≤ emission * 10000) by nia.
    int_solve. }
  cbn [mbind res_bind]. apply iquo_Ok; [lia|].
  rewrite Z.quot_div_nonneg by nia. split; [done|].
  assert (0 ≤ emission * share / 10000 ≤ emission).
  { split; [apply Z.div_pos; nia | apply Z.div_le_upper_bound; nia]. }
  int_solve.
Qed.

Lemma ComputeRewardPoolV2_spec minted treasury carry :
  0 ≤ treasury ≤ minted → 0 ≤ carry → minted - treasury + carry < 2 ^ 256 → minted < 2 ^ 256 →
  ComputeRewardPoolV2 (Some minted) (Some treasury) (Some carry) =
    Ok (minted - treasury + carry).
Proof.
  intros Ht Hc Hb Hm. unfold ComputeRewardPoolV2, pool_operand.
  destruct (Z.ltb_spec minted 0); [lia|]. destruct (Z.ltb_spec treasury 0); [lia|].
  destruct (Z.ltb_spec carry 0); [lia|]. cbn [fail_if mret res_ret mbind res_bind].
  rewrite Z.gtb_ltb. destruct (Z.ltb_spec minted treasury); [lia|]. cbn [fail_if mret res_ret mbind res_bind].
  assert (or_err RwInvalidState (Int_SafeSub minted treasury) = Ok (minted - treasury)) as ->
    by (apply SafeSub_Ok; split; [done | int_solve]).
  cbn [mbind res_bind]. apply SafeAdd_Ok. split; [done | int_solve].
Qed.
End treasury.

(** For every admissible treasury share the treasury amount is the floor of
    the emission's share, at most half of the emission, and the reward pool is
    exactly the rest of the emission plus the carry: treasury and pool together
    account for every unit, and at least half of the emission reaches the pool. *)
Theorem treasury_and_pool_account_for_emission {SI : SdkInt} (emission shareBps carry : Z) :
  0 ≤ emission → emission * MaxBasisPoints < 2 ^ 256 → 0 ≤ carry →
  emission + carry < 2 ^ 256 → 0 ≤ shareBps → ValidateEmissionTreasuryShareBps shareBps = Ok tt →
  ∃ treasury pool,
    ComputeEmissionTreasuryAmount (Some emission) shareBps = Ok treasury ∧
    ComputeRewardPoolV2 (Some emission) (Some treasury) (Some carry) = Ok pool ∧
    treasury = emission * shareBps / BasisPointsDenominator ∧
    treasury + pool = emission + carry ∧
    0 ≤ treasury ∧ 2 * treasury ≤ emission ∧ carry ≤ pool ∧ emission ≤ 2 * (pool - carry).
Proof.
  intros He Hb Hc Hs H0 Hv. apply ValidateEmissionTreasuryShareBps_Ok in Hv.
  unfold MaxBasisPoints, HardMaxEmissionTreasuryShareBps, BasisPointsDenominator in *.
  assert (0 ≤ emission * shareBps / 10000) by (apply Z.div_pos; nia).
  assert (2 * (emission * shareBps / 10000) ≤ emission) as Hhalf.
  { pose proof (Z.mul_div_le (emission * shareBps) 10000 ltac:(lia)). nia. }
  exists (emission * shareBps / 10000), (emission - emission * shareBps / 10000 + carry).
  rewrite ComputeEmissionTreasuryAmount_spec by (unfold MaxBasisPoints; lia).
  split; [done|]. rewrite ComputeRewardPoolV2_spec by lia. split_and!; lia || done.
Qed.

Lemma treasury_and_pool_account_for_emission_witness :
  ∃ treasury pool,
    @ComputeEmissionTreasuryAmount sdkint_256 (Some 1001) 2500 = Ok treasury ∧
    @ComputeRewardPoolV2 sdkint_256 (Some 1001) (Some treasury) (Some 7) = Ok pool.
Proof.
  destruct (@treasury_and_pool_account_for_emission sdkint_256 1001 2500 7)
    as (t & p & H1 & H2 & _); try lia; try reflexivity.
  exists t, p. split; [exact H1 | exact H2].
Defined.
