(* ===== verification/EpochHistory.v ===== *)
(** * x/rewards/keeper/epochhistory.go: the epoch geometry

    The canonical epoch-length history ([EpochConfigVersions]) and the scheduled
    changes ([ScheduledEpochConfigs]).  Every height of every epoch is derived
    from them.  The theorems: on a well-formed history the derived heights are
    exact, consecutive epochs tile the heights without gap or overlap, appending
    a version never moves an earlier boundary, and the projection over scheduled
    changes agrees with what consuming them will produce. *)
From S2P Require Import Prelude Checked SdkMath Bounds RewardsTypes Collections.
Local Open Scope Z_scope.

Record Geometry := {
  EpochConfigVersions : gmap Z EpochConfigVersion;
  ScheduledEpochConfigs : gmap Z ScheduledEpochConfig
}.

Definition validateEpochConfigRecord (key : Z) (version : EpochConfigVersion) : res unit :=
  fail_if (negb (ECV_EffectiveEpoch version =? key)) RwInvalidState ;;
  fail_if ((ECV_Version version =? 0) || (ECV_EffectiveEpoch version =? 0) ||
           (ECV_EffectiveStartHeight version =? 0)) RwInvalidState ;;
  wrap RwInvalidState (ValidateEpochLengthBlocks (ECV_EpochLengthBlocks version)).

Definition epochConfigPredecessor (g : Geometry) (effectiveEpoch : Z)
    : res (option EpochConfigVersion) :=
  match seek_lt effectiveEpoch (EpochConfigVersions g) with
  | None => mret None
  | Some (key, version) =>
      validateEpochConfigRecord key version ;;
      mret (Some version)
  end.

Definition epochStartFrom (version : EpochConfigVersion) (epoch : Z) : res Z :=
  elapsed ← wrap RwInvalidState (SubUint64 epoch (ECV_EffectiveEpoch version));
  span ← wrap RwInvalidState (MulUint64 elapsed (ECV_EpochLengthBlocks version));
  wrap RwInvalidState (AddUint64 (ECV_EffectiveStartHeight version) span).

Definition validateAdjacentHistoryEdge (g : Geometry) (version : EpochConfigVersion) : res unit :=
  found ← epochConfigPredecessor g (ECV_EffectiveEpoch version);
  match found with
  | None => mret tt
  | Some predecessor =>
      fail_if (ECV_Version predecessor >=? ECV_Version version) RwInvalidState ;;
      expectedStart ← epochStartFrom predecessor (ECV_EffectiveEpoch version);
      fail_if (negb (expectedStart =? ECV_EffectiveStartHeight version)) RwInvalidState
  end.

Definition epochConfigVersionFor (g : Geometry) (epoch : Z) : res EpochConfigVersion :=
  fail_if (epoch =? 0) RwInvalidState ;;
  match seek_le epoch (EpochConfigVersions g) with
  | None => Err RwEpochConfigNotFound
  | Some (key, version) =>
      validateEpochConfigRecord key version ;;
      validateAdjacentHistoryEdge g version ;;
      mret version
  end.

Definition EpochLengthForEpoch (g : Geometry) (epoch : Z) : res Z :=
  version ← epochConfigVersionFor g epoch;
  mret (ECV_EpochLengthBlocks version).

Definition EpochStartHeight (g : Geometry) (epoch : Z) : res Z :=
  version ← epochConfigVersionFor g epoch;
  epochStartFrom version epoch.

Definition EpochEndHeight (g : Geometry) (epoch : Z) : res Z :=
  next ← wrap RwInvalidState (AddUint64 epoch 1);
  start ← EpochStartHeight g next;
  wrap RwInvalidState (SubUint64 start 1).

Definition ValidateScheduledEpochConfigRecord (key : Z) (scheduled : ScheduledEpochConfig)
    : res unit :=
  fail_if (negb (SEC_EffectiveEpoch scheduled =? key)) RwInvalidState ;;
  fail_if (SEC_EffectiveEpoch scheduled =? 0) RwInvalidState ;;
  wrap RwInvalidState (ValidateEpochLengthBlocks (SEC_EpochLengthBlocks scheduled)).

(** [unrepresentableEpoch] *)
Definition unrepresentableEpoch {A} (m : res A) : res A := wrap RwEpochBeyondProjectionHorizon m.

(** The walk of [ProjectEpochStartHeight] over the scheduled changes. *)
Fixpoint project_loop (epoch maxSteps steps : Z) (segment : EpochConfigVersion)
    (l : list (Z * ScheduledEpochConfig)) : res Z :=
  match l with
  | [] => unrepresentableEpoch (epochStartFrom segment epoch)
  | (next, scheduled) :: l =>
      if steps >=? maxSteps then Err RwEpochBeyondProjectionHorizon
      else
        ValidateScheduledEpochConfigRecord next scheduled ;;
        height ← unrepresentableEpoch (epochStartFrom segment next);
        project_loop epoch maxSteps (u64 (steps + 1))
          {| ECV_Version := 0;
             ECV_EffectiveEpoch := next;
             ECV_EffectiveStartHeight := height;
             ECV_EpochLengthBlocks := SEC_EpochLengthBlocks scheduled |} l
  end.

(** The scheduled changes with keys in [(from, upto]], ascending. *)
Definition scheduled_in (from upto : Z) (g : Geometry) : list (Z * ScheduledEpochConfig) :=
  base.filter (λ kv, from < fst kv ∧ fst kv ≤ upto) (entries (ScheduledEpochConfigs g)).

Definition ProjectEpochStartHeight (g : Geometry) (epoch maxSteps : Z) : res Z :=
  version ← epochConfigVersionFor g epoch;
  project_loop epoch maxSteps 0 version
    (scheduled_in (ECV_EffectiveEpoch version) epoch g).

Definition latestEpochConfigVersion (g : Geometry) : res EpochConfigVersion :=
  match seek_max (EpochConfigVersions g) with
  | None => Err RwEpochConfigNotFound
  | Some (key, version) =>
      validateEpochConfigRecord key version ;;
      validateAdjacentHistoryEdge g version ;;
      mret version
  end.

Definition set_version (version : EpochConfigVersion) (g : Geometry) : Geometry := {|
  EpochConfigVersions := <[ECV_EffectiveEpoch version := version]> (EpochConfigVersions g);
  ScheduledEpochConfigs := ScheduledEpochConfigs g |}.
Definition remove_scheduled (epoch : Z) (g : Geometry) : Geometry := {|
  EpochConfigVersions := EpochConfigVersions g;
  ScheduledEpochConfigs := delete epoch (ScheduledEpochConfigs g) |}.

Definition appendEpochConfigVersion (version : EpochConfigVersion) : M Geometry unit :=
  lift (ECV_Validate version) ;;
  lift (validateEpochConfigRecord (ECV_EffectiveEpoch version) version) ;;
  lift (wrap RwInvalidState (ValidateEpochLengthBlocks (ECV_EpochLengthBlocks version))) ;;
  latest ← reads latestEpochConfigVersion;
  fail_if (ECV_EffectiveEpoch version <=? ECV_EffectiveEpoch latest) RwInvalidState ;;
  fail_if (ECV_Version version <=? ECV_Version latest) RwInvalidState ;;
  expectedStart ← lift (epochStartFrom latest (ECV_EffectiveEpoch version));
  fail_if (negb (expectedStart =? ECV_EffectiveStartHeight version)) RwInvalidState ;;
  modify (set_version version).

Definition verifyCurrentEpochAnchor (g : Geometry) (state : RewardsState) : res unit :=
  derived ← EpochStartHeight g (CurrentEpoch state);
  fail_if (negb (derived =? CurrentEpochStartHeight state)) RwInvalidState.

Definition consumeScheduledEpochConfig (epoch height : Z) : M Geometry bool :=
  found ← gets (λ g, ScheduledEpochConfigs g !! epoch);
  match found with
  | None => mret false
  | Some scheduled =>
      lift (ValidateScheduledEpochConfigRecord epoch scheduled) ;;
      latest ← reads latestEpochConfigVersion;
      nextVersion ← lift (wrap RwInvalidState (AddUint64 (ECV_Version latest) 1));
      appendEpochConfigVersion {|
        ECV_Version := nextVersion;
        ECV_EffectiveEpoch := epoch;
        ECV_EffectiveStartHeight := height;
        ECV_EpochLengthBlocks := SEC_EpochLengthBlocks scheduled |} ;;
      modify (remove_scheduled epoch) ;;
      mret true
  end.

(** ** Well-formed histories *)

(** A record whose uint64 fields are in range and which the code's record check
    admits. *)
Definition record_ok (k : Z) (v : EpochConfigVersion) : Prop :=
  is_u64 k ∧ is_u64 (ECV_Version v) ∧ is_u64 (ECV_EffectiveStartHeight v) ∧
  is_u64 (ECV_EpochLengthBlocks v) ∧
  validateEpochConfigRecord k v = Ok tt.

(** What the length and start of an epoch are, over unbounded integers. *)
Definition start_from (v : EpochConfigVersion) (epoch : Z) : Z :=
  ECV_EffectiveStartHeight v + (epoch - ECV_EffectiveEpoch v) * ECV_EpochLengthBlocks v.

Definition history_wf (m : gmap Z EpochConfigVersion) : Prop :=
  is_Some (m !! 1) ∧
  (∀ k v, m !! k = Some v → record_ok k v) ∧
  (∀ j p k v, seek_lt k m = Some (j, p) → m !! k = Some v →
     ECV_Version p < ECV_Version v ∧ ECV_EffectiveStartHeight v = start_from p k).

Definition start_of (m : gmap Z EpochConfigVersion) (epoch : Z) : Z :=
  match seek_le epoch m with Some (_, v) => start_from v epoch | None => 0 end.
Definition length_of (m : gmap Z EpochConfigVersion) (epoch : Z) : Z :=
  match seek_le epoch m with Some (_, v) => ECV_EpochLengthBlocks v | None => 0 end.
(** A height as the code can return it. *)
Definition representable (z : Z) : res Z := if decide (is_u64 z) then Ok z else Err RwInvalidState.

(** ** Records *)
Section records.
Implicit Types (v p : EpochConfigVersion) (m : gmap Z EpochConfigVersion).

Lemma record_facts k v :
  record_ok k v →
  ECV_EffectiveEpoch v = k ∧ 0 < k ≤ MaxUint64 ∧ 0 < ECV_Version v ≤ MaxUint64 ∧
  0 < ECV_EffectiveStartHeight v ≤ MaxUint64 ∧ 360 ≤ ECV_EpochLengthBlocks v ≤ 720.
Proof.
  intros (Hk & Hv & Hs & Hl & H). unfold validateEpochConfigRecord in H. minv. zify_bool.
  match goal with H : ValidateEpochLengthBlocks _ = Ok tt |- _ =>
    apply ValidateEpochLengthBlocks_Ok in H;
    unfold HardMinEpochLengthBlocks, HardMaxEpochLengthBlocks in H end.
  widths. lia.
Qed.

Lemma epochStartFrom_spec v epoch :
  is_u64 epoch → is_u64 (ECV_EffectiveEpoch v) → is_u64 (ECV_EffectiveStartHeight v) →
  is_u64 (ECV_EpochLengthBlocks v) → ECV_EffectiveEpoch v ≤ epoch →
  epochStartFrom v epoch = representable (start_from v epoch).
Proof.
  intros He Hk Hs Hl Hle. unfold epochStartFrom, representable, start_from.
  rewrite SubUint64_exact by done. unfold exact_in at 1. rewrite Z.gtb_ltb.
  destruct (Z.ltb_spec MaxUint64 (epoch - ECV_EffectiveEpoch v)); [widths; lia|].
  destruct (Z.ltb_spec (epoch - ECV_EffectiveEpoch v) 0); [lia|]. cbn [wrap mbind res_bind].
  set (el := epoch - ECV_EffectiveEpoch v) in *.
  rewrite MulUint64_exact by (done || (widths; lia)). unfold exact_in at 1. rewrite Z.gtb_ltb.
  assert (0 ≤ el * ECV_EpochLengthBlocks v) by (widths; nia).
  destruct (Z.ltb_spec MaxUint64 (el * ECV_EpochLengthBlocks v)).
  { rewrite decide_False; [done|]. widths. lia. }
  destruct (Z.ltb_spec (el * ECV_EpochLengthBlocks v) 0); [lia|]. cbn [wrap mbind res_bind].
  rewrite AddUint64_exact by (done || (widths; lia)). unfold exact_in. rewrite Z.gtb_ltb.
  destruct (Z.ltb_spec MaxUint64 (ECV_EffectiveStartHeight v + el * ECV_EpochLengthBlocks v)).
  { rewrite decide_False; [done|]. widths. lia. }
  destruct (Z.ltb_spec (ECV_EffectiveStartHeight v + el * ECV_EpochLengthBlocks v) 0);
    [widths; lia|]. rewrite decide_True; [done | widths; lia].
Qed.

Lemma representable_Ok z r : representable z = Ok r ↔ r = z ∧ is_u64 z.
Proof. unfold representable. case_decide; naive_solver. Qed.

Lemma start_from_record k v epoch :
  record_ok k v → is_u64 epoch → k ≤ epoch →
  epochStartFrom v epoch = representable (start_from v epoch).
Proof.
  intros Hr He Hle. pose proof (record_facts k v Hr) as (Hk & ?).
  destruct Hr as (? & ? & ? & ? & _). apply epochStartFrom_spec; rewrite ?Hk; done.
Qed.
End records.

(** ** Lookups on a well-formed history *)
Section lookups.
Context (g : Geometry) (Hwf : history_wf (EpochConfigVersions g)).
Let m := EpochConfigVersions g.

Lemma history_lookup_ok k v : m !! k = Some v → record_ok k v.
Proof using Hwf. intros H. destruct Hwf as (_ & Hr & _). by apply Hr. Qed.

(** The record an epoch resolves to. *)
Lemma history_resolve epoch :
  1 ≤ epoch → ∃ k v, seek_le epoch m = Some (k, v) ∧ m !! k = Some v ∧ 1 ≤ k ≤ epoch ∧
    record_ok k v.
Proof using Hwf.
  intros He. destruct (seek_le epoch m) as [[k v]|] eqn:E.
  - exists k, v. split; [done|]. apply seek_le_Some in E as (H1 & H2 & _).
    pose proof (history_lookup_ok k v H1) as Hr. split_and!; [done| |done|done].
    apply record_facts in Hr. lia.
  - destruct Hwf as ([a Ha] & _). apply (proj1 (seek_le_None _ _) E) in Ha. lia.
Qed.

Lemma edge_ok k v : m !! k = Some v → validateAdjacentHistoryEdge g v = Ok tt.
Proof using Hwf.
  intros Hk. pose proof (history_lookup_ok k v Hk) as Hr.
  pose proof (record_facts k v Hr) as (He & Hku & Hf).
  unfold validateAdjacentHistoryEdge, epochConfigPredecessor. rewrite He. fold m.
  destruct (seek_lt k m) as [[j p]|] eqn:E; [|done].
  apply seek_lt_Some in E as Hj. destruct Hj as (Hj & Hlt & _).
  pose proof (history_lookup_ok j p Hj) as Hrp. pose proof Hrp as (_ & _ & _ & _ & ->).
  cbn [mbind res_bind mret res_ret].
  destruct Hwf as (_ & _ & Hedge). destruct (Hedge j p k v E Hk) as [Hv Hs].
  destruct (Z.geb_spec (ECV_Version p) (ECV_Version v)); [lia|].
  cbn [mbind res_bind fail_if mret res_ret].
  rewrite (start_from_record j p k Hrp) by (widths; lia).
  unfold representable. rewrite decide_True by (rewrite <- Hs; apply Hr).
  cbn [mbind res_bind]. rewrite <- Hs, Z.eqb_refl. done.
Qed.

Lemma epochConfigVersionFor_spec epoch :
  1 ≤ epoch → ∃ k v, seek_le epoch m = Some (k, v) ∧ record_ok k v ∧ k ≤ epoch ∧
    epochConfigVersionFor g epoch = Ok v.
Proof using Hwf.
  intros He. destruct (history_resolve epoch He) as (k & v & Hs & Hk & Hle & Hr).
  exists k, v. split_and!; [done..|lia|]. unfold epochConfigVersionFor.
  destruct (Z.eqb_spec epoch 0); [lia|]. cbn [fail_if mret res_ret mbind res_bind].
  fold m. rewrite Hs. pose proof Hr as (_ & _ & _ & _ & ->). cbn [mbind res_bind].
  by rewrite (edge_ok k v Hk).
Qed.

Lemma EpochStartHeight_spec epoch :
  1 ≤ epoch ≤ MaxUint64 → EpochStartHeight g epoch = representable (start_of m epoch).
Proof using Hwf.
  intros He. destruct (epochConfigVersionFor_spec epoch) as (k & v & Hs & Hr & Hle & Hv);
    [lia|]. unfold EpochStartHeight, start_of. rewrite Hv, Hs. cbn [mbind res_bind].
  apply (start_from_record k v); [done | widths; lia | done].
Qed.

Lemma EpochLengthForEpoch_spec epoch :
  1 ≤ epoch → EpochLengthForEpoch g epoch = Ok (length_of m epoch) ∧
    360 ≤ length_of m epoch ≤ 720.
Proof using Hwf.
  intros He. destruct (epochConfigVersionFor_spec epoch He) as (k & v & Hs & Hr & Hle & Hv).
  unfold EpochLengthForEpoch, length_of. rewrite Hv, Hs. split; [done|].
  apply record_facts in Hr. lia.
Qed.

(** The recurrence: an epoch starts where the previous one ends. *)
Lemma start_of_succ epoch :
  1 ≤ epoch → start_of m (epoch + 1) = start_of m epoch + length_of m epoch.
Proof using Hwf.
  intros He. destruct (history_resolve epoch He) as (k & v & Hs & Hk & Hle & Hr).
  destruct (history_resolve (epoch + 1) ltac:(lia)) as (k' & v' & Hs' & Hk' & Hle' & Hr').
  unfold start_of, length_of. rewrite Hs, Hs'.
  apply seek_le_Some in Hs as Hmax, Hs' as Hmax'.
  destruct Hmax as (_ & _ & Hmax), Hmax' as (_ & _ & Hmax').
  pose proof (Hmax' k v Hk ltac:(lia)) as Hkk.
  destruct (decide (k' = epoch + 1)) as [->|Hne].
  - assert (seek_lt (epoch + 1) m = Some (k, v)) as Hlt.
    { apply seek_lt_Some. split_and!; [done | lia|]. intros i y Hi ?.
      apply (Hmax i y Hi). lia. }
    destruct Hwf as (_ & _ & Hedge).
    destruct (Hedge _ _ _ _ Hlt Hk') as [_ Hst].
    apply record_facts in Hr' as (He' & _). unfold start_from in *. rewrite He', Hst. lia.
  - pose proof (Hmax k' v' Hk' ltac:(lia)). assert (k' = k) as -> by lia.
    rewrite Hk in Hk'. injection Hk' as <-. unfold start_from. lia.
Qed.

Lemma start_of_positive epoch : 1 ≤ epoch → 1 ≤ start_of m epoch.
Proof using Hwf.
  intros He. destruct (history_resolve epoch He) as (k & v & Hs & _ & Hle & Hr).
  unfold start_of, start_from. rewrite Hs. apply record_facts in Hr. nia.
Qed.

Lemma start_of_growth e d : 1 ≤ e → 0 ≤ d → start_of m e + 360 * d ≤ start_of m (e + d).
Proof using Hwf.
  intros He Hd. revert d Hd. apply natlike_ind; [replace (e + 0) with e by lia; lia|].
  intros d Hd IH. replace (e + Z.succ d) with (e + d + 1) by lia.
  rewrite start_of_succ by lia. 
  destruct (EpochLengthForEpoch_spec (e + d) ltac:(lia)) as [_ ?]. lia.
Qed.

(** Every height from the first start on lies in some epoch. *)
Lemma height_in_some_epoch h :
  start_of m 1 ≤ h → ∃ e, 1 ≤ e ∧ start_of m e ≤ h < start_of m (e + 1).
Proof using Hwf.
  intros Hh. 
  assert (∀ d, 0 ≤ d → h < start_of m (1 + d) → ∃ e, 1 ≤ e ∧ start_of m e ≤ h < start_of m (e + 1))
    as Hex.
  { refine (natlike_ind (λ d, h < start_of m (1 + d) → _) _ _); [change (1 + 0) with 1; lia|].
    intros d Hd IH Hlt.
    destruct (Z.lt_ge_cases h (start_of m (1 + d))); [by apply IH|].
    exists (1 + d). replace (1 + d + 1) with (1 + Z.succ d) by lia. lia. }
  apply (Hex h); [pose proof (start_of_positive 1); lia|].
  pose proof (start_of_growth 1 h ltac:(lia) ltac:(pose proof (start_of_positive 1); lia)).
  pose proof (start_of_positive 1). lia.
Qed.
End lookups.

(** ** Appending and consuming *)
Section append.
Implicit Types (g : Geometry) (v lat : EpochConfigVersion).

Lemma latest_spec g :
  history_wf (EpochConfigVersions g) →
  ∃ k lat, seek_max (EpochConfigVersions g) = Some (k, lat) ∧ record_ok k lat ∧
    latestEpochConfigVersion g = Ok lat.
Proof.
  intros Hwf. unfold latestEpochConfigVersion.
  destruct (seek_max (EpochConfigVersions g)) as [[k lat]|] eqn:E.
  - apply seek_max_Some in E as [Hk _]. pose proof (history_lookup_ok g Hwf k lat Hk) as Hr.
    exists k, lat. split_and!; [done..|]. pose proof Hr as (_ & _ & _ & _ & ->).
    cbn [mbind res_bind]. by rewrite (edge_ok g Hwf k lat Hk).
  - apply seek_max_None in E. destruct Hwf as ([a Ha] & _). rewrite E, lookup_empty in Ha. done.
Qed.

(** What an append writes and when it is accepted. *)
Lemma append_spec g v k lat :
  history_wf (EpochConfigVersions g) → seek_max (EpochConfigVersions g) = Some (k, lat) →
  is_u64 (ECV_EffectiveEpoch v) → is_u64 (ECV_Version v) →
  is_u64 (ECV_EffectiveStartHeight v) → is_u64 (ECV_EpochLengthBlocks v) →
  appendEpochConfigVersion v g = (set_version v g, Ok tt) ↔
  record_ok (ECV_EffectiveEpoch v) v ∧ k < ECV_EffectiveEpoch v ∧
  ECV_Version lat < ECV_Version v ∧
  ECV_EffectiveStartHeight v = start_from lat (ECV_EffectiveEpoch v).
Proof.
  intros Hwf Hmax He Hv Hs Hl. destruct (latest_spec g Hwf) as (k' & lat' & Hm' & Hr & Hlat).
  rewrite Hmax in Hm'. injection Hm' as <- <-.
  pose proof (record_facts k lat Hr) as (Hek & _). split.
  - intros H. subst k. unfold appendEpochConfigVersion in H. minv. rewrite Hlat in *. minv.
    zify_bool.
    match goal with H : epochStartFrom _ _ = Ok _ |- _ =>
      rewrite (start_from_record _ _ _ Hr) in H by (done || lia);
      apply representable_Ok in H as [-> ?] end.
    split_and!; try done; try lia.
  - intros (Hrv & Hlt & Hver & Hst). pose proof (record_facts _ _ Hrv) as (_ & Hf).
    unfold appendEpochConfigVersion.
    assert (ECV_Validate v = Ok tt) as Hva.
    { unfold ECV_Validate. repeat (case_match; zify_bool; simpl; try lia); 
      destruct (Z.eqb_spec (ECV_Version v) 0), (Z.eqb_spec (ECV_EffectiveEpoch v) 0),
        (Z.eqb_spec (ECV_EffectiveStartHeight v) 0), (Z.eqb_spec (ECV_EpochLengthBlocks v) 0);
        done || lia. }
    rewrite (M_bind_run _ _ g g tt) by (unfold lift; by rewrite Hva).
    rewrite (M_bind_run _ _ g g tt) by (unfold lift; by destruct Hrv as (_ & _ & _ & _ & ->)).
    rewrite (M_bind_run _ _ g g tt).
    2:{ unfold lift. f_equal. apply wrap_Ok, ValidateEpochLengthBlocks_Ok.
        unfold HardMinEpochLengthBlocks, HardMaxEpochLengthBlocks. lia. }
    rewrite (M_bind_run _ _ g g lat) by (unfold reads; by rewrite Hlat). rewrite Hek.
    destruct (Z.leb_spec (ECV_EffectiveEpoch v) k); [lia|].
    destruct (Z.leb_spec (ECV_Version v) (ECV_Version lat)); [lia|].
    rewrite (M_bind_run _ _ g g tt) by done. rewrite (M_bind_run _ _ g g tt) by done.
    rewrite (M_bind_run _ _ g g (ECV_EffectiveStartHeight v)).
    2:{ unfold lift. rewrite (start_from_record k) by (done || lia).
        unfold representable. by rewrite <- Hst, decide_True by done. }
    by rewrite Z.eqb_refl.
Qed.

(** Every run of an append either writes exactly the version or nothing. *)
Lemma append_run g v g' r :
  appendEpochConfigVersion v g = (g', r) →
  (r = Ok tt ∧ g' = set_version v g) ∨ (g' = g ∧ ∃ e, r = Err e).
Proof.
  unfold appendEpochConfigVersion, mbind, M_bind, lift, reads, modify, fail_if, mret, M_ret,
    mthrow, M_throw. intros H.
  repeat (case_match; simplify_eq; try naive_solver).
Qed.

Lemma insert_wf (m : gmap Z EpochConfigVersion) k lat v :
  history_wf m → seek_max m = Some (k, lat) → k < ECV_EffectiveEpoch v →
  record_ok (ECV_EffectiveEpoch v) v → ECV_Version lat < ECV_Version v →
  ECV_EffectiveStartHeight v = start_from lat (ECV_EffectiveEpoch v) →
  history_wf (<[ECV_EffectiveEpoch v := v]> m).
Proof.
  intros (Ha & Hr & He) Hmax Hlt Hrv Hver Hst. apply seek_max_Some in Hmax as HM.
  destruct HM as [Hk Hle].
  assert (∀ j y, m !! j = Some y → j < ECV_EffectiveEpoch v) as Hall
    by (intros j y Hj; specialize (Hle j y Hj); lia).
  split_and!.
  - destruct Ha as [a Ha]. exists a. rewrite lookup_insert_ne; [done|].
    specialize (Hall 1 a Ha). lia.
  - intros j y Hj. apply lookup_insert_Some in Hj as [[<- <-]|[_ Hj]]; [done | by apply Hr].
  - intros j p k' v' Hseek Hk'. apply lookup_insert_Some in Hk' as [[<- <-]|[Hne Hk']].
    + rewrite seek_lt_insert_ge in Hseek by lia.
      rewrite (seek_lt_max m) in Hseek by done. rewrite Hmax in Hseek.
      injection Hseek as <- <-. done.
    + rewrite seek_lt_insert_ge in Hseek by (specialize (Hall _ _ Hk'); lia). eauto.
Qed.

(** Starts up to the new version's epoch, and lengths before it, are unchanged. *)
Lemma insert_starts (m : gmap Z EpochConfigVersion) k lat v e :
  seek_max m = Some (k, lat) → k < ECV_EffectiveEpoch v →
  ECV_EffectiveStartHeight v = start_from lat (ECV_EffectiveEpoch v) →
  (e ≤ ECV_EffectiveEpoch v → start_of (<[ECV_EffectiveEpoch v := v]> m) e = start_of m e) ∧
  (e < ECV_EffectiveEpoch v → length_of (<[ECV_EffectiveEpoch v := v]> m) e = length_of m e) ∧
  (ECV_EffectiveEpoch v ≤ e →
     length_of (<[ECV_EffectiveEpoch v := v]> m) e = ECV_EpochLengthBlocks v).
Proof.
  intros Hmax Hlt Hst. apply seek_max_Some in Hmax as HM. destruct HM as [Hk Hle].
  assert (∀ j y, m !! j = Some y → j ≤ ECV_EffectiveEpoch v) as Hall
    by (intros j y Hj; specialize (Hle j y Hj); lia).
  unfold start_of, length_of. split_and!; intros He.
  - destruct (decide (e = ECV_EffectiveEpoch v)) as [->|].
    + rewrite seek_le_insert_last by done. rewrite (seek_le_max m) by done. rewrite Hmax.
      unfold start_from in *. lia.
    + by rewrite seek_le_insert_gt by lia.
  - by rewrite seek_le_insert_gt by lia.
  - by rewrite seek_le_insert_last by done.
Qed.
End append.

(** ** Consuming scheduled changes, and projecting them *)

(** A schedule every entry of which is admissible and later than the history. *)
Definition schedule_ok (g : Geometry) : Prop :=
  ∀ k s, ScheduledEpochConfigs g !! k = Some s →
    is_u64 k ∧ ValidateScheduledEpochConfigRecord k s = Ok tt ∧
    ∀ j v, EpochConfigVersions g !! j = Some v → j < k.

(** What consuming the change scheduled at [epoch] makes of the geometry. *)
Definition consumed (epoch height : Z) (s : ScheduledEpochConfig) (version : Z) (g : Geometry)
    : Geometry :=
  remove_scheduled epoch (set_version {|
    ECV_Version := version;
    ECV_EffectiveEpoch := epoch;
    ECV_EffectiveStartHeight := height;
    ECV_EpochLengthBlocks := SEC_EpochLengthBlocks s |} g).

Section consume.
Implicit Types (g : Geometry) (v lat : EpochConfigVersion).

Lemma scheduled_facts k s :
  ValidateScheduledEpochConfigRecord k s = Ok tt →
  SEC_EffectiveEpoch s = k ∧ k ≠ 0 ∧ 360 ≤ SEC_EpochLengthBlocks s ≤ 720.
Proof.
  unfold ValidateScheduledEpochConfigRecord. intros H. minv. zify_bool.
  match goal with H : ValidateEpochLengthBlocks _ = Ok tt |- _ =>
    apply ValidateEpochLengthBlocks_Ok in H;
    unfold HardMinEpochLengthBlocks, HardMaxEpochLengthBlocks in H end.
  split_and!; congruence || lia.
Qed.

(** The record a consumption writes is well formed. *)
Lemma consumed_record_ok epoch height s n :
  is_u64 epoch → is_u64 height → is_u64 n → 0 < n → 0 < height →
  ValidateScheduledEpochConfigRecord epoch s = Ok tt →
  record_ok epoch {| ECV_Version := n; ECV_EffectiveEpoch := epoch;
    ECV_EffectiveStartHeight := height; ECV_EpochLengthBlocks := SEC_EpochLengthBlocks s |}.
Proof.
  intros He Hh Hn Hn0 Hh0 Hs. apply scheduled_facts in Hs as (_ & Hk0 & Hlen).
  unfold record_ok, validateEpochConfigRecord. simpl. split_and!; try done.
  { widths. lia. }
  rewrite Z.eqb_refl. destruct (Z.eqb_spec n 0); [lia|]. destruct (Z.eqb_spec epoch 0); [done|].
  destruct (Z.eqb_spec height 0); [lia|]. cbn [negb fail_if mret res_ret mbind res_bind orb].
  apply wrap_Ok, ValidateEpochLengthBlocks_Ok.
  unfold HardMinEpochLengthBlocks, HardMaxEpochLengthBlocks. lia.
Qed.

Lemma consume_spec g epoch s k lat :
  history_wf (EpochConfigVersions g) → schedule_ok g →
  seek_max (EpochConfigVersions g) = Some (k, lat) →
  ScheduledEpochConfigs g !! epoch = Some s → ECV_Version lat < MaxUint64 →
  is_u64 (start_from lat epoch) →
  consumeScheduledEpochConfig epoch (start_from lat epoch) g =
    (consumed epoch (start_from lat epoch) s (ECV_Version lat + 1) g, Ok true).
Proof.
  intros Hwf Hsch Hmax Hs Hver Hu. destruct (Hsch _ _ Hs) as (Heu & Hval & Hlater).
  destruct (latest_spec g Hwf) as (k' & lat' & Hm' & Hr & Hlat).
  rewrite Hmax in Hm'. injection Hm' as <- <-.
  pose proof (record_facts k lat Hr) as (Hek & Hku & Hvu & Hsu & Hlu).
  assert (k < epoch) as Hlt by (apply seek_max_Some in Hmax as [Hk _]; eauto).
  assert (0 < start_from lat epoch) by (unfold start_from; nia).
  unfold consumeScheduledEpochConfig.
  rewrite (M_bind_run _ _ g g (Some s)) by (unfold gets; by rewrite Hs).
  rewrite (M_bind_run _ _ g g tt) by (unfold lift; by rewrite Hval).
  rewrite (M_bind_run _ _ g g lat) by (unfold reads; by rewrite Hlat).
  rewrite (M_bind_run _ _ g g (ECV_Version lat + 1)).
  2:{ unfold lift. f_equal. apply wrap_Ok, AddUint64_Ok; widths; lia. }
  set (v := {| ECV_Version := _ |}).
  assert (appendEpochConfigVersion v g = (set_version v g, Ok tt)) as Ha.
  { apply (append_spec g v k lat); try done; simpl; [widths; lia| |].
    - apply scheduled_facts in Hval. widths. lia.
    - split_and!; [|done|lia|done]. apply consumed_record_ok; try done; widths; lia. }
  rewrite (M_bind_run _ _ _ _ _ Ha). reflexivity.
Qed.

Lemma consumed_wf g epoch s k lat :
  history_wf (EpochConfigVersions g) → schedule_ok g →
  seek_max (EpochConfigVersions g) = Some (k, lat) →
  ScheduledEpochConfigs g !! epoch = Some s → ECV_Version lat < MaxUint64 →
  is_u64 (start_from lat epoch) →
  let g' := consumed epoch (start_from lat epoch) s (ECV_Version lat + 1) g in
  history_wf (EpochConfigVersions g') ∧
  (∀ e, e ≤ epoch → start_of (EpochConfigVersions g') e = start_of (EpochConfigVersions g) e) ∧
  (∀ e, e < epoch → length_of (EpochConfigVersions g') e = length_of (EpochConfigVersions g) e) ∧
  (∀ e, epoch ≤ e → length_of (EpochConfigVersions g') e = SEC_EpochLengthBlocks s).
Proof.
  intros Hwf Hsch Hmax Hs Hver Hu g'. destruct (Hsch _ _ Hs) as (Heu & Hval & Hlater).
  apply seek_max_Some in Hmax as HM. destruct HM as [Hk Hall].
  pose proof (history_lookup_ok g Hwf k lat Hk) as Hr.
  pose proof (record_facts k lat Hr) as (Hek & Hku & Hvu & Hsu & Hlu).
  pose proof (Hlater _ _ Hk) as Hlt.
  assert (0 < start_from lat epoch) by (unfold start_from; nia).
  set (v := {| ECV_Version := ECV_Version lat + 1; ECV_EffectiveEpoch := epoch;
    ECV_EffectiveStartHeight := start_from lat epoch;
    ECV_EpochLengthBlocks := SEC_EpochLengthBlocks s |}).
  assert (record_ok epoch v) as Hrv
    by (apply consumed_record_ok; try done; widths; lia).
  pose proof (insert_starts (EpochConfigVersions g) k lat v) as Hst.
  split_and!; simpl.
  - by apply (insert_wf _ k lat v); [..|simpl; lia|].
  - intros e He. apply Hst; done.
  - intros e He. apply (Hst e); done.
  - intros e He. apply (Hst e); done.
Qed.

Lemma consumed_schedule_ok g epoch height s n :
  schedule_ok g → (∀ k s', ScheduledEpochConfigs g !! k = Some s' → epoch ≤ k) →
  schedule_ok (consumed epoch height s n g).
Proof.
  intros Hsch Hfirst k s' Hk. simpl in Hk. apply lookup_delete_Some in Hk as [Hne Hk].
  destruct (Hsch k s' Hk) as (Hu & Hv & Hl). split_and!; [done..|].
  intros j v Hj. simpl in Hj. apply lookup_insert_Some in Hj as [[<- _]|[_ Hj]]; [|eauto].
  specialize (Hfirst k s' Hk). simpl. lia.
Qed.
End consume.

(** What the chain does with the scheduled changes in order: at the boundary of
    each, the change is consumed at the height the history then derives. *)
Definition consume_next (kv : Z * ScheduledEpochConfig) : M Geometry unit :=
  height ← reads (λ g, EpochStartHeight g (fst kv));
  consumeScheduledEpochConfig (fst kv) height ;;
  mret tt.

Section projection.
Implicit Types (g : Geometry) (v lat seg : EpochConfigVersion).

Definition same_segment (seg lat : EpochConfigVersion) : Prop :=
  ECV_EffectiveEpoch seg = ECV_EffectiveEpoch lat ∧
  ECV_EffectiveStartHeight seg = ECV_EffectiveStartHeight lat ∧
  ECV_EpochLengthBlocks seg = ECV_EpochLengthBlocks lat.

Lemma same_segment_start seg lat epoch :
  same_segment seg lat → epochStartFrom seg epoch = epochStartFrom lat epoch.
Proof. intros (H1 & H2 & H3). unfold epochStartFrom. by rewrite H1, H2, H3. Qed.

Lemma start_after_last g k lat epoch :
  history_wf (EpochConfigVersions g) → seek_max (EpochConfigVersions g) = Some (k, lat) →
  k ≤ epoch ≤ MaxUint64 → EpochStartHeight g epoch = epochStartFrom lat epoch ∧
    start_of (EpochConfigVersions g) epoch = start_from lat epoch.
Proof.
  intros Hwf Hmax He. apply seek_max_Some in Hmax as HM. destruct HM as [Hk Hall].
  pose proof (history_lookup_ok g Hwf k lat Hk) as Hr.
  pose proof (record_facts k lat Hr) as (Hek & Hku & _).
  assert (start_of (EpochConfigVersions g) epoch = start_from lat epoch) as Hst.
  { unfold start_of. rewrite seek_le_max by (intros j y Hj; specialize (Hall j y Hj); lia).
    by rewrite Hmax. }
  rewrite EpochStartHeight_spec, Hst by (done || lia).
  rewrite (start_from_record k lat) by (done || (widths; lia)). done.
Qed.

(** The schedule once the changes up to an epoch are consumed. *)
Definition passed (epoch : Z) (g g' : Geometry) : Prop :=
  schedule_ok g' ∧ ∀ j s, ScheduledEpochConfigs g' !! j = Some s ↔
    ScheduledEpochConfigs g !! j = Some s ∧ epoch < j.

Lemma project_loop_agrees epoch maxSteps l :
  ∀ g seg k lat steps h,
  is_u64 epoch → maxSteps ≤ MaxUint64 → 0 ≤ steps →
  history_wf (EpochConfigVersions g) → schedule_ok g →
  seek_max (EpochConfigVersions g) = Some (k, lat) → k ≤ epoch → same_segment seg lat →
  StronglySorted key_le l → NoDup (fst <$> l) →
  (∀ j s, (j, s) ∈ l ↔ ScheduledEpochConfigs g !! j = Some s ∧ j ≤ epoch) →
  ECV_Version lat + Z.of_nat (length l) ≤ MaxUint64 →
  project_loop epoch maxSteps steps seg l = Ok h →
  ∃ g', for_each consume_next l g = (g', Ok tt) ∧
    history_wf (EpochConfigVersions g') ∧ EpochStartHeight g' epoch = Ok h ∧
    passed epoch g g' ∧ ∃ k' lat', seek_max (EpochConfigVersions g') = Some (k', lat') ∧
      k' ≤ epoch ∧ ECV_Version lat' = ECV_Version lat + Z.of_nat (length l).
Proof.
  induction l as [|[j s] l IH];
    intros g seg k lat steps h He Hms Hst Hwf Hsch Hmax Hke Hseg Hsort Hnd Hl Hver H.
  { exists g. simpl in H. apply wrap_Ok in H. rewrite (same_segment_start seg lat epoch Hseg) in H.
    destruct (start_after_last g k lat epoch Hwf Hmax ltac:(widths; lia)) as [-> _].
    split; [done|]. split; [done|]. split; [done|].
    split; [split; [done|]|exists k, lat; split_and!; [done | done | simpl; lia]].
    intros j s. split; [|by intros [? _]]. intros Hj. split; [done|]. apply Z.nle_gt. intros Hje.
    by apply (not_elem_of_nil (j, s)), Hl. }
  simpl in H. destruct (Z.geb_spec steps maxSteps); [done|].
  apply res_bind_Ok in H as (? & Hvs & H). apply res_bind_Ok in H as (hj & Hh & H).
  apply wrap_Ok in Hh. rewrite (same_segment_start seg lat j Hseg) in Hh.
  destruct (proj1 (Hl j s) ltac:(by left)) as [Hjs Hje].
  destruct (Hsch j s Hjs) as (Hju & _ & Hlater).
  pose proof Hmax as HM. apply seek_max_Some in HM as [Hk Hall].
  pose proof (Hlater _ _ Hk) as Hkj.
  pose proof (history_lookup_ok g Hwf k lat Hk) as Hr.
  rewrite (start_from_record k lat) in Hh by (done || lia).
  apply representable_Ok in Hh as [-> Hhu]. simpl length in Hver.
  pose proof (record_facts k lat Hr) as (Hek & _ & Hvu & _).
  pose proof (consume_spec g j s k lat Hwf Hsch Hmax Hjs ltac:(lia) Hhu) as Hrun.
  destruct (consumed_wf g j s k lat Hwf Hsch Hmax Hjs ltac:(lia) Hhu) as (Hwf1 & _).
  set (g1 := consumed j (start_from lat j) s (ECV_Version lat + 1) g) in *.
  apply StronglySorted_inv in Hsort as [Hsort Hleast].
  rewrite fmap_cons in Hnd. apply NoDup_cons in Hnd as [Hnin Hnd].
  destruct (start_after_last g k lat j Hwf Hmax ltac:(widths; lia)) as [Hstj _].
  rewrite (start_from_record k lat) in Hstj by (done || lia).
  unfold representable in Hstj. rewrite decide_True in Hstj by done.
  assert (consume_next (j, s) g = (g1, Ok tt)) as Hnext.
  { unfold consume_next. cbn [fst].
    rewrite (M_bind_run _ _ g g (start_from lat j)) by (unfold reads; by rewrite Hstj).
    by rewrite (M_bind_run _ _ g g1 true). }
  simpl for_each. setoid_rewrite (M_bind_run _ _ g g1 tt Hnext).
  enough (∃ g', for_each consume_next l g1 = (g', Ok tt) ∧ history_wf (EpochConfigVersions g') ∧
    EpochStartHeight g' epoch = Ok h ∧ passed epoch g1 g' ∧
    ∃ k' lat', seek_max (EpochConfigVersions g') = Some (k', lat') ∧ k' ≤ epoch ∧
      ECV_Version lat' = ECV_Version lat + 1 + Z.of_nat (length l))
    as (g' & Hrun' & Hwf' & Hst' & [Hsch' Hrest] & k' & lat' & Hmax' & Hk' & Hv').
  { exists g'. split_and!; [done..| |exists k', lat'; split_and!; [done | done | simpl length; lia]].
    split; [done|]. intros i s'. rewrite Hrest. simpl. rewrite lookup_delete_Some.
    split; [by intros [[_ ?] ?]|]. intros [Hi Hei]. split_and!; [lia | done..]. }
  eapply (IH g1 _ j {| ECV_Version := ECV_Version lat + 1; ECV_EffectiveEpoch := j;
    ECV_EffectiveStartHeight := start_from lat j; ECV_EpochLengthBlocks := SEC_EpochLengthBlocks s |});
    [done | done | | done | | | lia | | done | done | | | exact H].
  - rewrite u64_small; widths; lia.
  - apply consumed_schedule_ok; [done|]. intros i s' Hi.
    destruct (Z.le_gt_cases i epoch) as [Hie|Hie]; [|lia].
    assert ((i, s') ∈ (j, s) :: l) as Hin by (apply Hl; done).
    apply elem_of_cons in Hin as [[= -> ->]|Hin]; [lia|].
    rewrite Forall_forall in Hleast. by apply (Hleast (i, s')).
  - simpl. apply seek_max_insert_last. intros i y Hi. specialize (Hall i y Hi). lia.
  - split_and!; reflexivity.
  - intros i s'. simpl. rewrite lookup_delete_Some. specialize (Hl i s').
    rewrite elem_of_cons in Hl. split.
    + intros Hin. destruct (proj1 Hl (or_intror Hin)) as [? ?]. split_and!; [|done|done].
      intros <-. apply Hnin. apply list_elem_of_fmap. by exists (j, s').
    + intros [[Hne Hi] Hie]. destruct (proj2 Hl (conj Hi Hie)) as [[= -> ->]|]; done.
  - simpl. lia.
Qed.
End projection.

(** ** Projecting any epoch of a well-formed geometry *)
Section project.
Implicit Types (g : Geometry).

Lemma filter_ext_in {A} (P Q : A → Prop) `{!∀ x, Decision (P x), !∀ x, Decision (Q x)} (l : list A) :
  (∀ x, x ∈ l → P x ↔ Q x) → base.filter P l = base.filter Q l.
Proof.
  induction l as [|x l IH]; intros Hpq; [done|]. rewrite !filter_cons, IH by set_solver.
  specialize (Hpq x ltac:(set_solver)). repeat case_decide; tauto || done.
Qed.

(** Scheduled changes are later than any version. *)
Lemma scheduled_from g k v e :
  schedule_ok g → EpochConfigVersions g !! k = Some v → 0 < k →
  scheduled_in k e g = scheduled_in 0 e g.
Proof.
  intros Hsch Hk Hpos. unfold scheduled_in. apply filter_ext_in. intros [j s] Hj. simpl.
  apply elem_of_entries, Hsch in Hj as (_ & _ & Hl). specialize (Hl _ _ Hk). lia.
Qed.

Lemma elem_of_scheduled g e j s :
  schedule_ok g → (j, s) ∈ scheduled_in 0 e g ↔ ScheduledEpochConfigs g !! j = Some s ∧ j ≤ e.
Proof.
  intros Hsch. unfold scheduled_in. rewrite list_elem_of_filter, elem_of_entries. simpl.
  split; [tauto|]. intros [Hj Hje]. destruct (Hsch j s Hj) as (_ & Hv & _).
  apply scheduled_facts in Hv as (_ & Hne & _). destruct (Hsch j s Hj) as (Hu & _). split_and!; [widths; lia | done..].
Qed.

Lemma scheduled_sorted g e :
  StronglySorted key_le (scheduled_in 0 e g) ∧ NoDup (fst <$> scheduled_in 0 e g).
Proof.
  split; [apply StronglySorted_filtered, entries_sorted|]. unfold scheduled_in.
  eapply sublist_NoDup; [apply (entries_keys_NoDup (ScheduledEpochConfigs g))|].
  apply fmap_sublist, sublist_filter.
Qed.

(** The one failure of a projection is an epoch that is out of range. *)
Lemma project_loop_Err epoch maxSteps l :
  ∀ steps seg e, (∀ j s, (j, s) ∈ l → ValidateScheduledEpochConfigRecord j s = Ok tt) →
  project_loop epoch maxSteps steps seg l = Err e → e = RwEpochBeyondProjectionHorizon.
Proof.
  assert (∀ (m : res Z) err, unrepresentableEpoch m = Err err → err = RwEpochBeyondProjectionHorizon) as Hun
    by (intros [] err H; unfold unrepresentableEpoch in H; simpl in H; congruence).
  induction l as [|[j s] l IH]; intros steps seg e Hv H; simpl in H; [by eapply Hun|].
  destruct (steps >=? maxSteps); [congruence|].
  rewrite (Hv j s) in H by set_solver. cbn [mbind res_bind] in H.
  destruct (unrepresentableEpoch (epochStartFrom seg j)) as [h|e'] eqn:E; cbn [mbind res_bind] in H.
  - eapply IH; [|exact H]. intros; apply Hv. set_solver.
  - injection H as <-. by eapply Hun.
Qed.

Lemma project_Err g epoch maxSteps e :
  history_wf (EpochConfigVersions g) → schedule_ok g → 1 ≤ epoch →
  ProjectEpochStartHeight g epoch maxSteps = Err e → e = RwEpochBeyondProjectionHorizon.
Proof.
  intros Hwf Hsch He H. unfold ProjectEpochStartHeight in H.
  destruct (epochConfigVersionFor_spec g Hwf epoch He) as (k & v & Hs & Hr & _ & Hv).
  rewrite Hv in H. cbn [mbind res_bind] in H. eapply project_loop_Err; [|exact H].
  intros j s Hj. unfold scheduled_in in Hj. apply list_elem_of_filter in Hj as [_ Hj].
  apply elem_of_entries in Hj. by apply Hsch in Hj as (_ & ? & _).
Qed.

(** An answer is the start of the epoch once the changes up to it are consumed. *)
Lemma project_Ok g epoch maxSteps h :
  history_wf (EpochConfigVersions g) → schedule_ok g → 1 ≤ epoch ≤ MaxUint64 →
  maxSteps ≤ MaxUint64 →
  (∀ k v, EpochConfigVersions g !! k = Some v →
     ECV_Version v + Z.of_nat (length (scheduled_in 0 epoch g)) ≤ MaxUint64) →
  ProjectEpochStartHeight g epoch maxSteps = Ok h →
  ∃ g', for_each consume_next (scheduled_in 0 epoch g) g = (g', Ok tt) ∧
    history_wf (EpochConfigVersions g') ∧ start_of (EpochConfigVersions g') epoch = h ∧
    is_u64 h ∧ passed epoch g g' ∧ ∃ k' lat', seek_max (EpochConfigVersions g') = Some (k', lat') ∧
      ∃ v, EpochConfigVersions g !! ECV_EffectiveEpoch v = Some v ∧
        ECV_Version lat' = ECV_Version v + Z.of_nat (length (scheduled_in 0 epoch g)).
Proof.
  intros Hwf Hsch He Hms Hver H. destruct (latest_spec g Hwf) as (k & lat & Hmax & Hr & _).
  pose proof (record_facts k lat Hr) as (Hek & Hku & _).
  apply seek_max_Some in Hmax as HM. destruct HM as [Hk Hall].
  unfold ProjectEpochStartHeight in H. apply res_bind_Ok in H as (v & Hv & H).
  destruct (epochConfigVersionFor_spec g Hwf epoch ltac:(lia)) as (k' & v' & Hs & Hr' & Hle & Hv').
  rewrite Hv in Hv'. injection Hv' as <-.
  pose proof (record_facts k' v Hr') as (Hek' & Hku' & _).
  apply seek_le_Some in Hs as HS. destruct HS as (Hk' & _).
  rewrite Hek', (scheduled_from g k' v epoch Hsch Hk') in H by lia.
  destruct (scheduled_sorted g epoch) as [Hsort Hnd].
  destruct (Z.le_gt_cases k epoch) as [Hke|Hke].
  - rewrite seek_le_max in Hs by (intros j y Hj; specialize (Hall j y Hj); lia).
    rewrite Hmax in Hs. injection Hs as <- <-.
    destruct (project_loop_agrees epoch maxSteps (scheduled_in 0 epoch g) g lat k lat 0 h)
      as (g' & Hrun & Hwf' & Hst & Hpass & kk & lat' & Hmax' & Hkk & Hvv);
      try done; try lia; try (by apply (Hver k)).
    + widths. lia.
    + intros j s. by apply elem_of_scheduled.
    + rewrite EpochStartHeight_spec in Hst by done. apply representable_Ok in Hst as [-> Hu].
      exists g'. split_and!; try done. exists kk, lat'. split; [done|]. exists lat. by rewrite Hek.
  - assert (scheduled_in 0 epoch g = []) as Hnil.
    { destruct (scheduled_in 0 epoch g) as [|[j s] l] eqn:E; [done|].
      assert ((j, s) ∈ scheduled_in 0 epoch g) as Hj by (rewrite E; set_solver).
      apply elem_of_scheduled in Hj as [Hj Hje]; [|done]. apply Hsch in Hj as (_ & _ & Hl).
      specialize (Hl _ _ Hk). lia. }
    rewrite Hnil in H |- *. simpl in H. apply wrap_Ok in H.
    rewrite (start_from_record k' v) in H by (done || (widths; lia)).
    apply representable_Ok in H as [-> Hu]. exists g. split_and!; try done.
    + unfold start_of. by rewrite Hs.
    + split; [done|]. intros j s. split; [|by intros [? _]]. intros Hj. split; [done|].
      apply Hsch in Hj as (_ & _ & Hl). specialize (Hl _ _ Hk). lia.
    + exists k, lat. split; [done|]. exists lat. rewrite Hek. split; [done | simpl; lia].
Qed.
(** One epoch further: the change scheduled at it, if any, comes last. *)
Lemma scheduled_succ g e :
  schedule_ok g → scheduled_in 0 (e + 1) g = scheduled_in 0 e g ++
    match ScheduledEpochConfigs g !! (e + 1) with Some s => [(e + 1, s)] | None => [] end.
Proof.
  intros Hsch. destruct (scheduled_sorted g (e + 1)) as [Hs1 Hn1].
  destruct (scheduled_sorted g e) as [Hs0 Hn0].
  set (extra := match ScheduledEpochConfigs g !! (e + 1) with Some s => [(e + 1, s)] | None => [] end).
  assert (∀ j s, (j, s) ∈ extra ↔ ScheduledEpochConfigs g !! j = Some s ∧ j = e + 1) as Hextra.
  { intros j s. unfold extra. destruct (ScheduledEpochConfigs g !! (e + 1)) as [s'|] eqn:E.
    - rewrite list_elem_of_singleton. naive_solver.
    - split; [by intros ?%elem_of_nil|]. naive_solver. }
  assert (∀ p, p ∈ scheduled_in 0 (e + 1) g ↔ p ∈ scheduled_in 0 e g ++ extra) as Helem.
  { intros [j s]. rewrite elem_of_app, !elem_of_scheduled, Hextra by done.
    split; [intros [? ?]|intros [[? ?]|[? ?]]; split; done || lia].
    destruct (decide (j = e + 1)); [by right | left; split; [done | lia]]. }
  apply (StronglySorted_unique_strong key_le); [|done| |].
  - intros [j s] [j' s'] Hp Hq H1 H2. unfold key_le in *. simpl in *.
    apply (NoDup_fmap_inj_on fst _ _ _ Hn1 Hp); [by apply Helem | simpl; lia].
  - apply StronglySorted_app. split_and!; [|done|].
    + intros [j s] [j' s'] Hj%elem_of_scheduled Hj'%Hextra; [|done]. unfold key_le. simpl. lia.
    + unfold extra. destruct (ScheduledEpochConfigs g !! (e + 1)); repeat constructor.
  - apply NoDup_Permutation; [by eapply NoDup_fmap_1 | | done].
    apply NoDup_app. split_and!; [by eapply NoDup_fmap_1 | |].
    + intros [j s] Hj%elem_of_scheduled Hj'%Hextra; [lia | done].
    + unfold extra. destruct (ScheduledEpochConfigs g !! (e + 1)); [apply NoDup_singleton | constructor].
Qed.

Lemma for_each_app_Ok {S A} (f : A → M S unit) l k s s' :
  for_each f (l ++ k) s = (s', Ok tt) →
  ∃ s1, for_each f l s = (s1, Ok tt) ∧ for_each f k s1 = (s', Ok tt).
Proof.
  revert s. induction l as [|x l IH]; intros s H; [by exists s|].
  apply M_bind_Ok in H as ([] & s1 & Hx & H). apply IH in H as (s2 & Hl & Hk).
  exists s2. split; [|done]. simpl for_each. by rewrite (M_bind_run _ _ _ _ _ Hx).
Qed.

(** Two projections in a row bound one epoch of the history to come. *)
Lemma project_span g e maxSteps start next :
  history_wf (EpochConfigVersions g) → schedule_ok g → 1 ≤ e < MaxUint64 → maxSteps ≤ MaxUint64 →
  (∀ k v, EpochConfigVersions g !! k = Some v →
     ECV_Version v + Z.of_nat (length (scheduled_in 0 (e + 1) g)) ≤ MaxUint64) →
  ProjectEpochStartHeight g e maxSteps = Ok start →
  ProjectEpochStartHeight g (e + 1) maxSteps = Ok next →
  ∃ g', for_each consume_next (scheduled_in 0 (e + 1) g) g = (g', Ok tt) ∧
    history_wf (EpochConfigVersions g') ∧
    start_of (EpochConfigVersions g') e = start ∧
    start_of (EpochConfigVersions g') (e + 1) = next ∧ is_u64 next.
Proof.
  intros Hwf Hsch He Hms Hver Hstart Hnext. pose proof (scheduled_succ g e Hsch) as Hl.
  destruct (project_Ok g e maxSteps start Hwf Hsch ltac:(lia) Hms) as
    (g1 & Hrun1 & Hwf1 & Hs1 & Hu1 & [Hsch1 Hrest] & k & lat & Hmax & v & Hv & Hvv); [|done|].
  { intros k v Hv. specialize (Hver k v Hv). rewrite Hl, length_app in Hver. lia. }
  destruct (project_Ok g (e + 1) maxSteps next Hwf Hsch ltac:(lia) Hms Hver Hnext) as
    (g2 & Hrun2 & Hwf2 & Hs2 & Hu2 & _).
  exists g2. split_and!; try done. pose proof Hrun2 as Hrun. rewrite Hl in Hrun.
  apply for_each_app_Ok in Hrun as (gm & Hm & Hlast). rewrite Hrun1 in Hm. injection Hm as <-.
  destruct (ScheduledEpochConfigs g !! (e + 1)) as [s|] eqn:E; [|by injection Hlast as <-].
  simpl in Hlast. apply M_bind_Ok in Hlast as ([] & g3 & Hlast & H3). injection H3 as ->.
  unfold consume_next in Hlast. cbn [fst] in Hlast.
  apply M_bind_Ok in Hlast as (h & g3 & H1 & Hlast). apply reads_Ok in H1 as [-> H1].
  rewrite EpochStartHeight_spec in H1 by (done || lia). apply representable_Ok in H1 as [-> Hu].
  apply M_bind_Ok in Hlast as (b & g3 & Hc & Hlast). injection Hlast as ->.
  assert (k < e + 1) as Hk.
  { apply seek_max_Some in Hmax as [Hk _].
    destruct (Hsch1 (e + 1) s) as (_ & _ & Hlt); [apply Hrest; split; [done | lia]|]. by eapply Hlt. }
  destruct (start_after_last g1 k lat (e + 1) Hwf1 Hmax ltac:(lia)) as [_ Hst]. rewrite Hst in *.
  assert (ECV_Version lat < MaxUint64) as Hlt.
  { specialize (Hver _ _ Hv). rewrite Hl, length_app in Hver. simpl in Hver. lia. }
  assert (ScheduledEpochConfigs g1 !! (e + 1) = Some s) as Hs by (apply Hrest; split; [done | lia]).
  rewrite (consume_spec g1 (e + 1) s k lat Hwf1 Hsch1 Hmax Hs Hlt Hu) in Hc. injection Hc as <- <-.
  destruct (consumed_wf g1 (e + 1) s k lat Hwf1 Hsch1 Hmax Hs Hlt Hu) as (_ & Hkeep & _).
  rewrite Hkeep by lia. done.
Qed.
End project.

Section partition.
Context (g : Geometry) (Hwf : history_wf (EpochConfigVersions g)).
Let m := EpochConfigVersions g.

Lemma EpochEndHeight_spec e :
  1 ≤ e → e < MaxUint64 → start_of m (e + 1) ≤ MaxUint64 →
  EpochEndHeight g e = Ok (start_of m (e + 1) - 1).
Proof using Hwf.
  intros He Hlt Hs. unfold EpochEndHeight.
  assert (AddUint64 e 1 = Ok (e + 1)) as -> by (apply AddUint64_Ok; widths; lia).
  cbn [wrap mbind res_bind].
  rewrite EpochStartHeight_spec by (done || lia). fold m.
  pose proof (start_of_positive g Hwf (e + 1) ltac:(lia)) as Hp. fold m in Hp.
  unfold representable. rewrite decide_True by (widths; lia). cbn [mbind res_bind].
  apply wrap_Ok, SubUint64_Ok; widths; lia.
Qed.

(** Starts are strictly increasing, so intervals are disjoint. *)
Lemma start_of_disjoint e e' h :
  1 ≤ e → 1 ≤ e' → start_of m e ≤ h < start_of m (e + 1) →
  start_of m e' ≤ h < start_of m (e' + 1) → e = e'.
Proof using Hwf.
  assert (∀ a b h, 1 ≤ a → start_of m b ≤ h → h < start_of m (a + 1) → b ≤ a) as Hmono.
  { intros a b h' Ha Hb Hlt. apply Z.nlt_ge. intros Hab.
    pose proof (start_of_growth g Hwf (a + 1) (b - (a + 1)) ltac:(lia) ltac:(lia)) as Hg.
    fold m in Hg. replace (a + 1 + (b - (a + 1))) with b in Hg by lia. lia. }
  intros H1 H2 H3 H4. pose proof (Hmono e e' h). pose proof (Hmono e' e h). lia.
Qed.
End partition.

(** ** A sample geometry *)
Definition sample_version : EpochConfigVersion := {|
  ECV_Version := 1; ECV_EffectiveEpoch := 1; ECV_EffectiveStartHeight := 1;
  ECV_EpochLengthBlocks := 360 |}.
Definition sample_geometry : Geometry := {|
  EpochConfigVersions := {[1 := sample_version]};
  ScheduledEpochConfigs := {[3 := {| SEC_EffectiveEpoch := 3; SEC_EpochLengthBlocks := 720 |}]} |}.

Lemma history_wf_singleton v : record_ok 1 v → history_wf {[1 := v]}.
Proof.
  intros Hr. split_and!.
  - exists v. by rewrite lookup_singleton_eq.
  - intros k v' Hk. apply lookup_singleton_Some in Hk as [<- <-]. done.
  - intros j p k v' Hs Hk. apply lookup_singleton_Some in Hk as [<- <-].
    apply seek_lt_Some in Hs as (Hj & Hlt & _). apply lookup_singleton_Some in Hj as [<- _]. lia.
Qed.

Lemma sample_geometry_wf : history_wf (EpochConfigVersions sample_geometry).
Proof.
  apply history_wf_singleton. unfold record_ok. split_and!; ground.
Qed.

Lemma sample_schedule_ok : schedule_ok sample_geometry.
Proof.
  intros k s Hk. simpl in Hk. apply lookup_singleton_Some in Hk as [<- <-].
  split; [ground|]. split; [ground|].
  intros j v Hj. simpl in Hj. apply lookup_singleton_Some in Hj as [<- _]. lia.
Qed.

(** ** Properties *)

(** C29: the epochs of a well-formed history tile the block heights: an epoch's
    derived start, end and length agree, the next epoch starts one block after
    its end, and every height from the first epoch's start on lies between the
    derived start and end of exactly one epoch (heights for which the successor
    boundary is a uint64). *)
Theorem epochs_partition_heights (g : Geometry) (h : Z) :
  history_wf (EpochConfigVersions g) → start_of (EpochConfigVersions g) 1 ≤ h →
  h + HardMaxEpochLengthBlocks ≤ MaxUint64 →
  ∃ e s t,
    1 ≤ e ∧ EpochStartHeight g e = Ok s ∧ EpochEndHeight g e = Ok t ∧ s ≤ h ≤ t ∧
    EpochStartHeight g (e + 1) = Ok (t + 1) ∧
    EpochLengthForEpoch g e = Ok (t + 1 - s) ∧
    HardMinEpochLengthBlocks ≤ t + 1 - s ≤ HardMaxEpochLengthBlocks ∧
    (∀ e' s' t', 1 ≤ e' → EpochStartHeight g e' = Ok s' → EpochEndHeight g e' = Ok t' →
       s' ≤ h ≤ t' → e' = e).
Proof.
  intros Hwf Hh Hb. unfold HardMaxEpochLengthBlocks, HardMinEpochLengthBlocks in *.
  set (m := EpochConfigVersions g) in *.
  destruct (height_in_some_epoch g Hwf h Hh) as (e & He & Hin). fold m in Hin.
  destruct (EpochLengthForEpoch_spec g Hwf e He) as [Hlen Hlb]. fold m in Hlen, Hlb.
  pose proof (start_of_succ g Hwf e He) as Hsucc. fold m in Hsucc.
  pose proof (start_of_positive g Hwf e He) as Hpos. fold m in Hpos.
  pose proof (start_of_growth g Hwf 1 (e - 1) ltac:(lia) ltac:(lia)) as Hg. fold m in Hg.
  replace (1 + (e - 1)) with e in Hg by lia.
  pose proof (start_of_positive g Hwf 1 ltac:(lia)) as Hpos1. fold m in Hpos1.
  exists e, (start_of m e), (start_of m (e + 1) - 1).
  rewrite !EpochStartHeight_spec, EpochEndHeight_spec by (done || (fold m; widths; lia)).
  fold m. unfold representable. rewrite !decide_True by (widths; lia).
  split_and!; try done; try lia.
  - f_equal. lia.
  - rewrite Hlen. f_equal. lia.
  - intros e' s' t' He' Hs' Ht' Hin'. unfold EpochEndHeight in Ht'.
    apply res_bind_Ok in Ht' as (n & Hn & Ht'). apply wrap_Ok in Hn.
    assert (is_u64 e') as Heu.
    { destruct (Z.lt_ge_cases MaxUint64 e') as [Hgt|]; [|split; lia].
      exfalso. unfold AddUint64 in Hn. rewrite Z.gtb_ltb in Hn.
      change (u64 (MaxUint64 - 1)) with (MaxUint64 - 1) in Hn.
      destruct (Z.ltb_spec (MaxUint64 - 1) e'); [done | lia]. }
    apply AddUint64_Ok in Hn as [-> Hn]; [|done | vm_compute; split; discriminate].
    apply res_bind_Ok in Ht' as (s1 & Hs1 & Ht').
    rewrite EpochStartHeight_spec in Hs1, Hs' by (done || (widths; lia)). fold m in Hs1, Hs'.
    apply representable_Ok in Hs1 as [-> Hs1], Hs' as [-> Hs'].
    apply wrap_Ok, SubUint64_Ok in Ht' as [-> _]; [|done | vm_compute; split; discriminate].
    eapply (start_of_disjoint g Hwf e' e h); [done | done | |]; fold m; lia.
Qed.

Lemma epochs_partition_heights_witness :
  ∃ e s t, EpochStartHeight sample_geometry e = Ok s ∧ EpochEndHeight sample_geometry e = Ok t ∧
    s ≤ 1000 ≤ t.
Proof.
  destruct (epochs_partition_heights sample_geometry 1000) as (e & s & t & _ & H1 & H2 & H3 & _).
  - exact sample_geometry_wf.
  - vm_compute. discriminate.
  - vm_compute. discriminate.
  - exists e, s, t. auto.
Defined.

(** Appending a configuration version is atomic and never rewrites the past:
    a refused append leaves the store unchanged; an accepted one was admissible,
    keeps the history well formed, leaves the start of every epoch up to and
    including the new effective epoch and the length of every earlier epoch as
    they were, and gives the new length to every epoch from there on. *)
Theorem append_preserves_history (g g' : Geometry) (v : EpochConfigVersion) (r : res unit) :
  history_wf (EpochConfigVersions g) →
  is_u64 (ECV_EffectiveEpoch v) → is_u64 (ECV_Version v) →
  is_u64 (ECV_EffectiveStartHeight v) → is_u64 (ECV_EpochLengthBlocks v) →
  appendEpochConfigVersion v g = (g', r) →
  let m := EpochConfigVersions g in
  let m' := EpochConfigVersions g' in
  match r with
  | Err _ => g' = g
  | Ok _ =>
      history_wf m' ∧ m' = <[ECV_EffectiveEpoch v := v]> m ∧ m !! ECV_EffectiveEpoch v = None ∧
      (∀ e, 1 ≤ e ≤ ECV_EffectiveEpoch v → start_of m' e = start_of m e) ∧
      (∀ e, 1 ≤ e < ECV_EffectiveEpoch v → length_of m' e = length_of m e) ∧
      (∀ e, ECV_EffectiveEpoch v ≤ e → length_of m' e = ECV_EpochLengthBlocks v)
  end.
Proof.
  intros Hwf He Hv Hs Hl H m m'. destruct (append_run g v g' r H) as [[-> ->]|[-> [e ->]]]; [|done].
  destruct (latest_spec g Hwf) as (k & lat & Hmax & _).
  apply (append_spec g v k lat Hwf Hmax) in H as (Hr & Hlt & Hver & Hst); [|done..].
  pose proof (insert_starts m k lat v) as Hi. split_and!.
  - by apply (insert_wf m k lat v).
  - done.
  - apply seek_max_Some in Hmax as [_ Hall]. destruct (m !! ECV_EffectiveEpoch v) as [y|] eqn:E;
      [|done]. specialize (Hall _ _ E). lia.
  - intros e ?. apply (Hi e); done || lia.
  - intros e ?. apply (Hi e); done || lia.
  - intros e ?. apply (Hi e); done || lia.
Qed.

Definition sample_append : EpochConfigVersion := {|
  ECV_Version := 2; ECV_EffectiveEpoch := 3; ECV_EffectiveStartHeight := 721;
  ECV_EpochLengthBlocks := 500 |}.

Lemma append_preserves_history_witness :
  history_wf (EpochConfigVersions (fst (appendEpochConfigVersion sample_append sample_geometry))).
Proof.
  apply (append_preserves_history sample_geometry
    (fst (appendEpochConfigVersion sample_append sample_geometry)) sample_append (Ok tt)).
  - exact sample_geometry_wf.
  - ground.
  - ground.
  - ground.
  - ground.
  - vm_compute. reflexivity.
Defined.

(** A scheduled change is consumed exactly once and exactly where the history
    places its epoch: at the derived boundary height the consumption succeeds,
    removes the entry and appends the next version, with every earlier boundary
    unchanged and the scheduled length from that epoch on; where nothing is
    scheduled the store is unchanged. *)
Theorem consume_scheduled_exact (g : Geometry) (epoch : Z) (s : ScheduledEpochConfig)
    (lat : EpochConfigVersion) :
  history_wf (EpochConfigVersions g) → schedule_ok g →
  ScheduledEpochConfigs g !! epoch = Some s →
  latestEpochConfigVersion g = Ok lat → ECV_Version lat < MaxUint64 →
  is_u64 (start_of (EpochConfigVersions g) epoch) →
  let h := start_of (EpochConfigVersions g) epoch in
  ∃ g',
    consumeScheduledEpochConfig epoch h g = (g', Ok true) ∧
    consumeScheduledEpochConfig epoch h g' = (g', Ok false) ∧
    history_wf (EpochConfigVersions g') ∧
    ScheduledEpochConfigs g' = delete epoch (ScheduledEpochConfigs g) ∧
    EpochConfigVersions g' !! epoch = Some {| ECV_Version := ECV_Version lat + 1;
      ECV_EffectiveEpoch := epoch; ECV_EffectiveStartHeight := h;
      ECV_EpochLengthBlocks := SEC_EpochLengthBlocks s |} ∧
    (∀ e, 1 ≤ e → e ≤ epoch → start_of (EpochConfigVersions g') e = start_of (EpochConfigVersions g) e) ∧
    (∀ e, epoch ≤ e → length_of (EpochConfigVersions g') e = SEC_EpochLengthBlocks s).
Proof.
  intros Hwf Hsch Hs Hlat Hver Hu h. destruct (Hsch _ _ Hs) as (Heu & Hval & Hlater).
  destruct (latest_spec g Hwf) as (k & lat' & Hmax & Hr & Hlat').
  rewrite Hlat in Hlat'. injection Hlat' as <-.
  apply seek_max_Some in Hmax as HM. destruct HM as [Hk _]. pose proof (Hlater _ _ Hk).
  destruct (start_after_last g k lat epoch Hwf Hmax ltac:(widths; lia)) as [_ Hst].
  assert (h = start_from lat epoch) as Hh by done.
  rewrite Hh. rewrite Hst in Hu.
  exists (consumed epoch (start_from lat epoch) s (ECV_Version lat + 1) g).
  destruct (consumed_wf g epoch s k lat) as (H1 & H2 & _ & H4); try done.
  split_and!; try done.
  - by apply (consume_spec g epoch s k lat).
  - unfold consumeScheduledEpochConfig. erewrite M_bind_run.
    2:{ unfold gets. simpl. by rewrite lookup_delete_eq. }
    reflexivity.
  - simpl. by rewrite lookup_insert_eq.
  - auto.
Qed.

Lemma consume_scheduled_exact_witness :
  ∃ g', consumeScheduledEpochConfig 3 721 sample_geometry = (g', Ok true).
Proof.
  destruct (consume_scheduled_exact sample_geometry 3
    {| SEC_EffectiveEpoch := 3; SEC_EpochLengthBlocks := 720 |} sample_version) as (g' & H & _).
  - exact sample_geometry_wf.
  - exact sample_schedule_ok.
  - ground.
  - ground.
  - ground.
  - ground.
  - exists g'. exact H.
Defined.

(** The projection is the future: whenever [ProjectEpochStartHeight] answers,
    consuming the scheduled changes one after the other, each at the boundary
    height the history derives at that moment, succeeds, and the resulting
    history places the epoch at the projected height. *)
Theorem projection_agrees_with_consumption (g : Geometry) (epoch maxSteps h : Z)
    (lat : EpochConfigVersion) :
  history_wf (EpochConfigVersions g) → schedule_ok g → is_u64 epoch → maxSteps ≤ MaxUint64 →
  latestEpochConfigVersion g = Ok lat → ECV_EffectiveEpoch lat ≤ epoch →
  ECV_Version lat + Z.of_nat (length (scheduled_in (ECV_EffectiveEpoch lat) epoch g)) ≤ MaxUint64 →
  ProjectEpochStartHeight g epoch maxSteps = Ok h →
  ∃ g',
    for_each consume_next (scheduled_in (ECV_EffectiveEpoch lat) epoch g) g = (g', Ok tt) ∧
    history_wf (EpochConfigVersions g') ∧ EpochStartHeight g' epoch = Ok h.
Proof.
  intros Hwf Hsch He Hms Hlat Hle Hver H.
  destruct (latest_spec g Hwf) as (k & lat' & Hmax & Hr & Hlat').
  rewrite Hlat in Hlat'. injection Hlat' as <-.
  pose proof (record_facts k lat Hr) as (Hek & Hku & _).
  apply seek_max_Some in Hmax as HM. destruct HM as [Hk Hall].
  unfold ProjectEpochStartHeight in H. apply res_bind_Ok in H as (v & Hv & H).
  destruct (epochConfigVersionFor_spec g Hwf epoch ltac:(lia)) as (k' & v' & Hs & _ & _ & Hv').
  rewrite seek_le_max in Hs by (intros j y Hj; specialize (Hall j y Hj); lia).
  rewrite Hmax in Hs. injection Hs as <- <-. rewrite Hv in Hv'. injection Hv' as ->.
  edestruct (project_loop_agrees epoch maxSteps (scheduled_in (ECV_EffectiveEpoch lat) epoch g) g lat k lat 0 h)
    as (g' & H1 & H2 & H3 & _); [..|by exists g'];
    [done | done | lia | done | done | done | lia | by split_and! | | | | done | done].
  - apply StronglySorted_filtered, entries_sorted.
  - unfold scheduled_in. eapply sublist_NoDup; [apply (entries_keys_NoDup (ScheduledEpochConfigs g))|].
    apply fmap_sublist, sublist_filter.
  - intros j s. unfold scheduled_in. rewrite list_elem_of_filter, elem_of_entries. simpl.
    split; [naive_solver|]. intros [Hj Hje]. split; [|done]. split; [|done].
    rewrite Hek. destruct (Hsch j s Hj) as (_ & _ & Hl). by apply (Hl k lat).
Qed.

Lemma projection_agrees_with_consumption_witness :
  ∃ g', for_each consume_next (scheduled_in 1 5 sample_geometry) sample_geometry = (g', Ok tt) ∧
    EpochStartHeight g' 5 = Ok 2161.
Proof.
  destruct (projection_agrees_with_consumption sample_geometry 5 10 2161 sample_version)
    as (g' & H1 & _ & H2).
  - exact sample_geometry_wf.
  - exact sample_schedule_ok.
  - ground.
  - ground.
  - ground.
  - ground.
  - ground.
  - ground.
  - exists g'. split; [exact H1 | exact H2].
Defined.
