(* ===== verification/RewardConfig.v ===== *)
(** * x/rewards/keeper/rewardconfig.go: the reward-configuration history

    The canonical economic configurations ([RewardConfigVersions]), the index by
    version number and the scheduled change.  A target epoch [N] is governed by
    the version in force two epochs earlier; the theorems show that this binding
    is total, that promoting a scheduled change at an epoch close never alters
    the configuration of a target already bound, and that the history stays
    contiguous and completely indexed. *)
From S2P Require Import Prelude Checked SdkMath Bounds EconomicAddress RewardsTypes.
From S2P Require Import Collections.
Local Open Scope Z_scope.

Record RewardConfigStore := {
  RewardConfigVersions : gmap Z RewardConfigVersion;
  RewardConfigVersionIndex : gmap Z Z;
  ScheduledRewardConfigs : gmap Z ScheduledRewardConfig
}.

Section reward_config.
Context {SI : SdkInt} (economicAddresses : Validator).

(** [economic_address.go]: a treasury address matters only under a positive
    share. *)
Definition treasuryAddressRequired (emissionShareBps feeShareBps : Z) : bool :=
  (emissionShareBps >? 0) || (feeShareBps >? 0).
Definition validateTreasuryAddress (address : string) (emissionShareBps feeShareBps : Z)
    : res unit :=
  if negb (treasuryAddressRequired emissionShareBps feeShareBps) then mret tt
  else
    _ ← wrap RwInvalidAddress (Validate economicAddresses address);
    mret tt.
Definition validateRewardConfigTreasury (version : RewardConfigVersion) : res unit :=
  validateTreasuryAddress (RCV_TreasuryAddress version) (RCV_EmissionTreasuryShareBps version) 0.
Definition validateScheduledRewardConfigTreasury (scheduled : ScheduledRewardConfig) : res unit :=
  validateTreasuryAddress (SRC_TreasuryAddress scheduled)
    (SRC_EmissionTreasuryShareBps scheduled) 0.

Definition validateRewardConfigRecord (key : Z) (version : RewardConfigVersion) : res unit :=
  fail_if (negb (RCV_EffectiveEpoch version =? key)) RwInvalidState ;;
  RCV_Validate version.

Definition validateResolvedRewardConfig (key : Z) (version : RewardConfigVersion) : res unit :=
  validateRewardConfigRecord key version ;;
  validateRewardConfigTreasury version.

Definition rewardConfigPredecessor (s : RewardConfigStore) (effectiveEpoch : Z)
    : res (option RewardConfigVersion) :=
  match seek_lt effectiveEpoch (RewardConfigVersions s) with
  | None => mret None
  | Some (key, version) =>
      validateRewardConfigRecord key version ;;
      mret (Some version)
  end.

Definition validateAdjacentRewardConfigEdge (s : RewardConfigStore)
    (version : RewardConfigVersion) : res unit :=
  found ← rewardConfigPredecessor s (RCV_EffectiveEpoch version);
  match found with
  | None => mret tt
  | Some predecessor =>
      successor ← wrap RwInvalidState (AddUint64 (RCV_Version predecessor) 1);
      fail_if (negb (RCV_Version version =? successor)) RwInvalidState
  end.

Definition GenesisRewardConfigVersion (s : RewardConfigStore) : res RewardConfigVersion :=
  match RewardConfigVersions s !! 1 with
  | None => Err RwRewardConfigNotFound
  | Some version =>
      validateResolvedRewardConfig 1 version ;;
      fail_if (negb (RCV_Version version =? 1)) RwInvalidState ;;
      mret version
  end.

Definition requireRewardConfigAnchor (s : RewardConfigStore) : res unit :=
  _ ← GenesisRewardConfigVersion s;
  mret tt.

Definition rewardConfigVersionFor (s : RewardConfigStore) (epoch : Z)
    : res RewardConfigVersion :=
  fail_if (epoch =? 0) RwInvalidState ;;
  requireRewardConfigAnchor s ;;
  match seek_le epoch (RewardConfigVersions s) with
  | None => Err RwRewardConfigNotFound
  | Some (key, version) =>
      validateResolvedRewardConfig key version ;;
      validateAdjacentRewardConfigEdge s version ;;
      mret version
  end.

Definition RewardConfigForTarget (s : RewardConfigStore) (target : Z)
    : res RewardConfigVersion :=
  fail_if (target =? 0) RwInvalidState ;;
  if target <=? 2 then GenesisRewardConfigVersion s
  else
    bindingEpoch ← wrap RwInvalidState (SubUint64 target 2);
    rewardConfigVersionFor s bindingEpoch.

Definition set_index (version : RewardConfigVersion) (s : RewardConfigStore)
    : RewardConfigStore := {|
  RewardConfigVersions := RewardConfigVersions s;
  RewardConfigVersionIndex :=
    <[RCV_Version version := RCV_EffectiveEpoch version]> (RewardConfigVersionIndex s);
  ScheduledRewardConfigs := ScheduledRewardConfigs s |}.
Definition set_reward_version (version : RewardConfigVersion) (s : RewardConfigStore)
    : RewardConfigStore := {|
  RewardConfigVersions :=
    <[RCV_EffectiveEpoch version := version]> (RewardConfigVersions s);
  RewardConfigVersionIndex := RewardConfigVersionIndex s;
  ScheduledRewardConfigs := ScheduledRewardConfigs s |}.
Definition remove_scheduled_reward (epoch : Z) (s : RewardConfigStore) : RewardConfigStore := {|
  RewardConfigVersions := RewardConfigVersions s;
  RewardConfigVersionIndex := RewardConfigVersionIndex s;
  ScheduledRewardConfigs := delete epoch (ScheduledRewardConfigs s) |}.

Definition setRewardConfigVersionIndex (version : RewardConfigVersion)
    : M RewardConfigStore unit :=
  existing ← gets (λ s, RewardConfigVersionIndex s !! RCV_Version version);
  match existing with
  | Some _ => mthrow RwInvalidState
  | None => modify (set_index version)
  end.

Definition latestRewardConfigVersion (s : RewardConfigStore) : res RewardConfigVersion :=
  match seek_max (RewardConfigVersions s) with
  | None => Err RwRewardConfigNotFound
  | Some (key, version) =>
      validateResolvedRewardConfig key version ;;
      validateAdjacentRewardConfigEdge s version ;;
      mret version
  end.

Definition RewardConfigVersionByNumber (s : RewardConfigStore) (number : Z)
    : res (option RewardConfigVersion) :=
  fail_if (number =? 0) RwInvalidState ;;
  requireRewardConfigAnchor s ;;
  latest ← latestRewardConfigVersion s;
  if number >? RCV_Version latest then mret None
  else
    match RewardConfigVersionIndex s !! number with
    | None => Err RwInvalidState
    | Some effectiveEpoch =>
        match RewardConfigVersions s !! effectiveEpoch with
        | None => Err RwInvalidState
        | Some version =>
            validateResolvedRewardConfig effectiveEpoch version ;;
            fail_if (negb (RCV_Version version =? number)) RwInvalidState ;;
            validateAdjacentRewardConfigEdge s version ;;
            mret (Some version)
        end
    end.

Definition RewardConfigVersionAtEffectiveEpoch (s : RewardConfigStore) (effectiveEpoch : Z)
    : res (option RewardConfigVersion) :=
  fail_if (effectiveEpoch =? 0) RwInvalidState ;;
  requireRewardConfigAnchor s ;;
  match RewardConfigVersions s !! effectiveEpoch with
  | None => mret None
  | Some version =>
      validateResolvedRewardConfig effectiveEpoch version ;;
      validateAdjacentRewardConfigEdge s version ;;
      mret (Some version)
  end.

Definition appendRewardConfigVersion (version : RewardConfigVersion)
    : M RewardConfigStore unit :=
  lift (validateRewardConfigRecord (RCV_EffectiveEpoch version) version) ;;
  lift (validateRewardConfigTreasury version) ;;
  latest ← reads latestRewardConfigVersion;
  fail_if (RCV_EffectiveEpoch version <=? RCV_EffectiveEpoch latest) RwInvalidState ;;
  successor ← lift (wrap RwInvalidState (AddUint64 (RCV_Version latest) 1));
  fail_if (negb (RCV_Version version =? successor)) RwInvalidState ;;
  modify (set_reward_version version) ;;
  setRewardConfigVersionIndex version.

Definition ValidateScheduledRewardConfigRecord (key : Z) (scheduled : ScheduledRewardConfig)
    : res unit :=
  fail_if (negb (SRC_EffectiveEpoch scheduled =? key)) RwInvalidState ;;
  SRC_Validate scheduled.

Definition ScheduledRewardConfigFor (s : RewardConfigStore) (effectiveEpoch : Z)
    : res (option ScheduledRewardConfig) :=
  match ScheduledRewardConfigs s !! effectiveEpoch with
  | None => mret None
  | Some scheduled =>
      ValidateScheduledRewardConfigRecord effectiveEpoch scheduled ;;
      mret (Some scheduled)
  end.

Definition assertSingleScheduledRewardConfig (s : RewardConfigStore) (effectiveEpoch : Z)
    : res unit :=
  for_each (λ kv, fail_if (negb (fst kv =? effectiveEpoch)) RwInvalidState)
    (entries (ScheduledRewardConfigs s)).

Definition promoteScheduledRewardConfig (closingEpoch : Z) : M RewardConfigStore unit :=
  effectiveEpoch ← lift (wrap RwInvalidState (AddUint64 closingEpoch 1));
  reads (λ s, assertSingleScheduledRewardConfig s effectiveEpoch) ;;
  found ← reads (λ s, ScheduledRewardConfigFor s effectiveEpoch);
  match found with
  | None => mret tt
  | Some scheduled =>
      latest ← reads latestRewardConfigVersion;
      nextVersion ← lift (wrap RwInvalidState (AddUint64 (RCV_Version latest) 1));
      appendRewardConfigVersion {|
        RCV_Version := nextVersion;
        RCV_EffectiveEpoch := effectiveEpoch;
        RCV_InitialBlockSubsidy := SRC_InitialBlockSubsidy scheduled;
        RCV_EmissionTreasuryShareBps := SRC_EmissionTreasuryShareBps scheduled;
        RCV_TreasuryAddress := SRC_TreasuryAddress scheduled |} ;;
      modify (remove_scheduled_reward effectiveEpoch) ;;
      mret tt
  end.
End reward_config.

(** ** Well-formed reward histories *)
Section history.
Context {SI : SdkInt} (economicAddresses : Validator).
Abbreviation resolved := (validateResolvedRewardConfig economicAddresses).
Implicit Types (s : RewardConfigStore) (v : RewardConfigVersion).

Definition version_ok (k : Z) (v : RewardConfigVersion) : Prop :=
  is_u64 k ∧ is_u64 (RCV_Version v) ∧ resolved k v = Ok tt.

Record reward_wf (s : RewardConfigStore) : Prop := {
  rw_anchor : ∃ a, RewardConfigVersions s !! 1 = Some a ∧ RCV_Version a = 1;
  rw_ok : ∀ k v, RewardConfigVersions s !! k = Some v → version_ok k v;
  rw_edge : ∀ j p k v, seek_lt k (RewardConfigVersions s) = Some (j, p) →
    RewardConfigVersions s !! k = Some v → RCV_Version v = RCV_Version p + 1;
  rw_index : ∀ n k, RewardConfigVersionIndex s !! n = Some k ↔
    ∃ v, RewardConfigVersions s !! k = Some v ∧ RCV_Version v = n
}.

(** The configuration in force two epochs before the target, and at the anchor
    for the first two targets. *)
Definition governing (m : gmap Z RewardConfigVersion) (target : Z)
    : option RewardConfigVersion := snd <$> seek_le (Z.max 1 (target - 2)) m.

Lemma version_facts k v :
  version_ok k v →
  RCV_EffectiveEpoch v = k ∧ 0 < k ≤ MaxUint64 ∧ 0 < RCV_Version v ≤ MaxUint64 ∧
  validateRewardConfigRecord k v = Ok tt ∧
  (∃ amount, ParseCanonicalAmount (RCV_InitialBlockSubsidy v) = Ok amount ∧ 0 < amount) ∧
  RCV_EmissionTreasuryShareBps v ≤ HardMaxEmissionTreasuryShareBps.
Proof.
  intros (Hk & Hv & H). unfold validateResolvedRewardConfig in H.
  apply res_bind_Ok in H as ([] & Hrec & _).
  pose proof Hrec as Hrec'. unfold validateRewardConfigRecord, RCV_Validate,
    validateRewardEconomics in Hrec'. minv. zify_bool.
  match goal with H : ValidateEmissionTreasuryShareBps _ = _ |- _ =>
    apply ValidateEmissionTreasuryShareBps_Ok in H end.
  split_and!; eauto; widths; lia.
Qed.

Section lookups.
Context (s : RewardConfigStore) (Hwf : reward_wf s).
Let m := RewardConfigVersions s.

Lemma reward_edge_ok k v : m !! k = Some v → validateAdjacentRewardConfigEdge s v = Ok tt.
Proof using Hwf.
  intros Hk. pose proof (version_facts k v (rw_ok s Hwf k v Hk)) as (He & Hku & Hvu & _).
  unfold validateAdjacentRewardConfigEdge, rewardConfigPredecessor. rewrite He.
  destruct (seek_lt k (RewardConfigVersions s)) as [[j p]|] eqn:E; [|done].
  apply seek_lt_Some in E as Hj. destruct Hj as (Hj & Hlt & _).
  pose proof (version_facts j p (rw_ok s Hwf j p Hj)) as (_ & _ & Hpu & -> & _).
  cbn [mbind res_bind mret res_ret].
  pose proof (rw_edge s Hwf j p k v E Hk) as Hver.
  assert (AddUint64 (RCV_Version p) 1 = Ok (RCV_Version v)) as ->
    by (apply AddUint64_Ok; widths; lia).
  cbn [wrap mbind res_bind]. by rewrite Z.eqb_refl.
Qed.

Lemma genesis_ok : ∃ a, m !! 1 = Some a ∧ RCV_Version a = 1 ∧
  GenesisRewardConfigVersion economicAddresses s = Ok a.
Proof using Hwf.
  destruct (rw_anchor s Hwf) as (a & Ha & Hv). exists a. split_and!; [done..|].
  unfold GenesisRewardConfigVersion. rewrite Ha.
  destruct (rw_ok s Hwf 1 a Ha) as (_ & _ & ->). cbn [mbind res_bind]. by rewrite Hv.
Qed.

Lemma anchor_present : requireRewardConfigAnchor economicAddresses s = Ok tt.
Proof using Hwf.
  destruct genesis_ok as (a & _ & _ & H). unfold requireRewardConfigAnchor. by rewrite H.
Qed.

Lemma reward_seek epoch : 1 ≤ epoch →
  ∃ k v, seek_le epoch m = Some (k, v) ∧ m !! k = Some v ∧ 1 ≤ k ≤ epoch.
Proof using Hwf.
  intros He. destruct (seek_le epoch m) as [[k v]|] eqn:E.
  - exists k, v. apply seek_le_Some in E as (H1 & H2 & _).
    pose proof (version_facts k v (rw_ok s Hwf k v H1)). split_and!; try done; lia.
  - destruct (rw_anchor s Hwf) as (a & Ha & _).
    pose proof (proj1 (seek_le_None _ _) E 1 a Ha). lia.
Qed.

Lemma rewardConfigVersionFor_spec epoch : 1 ≤ epoch →
  ∃ v, snd <$> seek_le epoch m = Some v ∧
    rewardConfigVersionFor economicAddresses s epoch = Ok v.
Proof using Hwf.
  intros He. destruct (reward_seek epoch He) as (k & v & Hs & Hk & Hle).
  exists v. rewrite Hs. split; [done|]. unfold rewardConfigVersionFor.
  destruct (Z.eqb_spec epoch 0); [lia|]. cbn [fail_if mret res_ret mbind res_bind].
  rewrite anchor_present. cbn [mbind res_bind]. fold m. rewrite Hs.
  destruct (rw_ok s Hwf k v Hk) as (_ & _ & ->). cbn [mbind res_bind].
  by rewrite (reward_edge_ok k v Hk).
Qed.

(** Every target is bound, by the version two epochs back. *)
Lemma RewardConfigForTarget_spec target : 1 ≤ target ≤ MaxUint64 →
  ∃ v, governing m target = Some v ∧
    RewardConfigForTarget economicAddresses s target = Ok v.
Proof using Hwf.
  intros Ht. unfold RewardConfigForTarget, governing.
  destruct (Z.eqb_spec target 0); [lia|]. cbn [fail_if mret res_ret mbind res_bind].
  destruct (Z.leb_spec target 2).
  - destruct genesis_ok as (a & Ha & _ & ->). exists a. split; [|done].
    replace (Z.max 1 (target - 2)) with 1 by lia.
    destruct (reward_seek 1) as (k & v & -> & Hk & Hle); [lia|].
    assert (k = 1) as -> by lia. simpl. congruence.
  - assert (SubUint64 target 2 = Ok (target - 2)) as ->
      by (apply SubUint64_Ok; widths; lia).
    cbn [wrap mbind res_bind]. rewrite Z.max_r by lia.
    apply rewardConfigVersionFor_spec. lia.
Qed.

Lemma latestRewardConfigVersion_spec :
  ∃ k v, seek_max m = Some (k, v) ∧ m !! k = Some v ∧
    latestRewardConfigVersion economicAddresses s = Ok v.
Proof using Hwf.
  unfold latestRewardConfigVersion. fold m.
  destruct (seek_max m) as [[k v]|] eqn:E.
  - apply seek_max_Some in E as [Hk _]. exists k, v. split_and!; [done..|].
    destruct (rw_ok s Hwf k v Hk) as (_ & _ & ->). cbn [mbind res_bind].
    by rewrite (reward_edge_ok k v Hk).
  - apply seek_max_None in E. destruct (rw_anchor s Hwf) as (a & Ha & _).
    fold m in Ha. rewrite E, lookup_empty in Ha. done.
Qed.

(** Version numbers are contiguous from one. *)
Lemma predecessor_version k v : m !! k = Some v → 1 < RCV_Version v →
  ∃ j p, m !! j = Some p ∧ RCV_Version p = RCV_Version v - 1 ∧ j < k.
Proof using Hwf.
  intros Hk Hv. destruct (seek_lt k m) as [[j p]|] eqn:E.
  - pose proof (rw_edge s Hwf j p k v E Hk). apply seek_lt_Some in E as (Hj & Hlt & _).
    exists j, p. split_and!; [done | lia | done].
  - destruct (rw_anchor s Hwf) as (a & Ha & Hva). fold m in Ha.
    pose proof (proj1 (seek_lt_None _ _) E 1 a Ha).
    pose proof (version_facts k v (rw_ok s Hwf k v Hk)).
    assert (k = 1) as -> by lia. rewrite Hk in Ha. injection Ha as ->. lia.
Qed.

Lemma versions_complete d : 0 ≤ d →
  ∀ k v, m !! k = Some v → 1 ≤ RCV_Version v - d →
  ∃ j p, m !! j = Some p ∧ RCV_Version p = RCV_Version v - d.
Proof using Hwf.
  revert d. refine (natlike_ind (λ d, ∀ k v, _ → _ → _) _ _).
  - intros k v Hk _. exists k, v. split; [done | lia].
  - intros d Hd IH k v Hk Hv.
    destruct (IH k v Hk) as (j & p & Hj & Hp); [lia|].
    destruct (predecessor_version j p Hj) as (i & q & Hi & Hq & _); [lia|].
    exists i, q. split; [done | lia].
Qed.

Lemma version_le_latest k v kl lat :
  m !! k = Some v → seek_max m = Some (kl, lat) → RCV_Version v ≤ RCV_Version lat.
Proof using Hwf.
  intros Hk Hmax. apply seek_max_Some in Hmax as [Hl Hall].
  apply Z.nlt_ge. intros Hgt.
  pose proof (version_facts kl lat (rw_ok s Hwf kl lat Hl)).
  (* Walking back from [v] reaches the latest version at a smaller key. *)
  assert (∀ d, 0 ≤ d → ∀ k v, m !! k = Some v → RCV_Version v = RCV_Version lat + d →
    kl ≤ k) as Hback.
  { refine (natlike_ind (λ d, ∀ k v, _ → _ → _) _ _).
    - intros k' v' Hk' Hv'.
      assert (RewardConfigVersionIndex s !! RCV_Version lat = Some k')
        by (apply (rw_index s Hwf); exists v'; split; [done | lia]).
      assert (RewardConfigVersionIndex s !! RCV_Version lat = Some kl)
        by (apply (rw_index s Hwf); by exists lat).
      assert (k' = kl) by congruence. lia.
    - intros d Hd IH k' v' Hk' Hv'.
      destruct (predecessor_version k' v' Hk') as (j & p & Hj & Hp & Hjk); [lia|].
      specialize (IH j p Hj ltac:(lia)). lia. }
  destruct (predecessor_version k v Hk) as (j & p & Hj & Hp & Hjk); [lia|].
  pose proof (Hback (RCV_Version p - RCV_Version lat) ltac:(lia) j p Hj ltac:(lia)).
  specialize (Hall k v Hk). lia.
Qed.
End lookups.
End history.

(** ** Promoting a scheduled change *)
Section promote.
Context {SI : SdkInt} (economicAddresses : Validator).
Abbreviation wf := (reward_wf economicAddresses).
Abbreviation promote := (promoteScheduledRewardConfig economicAddresses).
Implicit Types (s : RewardConfigStore) (v lat : RewardConfigVersion).

(** The store with a new last version. *)
Definition with_version v s : RewardConfigStore := set_index v (set_reward_version v s).

Definition promoted_version (closing : Z) (lat : RewardConfigVersion)
    (scheduled : ScheduledRewardConfig) : RewardConfigVersion := {|
  RCV_Version := RCV_Version lat + 1;
  RCV_EffectiveEpoch := closing + 1;
  RCV_InitialBlockSubsidy := SRC_InitialBlockSubsidy scheduled;
  RCV_EmissionTreasuryShareBps := SRC_EmissionTreasuryShareBps scheduled;
  RCV_TreasuryAddress := SRC_TreasuryAddress scheduled |}.

Lemma with_version_wf s k lat v :
  wf s → seek_max (RewardConfigVersions s) = Some (k, lat) → k < RCV_EffectiveEpoch v →
  version_ok economicAddresses (RCV_EffectiveEpoch v) v →
  RCV_Version v = RCV_Version lat + 1 → wf (with_version v s).
Proof.
  intros Hwf Hmax Hlt Hv Hver. apply seek_max_Some in Hmax as HM. destruct HM as [Hk Hall].
  assert (∀ j y, RewardConfigVersions s !! j = Some y → j < RCV_EffectiveEpoch v) as Hlast
    by (intros j y Hj; specialize (Hall j y Hj); lia).
  assert (RewardConfigVersions s !! RCV_EffectiveEpoch v = None) as Hnone.
  { destruct (RewardConfigVersions s !! RCV_EffectiveEpoch v) eqn:E; [|done].
    specialize (Hlast _ _ E). lia. }
  split; simpl.
  - destruct (rw_anchor _ s Hwf) as (a & Ha & ?). exists a. split; [|done].
    rewrite lookup_insert_ne; [done|]. specialize (Hlast _ _ Ha). lia.
  - intros j y Hj. apply lookup_insert_Some in Hj as [[<- <-]|[_ Hj]]; [done|].
    by apply (rw_ok _ s Hwf).
  - intros j p k' v' Hseek Hk'. apply lookup_insert_Some in Hk' as [[<- <-]|[Hne Hk']].
    + rewrite seek_lt_insert_ge, (seek_lt_max (RewardConfigVersions s)), Hmax in Hseek
        by (done || lia). by injection Hseek as <- <-.
    + rewrite seek_lt_insert_ge in Hseek by (specialize (Hlast _ _ Hk'); lia).
      by eapply (rw_edge _ s Hwf).
  - intros n j. rewrite lookup_insert_Some. setoid_rewrite lookup_insert_Some.
    rewrite (rw_index _ s Hwf). split.
    + intros [[<- <-]|[Hne (y & Hy & <-)]]; [naive_solver|].
      exists y. split; [|done]. right. split; [|done]. specialize (Hlast _ _ Hy). lia.
    + intros (y & [[<- <-]|[Hne Hy]] & <-); [by left|]. right. split; [|by exists y].
      pose proof (version_le_latest economicAddresses s Hwf j y k lat Hy Hmax). lia.
Qed.

(** A successful append wrote the version and its index entry. *)
Lemma append_reward_Ok s v s' k lat :
  wf s → seek_max (RewardConfigVersions s) = Some (k, lat) →
  is_u64 (RCV_EffectiveEpoch v) → is_u64 (RCV_Version v) →
  appendRewardConfigVersion economicAddresses v s = (s', Ok tt) →
  s' = with_version v s ∧ k < RCV_EffectiveEpoch v ∧ RCV_Version v = RCV_Version lat + 1 ∧
  version_ok economicAddresses (RCV_EffectiveEpoch v) v.
Proof.
  intros Hwf Hmax He Hvu H.
  destruct (latestRewardConfigVersion_spec economicAddresses s Hwf) as (k' & lat' & Hm' & Hk & Hlat).
  rewrite Hmax in Hm'. injection Hm' as <- <-.
  pose proof (version_facts _ k lat (rw_ok _ s Hwf k lat Hk)) as (Hek & _ & Hlu & _).
  unfold appendRewardConfigVersion in H.
  apply M_bind_Ok in H as ([] & s1 & H1 & H). apply lift_Ok in H1 as [-> Hrec].
  apply M_bind_Ok in H as ([] & s1 & H1 & H). apply lift_Ok in H1 as [-> Htr].
  apply M_bind_Ok in H as (l & s1 & H1 & H). apply reads_Ok in H1 as [-> H1].
  rewrite Hlat in H1. injection H1 as <-.
  minv. zify_bool.
  match goal with H : AddUint64 _ _ = Ok _ |- _ =>
    apply AddUint64_Ok in H as [-> ?]; [|widths; lia..] end.
  match goal with H : setRewardConfigVersionIndex _ _ = _ |- _ =>
    unfold setRewardConfigVersionIndex in H; minv;
    destruct (RewardConfigVersionIndex _ !! _); minv end.
  split; [done|]. split; [lia|]. split; [done|]. split; [done|]. split; [done|].
  unfold validateResolvedRewardConfig. by rewrite Hrec.
Qed.

Lemma append_reward_run s v k lat :
  wf s → seek_max (RewardConfigVersions s) = Some (k, lat) → k < RCV_EffectiveEpoch v →
  version_ok economicAddresses (RCV_EffectiveEpoch v) v →
  RCV_Version v = RCV_Version lat + 1 →
  appendRewardConfigVersion economicAddresses v s = (with_version v s, Ok tt).
Proof.
  intros Hwf Hmax Hlt Hv Hver.
  destruct (latestRewardConfigVersion_spec economicAddresses s Hwf) as (k' & lat' & Hm' & Hk & Hlat).
  rewrite Hmax in Hm'. injection Hm' as <- <-.
  pose proof (version_facts _ k lat (rw_ok _ s Hwf k lat Hk)) as (Hek & _ & Hlu & _).
  pose proof (version_facts _ _ _ Hv) as (_ & _ & Hvu & Hrec & _).
  destruct Hv as (_ & _ & Hres). unfold validateResolvedRewardConfig in Hres.
  rewrite Hrec in Hres. cbn [mbind res_bind] in Hres.
  unfold appendRewardConfigVersion.
  rewrite (M_bind_run _ _ s s tt) by (unfold lift; by rewrite Hrec).
  rewrite (M_bind_run _ _ s s tt) by (unfold lift; by rewrite Hres).
  rewrite (M_bind_run _ _ s s lat) by (unfold reads; by rewrite Hlat). rewrite Hek.
  destruct (Z.leb_spec (RCV_EffectiveEpoch v) k); [lia|].
  rewrite (M_bind_run _ _ s s tt) by done.
  rewrite (M_bind_run _ _ s s (RCV_Version v)).
  2:{ unfold lift. f_equal. apply wrap_Ok, AddUint64_Ok; widths; lia. }
  rewrite Z.eqb_refl. rewrite (M_bind_run _ _ s s tt) by done.
  rewrite (M_bind_run _ _ s (set_reward_version v s) tt) by done.
  unfold setRewardConfigVersionIndex.
  rewrite (M_bind_run _ _ _ (set_reward_version v s) None); [done|].
  unfold gets. do 2 f_equal. simpl.
  destruct (RewardConfigVersionIndex s !! RCV_Version v) as [j|] eqn:E; [|done].
  apply (rw_index _ s Hwf) in E as (y & Hy & Hyv).
  pose proof (version_le_latest economicAddresses s Hwf j y k lat Hy Hmax). lia.
Qed.

Lemma governing_insert m v t :
  t - 2 < RCV_EffectiveEpoch v → 1 < RCV_EffectiveEpoch v →
  governing (<[RCV_EffectiveEpoch v := v]> m) t = governing m t.
Proof. intros H1 H2. unfold governing. by rewrite seek_le_insert_gt by lia. Qed.

Lemma assertSingle_spec s e :
  assertSingleScheduledRewardConfig s e = Ok tt ↔
  ∀ k x, ScheduledRewardConfigs s !! k = Some x → k = e.
Proof.
  unfold assertSingleScheduledRewardConfig.
  assert (∀ l : list (Z * ScheduledRewardConfig),
    for_each (λ kv, fail_if (negb (fst kv =? e)) RwInvalidState) l = Ok tt ↔
    ∀ k x, (k, x) ∈ l → k = e) as Hl.
  { induction l as [|[k x] l IH]; simpl.
    - split; [|done]. intros _ k x H. by apply not_elem_of_nil in H.
    - destruct (Z.eqb_spec k e) as [->|Hne]; simpl.
      + rewrite IH. split; [|by intros H k' x' ?; apply (H k' x'); right].
        intros H k' x' [[= -> ->]|?]%elem_of_cons; [done | by eapply H].
      + split; [done|]. intros H. destruct Hne. apply (H k x). by left. }
  rewrite Hl. by setoid_rewrite elem_of_entries.
Qed.

(** A successful promotion with something scheduled. *)
Lemma promote_Ok s s' c :
  wf s → is_u64 c → promote c s = (s', Ok tt) →
  (ScheduledRewardConfigs s !! (c + 1) = None ∧ s' = s) ∨
  ∃ sched k lat,
    ScheduledRewardConfigs s !! (c + 1) = Some sched ∧
    seek_max (RewardConfigVersions s) = Some (k, lat) ∧ k ≤ c ∧
    version_ok economicAddresses (c + 1) (promoted_version c lat sched) ∧
    s' = remove_scheduled_reward (c + 1) (with_version (promoted_version c lat sched) s).
Proof.
  intros Hwf Hc H. unfold promoteScheduledRewardConfig in H.
  apply M_bind_Ok in H as (e & s1 & H1 & H). apply lift_Ok in H1 as [-> H1].
  apply wrap_Ok, AddUint64_Ok in H1 as [-> Hmax]; [|done | ground].
  apply M_bind_Ok in H as ([] & s1 & H1 & H). apply reads_Ok in H1 as [-> _].
  apply M_bind_Ok in H as (found & s1 & H1 & H). apply reads_Ok in H1 as [-> H1].
  unfold ScheduledRewardConfigFor in H1.
  destruct (ScheduledRewardConfigs s !! (c + 1)) as [sched|] eqn:Es; minv; [|by left].
  right.
  destruct (latestRewardConfigVersion_spec economicAddresses s Hwf) as (k & lat & Hm & Hk & Hlat).
  match goal with H : latestRewardConfigVersion _ s = Ok _ |- _ =>
    rewrite Hlat in H; injection H as <- end.
  pose proof (version_facts _ k lat (rw_ok _ s Hwf k lat Hk)) as (Hek & _ & Hlu & _).
  match goal with H : AddUint64 _ _ = Ok _ |- _ =>
    apply AddUint64_Ok in H as [-> ?]; [|widths; lia..] end.
  match goal with H : appendRewardConfigVersion _ ?v _ = _ |- _ =>
    change v with (promoted_version c lat sched) in H;
    apply (append_reward_Ok s _ _ k lat Hwf Hm) in H as (-> & Hlt & _ & Hok);
    [|widths; simpl; lia..] end.
  exists sched, k, lat. simpl in *. split_and!; try done; lia.
Qed.
End promote.

(** ** A sample store *)
Definition sample_reward_version : RewardConfigVersion := {|
  RCV_Version := 1; RCV_EffectiveEpoch := 1; RCV_InitialBlockSubsidy := "416190"%string;
  RCV_EmissionTreasuryShareBps := 0; RCV_TreasuryAddress := EmptyString |}.
Definition sample_reward_store : RewardConfigStore := {|
  RewardConfigVersions := {[1 := sample_reward_version]};
  RewardConfigVersionIndex := {[1 := 1]};
  ScheduledRewardConfigs := {[5 := {| SRC_EffectiveEpoch := 5;
    SRC_InitialBlockSubsidy := "1000"%string; SRC_EmissionTreasuryShareBps := 0;
    SRC_TreasuryAddress := EmptyString |}]} |}.
Definition sample_validator : Validator := {|
  codec := Some (λ s, Some s); moduleAccounts := {["rewards"%string]}; blocked := ∅ |}.

Lemma sample_reward_wf : @reward_wf sdkint_256 sample_validator sample_reward_store.
Proof.
  split; simpl.
  - exists sample_reward_version. split; [apply lookup_singleton_eq | done].
  - intros k v Hk. apply lookup_singleton_Some in Hk as [<- <-].
    split; [ground|]. split; [ground|]. ground.
  - intros j p k v Hs Hk. apply lookup_singleton_Some in Hk as [<- <-].
    apply seek_lt_Some in Hs as (Hj & Hlt & _). apply lookup_singleton_Some in Hj as [<- _]. lia.
  - intros n k. rewrite lookup_singleton_Some. setoid_rewrite lookup_singleton_Some.
    split; [intros [<- <-]; by exists sample_reward_version | by intros (v & [<- <-] & <-)].
Qed.

(** ** Properties *)

(** C28: promoting at the close of epoch [c] never changes the configuration of a
    target already bound: every target up to [c + 2] resolves to the same version
    before and after, a scheduled change becomes the next contiguous version,
    first governing target [c + 3] with exactly the scheduled economics, its
    entry is consumed, and with nothing scheduled the store is unchanged.  The
    history, its numbering and its index stay well formed. *)
Theorem reward_binding_frozen {SI : SdkInt} (econ : Validator) (s s' : RewardConfigStore) (c : Z) :
  reward_wf econ s → 1 ≤ c → c + 3 ≤ MaxUint64 →
  promoteScheduledRewardConfig econ c s = (s', Ok tt) →
  reward_wf econ s' ∧
  (∀ t, 1 ≤ t ≤ c + 2 → RewardConfigForTarget econ s' t = RewardConfigForTarget econ s t) ∧
  match ScheduledRewardConfigs s !! (c + 1) with
  | None => s' = s
  | Some sched =>
      ∃ lat, latestRewardConfigVersion econ s = Ok lat ∧
        RewardConfigForTarget econ s' (c + 3) = Ok (promoted_version c lat sched) ∧
        ScheduledRewardConfigs s' = delete (c + 1) (ScheduledRewardConfigs s)
  end.
Proof.
  intros Hwf Hc1 Hcm H.
  destruct (promote_Ok econ s s' c Hwf ltac:(widths; lia) H)
    as [[Hn ->]|(sched & k & lat & Hs & Hmax & Hkc & Hok & ->)].
  { rewrite Hn. done. }
  set (v := promoted_version c lat sched) in *.
  assert (reward_wf econ (with_version v s)) as Hwf1
    by (eapply with_version_wf; [done | done | simpl; lia | done | done]).
  assert (reward_wf econ (remove_scheduled_reward (c + 1) (with_version v s))) as Hwf2
    by (destruct Hwf1; split; done).
  split; [done|]. split.
  - intros t Ht.
    destruct (RewardConfigForTarget_spec econ _ Hwf2 t) as (w & Hw & ->); [widths; lia|].
    destruct (RewardConfigForTarget_spec econ s Hwf t) as (w' & Hw' & ->); [widths; lia|].
    simpl in Hw. change (c + 1) with (RCV_EffectiveEpoch v) in Hw.
    rewrite governing_insert in Hw by (simpl; lia). congruence.
  - rewrite Hs. exists lat. split_and!; [|clear H|done].
    + destruct (latestRewardConfigVersion_spec econ s Hwf) as (k' & lat' & Hm & _ & ->).
      congruence.
    + destruct (RewardConfigForTarget_spec econ _ Hwf2 (c + 3)) as (w & Hw & ->); [widths; lia|].
      apply seek_max_Some in Hmax as [_ Hall].
      unfold governing in Hw. simpl in Hw. rewrite seek_le_insert_last in Hw.
      * simpl in Hw. by injection Hw as <-.
      * lia.
      * intros j y Hj. specialize (Hall j y Hj). lia.
Qed.

Lemma reward_binding_frozen_witness :
  @RewardConfigForTarget sdkint_256 sample_validator
    (fst (@promoteScheduledRewardConfig sdkint_256 sample_validator 4 sample_reward_store)) 6 =
  @RewardConfigForTarget sdkint_256 sample_validator sample_reward_store 6.
Proof.
  apply (@reward_binding_frozen sdkint_256 sample_validator sample_reward_store
    (fst (@promoteScheduledRewardConfig sdkint_256 sample_validator 4 sample_reward_store)) 4);
    [exact sample_reward_wf | lia | ground | vm_compute; reflexivity | lia].
Defined.

(** On a well-formed history the lookups are total and complete: every target
    epoch resolves, to a stored version effective no later than two epochs before
    it (or to the genesis anchor), with a positive subsidy and a treasury share
    within the hard bound; every version number from one to the latest is found
    under that number; and no higher number is. *)
Theorem reward_history_complete {SI : SdkInt} (econ : Validator) (s : RewardConfigStore) (n : Z) :
  reward_wf econ s → 1 ≤ n ≤ MaxUint64 →
  (∃ v amount, RewardConfigForTarget econ s n = Ok v ∧
     RewardConfigVersions s !! RCV_EffectiveEpoch v = Some v ∧
     RCV_EffectiveEpoch v ≤ Z.max 1 (n - 2) ∧
     ParseCanonicalAmount (RCV_InitialBlockSubsidy v) = Ok amount ∧ 0 < amount ∧
     RCV_EmissionTreasuryShareBps v ≤ HardMaxEmissionTreasuryShareBps) ∧
  ∃ lat, latestRewardConfigVersion econ s = Ok lat ∧
    if decide (n ≤ RCV_Version lat)
    then ∃ v, RewardConfigVersionByNumber econ s n = Ok (Some v) ∧ RCV_Version v = n ∧
      RewardConfigVersionAtEffectiveEpoch econ s (RCV_EffectiveEpoch v) = Ok (Some v)
    else RewardConfigVersionByNumber econ s n = Ok None.
Proof.
  intros Hwf Hn. split.
  - destruct (RewardConfigForTarget_spec econ s Hwf n Hn) as (v & Hv & ->).
    unfold governing in Hv.
    destruct (reward_seek econ s Hwf (Z.max 1 (n - 2))) as (k & v' & Hs & Hk & Hle); [lia|].
    rewrite Hs in Hv. simpl in Hv. injection Hv as ->.
    destruct (version_facts econ k v (rw_ok _ s Hwf k v Hk))
      as (He & _ & _ & _ & (amount & Ha & Hp) & Hb).
    exists v, amount. rewrite He. split_and!; done || lia.
  - destruct (latestRewardConfigVersion_spec econ s Hwf) as (k & lat & Hmax & Hk & Hlat).
    exists lat. split; [done|]. unfold RewardConfigVersionByNumber.
    destruct (Z.eqb_spec n 0); [lia|]. cbn [fail_if mret res_ret mbind res_bind].
    rewrite (anchor_present econ s Hwf), Hlat. cbn [mbind res_bind]. rewrite Z.gtb_ltb.
    case_decide as Hle; destruct (Z.ltb_spec (RCV_Version lat) n); try lia; [|done].
    destruct (versions_complete econ s Hwf (RCV_Version lat - n) ltac:(lia) k lat Hk)
      as (j & v & Hj & Hv); [lia|].
    assert (RCV_Version v = n) as Hvn by lia.
    rewrite (proj2 (rw_index _ s Hwf n j)) by (by exists v). rewrite Hj.
    pose proof (version_facts econ j v (rw_ok _ s Hwf j v Hj)) as (He & Hju & _).
    destruct (rw_ok _ s Hwf j v Hj) as (_ & _ & Hres). rewrite Hres. cbn [mbind res_bind].
    rewrite Hvn, Z.eqb_refl. cbn [negb fail_if mret res_ret mbind res_bind].
    rewrite (reward_edge_ok econ s Hwf j v Hj). cbn [mbind res_bind].
    exists v. split_and!; [done..|]. unfold RewardConfigVersionAtEffectiveEpoch. rewrite He.
    destruct (Z.eqb_spec j 0); [lia|]. cbn [fail_if mret res_ret mbind res_bind].
    rewrite (anchor_present econ s Hwf). cbn [mbind res_bind]. rewrite Hj, Hres.
    cbn [mbind res_bind]. by rewrite (reward_edge_ok econ s Hwf j v Hj).
Qed.

Lemma reward_history_complete_witness :
  ∃ lat, @latestRewardConfigVersion sdkint_256 sample_validator sample_reward_store = Ok lat.
Proof.
  destruct (@reward_history_complete sdkint_256 sample_validator sample_reward_store 1)
    as (_ & lat & H & _); [exact sample_reward_wf | ground | exists lat; exact H].
Defined.

Lemma promote_total {SI : SdkInt} (econ : Validator) (s : RewardConfigStore) (c : Z) :
  reward_wf econ s → 0 ≤ c < MaxUint64 →
  (∀ k x, ScheduledRewardConfigs s !! k = Some x →
     k = c + 1 ∧ ValidateScheduledRewardConfigRecord k x = Ok tt ∧
     validateScheduledRewardConfigTreasury econ x = Ok tt) →
  (∀ k v, RewardConfigVersions s !! k = Some v → k ≤ c ∧ RCV_Version v < MaxUint64) →
  ∃ s', promoteScheduledRewardConfig econ c s = (s', Ok tt).
Proof.
  intros Hwf Hc Hsch Hlast. unfold promoteScheduledRewardConfig.
  erewrite M_bind_run.
  2:{ unfold lift. f_equal. apply wrap_Ok, AddUint64_Ok; [widths; lia | ground | split; [done | lia]]. }
  erewrite M_bind_run.
  2:{ unfold reads. f_equal. apply assertSingle_spec. intros k x Hk. by apply (Hsch k x). }
  unfold ScheduledRewardConfigFor.
  destruct (ScheduledRewardConfigs s !! (c + 1)) as [x|] eqn:E.
  2:{ erewrite M_bind_run; [|unfold reads; rewrite E; reflexivity]. by exists s. }
  destruct (Hsch _ _ E) as (_ & Hval & Htr).
  erewrite M_bind_run; [|unfold reads; rewrite E, Hval; reflexivity].
  destruct (latestRewardConfigVersion_spec econ s Hwf) as (k & lat & Hmax & Hk & Hlat).
  destruct (Hlast k lat Hk) as [Hkc Hvm].
  pose proof (version_facts econ k lat (rw_ok _ s Hwf k lat Hk)) as (Hek & Hku & Hvu & _).
  erewrite M_bind_run; [|unfold reads; by rewrite Hlat].
  erewrite M_bind_run.
  2:{ unfold lift. f_equal. apply wrap_Ok, AddUint64_Ok; [widths; lia | ground | split; [done | lia]]. }
  erewrite M_bind_run; [by eexists|].
  apply (append_reward_run econ s (promoted_version c lat x) k lat Hwf Hmax); simpl; [lia| |done].
  split_and!; simpl; [widths; lia | widths; lia |].
  unfold ValidateScheduledRewardConfigRecord, SRC_Validate in Hval.
  apply res_bind_Ok in Hval as (? & H1 & Hval). apply res_fail_if_Ok in H1.
  apply res_bind_Ok in Hval as (? & H2 & Hval). apply res_fail_if_Ok in H2.
  unfold validateResolvedRewardConfig, validateRewardConfigRecord, RCV_Validate,
    validateRewardConfigTreasury. simpl. rewrite Z.eqb_refl.
  destruct (Z.eqb_spec (RCV_Version lat + 1) 0); [lia|].
  destruct (Z.eqb_spec (c + 1) 0); [lia|]. cbn [negb fail_if mret res_ret mbind res_bind].
  rewrite Hval. exact Htr.
Qed.

(** When the only scheduled change is the admissible one for the closing
    epoch and lies after the history, the promotion cannot fail. *)
Theorem promotion_succeeds {SI : SdkInt} (econ : Validator) (s : RewardConfigStore) (c : Z) :
  reward_wf econ s → 0 ≤ c < MaxUint64 →
  (∀ k x, ScheduledRewardConfigs s !! k = Some x →
     k = c + 1 ∧ ValidateScheduledRewardConfigRecord k x = Ok tt ∧
     validateScheduledRewardConfigTreasury econ x = Ok tt) →
  (∀ k v, RewardConfigVersions s !! k = Some v → k ≤ c ∧ RCV_Version v < MaxUint64) →
  ∃ s', promoteScheduledRewardConfig econ c s = (s', Ok tt).
Proof. apply promote_total. Qed.

Lemma promotion_succeeds_witness :
  ∃ s', @promoteScheduledRewardConfig sdkint_256 sample_validator 4 sample_reward_store = (s', Ok tt).
Proof.
  apply (@promotion_succeeds sdkint_256 sample_validator sample_reward_store 4).
  - exact sample_reward_wf.
  - ground.
  - intros k x Hk. simpl in Hk. apply lookup_singleton_Some in Hk as [<- <-]. split_and!; ground.
  - intros k v Hk. simpl in Hk. apply lookup_singleton_Some in Hk as [<- <-]. split_and!; ground.
Defined.
