(* ===== verification/Bank.v ===== *)
(** * The bank and account keepers

    The [BankKeeper] and [AccountKeeper] interfaces of [x/rewards/keeper/keeper.go]
    belong to the Cosmos SDK.  Their state is abstract; the laws state the
    documented effect of the calls the rewards module makes with a single
    positive coin: minting credits the module account and the supply, a send
    moves the coin and changes nothing else; a mint within the range of [Int], and a
    send within the balance to an address the bank does not block, succeed.  [ledger] is a concrete instance. *)
From S2P Require Import Prelude EconomicAddress.
From Stdlib Require Import String.
Local Open Scope Z_scope.

Class BankKeeper := {
  Bank : Type;
  GetBalance : Bank → AccAddress → string → Z;
  GetSupply : Bank → string → Z;
  GetModuleAddress : string → option AccAddress;
  BlockedAddr : AccAddress → bool;
  MintCoins : string → string → Z → M Bank unit;
  SendCoinsFromModuleToAccount : string → AccAddress → string → Z → M Bank unit;

  GetBalance_nonneg b a d : 0 ≤ GetBalance b a d;
  MintCoins_Ok module denom amount b b' addr :
    GetModuleAddress module = Some addr → 0 < amount →
    MintCoins module denom amount b = (b', Ok tt) →
    (∀ a d, GetBalance b' a d =
       GetBalance b a d + if decide (a = addr ∧ d = denom) then amount else 0) ∧
    (∀ d, GetSupply b' d = GetSupply b d + if decide (d = denom) then amount else 0);
  MintCoins_total module denom amount b addr :
    GetModuleAddress module = Some addr → 0 < amount → GetSupply b denom + amount < 2 ^ 256 →
    ∃ b', MintCoins module denom amount b = (b', Ok tt);
  SendCoins_Ok module recipient denom amount b b' addr :
    GetModuleAddress module = Some addr → 0 < amount →
    SendCoinsFromModuleToAccount module recipient denom amount b = (b', Ok tt) →
    amount ≤ GetBalance b addr denom ∧
    (∀ a d, GetBalance b' a d =
       GetBalance b a d
       + (if decide (a = recipient ∧ d = denom) then amount else 0)
       - (if decide (a = addr ∧ d = denom) then amount else 0)) ∧
    (∀ d, GetSupply b' d = GetSupply b d);
  SendCoins_total module recipient denom amount b addr :
    GetModuleAddress module = Some addr → 0 < amount →
    amount ≤ GetBalance b addr denom → BlockedAddr recipient = false →
    ∃ b', SendCoinsFromModuleToAccount module recipient denom amount b = (b', Ok tt)
}.

(** ** A concrete ledger *)
Record ledger := {
  balances : gmap (string * string) N;
  supply : gmap string Z
}.

Definition ledger_balance (b : ledger) (a d : string) : Z :=
  Z.of_N (default 0%N (balances b !! (a, d))).
Definition ledger_set (a d : string) (z : Z) (b : ledger) : ledger :=
  {| balances := <[(a, d) := Z.to_N z]> (balances b); supply := supply b |}.
Definition ledger_mint (module denom : string) (amount : Z) : M ledger unit := λ b,
  if 0 <? amount then
    (let b1 := ledger_set module denom (ledger_balance b module denom + amount) b in
     {| balances := balances b1;
        supply := <[denom := default 0 (supply b !! denom) + amount]> (supply b) |}, Ok tt)
  else (b, Err ErrExternal).
Definition ledger_send (module recipient denom : string) (amount : Z) : M ledger unit := λ b,
  if (0 <? amount) && (amount <=? ledger_balance b module denom) then
    let b1 := ledger_set module denom (ledger_balance b module denom - amount) b in
    (ledger_set recipient denom (ledger_balance b1 recipient denom + amount) b1, Ok tt)
  else (b, Err ErrExternal).

Lemma ledger_balance_set b a d z a' d' :
  0 ≤ z → ledger_balance (ledger_set a d z b) a' d' =
    if decide (a' = a ∧ d' = d) then z else ledger_balance b a' d'.
Proof.
  intros Hz. unfold ledger_balance, ledger_set. simpl. case_decide as H.
  - destruct H as [-> ->]. rewrite lookup_insert_eq. simpl. lia.
  - rewrite lookup_insert_ne; [done|]. intros [= -> ->]. naive_solver.
Qed.

Lemma ledger_nonneg b a d : 0 ≤ ledger_balance b a d.
Proof. unfold ledger_balance. lia. Qed.

#[program] Definition ledger_bank : BankKeeper := {|
  Bank := ledger;
  GetBalance b a d := ledger_balance b a d;
  GetSupply b d := default 0 (supply b !! d);
  GetModuleAddress m := Some m;
  BlockedAddr _ := false;
  MintCoins := ledger_mint;
  SendCoinsFromModuleToAccount := ledger_send
|}.
Next Obligation. intros b a d. apply ledger_nonneg. Qed.
Next Obligation.
  intros module denom amount b b' addr [= <-] Ha H. simpl in *. unfold ledger_mint in H.
  destruct (Z.ltb_spec 0 amount); [|lia]. injection H as <-. split.
  - intros a d. unfold ledger_balance at 1. simpl.
    change (Z.of_N (default 0%N (<[(module, denom) := Z.to_N (ledger_balance b module denom + amount)]>
      (balances b) !! (a, d)))) with
      (ledger_balance (ledger_set module denom (ledger_balance b module denom + amount) b) a d).
    rewrite ledger_balance_set by (unfold ledger_balance; lia).
    repeat case_decide; destruct_and?; subst; try lia; tauto.
  - intros d. simpl. case_decide as Hd; [subst; rewrite lookup_insert_eq; simpl; lia|].
    rewrite lookup_insert_ne by done. lia.
Qed.
Next Obligation.
  intros module denom amount b addr [= <-] Ha _. simpl in *. unfold ledger_mint.
  destruct (Z.ltb_spec 0 amount); [|lia]. eauto.
Qed.
Next Obligation.
  intros module recipient denom amount b b' addr [= <-] Ha H. simpl in *. unfold ledger_send in H.
  destruct (Z.ltb_spec 0 amount); [|lia]. simpl in H.
  destruct (Z.leb_spec amount (ledger_balance b module denom)); [|done]. injection H as <-.
  split_and!; [done| |done]. intros a d.
  set (b1 := ledger_set module denom _ b).
  assert (0 ≤ ledger_balance b1 recipient denom) by apply ledger_nonneg.
  rewrite ledger_balance_set by lia. unfold b1. rewrite !ledger_balance_set by lia.
  repeat case_decide; destruct_and?; subst; try lia; try tauto.
Qed.
Next Obligation.
  intros module recipient denom amount b addr [= <-] Ha Hle _. simpl in *. unfold ledger_send.
  destruct (Z.ltb_spec 0 amount); [|lia].
  destruct (Z.leb_spec amount (ledger_balance b module denom)); [|lia]. eauto.
Qed.
