(* ===== verification/CoreSlotTypes.v ===== *)
(** * x/coreslot/types: the CoreSlot record, and what other modules read of it

    The slot record of [coreslot.proto] and the read interface
    ([CoreSlotKeeper] of [x/rewards/keeper/keeper.go]) through which the rewards
    and mining modules see the CoreSlot store.  The rewards theorems are proved
    against the interface's laws. *)
From S2P Require Import Prelude RewardsTypes.
From Stdlib Require Import String.
Local Open Scope Z_scope.

(** A packed protobuf message ([codectypes.Any]): type URL and encoded bytes. *)
Record Any := { Any_TypeUrl : string; Any_Value : string }.

Record OperatorMetadata := {
  Moniker : string;
  Identity : string;
  Website : string;
  SecurityContact : string;
  Details : string
}.

Record CoreSlot := {
  SlotId : Z;
  OperatorAddress : string;
  ConsensusPubkey : option Any;
  PayoutAddress : string;
  Status : SlotStatus;
  ConsensusPower : Z;
  RewardWeight : string;
  CreatedHeight : Z;
  ActivatedHeight : Z;
  UpdatedHeight : Z;
  SuspendedHeight : Z;
  RemovedHeight : Z;
  Metadata : option OperatorMetadata;
  SettlementAddress : string;
  ActivationSequence : Z;
  ActivationEffectiveHeight : Z;
  CurrentSelectionPolicyVersion : Z;
  LastSelectionPolicyUpdateHeight : Z
}.

(** [CoreSlotKeeper]: the reads other modules make.  [cs_wf] is the invariant the
    module maintains; under it the active set is what its name says. *)
Class CoreSlotKeeper := {
  CoreSlotStore : Type;
  cs_wf : CoreSlotStore → Prop;
  GetActiveSlots : CoreSlotStore → res (list CoreSlot);
  GetSlot : CoreSlotStore → Z → res CoreSlot;
  GetAuthority : CoreSlotStore → res string;
  GetEmergencyAuthority : CoreSlotStore → res string;
  GetActiveSlots_wf s slots : cs_wf s → GetActiveSlots s = Ok slots →
    NoDup (SlotId <$> slots) ∧
    Forall (λ slot, is_u64 (SlotId slot) ∧ 0 < SlotId slot ∧
      Status slot = SLOT_STATUS_ACTIVE) slots;
  GetSlot_id s id slot : cs_wf s → GetSlot s id = Ok slot → SlotId slot = id
}.

(** ** A sample CoreSlot store

    A list of slots looked up by id: the smallest store with the interface's
    promises, for concrete runs of the modules that read it. *)
Definition list_coreslot_wf (s : list CoreSlot) : Prop :=
  NoDup (SlotId <$> s) ∧ Forall (λ slot, is_u64 (SlotId slot) ∧ 0 < SlotId slot) s.
Definition list_active (s : list CoreSlot) : list CoreSlot :=
  base.filter (λ slot, Status slot = SLOT_STATUS_ACTIVE) s.
Definition list_get (s : list CoreSlot) (id : Z) : res CoreSlot :=
  match List.find (λ slot, SlotId slot =? id) s with
  | Some slot => Ok slot
  | None => Err CsSlotNotFound
  end.

Lemma list_active_wf s : list_coreslot_wf s →
  NoDup (SlotId <$> list_active s) ∧
  Forall (λ slot, is_u64 (SlotId slot) ∧ 0 < SlotId slot ∧
    Status slot = SLOT_STATUS_ACTIVE) (list_active s).
Proof.
  intros [Hnd Hall]. unfold list_active. split.
  - eapply sublist_NoDup; [exact Hnd|]. apply fmap_sublist, sublist_filter.
  - apply Forall_forall. intros slot [Hs Hin]%list_elem_of_filter.
    rewrite Forall_forall in Hall. by destruct (Hall slot Hin).
Qed.

Lemma list_get_id s id slot : list_get s id = Ok slot → SlotId slot = id.
Proof.
  unfold list_get. destruct (List.find _ s) as [x|] eqn:E; [|done].
  intros [= ->]. apply List.find_some in E as [_ E]. by apply Z.eqb_eq.
Qed.

#[program] Definition list_coreslots : CoreSlotKeeper := {|
  CoreSlotStore := list CoreSlot;
  cs_wf := list_coreslot_wf;
  GetActiveSlots s := Ok (list_active s);
  GetSlot := list_get;
  GetAuthority _ := Ok "authority"%string;
  GetEmergencyAuthority _ := Ok "emergency"%string
|}.
Next Obligation. intros s slots Hs [= <-]. by apply list_active_wf. Qed.
Next Obligation. intros s id slot _. apply list_get_id. Qed.

Definition sample_slot (id : Z) (operator payout : string) : CoreSlot := {|
  SlotId := id; OperatorAddress := operator; ConsensusPubkey := None; PayoutAddress := payout;
  Status := SLOT_STATUS_ACTIVE; ConsensusPower := 1; RewardWeight := "1"%string;
  CreatedHeight := 1; ActivatedHeight := 1; UpdatedHeight := 1; SuspendedHeight := 0;
  RemovedHeight := 0; Metadata := None; SettlementAddress := EmptyString;
  ActivationSequence := 1; ActivationEffectiveHeight := 2; CurrentSelectionPolicyVersion := 1;
  LastSelectionPolicyUpdateHeight := 1 |}.
Definition sample_coreslots : list CoreSlot :=
  [sample_slot 7 "operator"%string "payout"%string; sample_slot 9 "other"%string "purse"%string].
