(* ===== verification/CoreSlotState.v ===== *)
(** * x/coreslot/types: the CoreSlot store and its validation

    The remaining messages of [coreslot.proto] and [tx.proto], the validation of
    [x/coreslot/types/validation.go], consensus keys, and the keeper's
    collections ([Keeper] of [x/coreslot/keeper/keeper.go]) as one record.
    Unpacking an ed25519 key, its address and its CometBFT form are not code of
    this repository: they are the class [PubKeyCodec]. *)
From S2P Require Import Prelude Checked SdkMath Bounds EconomicAddress RewardsTypes.
From S2P Require Import Collections CoreSlotTypes.
From coqutil Require Export Datatypes.RecordSettersUsingExistingGetters.
From Stdlib Require Import String Ascii NArith.
Arguments const {_} _ _ /.
Local Open Scope Z_scope.

(** ** Messages of coreslot.proto *)

(** A proto3 enumeration is an open [int32]. *)
Definition AuthorityRole : Set := Z.
Definition AUTHORITY_ROLE_UNSPECIFIED : AuthorityRole := 0.
Definition AUTHORITY_ROLE_PRIMARY : AuthorityRole := 1.
Definition AUTHORITY_ROLE_EMERGENCY : AuthorityRole := 2.

Record CoreSlotParams := {
  Authority : string;
  EmergencyAuthority : string;
  SlotVotingPower : Z;
  MinActiveSlots : Z;
  MaxActiveSlots : Z;
  ActivationDelayBlocks : Z;
  KeyRotationDelayBlocks : Z;
  RemovalDelayBlocks : Z;
  ConsensusKeyReuseLockout : Z;
  AllowSelfRegistration : bool;
  AllowEmergencyBelowMinActive : bool;
  SelectionPolicyUpdateCooldownBlocks : Z
}.

Record SelectionPolicyVersion := {
  SPV_SlotId : Z;
  SPV_PolicyVersion : Z;
  SPV_SelectionRateBps : Z;
  SPV_MaxSelectedParticipants : Z;
  SPV_ValidFromHeight : Z;
  SPV_ValidUntilHeightExclusive : Z
}.

Record PendingKeyRotation := {
  PKR_SlotId : Z;
  PKR_OldPubkey : option Any;
  PKR_NewPubkey : option Any;
  PKR_RequestedHeight : Z;
  PKR_EffectiveHeight : Z
}.

Record LastAppliedValidator := {
  LAV_SlotId : Z;
  LAV_ConsensusPubkey : option Any;
  LAV_Power : Z
}.

Record ReservedConsensusAddress := {
  RCA_ConsAddress : string;
  RCA_SlotId : Z;
  RCA_ReservedUntil : Z;
  RCA_Reason : string
}.

Record OperatorRewardWeight := {
  ORW_SlotId : Z;
  ORW_BaseWeight : string;
  ORW_UptimeWeight : string;
  ORW_PerformanceWeight : string;
  ORW_StakeWeight : string;
  ORW_ExternalWeight : string;
  ORW_FinalWeight : string;
  ORW_UpdatedHeight : Z
}.

Record PendingAuthorityTransfer := {
  PAT_Nominee : string;
  PAT_NominatedHeight : Z
}.

(** ** validation.go *)
Section validation.
Context {BE : Bech32}.

Definition DefaultSlotVotingPower : Z := 1.
Definition DefaultRewardWeight : string := "1.000000000000000000".
Definition DefaultSelectionPolicyUpdateCooldownBlocks : Z := 720.

(** [DefaultParams] *)
Definition DefaultCoreSlotParams (authority emergencyAuthority : string) : CoreSlotParams := {|
  Authority := authority;
  EmergencyAuthority := emergencyAuthority;
  SlotVotingPower := DefaultSlotVotingPower;
  MinActiveSlots := 1;
  MaxActiveSlots := 100;
  ActivationDelayBlocks := 0;
  KeyRotationDelayBlocks := 1;
  RemovalDelayBlocks := 0;
  ConsensusKeyReuseLockout := 100000;
  AllowSelfRegistration := false;
  AllowEmergencyBelowMinActive := false;
  SelectionPolicyUpdateCooldownBlocks := DefaultSelectionPolicyUpdateCooldownBlocks |}.

(** [Params.Validate] *)
Definition CoreSlotParams_Validate (p : CoreSlotParams) : res unit :=
  fail_if (bool_decide (AccAddressFromBech32 (Authority p) = None)) CsInvalidParams ;;
  fail_if (bool_decide (AccAddressFromBech32 (EmergencyAuthority p) = None)) CsInvalidParams ;;
  fail_if (SlotVotingPower p <=? 0) CsInvalidParams ;;
  fail_if ((MinActiveSlots p =? 0) || (MaxActiveSlots p <? MinActiveSlots p)) CsInvalidParams ;;
  wrap CsInvalidParams (ValidateMaxActiveSlots (MaxActiveSlots p)) ;;
  fail_if (MaxActiveSlots p >? u64 (Z.quot MaxInt64 (SlotVotingPower p))) CsInvalidParams ;;
  fail_if (negb (ActivationDelayBlocks p =? 0)) CsInvalidParams ;;
  fail_if (negb (RemovalDelayBlocks p =? 0)) CsInvalidParams ;;
  fail_if (AllowSelfRegistration p) CsInvalidParams ;;
  wrap CsInvalidParams (ValidateSelectionPolicyUpdateCooldownBlocks
    (SelectionPolicyUpdateCooldownBlocks p) HardMinSelectionPolicyUpdateCooldownBlocks).

Definition ValidateSelectionPolicyValues (selectionRateBps maxSelectedParticipants : Z)
    : res unit :=
  wrap CsInvalidSelectionPolicy
    (ValidateSelectionRateBps selectionRateBps AbsoluteMaxSelectionRateBps) ;;
  fail_if (maxSelectedParticipants =? 0) CsInvalidSelectionPolicy.

Definition ValidateMetadata (m : option OperatorMetadata) : res unit :=
  match m with
  | None => mret tt
  | Some m =>
      for_each (λ value, fail_if (Z.of_nat (String.length value) >? 512) ErrPlain)
        [Moniker m; Identity m; Website m; SecurityContact m; Details m]
  end.
End validation.

(** ** Consensus keys

    Unmarshalling an ed25519 key message, the address of a key, and its CometBFT
    form ([cryptocodec.ToCmtProtoPublicKey], which accepts every ed25519 key). *)
Class PubKeyCodec := {
  Unmarshal : string → option string;
  Address : string → string;
  CmtPublicKey : Type;
  ToCmtProtoPublicKey : string → res CmtPublicKey;
  ToCmtProtoPublicKey_total key :
    String.length key = 32%nat → ∃ pk, ToCmtProtoPublicKey key = Ok pk
}.

Definition hex_digit (n : N) : ascii :=
  match String.get (N.to_nat n) "0123456789abcdef" with Some c => c | None => zero end.
(** [fmtHex], and [hex.EncodeToString] of the standard library. *)
Fixpoint fmtHex (value : string) : string :=
  match value with
  | EmptyString => EmptyString
  | String b value =>
      String (hex_digit (N.shiftr (N_of_ascii b) 4))
        (String (hex_digit (N.land (N_of_ascii b) 15)) (fmtHex value))
  end.

Section keys.
Context {PK : PubKeyCodec}.

Definition PubKeySize : nat := 32.

(** The interface value is never nil: it holds a pointer, whose getters answer
    the empty string and no bytes when the pointer is nil. *)
Definition decodePubKey (any : option Any) : res string :=
  match any with
  | None => Err CsInvalidPubKey
  | Some any =>
      fail_if (bool_decide (Any_TypeUrl any ≠ "/cosmos.crypto.ed25519.PubKey"%string))
        CsInvalidPubKey ;;
      match Unmarshal (Any_Value any) with
      | None => Err CsInvalidPubKey
      | Some key =>
          fail_if (bool_decide (String.length key ≠ PubKeySize)) CsInvalidPubKey ;;
          mret key
      end
  end.

Definition consensusKey (any : option Any) : res (string * string) :=
  pk ← decodePubKey any;
  let addr := Address pk in
  mret (fmtHex addr, addr).
End keys.

(** ** The store *)
Record CoreSlotState := {
  Cs_Params : option CoreSlotParams;
  Cs_Slots : gmap Z CoreSlot;
  Cs_ByOperator : gmap string Z;
  Cs_ByConsensus : gmap string Z;
  Cs_Reserved : gmap string ReservedConsensusAddress;
  Cs_Rotations : gmap Z PendingKeyRotation;
  Cs_LastApplied : gmap string LastAppliedValidator;
  Cs_RewardWeights : gmap Z OperatorRewardWeight;
  Cs_NextSlotID : option Z;
  Cs_PendingAuthority : gmap Z PendingAuthorityTransfer;
  Cs_SelectionPolicies : gmap (Z * Z) SelectionPolicyVersion;
  Cs_ActiveSlots : gset Z;
  Cs_PolicyStarts : gmap (Z * Z) Z
}.

Abbreviation CM := (M CoreSlotState).

(** ** Messages of tx.proto *)
Record InitialSelectionPolicy := {
  ISP_SelectionRateBps : Z;
  ISP_MaxSelectedParticipants : Z
}.
Record MsgRegisterCoreSlot := {
  RegCS_Authority : string;
  RegCS_OperatorAddress : string;
  RegCS_ConsensusPubkey : option Any;
  RegCS_PayoutAddress : string;
  RegCS_Metadata : option OperatorMetadata;
  RegCS_SettlementAddress : string;
  RegCS_InitialSelectionPolicy : option InitialSelectionPolicy
}.
Record MsgActivateCoreSlot := { ActCS_Authority : string; ActCS_SlotId : Z }.
Record MsgInactivateCoreSlot := {
  InCS_AuthorityOrOperator : string; InCS_SlotId : Z; InCS_Reason : string }.
Record MsgSuspendCoreSlot := {
  SusCS_Authority : string; SusCS_SlotId : Z; SusCS_Reason : string;
  SusCS_EvidenceReference : string }.
Record MsgRemoveCoreSlot := {
  RemCS_Authority : string; RemCS_SlotId : Z; RemCS_Reason : string }.
Record MsgRotateConsensusKey := {
  RCK_Authority : string; RCK_SlotId : Z; RCK_NewConsensusPubkey : option Any }.
Record MsgUpdatePayoutAddress := {
  UPA_Operator : string; UPA_SlotId : Z; UPA_NewPayoutAddress : string }.
Record MsgUpdateOperatorMetadata := {
  UOM_Operator : string; UOM_SlotId : Z; UOM_Metadata : option OperatorMetadata }.
Record MsgUpdateSettlementAddress := {
  USA_Operator : string; USA_SlotId : Z; USA_SettlementAddress : string }.
Record MsgUpdateSelectionPolicy := {
  USP_Operator : string; USP_SlotId : Z; USP_SelectionRateBps : Z;
  USP_MaxSelectedParticipants : Z }.
Record MsgUpdateParams := { UP_Authority : string; UP_Params : option CoreSlotParams }.
Record MsgNominateAuthority := {
  NA_Authority : string; NA_Role : AuthorityRole; NA_Nominee : string }.
Record MsgAcceptAuthority := { AA_Nominee : string; AA_Role : AuthorityRole }.
Record MsgCancelAuthorityNomination := { CAN_Authority : string; CAN_Role : AuthorityRole }.
