(* ===== verification/CoreSlot.v ===== *)
(** * x/coreslot/keeper: reads, index maintenance and the policy history

    Models [keeper.go] and [invariants.go]: the active set read through its
    membership index, slot reads, the identifier counter, consensus-key
    admission, staged rotations, and the selection-policy history with its seek
    index.  Events are not modelled. *)
From S2P Require Import Prelude Checked SdkMath Bounds EconomicAddress RewardsTypes.
From S2P Require Import Collections CoreSlotTypes CoreSlotState.
From Stdlib Require Import String.
Local Open Scope Z_scope.

Section keeper.
Context {BE : Bech32} {PK : PubKeyCodec}.
Context (economicAddresses : Validator).
Implicit Types (s : CoreSlotState).

(** ** The active set *)
Definition activeCount (s : CoreSlotState) : res Z :=
  Ok (Z.of_nat (size (Cs_ActiveSlots s))).

Definition activeSlotIDs (s : CoreSlotState) : res (list Z) :=
  Ok (merge_sort Z.le (elements (Cs_ActiveSlots s))).

Definition setSlotActive (slotID : Z) : CM unit :=
  modify (λ s, s <| Cs_ActiveSlots := {[slotID]} ∪ Cs_ActiveSlots s |>).

Definition clearSlotActive (slotID : Z) : CM unit :=
  modify (λ s, s <| Cs_ActiveSlots := Cs_ActiveSlots s ∖ {[slotID]} |>).

Definition getSlot (id : Z) (s : CoreSlotState) : res CoreSlot :=
  match Cs_Slots s !! id with
  | Some slot => Ok slot
  | None => Err CsSlotNotFound
  end.

(** [Keeper.GetActiveSlots] *)
Definition ActiveSlotRows (s : CoreSlotState) : res (list CoreSlot) :=
  ids ← activeSlotIDs s;
  fold_m (λ slots id,
    slot ← wrap CsInvalidGenesis (coll_get (Cs_Slots s !! id));
    fail_if (bool_decide (Status slot ≠ SLOT_STATUS_ACTIVE)) CsInvalidTransition ;;
    mret (slots ++ [slot])) ids [].

Definition getParams (s : CoreSlotState) : res CoreSlotParams := coll_get (Cs_Params s).

(** [Keeper.GetAuthority], [Keeper.GetEmergencyAuthority] *)
Definition AuthorityOf (s : CoreSlotState) : res string :=
  params ← getParams s; mret (Authority params).
Definition EmergencyAuthorityOf (s : CoreSlotState) : res string :=
  params ← getParams s; mret (EmergencyAuthority params).

Definition GetRewardWeight (slotID : Z) (s : CoreSlotState) : res OperatorRewardWeight :=
  coll_get (Cs_RewardWeights s !! slotID).

(** ** Single-row writes *)
Definition setSlot (slot : CoreSlot) : CM unit :=
  modify (λ s, s <| Cs_Slots := <[SlotId slot := slot]> (Cs_Slots s) |>).
Definition setByOperator (operator : string) (id : Z) : CM unit :=
  modify (λ s, s <| Cs_ByOperator := <[operator := id]> (Cs_ByOperator s) |>).
Definition removeByOperator (operator : string) : CM unit :=
  modify (λ s, s <| Cs_ByOperator := delete operator (Cs_ByOperator s) |>).
Definition setByConsensus (key : string) (id : Z) : CM unit :=
  modify (λ s, s <| Cs_ByConsensus := <[key := id]> (Cs_ByConsensus s) |>).
Definition removeByConsensus (key : string) : CM unit :=
  modify (λ s, s <| Cs_ByConsensus := delete key (Cs_ByConsensus s) |>).
Definition setReserved (key : string) (r : ReservedConsensusAddress) : CM unit :=
  modify (λ s, s <| Cs_Reserved := <[key := r]> (Cs_Reserved s) |>).
Definition removeReserved (key : string) : CM unit :=
  modify (λ s, s <| Cs_Reserved := delete key (Cs_Reserved s) |>).
Definition setRotation (rotation : PendingKeyRotation) (id : Z) : CM unit :=
  modify (λ s, s <| Cs_Rotations := <[id := rotation]> (Cs_Rotations s) |>).
Definition removeRotation (id : Z) : CM unit :=
  modify (λ s, s <| Cs_Rotations := delete id (Cs_Rotations s) |>).
Definition setRewardWeight (id : Z) (weight : OperatorRewardWeight) : CM unit :=
  modify (λ s, s <| Cs_RewardWeights := <[id := weight]> (Cs_RewardWeights s) |>).
Definition setNextSlotID (id : Z) : CM unit :=
  modify (λ s, s <| Cs_NextSlotID := Some id |>).
Definition setParams (params : CoreSlotParams) : CM unit :=
  modify (λ s, s <| Cs_Params := Some params |>).
Definition setPendingAuthority (key : Z) (t : PendingAuthorityTransfer) : CM unit :=
  modify (λ s, s <| Cs_PendingAuthority := <[key := t]> (Cs_PendingAuthority s) |>).
Definition removePendingAuthority (key : Z) : CM unit :=
  modify (λ s, s <| Cs_PendingAuthority := delete key (Cs_PendingAuthority s) |>).
Definition setPolicy (policy : SelectionPolicyVersion) : CM unit :=
  modify (λ s, s <| Cs_SelectionPolicies :=
    <[(SPV_SlotId policy, SPV_PolicyVersion policy) := policy]> (Cs_SelectionPolicies s) |>).
Definition setPolicyStart (policy : SelectionPolicyVersion) : CM unit :=
  modify (λ s, s <| Cs_PolicyStarts :=
    <[(SPV_SlotId policy, SPV_ValidFromHeight policy) := SPV_PolicyVersion policy]>
      (Cs_PolicyStarts s) |>).

(** ** The identifier counter *)
Definition nextSlotID (s : CoreSlotState) : res Z :=
  id ← wrap CsInvalidTransition (coll_get (Cs_NextSlotID s));
  fail_if (id =? 0) CsInvalidTransition ;;
  fail_if (bool_decide (is_Some (Cs_Slots s !! id))) CsInvalidTransition ;;
  mret id.

(** ** Consensus keys *)
Definition ensureConsensusAvailable (height : Z) (any : option Any) : CM (string * string) :=
  '(key, address) ← lift (consensusKey any);
  taken ← gets (λ s, bool_decide (is_Some (Cs_ByConsensus s !! key)));
  fail_if taken CsDuplicateConsensusKey ;;
  reserved ← gets (λ s, Cs_Reserved s !! key);
  match reserved with
  | None => mret tt
  | Some reservation =>
      fail_if (RCA_ReservedUntil reservation >? height) CsDuplicateConsensusKey ;;
      removeReserved key
  end ;;
  mret (key, address).

Definition cancelPendingRotation (slotID : Z) : CM (option PendingKeyRotation) :=
  found ← gets (λ s, Cs_Rotations s !! slotID);
  match found with
  | None => mret None
  | Some rotation =>
      '(newKey, _) ← lift (consensusKey (PKR_NewPubkey rotation));
      removeByConsensus newKey ;;
      removeRotation slotID ;;
      mret (Some rotation)
  end.

(** ** The selection-policy history (invariants.go) *)
Definition initialPolicyVersion : Z := 1.

Definition writePolicyVersion (policy : SelectionPolicyVersion) : CM unit :=
  setPolicy policy ;;
  setPolicyStart policy.

Definition writeInitialPolicy (slotID validFrom : Z) (input : option InitialSelectionPolicy)
    : CM unit :=
  match input with
  | None => mthrow CsInvalidSelectionPolicy
  | Some input =>
      lift (ValidateSelectionPolicyValues (ISP_SelectionRateBps input)
        (ISP_MaxSelectedParticipants input)) ;;
      writePolicyVersion {|
        SPV_SlotId := slotID;
        SPV_PolicyVersion := initialPolicyVersion;
        SPV_SelectionRateBps := ISP_SelectionRateBps input;
        SPV_MaxSelectedParticipants := ISP_MaxSelectedParticipants input;
        SPV_ValidFromHeight := validFrom;
        SPV_ValidUntilHeightExclusive := 0 |}
  end.

Definition SelectionPolicyAtHeight (slotID height : Z) (s : CoreSlotState)
    : res SelectionPolicyVersion :=
  match seek_le height (prefix_map slotID (Cs_PolicyStarts s)) with
  | None => Err CsSelectionPolicyNotFound
  | Some (start, version) =>
      policy ← wrap CsInvalidSelectionPolicy
        (coll_get (Cs_SelectionPolicies s !! (slotID, version)));
      fail_if (negb (SPV_SlotId policy =? slotID) || negb (SPV_PolicyVersion policy =? version) ||
               negb (SPV_ValidFromHeight policy =? start)) CsInvalidSelectionPolicy ;;
      fail_if (SPV_ValidFromHeight policy >? height) CsInvalidSelectionPolicy ;;
      fail_if (negb (SPV_ValidUntilHeightExclusive policy =? 0) &&
               (height >=? SPV_ValidUntilHeightExclusive policy)) CsInvalidSelectionPolicy ;;
      mret policy
  end.

Definition currentPolicy (slot : CoreSlot) (s : CoreSlotState) : res SelectionPolicyVersion :=
  fail_if (CurrentSelectionPolicyVersion slot =? 0) CsInvalidSelectionPolicy ;;
  policy ← wrap CsInvalidSelectionPolicy
    (coll_get (Cs_SelectionPolicies s !! (SlotId slot, CurrentSelectionPolicyVersion slot)));
  fail_if (negb (SPV_SlotId policy =? SlotId slot) ||
           negb (SPV_PolicyVersion policy =? CurrentSelectionPolicyVersion slot))
    CsInvalidSelectionPolicy ;;
  fail_if (negb (SPV_ValidUntilHeightExclusive policy =? 0)) CsInvalidSelectionPolicy ;;
  mret policy.

Definition validatePolicyTransitionSeam (slot : CoreSlot) (current : SelectionPolicyVersion)
    (height effectiveHeight nextVersion : Z) (s : CoreSlotState) : res unit :=
  wrap CsInvalidSelectionPolicy (ValidateSelectionPolicyValues (SPV_SelectionRateBps current)
    (SPV_MaxSelectedParticipants current)) ;;
  resolved ← wrap CsInvalidSelectionPolicy (SelectionPolicyAtHeight (SlotId slot) height s);
  fail_if (negb (SPV_PolicyVersion resolved =? SPV_PolicyVersion current))
    CsInvalidSelectionPolicy ;;
  fail_if (bool_decide (is_Some (Cs_SelectionPolicies s !! (SlotId slot, nextVersion))))
    CsInvalidSelectionPolicy ;;
  fail_if (bool_decide (is_Some (Cs_PolicyStarts s !! (SlotId slot, effectiveHeight))))
    CsInvalidSelectionPolicy.

Definition validateActiveSlotInvariant (slot : CoreSlot) (s : CoreSlotState) : res unit :=
  fail_if (bool_decide (Status slot ≠ SLOT_STATUS_ACTIVE)) CsInvalidTransition ;;
  wrap CsInvalidAddress (ParseAccountAddress economicAddresses (OperatorAddress slot)) ;;
  wrap CsInvalidAddress (Validate economicAddresses (PayoutAddress slot)) ;;
  wrap CsInvalidAddress (Validate economicAddresses (SettlementAddress slot)) ;;
  consensusKey (ConsensusPubkey slot) ;;
  fail_if (ActivationSequence slot =? 0) CsInvalidTransition ;;
  fail_if (ActivationEffectiveHeight slot =? 0) CsInvalidTransition ;;
  policy ← currentPolicy slot s;
  ValidateSelectionPolicyValues (SPV_SelectionRateBps policy) (SPV_MaxSelectedParticipants policy).
End keeper.
