(* ===== verification/CoreSlotMsgs.v ===== *)
(** * x/coreslot/keeper: the message server and the authority handover

    Models the handlers of [msg_server.go] and [authority.go], in the order of
    their checks and writes.  [height] is the block height of the context.  The
    upgrade proxy ([ScheduleUpgrade], [CancelUpgrade]) only forwards to x/upgrade
    and is not modelled. *)
From S2P Require Import Prelude Checked SdkMath Bounds EconomicAddress RewardsTypes.
From S2P Require Import Collections CoreSlotTypes CoreSlotState CoreSlot.
From Stdlib Require Import String.
Local Open Scope Z_scope.

Section handlers.
Context {BE : Bech32} {PK : PubKeyCodec}.
Context (economicAddresses : Validator) (height : Z).
Implicit Types (s : CoreSlotState).

(** [cancelRotationAndEmit]: the keys named in the event are decoded, and a key
    that does not decode fails the call. *)
Definition cancelRotationAndEmit (slot : CoreSlot) : CM unit :=
  canceled ← cancelPendingRotation (SlotId slot);
  match canceled with
  | None => mret tt
  | Some rotation =>
      lift (consensusKey (ConsensusPubkey slot)) ;;
      lift (consensusKey (PKR_NewPubkey rotation)) ;;
      mret tt
  end.

Definition reservation (params : CoreSlotParams) (addr : string) (id : Z) (reason : string)
    : ReservedConsensusAddress := {|
  RCA_ConsAddress := addr;
  RCA_SlotId := id;
  RCA_ReservedUntil := i64 (height + i64 (ConsensusKeyReuseLockout params));
  RCA_Reason := reason |}.

Definition RegisterCoreSlot (msg : MsgRegisterCoreSlot) : CM Z :=
  params ← reads getParams;
  fail_if (bool_decide (RegCS_Authority msg ≠ Authority params)) CsUnauthorized ;;
  lift (wrap CsInvalidAddress
    (ParseAccountAddress economicAddresses (RegCS_OperatorAddress msg))) ;;
  lift (wrap CsInvalidAddress (Validate economicAddresses (RegCS_PayoutAddress msg))) ;;
  lift (wrap CsInvalidAddress (Validate economicAddresses (RegCS_SettlementAddress msg))) ;;
  lift (ValidateMetadata (RegCS_Metadata msg)) ;;
  match RegCS_InitialSelectionPolicy msg with
  | None => mthrow CsInvalidSelectionPolicy
  | Some policy =>
      lift (ValidateSelectionPolicyValues (ISP_SelectionRateBps policy)
        (ISP_MaxSelectedParticipants policy)) ;;
      exists_ ← gets (λ s, bool_decide (is_Some (Cs_ByOperator s !! RegCS_OperatorAddress msg)));
      fail_if exists_ CsDuplicateOperator ;;
      id ← reads nextSlotID;
      '(key, _) ← ensureConsensusAvailable height (RegCS_ConsensusPubkey msg);
      let slot := {|
        SlotId := id;
        OperatorAddress := RegCS_OperatorAddress msg;
        ConsensusPubkey := RegCS_ConsensusPubkey msg;
        PayoutAddress := RegCS_PayoutAddress msg;
        Status := SLOT_STATUS_PENDING;
        ConsensusPower := 0;
        RewardWeight := DefaultRewardWeight;
        CreatedHeight := height;
        ActivatedHeight := 0;
        UpdatedHeight := height;
        SuspendedHeight := 0;
        RemovedHeight := 0;
        Metadata := RegCS_Metadata msg;
        SettlementAddress := RegCS_SettlementAddress msg;
        ActivationSequence := 0;
        ActivationEffectiveHeight := 0;
        CurrentSelectionPolicyVersion := initialPolicyVersion;
        LastSelectionPolicyUpdateHeight := 0 |} in
      setSlot slot ;;
      writeInitialPolicy id height (RegCS_InitialSelectionPolicy msg) ;;
      setByOperator (OperatorAddress slot) id ;;
      setByConsensus key id ;;
      setRewardWeight id {|
        ORW_SlotId := id;
        ORW_BaseWeight := DefaultRewardWeight;
        ORW_UptimeWeight := DefaultRewardWeight;
        ORW_PerformanceWeight := DefaultRewardWeight;
        ORW_StakeWeight := "0.000000000000000000";
        ORW_ExternalWeight := "0.000000000000000000";
        ORW_FinalWeight := DefaultRewardWeight;
        ORW_UpdatedHeight := height |} ;;
      nextID ← lift (wrap CsInvalidTransition (AddUint64 id 1));
      setNextSlotID nextID ;;
      mret id
  end.

Definition ActivateCoreSlot (msg : MsgActivateCoreSlot) : CM unit :=
  params ← reads getParams;
  fail_if (bool_decide (ActCS_Authority msg ≠ Authority params)) CsUnauthorized ;;
  slot ← reads (getSlot (ActCS_SlotId msg));
  fail_if (bool_decide (Status slot ≠ SLOT_STATUS_PENDING ∧ Status slot ≠ SLOT_STATUS_INACTIVE ∧
                        Status slot ≠ SLOT_STATUS_SUSPENDED)) CsInvalidTransition ;;
  count ← reads activeCount;
  fail_if (count >=? MaxActiveSlots params) CsMaxActiveSlots ;;
  fail_if (count >=? HardMaxActiveCoreSlots) CsMaxActiveSlots ;;
  lift (consensusKey (ConsensusPubkey slot)) ;;
  nextSequence ← lift (wrap CsInvalidTransition (AddUint64 (ActivationSequence slot) 1));
  effectiveHeight ← lift (wrap CsInvalidTransition (AddInt64 height 1));
  let slot := slot <| Status := SLOT_STATUS_ACTIVE |> <| ConsensusPower := SlotVotingPower params |>
    <| ActivationSequence := nextSequence |> <| ActivatedHeight := height |>
    <| UpdatedHeight := height |> <| ActivationEffectiveHeight := effectiveHeight |> in
  reads (validateActiveSlotInvariant economicAddresses slot) ;;
  setSlot slot ;;
  setSlotActive (SlotId slot).

Definition InactivateCoreSlot (msg : MsgInactivateCoreSlot) : CM unit :=
  params ← reads getParams;
  slot ← reads (getSlot (InCS_SlotId msg));
  fail_if (bool_decide (InCS_AuthorityOrOperator msg ≠ Authority params ∧
                        InCS_AuthorityOrOperator msg ≠ OperatorAddress slot)) CsUnauthorized ;;
  fail_if (bool_decide (Status slot ≠ SLOT_STATUS_ACTIVE)) CsInvalidTransition ;;
  count ← reads activeCount;
  fail_if (count <=? MinActiveSlots params) CsMinActiveSlots ;;
  lift (consensusKey (ConsensusPubkey slot)) ;;
  let slot := slot <| Status := SLOT_STATUS_INACTIVE |> <| ConsensusPower := 0 |>
    <| UpdatedHeight := height |> in
  setSlot slot ;;
  clearSlotActive (SlotId slot) ;;
  cancelRotationAndEmit slot.

Definition SuspendCoreSlot (msg : MsgSuspendCoreSlot) : CM unit :=
  params ← reads getParams;
  fail_if (bool_decide (SusCS_Authority msg ≠ Authority params ∧
                        SusCS_Authority msg ≠ EmergencyAuthority params)) CsUnauthorized ;;
  slot ← reads (getSlot (SusCS_SlotId msg));
  fail_if (bool_decide (Status slot = SLOT_STATUS_REMOVED ∨ Status slot = SLOT_STATUS_SUSPENDED))
    CsInvalidTransition ;;
  (if bool_decide (Status slot = SLOT_STATUS_ACTIVE) then
     count ← reads activeCount;
     fail_if (count <=? 1) CsCannotRemoveLastValidator ;;
     fail_if (negb (AllowEmergencyBelowMinActive params) && (count <=? MinActiveSlots params))
       CsMinActiveSlots
   else mret tt) ;;
  lift (consensusKey (ConsensusPubkey slot)) ;;
  let slot := slot <| Status := SLOT_STATUS_SUSPENDED |> <| ConsensusPower := 0 |>
    <| SuspendedHeight := height |> <| UpdatedHeight := height |> in
  setSlot slot ;;
  clearSlotActive (SlotId slot) ;;
  cancelRotationAndEmit slot.

Definition RemoveCoreSlot (msg : MsgRemoveCoreSlot) : CM unit :=
  params ← reads getParams;
  fail_if (bool_decide (RemCS_Authority msg ≠ Authority params)) CsUnauthorized ;;
  slot ← reads (getSlot (RemCS_SlotId msg));
  fail_if (bool_decide (Status slot = SLOT_STATUS_ACTIVE ∨ Status slot = SLOT_STATUS_REMOVED))
    CsInvalidTransition ;;
  '(key, addr) ← lift (consensusKey (ConsensusPubkey slot));
  let slot := slot <| Status := SLOT_STATUS_REMOVED |> <| ConsensusPower := 0 |>
    <| RemovedHeight := height |> <| UpdatedHeight := height |> in
  setSlot slot ;;
  clearSlotActive (SlotId slot) ;;
  cancelRotationAndEmit slot ;;
  removeByOperator (OperatorAddress slot) ;;
  removeByConsensus key ;;
  setReserved key (reservation params addr (SlotId slot) (RemCS_Reason msg)).

Definition RotateConsensusKey (msg : MsgRotateConsensusKey) : CM unit :=
  params ← reads getParams;
  fail_if (bool_decide (RCK_Authority msg ≠ Authority params)) CsUnauthorized ;;
  slot ← reads (getSlot (RCK_SlotId msg));
  fail_if (bool_decide (Status slot = SLOT_STATUS_REMOVED)) CsInvalidTransition ;;
  pending ← gets (λ s, bool_decide (is_Some (Cs_Rotations s !! SlotId slot)));
  fail_if pending CsPendingRotationExists ;;
  '(oldKey, oldAddr) ← lift (consensusKey (ConsensusPubkey slot));
  '(newKey, _) ← ensureConsensusAvailable height (RCK_NewConsensusPubkey msg);
  setByConsensus newKey (SlotId slot) ;;
  if bool_decide (Status slot = SLOT_STATUS_ACTIVE) then
    setRotation {|
      PKR_SlotId := SlotId slot;
      PKR_OldPubkey := ConsensusPubkey slot;
      PKR_NewPubkey := RCK_NewConsensusPubkey msg;
      PKR_RequestedHeight := height;
      PKR_EffectiveHeight := i64 (height + i64 (KeyRotationDelayBlocks params)) |} (SlotId slot)
  else
    removeByConsensus oldKey ;;
    let slot := slot <| ConsensusPubkey := RCK_NewConsensusPubkey msg |>
      <| UpdatedHeight := height |> in
    setSlot slot ;;
    setReserved oldKey (reservation params oldAddr (SlotId slot) "key rotation").

Definition operatorMutationAllowed (slot : CoreSlot) : res unit :=
  match Status slot with
  | SLOT_STATUS_PENDING | SLOT_STATUS_ACTIVE | SLOT_STATUS_INACTIVE => mret tt
  | _ => Err CsInvalidTransition
  end.

Definition UpdatePayoutAddress (msg : MsgUpdatePayoutAddress) : CM unit :=
  slot ← reads (getSlot (UPA_SlotId msg));
  fail_if (bool_decide (UPA_Operator msg ≠ OperatorAddress slot)) CsUnauthorized ;;
  lift (operatorMutationAllowed slot) ;;
  lift (wrap CsInvalidAddress (Validate economicAddresses (UPA_NewPayoutAddress msg))) ;;
  setSlot (slot <| PayoutAddress := UPA_NewPayoutAddress msg |> <| UpdatedHeight := height |>).

Definition UpdateOperatorMetadata (msg : MsgUpdateOperatorMetadata) : CM unit :=
  slot ← reads (getSlot (UOM_SlotId msg));
  fail_if (bool_decide (UOM_Operator msg ≠ OperatorAddress slot)) CsUnauthorized ;;
  lift (operatorMutationAllowed slot) ;;
  lift (ValidateMetadata (UOM_Metadata msg)) ;;
  setSlot (slot <| Metadata := UOM_Metadata msg |> <| UpdatedHeight := height |>).

Definition UpdateSettlementAddress (msg : MsgUpdateSettlementAddress) : CM unit :=
  slot ← reads (getSlot (USA_SlotId msg));
  fail_if (bool_decide (USA_Operator msg ≠ OperatorAddress slot)) CsUnauthorized ;;
  lift (operatorMutationAllowed slot) ;;
  fail_if (bool_decide (USA_SettlementAddress msg = SettlementAddress slot)) CsNoOpUpdate ;;
  lift (wrap CsInvalidAddress (Validate economicAddresses (USA_SettlementAddress msg))) ;;
  setSlot (slot <| SettlementAddress := USA_SettlementAddress msg |>
    <| UpdatedHeight := height |>).

(** The cooldown check of [UpdateSelectionPolicy]. *)
Definition policyCooldown (params : CoreSlotParams) (slot : CoreSlot) : res unit :=
  if LastSelectionPolicyUpdateHeight slot =? 0 then mret tt
  else
    cooldown ← wrap CsInvalidParams
      (Int64FromUint64 (SelectionPolicyUpdateCooldownBlocks params));
    earliest ← wrap CsSelectionPolicyCooldown
      (AddInt64 (LastSelectionPolicyUpdateHeight slot) cooldown);
    fail_if (height <? earliest) CsSelectionPolicyCooldown.

Definition UpdateSelectionPolicy (msg : MsgUpdateSelectionPolicy) : CM Z :=
  params ← reads getParams;
  slot ← reads (getSlot (USP_SlotId msg));
  fail_if (bool_decide (USP_Operator msg ≠ OperatorAddress slot)) CsUnauthorized ;;
  lift (operatorMutationAllowed slot) ;;
  lift (ValidateSelectionPolicyValues (USP_SelectionRateBps msg)
    (USP_MaxSelectedParticipants msg)) ;;
  current ← reads (currentPolicy slot);
  fail_if ((SPV_SelectionRateBps current =? USP_SelectionRateBps msg) &&
           (SPV_MaxSelectedParticipants current =? USP_MaxSelectedParticipants msg))
    CsNoOpUpdate ;;
  lift (policyCooldown params slot) ;;
  effective ← lift (wrap CsInvalidSelectionPolicy (AddInt64 height 1));
  nextVersion ← lift (wrap CsInvalidSelectionPolicy (AddUint64 (SPV_PolicyVersion current) 1));
  reads (validatePolicyTransitionSeam slot current height effective nextVersion) ;;
  setPolicy (current <| SPV_ValidUntilHeightExclusive := effective |>) ;;
  writePolicyVersion {|
    SPV_SlotId := SlotId slot;
    SPV_PolicyVersion := nextVersion;
    SPV_SelectionRateBps := USP_SelectionRateBps msg;
    SPV_MaxSelectedParticipants := USP_MaxSelectedParticipants msg;
    SPV_ValidFromHeight := effective;
    SPV_ValidUntilHeightExclusive := 0 |} ;;
  setSlot (slot <| CurrentSelectionPolicyVersion := nextVersion |>
    <| LastSelectionPolicyUpdateHeight := height |> <| UpdatedHeight := height |>) ;;
  mret nextVersion.

(** [UpdateParams] *)
Definition UpdateCoreSlotParams (msg : MsgUpdateParams) : CM unit :=
  match UP_Params msg with
  | None => mthrow CsInvalidParams
  | Some next =>
      current ← reads getParams;
      fail_if (bool_decide (UP_Authority msg ≠ Authority current)) CsUnauthorized ;;
      fail_if (bool_decide (Authority next ≠ Authority current)) CsInvalidParams ;;
      fail_if (bool_decide (EmergencyAuthority next ≠ EmergencyAuthority current))
        CsInvalidParams ;;
      lift (CoreSlotParams_Validate next) ;;
      count ← reads activeCount;
      fail_if ((count >? 0) && negb (SlotVotingPower next =? SlotVotingPower current))
        CsInvalidParams ;;
      setParams next
  end.

(** ** authority.go *)
Definition authorityRoleKey (role : AuthorityRole) : res Z :=
  if (role =? AUTHORITY_ROLE_PRIMARY) || (role =? AUTHORITY_ROLE_EMERGENCY) then mret role
  else Err CsInvalidAuthorityRole.

Definition currentHolder (params : CoreSlotParams) (role : AuthorityRole) : string :=
  if role =? AUTHORITY_ROLE_EMERGENCY then EmergencyAuthority params else Authority params.

Definition setHolder (params : CoreSlotParams) (role : AuthorityRole) (addr : string)
    : CoreSlotParams :=
  if role =? AUTHORITY_ROLE_EMERGENCY then params <| EmergencyAuthority := addr |>
  else params <| Authority := addr |>.

Definition NominateAuthority (msg : MsgNominateAuthority) : CM unit :=
  key ← lift (authorityRoleKey (NA_Role msg));
  params ← reads getParams;
  fail_if (bool_decide (NA_Authority msg ≠ currentHolder params (NA_Role msg))) CsUnauthorized ;;
  lift (wrap CsInvalidAddress (Validate economicAddresses (NA_Nominee msg))) ;;
  fail_if (bool_decide (NA_Nominee msg = currentHolder params (NA_Role msg))) CsInvalidAddress ;;
  setPendingAuthority key {|
    PAT_Nominee := NA_Nominee msg;
    PAT_NominatedHeight := height |}.

Definition AcceptAuthority (msg : MsgAcceptAuthority) : CM unit :=
  key ← lift (authorityRoleKey (AA_Role msg));
  pending ← reads (λ s, wrap CsNoPendingNomination (coll_get (Cs_PendingAuthority s !! key)));
  fail_if (bool_decide (AA_Nominee msg ≠ PAT_Nominee pending)) CsUnauthorized ;;
  lift (wrap CsInvalidAddress (Validate economicAddresses (AA_Nominee msg))) ;;
  params ← reads getParams;
  setParams (setHolder params (AA_Role msg) (AA_Nominee msg)) ;;
  removePendingAuthority key.

Definition CancelAuthorityNomination (msg : MsgCancelAuthorityNomination) : CM unit :=
  key ← lift (authorityRoleKey (CAN_Role msg));
  params ← reads getParams;
  fail_if (bool_decide (CAN_Authority msg ≠ currentHolder params (CAN_Role msg)))
    CsUnauthorized ;;
  reads (λ s, wrap CsNoPendingNomination (coll_get (Cs_PendingAuthority s !! key))) ;;
  removePendingAuthority key.
End handlers.
