(* ===== verification/CoreSlotEndBlock.v ===== *)
(** * x/coreslot/keeper/endblock.go: due rotations and the validator-set diff

    [EndBlock] applies the key rotations that are due, derives the validator set
    from the active slots, and returns its difference to the set applied last,
    in a cache that is dropped on any error.  Go's map iterations are folds over
    the map's elements in an unspecified order, sorted where the code sorts. *)
From S2P Require Import Prelude Checked SdkMath Bounds EconomicAddress RewardsTypes.
From S2P Require Import Collections CoreSlotTypes CoreSlotState CoreSlot CoreSlotMsgs.
From Stdlib Require Import String.
Local Open Scope Z_scope.

(** [abci.ValidatorUpdate] *)
Record ValidatorUpdate {PK : PubKeyCodec} := {
  VU_PubKey : CmtPublicKey;
  VU_Power : Z
}.
Arguments ValidatorUpdate : clear implicits.
Arguments ValidatorUpdate {PK}.

Record keyedUpdate {PK : PubKeyCodec} := {
  ku_key : string;
  ku_slotID : Z;
  ku_power : Z;
  ku_update : ValidatorUpdate
}.
Arguments keyedUpdate : clear implicits.
Arguments keyedUpdate {PK}.

Section endblock.
Context {PK : PubKeyCodec} (height : Z).
Implicit Types (s : CoreSlotState) (rotation : PendingKeyRotation).

Definition dropStaleRotation (rotation : PendingKeyRotation) : CM unit :=
  lift (consensusKey (PKR_OldPubkey rotation)) ;;
  '(newKey, _) ← lift (consensusKey (PKR_NewPubkey rotation));
  removeByConsensus newKey ;;
  removeRotation (PKR_SlotId rotation).

Definition rotation_le (a b : PendingKeyRotation) : Prop := PKR_SlotId a ≤ PKR_SlotId b.
#[export] Instance rotation_le_dec : RelDecision rotation_le.
Proof. intros a b. unfold rotation_le. apply _. Defined.

(** The rotations due at this height, in slot order. *)
Definition dueRotations (s : CoreSlotState) : list PendingKeyRotation :=
  merge_sort rotation_le (base.filter (λ rotation, PKR_EffectiveHeight rotation ≤ height)
    (snd <$> entries (Cs_Rotations s))).

Definition applyRotation (params : CoreSlotParams) (rotation : PendingKeyRotation) : CM unit :=
  slot ← reads (λ s, wrap CsInvalidTransition (getSlot (PKR_SlotId rotation) s));
  if bool_decide (Status slot ≠ SLOT_STATUS_ACTIVE) then dropStaleRotation rotation
  else
    '(oldKey, oldAddr) ← lift (consensusKey (PKR_OldPubkey rotation));
    lift (consensusKey (PKR_NewPubkey rotation)) ;;
    setSlot (slot <| ConsensusPubkey := PKR_NewPubkey rotation |>
      <| UpdatedHeight := height |>) ;;
    removeByConsensus oldKey ;;
    setReserved oldKey (reservation height params oldAddr (SlotId slot) "key rotation") ;;
    removeRotation (PKR_SlotId rotation).

Definition validatorUpdate (any : option Any) (power : Z) : res ValidatorUpdate :=
  pk ← decodePubKey any;
  protoKey ← ToCmtProtoPublicKey pk;
  mret {| VU_PubKey := protoKey; VU_Power := power |}.

(** The validator set of the active slots. *)
Definition desired_step (desired : gmap string LastAppliedValidator) (slot : CoreSlot)
    : res (gmap string LastAppliedValidator) :=
  '(key, _) ← consensusKey (ConsensusPubkey slot);
  fail_if (bool_decide (is_Some (desired !! key))) CsDuplicateConsensusKey ;;
  mret (<[key := {|
    LAV_SlotId := SlotId slot;
    LAV_ConsensusPubkey := ConsensusPubkey slot;
    LAV_Power := ConsensusPower slot |}]> desired).
Definition desiredValidators (slots : list CoreSlot) : res (gmap string LastAppliedValidator) :=
  fold_m desired_step slots ∅.

(** The update of one consensus address, if it needs one. *)
Definition diff_key (desired last : gmap string LastAppliedValidator)
    (keyed : list keyedUpdate) (key : string) : res (list keyedUpdate) :=
  match desired !! key, last !! key with
  | Some next, Some old =>
      if LAV_Power next =? LAV_Power old then mret keyed
      else
        update ← validatorUpdate (LAV_ConsensusPubkey next) (LAV_Power next);
        mret (keyed ++ [{| ku_key := key; ku_slotID := LAV_SlotId next;
          ku_power := LAV_Power next; ku_update := update |}])
  | Some next, None =>
      update ← validatorUpdate (LAV_ConsensusPubkey next) (LAV_Power next);
      mret (keyed ++ [{| ku_key := key; ku_slotID := LAV_SlotId next;
        ku_power := LAV_Power next; ku_update := update |}])
  | None, Some old =>
      update ← validatorUpdate (LAV_ConsensusPubkey old) 0;
      mret (keyed ++ [{| ku_key := key; ku_slotID := LAV_SlotId old;
        ku_power := 0; ku_update := update |}])
  | None, None => mret keyed
  end.

Definition keyed_le (a b : keyedUpdate) : Prop := str_le (ku_key a) (ku_key b).
#[export] Instance keyed_le_dec : RelDecision keyed_le.
Proof. intros a b. unfold keyed_le. apply _. Defined.

(** The guard against two adjacent updates for one address. *)
Fixpoint adjacentDuplicate (keyed : list keyedUpdate) : bool :=
  match keyed with
  | a :: (b :: _) as rest => bool_decide (ku_key b = ku_key a) || adjacentDuplicate rest
  | _ => false
  end.

Definition diffAndPersist : CM (list ValidatorUpdate) :=
  activeSlots ← reads ActiveSlotRows;
  desired ← lift (desiredValidators activeSlots);
  last ← gets Cs_LastApplied;
  keyed ← lift (fold_m (diff_key desired last) (elements (dom last ∪ dom desired)) []);
  let keyed := merge_sort keyed_le keyed in
  fail_if (adjacentDuplicate keyed) CsDuplicateConsensusKey ;;
  modify (λ s, s <| Cs_LastApplied := desired ∪ (Cs_LastApplied s ∖ last) |>) ;;
  mret (ku_update <$> keyed).

Definition coreSlotEndBlock : CM (list ValidatorUpdate) :=
  params ← reads getParams;
  due ← gets dueRotations;
  for_each (applyRotation params) due ;;
  diffAndPersist.

(** [Keeper.EndBlock] *)
Definition CoreSlotEndBlock : CM (list ValidatorUpdate) := cached coreSlotEndBlock.
End endblock.
