(* ===== verification/CoreSlotInvariant.v ===== *)
(** * The invariant of the CoreSlot store

    [core_inv]: slots sit under their own identifiers with admissible addresses
    and a consensus key, active membership mirrors the rows, both address indexes
    name exactly the owners of their keys, staged rotations belong to active
    slots, and the active set is neither empty nor above its ceilings.  One lemma
    per kind of write the handlers make. *)
From S2P Require Import Prelude Checked SdkMath Bounds EconomicAddress RewardsTypes.
From S2P Require Import Collections CoreSlotTypes CoreSlotState CoreSlot CoreSlotMsgs.
From Stdlib Require Import String.
Local Open Scope Z_scope.

Section invariant.
Context {BE : Bech32} {PK : PubKeyCodec} (econ : Validator).
Implicit Types (s : CoreSlotState) (p : CoreSlotParams) (slot : CoreSlot) (id : Z).

Definition key_of (any : option Any) : option string :=
  match consensusKey any with Ok (key, _) => Some key | Err _ => None end.

Record slot_ok (power id : Z) (slot : CoreSlot) : Prop := {
  so_id : SlotId slot = id;
  so_range : 0 < id ≤ MaxUint64;
  so_operator : is_ok (ParseAccountAddress econ (OperatorAddress slot)) = true;
  so_payout : is_ok (Validate econ (PayoutAddress slot)) = true;
  so_settlement : is_ok (Validate econ (SettlementAddress slot)) = true;
  so_key : is_Some (key_of (ConsensusPubkey slot));
  so_power : ConsensusPower slot =
    if decide (Status slot = SLOT_STATUS_ACTIVE) then power else 0
}.

(** What validation gives of the parameters that bound the active set. *)
Record params_bounds p : Prop := {
  pb_min : 1 ≤ MinActiveSlots p ≤ MaxActiveSlots p;
  pb_max : MaxActiveSlots p ≤ HardMaxActiveCoreSlots;
  pb_power : 0 < SlotVotingPower p;
  pb_total : MaxActiveSlots p * SlotVotingPower p ≤ MaxInt64;
  pb_cooldown : HardMinSelectionPolicyUpdateCooldownBlocks ≤ SelectionPolicyUpdateCooldownBlocks p
}.

(** The slot that owns a consensus key: by its record, or by a staged rotation. *)
Definition owns s id (key : string) : Prop :=
  (∃ slot, Cs_Slots s !! id = Some slot ∧ Status slot ≠ SLOT_STATUS_REMOVED ∧
     key_of (ConsensusPubkey slot) = Some key) ∨
  (∃ r, Cs_Rotations s !! id = Some r ∧ key_of (PKR_NewPubkey r) = Some key).

Definition is_active s id : Prop :=
  ∃ slot, Cs_Slots s !! id = Some slot ∧ Status slot = SLOT_STATUS_ACTIVE.

Definition active_size s : Z := Z.of_nat (size (Cs_ActiveSlots s)).

Record core_inv p s : Prop := {
  ci_params : Cs_Params s = Some p;
  ci_bounds : params_bounds p;
  ci_slots : ∀ id slot, Cs_Slots s !! id = Some slot → slot_ok (SlotVotingPower p) id slot;
  ci_next : ∃ n, Cs_NextSlotID s = Some n ∧ 0 < n ≤ MaxUint64 ∧
    ∀ id, is_Some (Cs_Slots s !! id) → id < n;
  ci_active : ∀ id, id ∈ Cs_ActiveSlots s ↔ is_active s id;
  ci_count : 1 ≤ active_size s ≤ HardMaxActiveCoreSlots;
  ci_total : active_size s * SlotVotingPower p ≤ MaxInt64;
  ci_operators : ∀ op id, Cs_ByOperator s !! op = Some id ↔
    ∃ slot, Cs_Slots s !! id = Some slot ∧ Status slot ≠ SLOT_STATUS_REMOVED ∧
      OperatorAddress slot = op;
  ci_keys : ∀ key id, Cs_ByConsensus s !! key = Some id ↔ owns s id key;
  ci_rotations : ∀ id r, Cs_Rotations s !! id = Some r →
    PKR_SlotId r = id ∧ is_Some (key_of (PKR_NewPubkey r)) ∧
    ∃ slot, Cs_Slots s !! id = Some slot ∧ Status slot = SLOT_STATUS_ACTIVE ∧
      PKR_OldPubkey r = ConsensusPubkey slot ∧
      key_of (PKR_NewPubkey r) ≠ key_of (ConsensusPubkey slot);
  ci_last : ∀ key v, Cs_LastApplied s !! key = Some v →
    key_of (LAV_ConsensusPubkey v) = Some key
}.

Lemma key_of_Some any key : key_of any = Some key ↔ ∃ addr, consensusKey any = Ok (key, addr).
Proof. unfold key_of. destruct (consensusKey any) as [[k a]|e]; naive_solver. Qed.

Lemma Validate_params p :
  0 ≤ MinActiveSlots p → CoreSlotParams_Validate p = Ok tt → params_bounds p.
Proof.
  unfold CoreSlotParams_Validate, ValidateMaxActiveSlots,
    ValidateSelectionPolicyUpdateCooldownBlocks.
  intros Hmin H. minv. zify_bool.
  match goal with H : requirePositiveAtLeast _ _ = Ok tt |- _ =>
    apply requirePositiveAtLeast_Ok in H as [_ Hcd] end.
  assert (0 ≤ MaxInt64 ÷ SlotVotingPower p ≤ MaxInt64) as Hq.
  { rewrite Z.quot_div_nonneg by (widths; lia). split; [apply Z.div_pos; widths; lia|].
    apply Z.div_le_upper_bound; widths; nia. }
  match goal with H : context [u64 _] |- _ => rewrite u64_small in H by (widths; lia) end.
  assert (MaxActiveSlots p * SlotVotingPower p ≤ MaxInt64).
  { rewrite Z.quot_div_nonneg in * by (widths; lia).
    pose proof (Z.mul_div_le MaxInt64 (SlotVotingPower p) ltac:(lia)). nia. }
  split; lia.
Qed.

(** ** Facts of a state that satisfies it *)
Section facts.
Context p s (Hinv : core_inv p s).

Lemma inv_getSlot id slot : getSlot id s = Ok slot →
  Cs_Slots s !! id = Some slot ∧ slot_ok (SlotVotingPower p) id slot.
Proof using Hinv.
  unfold getSlot. destruct (Cs_Slots s !! id) as [x|] eqn:E; [|done]. intros [= <-].
  split; [done|]. by apply (ci_slots _ _ Hinv).
Qed.

Lemma inv_getParams q : getParams s = Ok q → q = p.
Proof using Hinv.
  unfold getParams. rewrite (ci_params _ _ Hinv). simpl. congruence.
Qed.

(** A key has one owner, and an owner that is a slot has no rotation to it. *)
Lemma owns_unique id id' key : owns s id key → owns s id' key → id = id'.
Proof using Hinv. rewrite <- !(ci_keys _ _ Hinv). congruence. Qed.

Lemma inactive_no_rotation id slot :
  Cs_Slots s !! id = Some slot → Status slot ≠ SLOT_STATUS_ACTIVE → Cs_Rotations s !! id = None.
Proof using Hinv.
  intros Hs Hn. destruct (Cs_Rotations s !! id) as [r|] eqn:E; [|done].
  destruct (ci_rotations _ _ Hinv id r E) as (_ & _ & slot' & Hs' & Ha & _). congruence.
Qed.
End facts.

(** ** One lemma per kind of write *)

(** What a handler made of the fields the invariant reads; the other fields are
    free, and the parameters and the applied validator set are untouched. *)
Record becomes s s' (slots : gmap Z CoreSlot) (active : gset Z) (operators keys : gmap string Z)
    (rotations : gmap Z PendingKeyRotation) (next : option Z) : Prop := {
  bc_params : Cs_Params s' = Cs_Params s;
  bc_last : Cs_LastApplied s' = Cs_LastApplied s;
  bc_slots : Cs_Slots s' = slots;
  bc_active : Cs_ActiveSlots s' = active;
  bc_operators : Cs_ByOperator s' = operators;
  bc_keys : Cs_ByConsensus s' = keys;
  bc_rotations : Cs_Rotations s' = rotations;
  bc_next : Cs_NextSlotID s' = next
}.

(** Opening a proof that a written state satisfies the invariant. *)
Ltac open_inv Hi Hb :=
  destruct (Hi);
  split; unfold active_size, owns, is_active;
    rewrite ?(bc_params _ _ _ _ _ _ _ _ Hb), ?(bc_last _ _ _ _ _ _ _ _ Hb),
      ?(bc_slots _ _ _ _ _ _ _ _ Hb), ?(bc_active _ _ _ _ _ _ _ _ Hb),
      ?(bc_operators _ _ _ _ _ _ _ _ Hb), ?(bc_keys _ _ _ _ _ _ _ _ Hb),
      ?(bc_rotations _ _ _ _ _ _ _ _ Hb), ?(bc_next _ _ _ _ _ _ _ _ Hb); try done.

(** A statement about some row, after one row was replaced. *)
Lemma exists_insert (m : gmap Z CoreSlot) id slot slot' (P : CoreSlot → Prop) i :
  m !! id = Some slot → (P slot ↔ P slot') →
  (∃ x, <[id := slot']> m !! i = Some x ∧ P x) ↔ (∃ x, m !! i = Some x ∧ P x).
Proof.
  intros Hs HP. destruct (decide (id = i)) as [->|Hne].
  - rewrite lookup_insert_eq, Hs. naive_solver.
  - by rewrite lookup_insert_ne.
Qed.

Lemma exists_insert_iff (m : gmap Z CoreSlot) id slot' (P : CoreSlot → Prop) i :
  (∃ x, <[id := slot']> m !! i = Some x ∧ P x) ↔
  (i = id ∧ P slot') ∨ (i ≠ id ∧ ∃ x, m !! i = Some x ∧ P x).
Proof.
  destruct (decide (id = i)) as [->|Hne].
  - rewrite lookup_insert_eq. naive_solver.
  - rewrite lookup_insert_ne by done. naive_solver.
Qed.

(** Replacing a row keeps the identifier counter ahead. *)
Lemma next_insert (m : gmap Z CoreSlot) id slot slot' (n : option Z) :
  m !! id = Some slot →
  (∃ k, n = Some k ∧ 0 < k ≤ MaxUint64 ∧ ∀ i, is_Some (m !! i) → i < k) →
  ∃ k, n = Some k ∧ 0 < k ≤ MaxUint64 ∧ ∀ i, is_Some (<[id := slot']> m !! i) → i < k.
Proof.
  intros Hs (k & Hn & Hr & Hlt). exists k. split; [done|]. split; [done|].
  intros i. rewrite lookup_insert_is_Some. intros [<-|[_ Hi]]; apply Hlt; [by eexists | done].
Qed.

Lemma slots_insert power (m : gmap Z CoreSlot) id slot' :
  (∀ i x, m !! i = Some x → slot_ok power i x) → slot_ok power id slot' →
  ∀ i x, <[id := slot']> m !! i = Some x → slot_ok power i x.
Proof. intros H Hok i x [[<- <-]|[_ Hx]]%lookup_insert_Some; auto. Qed.

(** A change of the fields the invariant does not tie to anything else. *)
Lemma inv_touch p s s' id slot slot' :
  core_inv p s → Cs_Slots s !! id = Some slot → slot_ok (SlotVotingPower p) id slot' →
  OperatorAddress slot' = OperatorAddress slot → ConsensusPubkey slot' = ConsensusPubkey slot →
  Status slot' = Status slot →
  becomes s s' (<[id := slot']> (Cs_Slots s)) (Cs_ActiveSlots s) (Cs_ByOperator s)
    (Cs_ByConsensus s) (Cs_Rotations s) (Cs_NextSlotID s) →
  core_inv p s'.
Proof.
  intros Hi Hs Hok Hop Hk Hst Hb. destruct Hi, Hb.
  split; unfold active_size, owns, is_active;
    rewrite ?bc_params0, ?bc_last0, ?bc_slots0, ?bc_active0, ?bc_operators0, ?bc_keys0,
      ?bc_rotations0, ?bc_next0; try done.
  - by apply slots_insert.
  - by eapply next_insert.
  - intros i. rewrite ci_active0. symmetry.
    eapply (exists_insert _ _ _ _ (λ x, Status x = _)); [done | by rewrite Hst].
  - intros op i. rewrite ci_operators0. symmetry.
    eapply (exists_insert _ _ _ _ (λ x, Status x ≠ _ ∧ OperatorAddress x = op)); [done|].
    by rewrite Hst, Hop.
  - intros key i. rewrite ci_keys0. unfold owns. f_equiv. symmetry.
    eapply (exists_insert _ _ _ _ (λ x, Status x ≠ _ ∧ key_of (ConsensusPubkey x) = Some key));
      [done|]. by rewrite Hst, Hk.
  - intros i r Hr. destruct (ci_rotations0 i r Hr) as (H1 & H2 & H3).
    split; [done|]. split; [done|].
    eapply (exists_insert _ _ _ _ (λ x, Status x = _ ∧ PKR_OldPubkey r = ConsensusPubkey x ∧
      _ ≠ key_of (ConsensusPubkey x))); [done | by rewrite Hst, Hk | done].
Qed.

(** The new key of the rotation staged for a slot is released with it. *)
Definition released_keys s id : gmap string Z :=
  match Cs_Rotations s !! id with
  | Some r => match key_of (PKR_NewPubkey r) with
              | Some key => delete key (Cs_ByConsensus s)
              | None => Cs_ByConsensus s
              end
  | None => Cs_ByConsensus s
  end.

Lemma released_keys_spec p s id :
  core_inv p s → ∀ key i, released_keys s id !! key = Some i ↔
    owns s i key ∧ ¬ (∃ r, Cs_Rotations s !! id = Some r ∧ key_of (PKR_NewPubkey r) = Some key).
Proof.
  intros Hi key i. unfold released_keys. rewrite <- (ci_keys _ _ Hi).
  destruct (Cs_Rotations s !! id) as [r|] eqn:E; [|naive_solver].
  destruct (ci_rotations _ _ Hi id r E) as (_ & [k Hk] & _). rewrite Hk.
  rewrite lookup_delete_Some. naive_solver.
Qed.

Lemma active_size_diff s id : id ∈ Cs_ActiveSlots s →
  Z.of_nat (size (Cs_ActiveSlots s ∖ {[id]})) = active_size s - 1.
Proof.
  intros Hin. unfold active_size. rewrite size_difference by set_solver.
  rewrite size_singleton. assert (size (Cs_ActiveSlots s) ≠ 0%nat); [|lia].
  intros H%size_empty_inv. set_solver.
Qed.

Lemma active_diff (a : gset Z) (m : gmap Z CoreSlot) id slot' :
  (∀ i, i ∈ a ↔ ∃ x, m !! i = Some x ∧ Status x = SLOT_STATUS_ACTIVE) →
  Status slot' ≠ SLOT_STATUS_ACTIVE →
  ∀ i, i ∈ a ∖ {[id]} ↔ ∃ x, <[id := slot']> m !! i = Some x ∧ Status x = SLOT_STATUS_ACTIVE.
Proof.
  intros Ha Hn i. rewrite (exists_insert_iff _ _ _ (λ x, Status x = SLOT_STATUS_ACTIVE)).
  rewrite elem_of_difference, elem_of_singleton, Ha. naive_solver.
Qed.

(** Counting after a slot left the active set, or was not in it. *)
Lemma count_diff p s id :
  core_inv p s → (is_active s id → 2 ≤ active_size s) →
  let n := Z.of_nat (size (Cs_ActiveSlots s ∖ {[id]})) in
  1 ≤ n ≤ HardMaxActiveCoreSlots ∧ n * SlotVotingPower p ≤ MaxInt64.
Proof.
  intros Hi H2. pose proof (ci_count _ _ Hi) as Hc. pose proof (ci_total _ _ Hi) as Ht.
  pose proof (pb_power _ (ci_bounds _ _ Hi)) as Hp.
  destruct (decide (id ∈ Cs_ActiveSlots s)) as [Hin|Hout].
  - cbv zeta. rewrite active_size_diff by done. apply (ci_active _ _ Hi) in Hin.
    specialize (H2 Hin). nia.
  - cbv zeta. replace (Cs_ActiveSlots s ∖ {[id]}) with (Cs_ActiveSlots s) by set_solver.
    done.
Qed.

(** A slot that is not removed is inactivated or suspended. *)
Lemma inv_leave p s s' id slot slot' :
  core_inv p s → Cs_Slots s !! id = Some slot → slot_ok (SlotVotingPower p) id slot' →
  OperatorAddress slot' = OperatorAddress slot → ConsensusPubkey slot' = ConsensusPubkey slot →
  Status slot ≠ SLOT_STATUS_REMOVED →
  Status slot' ≠ SLOT_STATUS_ACTIVE → Status slot' ≠ SLOT_STATUS_REMOVED →
  (is_active s id → 2 ≤ active_size s) →
  becomes s s' (<[id := slot']> (Cs_Slots s)) (Cs_ActiveSlots s ∖ {[id]}) (Cs_ByOperator s)
    (released_keys s id) (delete id (Cs_Rotations s)) (Cs_NextSlotID s) →
  core_inv p s'.
Proof.
  intros Hi Hs Hok Hop Hk Hst Hna Hnr Hcount Hb.
  pose proof (released_keys_spec p s id Hi) as Hrel.
  pose proof (count_diff p s id Hi Hcount) as [Hc Ht].
  pose proof (owns_unique p s Hi) as Huniq.
  open_inv Hi Hb.
  - by apply slots_insert.
  - by eapply next_insert.
  - by apply active_diff.
  - intros op i. rewrite ci_operators0. symmetry.
    eapply (exists_insert _ _ _ _ (λ x, Status x ≠ _ ∧ OperatorAddress x = op)); [done|].
    rewrite Hop. naive_solver.
  - intros key i. rewrite Hrel.
    rewrite (exists_insert _ _ _ _
      (λ x, Status x ≠ _ ∧ key_of (ConsensusPubkey x) = Some key) i Hs)
      by (rewrite Hk; naive_solver).
    setoid_rewrite lookup_delete_Some. split.
    + intros [[Hown|(r & Hr & Hkr)] Hnot]; [by left | right].
      exists r. split; [split; [|done]; intros <-; eauto | done].
    + intros [(x & Hx & Hxs & Hxk)|(r & [Hne Hr] & Hkr)].
      * split; [left; by exists x|]. intros (r & Hr & Hkr).
        assert (i = id) as -> by (eapply Huniq; [left; by exists x | right; by exists r]).
        destruct (ci_rotations0 id r Hr) as (_ & _ & y & Hy & _ & _ & Hne). congruence.
      * split; [right; by exists r|]. intros (r' & Hr' & Hkr').
        apply Hne. eapply Huniq; right; eauto.
  - intros i r [Hne Hr]%lookup_delete_Some.
    rewrite lookup_insert_ne by done. by apply ci_rotations0.
Qed.

(** A slot that is not active is removed: its keys become free. *)
Lemma inv_remove p s s' id slot slot' key :
  core_inv p s → Cs_Slots s !! id = Some slot → slot_ok (SlotVotingPower p) id slot' →
  Status slot ≠ SLOT_STATUS_ACTIVE → Status slot ≠ SLOT_STATUS_REMOVED →
  Status slot' = SLOT_STATUS_REMOVED → key_of (ConsensusPubkey slot) = Some key →
  becomes s s' (<[id := slot']> (Cs_Slots s)) (Cs_ActiveSlots s ∖ {[id]})
    (delete (OperatorAddress slot) (Cs_ByOperator s)) (delete key (Cs_ByConsensus s))
    (Cs_Rotations s) (Cs_NextSlotID s) →
  core_inv p s'.
Proof.
  intros Hi Hs Hok Hna Hnr Hst Hkey Hb.
  pose proof (count_diff p s id Hi) as [Hc Ht].
  { intros (x & Hx & Ha). congruence. }
  pose proof (owns_unique p s Hi) as Huniq.
  pose proof (inactive_no_rotation p s Hi id slot Hs Hna) as Hnone.
  open_inv Hi Hb.
  - by apply slots_insert.
  - by eapply next_insert.
  - apply active_diff; [done | by rewrite Hst].
  - intros op i. rewrite lookup_delete_Some, ci_operators0.
    rewrite (exists_insert_iff _ _ _ (λ x, Status x ≠ _ ∧ OperatorAddress x = op)). split.
    + intros [Hne Hx]. right. split; [|done]. intros ->. naive_solver.
    + intros [[_ [? _]]|[Hne Hx]]; [done|]. split; [|done]. intros <-.
      apply Hne. assert (Cs_ByOperator s !! OperatorAddress slot = Some i) by by apply ci_operators0.
      assert (Cs_ByOperator s !! OperatorAddress slot = Some id); [|congruence].
      apply ci_operators0. by exists slot.
  - intros k i. rewrite lookup_delete_Some, ci_keys0.
    rewrite (exists_insert_iff _ _ _
      (λ x, Status x ≠ _ ∧ key_of (ConsensusPubkey x) = Some k)). split.
    + intros [Hne [Hx|Hr]]; [left; right | by right]. split; [|done]. intros ->. naive_solver.
    + intros [[[_ [? _]]|[Hne Hx]]|(r & Hr & Hkr)]; [done| |].
      * split; [|by left]. intros <-. apply Hne. eapply Huniq; left; eauto.
      * split; [|right; eauto]. intros <-.
        assert (i = id) as -> by (eapply Huniq; [right; eauto | left; eauto]). congruence.
  - intros i r Hr. destruct (decide (i = id)) as [->|Hne]; [congruence|].
    rewrite lookup_insert_ne by done. by apply ci_rotations0.
Qed.

(** A new slot takes the next identifier. *)
Lemma inv_register p s s' id slot' key :
  core_inv p s → Cs_NextSlotID s = Some id → slot_ok (SlotVotingPower p) id slot' →
  Status slot' = SLOT_STATUS_PENDING →
  Cs_ByOperator s !! OperatorAddress slot' = None →
  key_of (ConsensusPubkey slot') = Some key → Cs_ByConsensus s !! key = None →
  id + 1 ≤ MaxUint64 →
  becomes s s' (<[id := slot']> (Cs_Slots s)) (Cs_ActiveSlots s)
    (<[OperatorAddress slot' := id]> (Cs_ByOperator s)) (<[key := id]> (Cs_ByConsensus s))
    (Cs_Rotations s) (Some (id + 1)) →
  core_inv p s'.
Proof.
  intros Hi Hn Hok Hst Hop Hkey Hfree Hmax Hb.
  assert (∀ i, is_Some (Cs_Slots s !! i) → i < id) as Hlt.
  { destruct (ci_next _ _ Hi) as (n & Hn' & _ & Hlt). intros i. rewrite Hn in Hn'.
    injection Hn' as ->. apply Hlt. }
  assert (Cs_Slots s !! id = None) as Hnone.
  { apply eq_None_not_Some. intros H%Hlt. lia. }
  open_inv Hi Hb.
  - by apply slots_insert.
  - exists (id + 1). destruct Hok. split; [done|]. split; [lia|].
    intros i. rewrite lookup_insert_is_Some. intros [<-|[_ Hi']]; [lia|].
    specialize (Hlt i Hi'). lia.
  - intros i. rewrite (exists_insert_iff _ _ _ (λ x, Status x = SLOT_STATUS_ACTIVE)), ci_active0.
    unfold is_active. rewrite Hst. split; [|naive_solver].
    intros (x & Hx & ?). right. split; [congruence | by exists x].
  - intros op i. rewrite lookup_insert_Some, ci_operators0.
    rewrite (exists_insert_iff _ _ _ (λ x, Status x ≠ _ ∧ OperatorAddress x = op)). split.
    + intros [[<- <-]|[Hne (x & Hx & ?)]]; [left; by rewrite Hst|].
      right. split; [congruence | by exists x].
    + intros [[-> [_ <-]]|[Hne (x & Hx & Hxs)]]; [by left|]. right.
      split; [|by exists x]. intros <-.
      assert (Cs_ByOperator s !! OperatorAddress slot' = Some i); [|congruence].
      apply ci_operators0. by exists x.
  - intros k i. rewrite lookup_insert_Some, ci_keys0.
    rewrite (exists_insert_iff _ _ _
      (λ x, Status x ≠ _ ∧ key_of (ConsensusPubkey x) = Some k)). split.
    + intros [[<- <-]|[Hne [(x & Hx & ?)|Hr]]]; [left; left; by rewrite Hst| |by right].
      left. right. split; [congruence | by exists x].
    + intros Hown. destruct (decide (key = k)) as [<-|Hne].
      * left. split; [done|]. destruct Hown as [[[-> _]|[_ Hx]]|Hr]; [done| |].
        -- assert (Cs_ByConsensus s !! key = Some i) by (apply ci_keys0; by left). congruence.
        -- assert (Cs_ByConsensus s !! key = Some i) by (apply ci_keys0; by right). congruence.
      * right. split; [done|]. destruct Hown as [[[-> [_ ?]]|[_ Hx]]|Hr];
          [congruence | by left | by right].
  - intros i r Hr. destruct (ci_rotations0 i r Hr) as (H1 & H2 & x & Hx & H3).
    split; [done|]. split; [done|]. exists x. split; [|done].
    rewrite lookup_insert_ne by congruence. done.
Qed.

(** A pending, inactive or suspended slot becomes active. *)
Lemma inv_activate p s s' id slot slot' :
  core_inv p s → Cs_Slots s !! id = Some slot → slot_ok (SlotVotingPower p) id slot' →
  OperatorAddress slot' = OperatorAddress slot → ConsensusPubkey slot' = ConsensusPubkey slot →
  Status slot ≠ SLOT_STATUS_ACTIVE → Status slot ≠ SLOT_STATUS_REMOVED →
  Status slot' = SLOT_STATUS_ACTIVE →
  active_size s < MaxActiveSlots p →
  becomes s s' (<[id := slot']> (Cs_Slots s)) ({[id]} ∪ Cs_ActiveSlots s) (Cs_ByOperator s)
    (Cs_ByConsensus s) (Cs_Rotations s) (Cs_NextSlotID s) →
  core_inv p s'.
Proof.
  intros Hi Hs Hok Hop Hk Hna Hnr Hst Hcount Hb.
  assert (id ∉ Cs_ActiveSlots s) as Hout.
  { rewrite (ci_active _ _ Hi). intros (x & Hx & ?). congruence. }
  assert (Z.of_nat (size ({[id]} ∪ Cs_ActiveSlots s)) = active_size s + 1) as Hsize.
  { unfold active_size. rewrite size_union by set_solver. rewrite size_singleton. lia. }
  pose proof (pb_max _ (ci_bounds _ _ Hi)) as Hmax.
  pose proof (pb_total _ (ci_bounds _ _ Hi)) as Htot.
  pose proof (pb_power _ (ci_bounds _ _ Hi)) as Hpow. pose proof (ci_count _ _ Hi) as Hc.
  open_inv Hi Hb.
  - by apply slots_insert.
  - by eapply next_insert.
  - intros i. rewrite elem_of_union, elem_of_singleton, ci_active0.
    rewrite (exists_insert_iff _ _ _ (λ x, Status x = SLOT_STATUS_ACTIVE)).
    unfold is_active. destruct (decide (i = id)); naive_solver.
  - rewrite Hsize. lia.
  - rewrite Hsize. nia.
  - intros op i. rewrite ci_operators0. symmetry.
    eapply (exists_insert _ _ _ _ (λ x, Status x ≠ _ ∧ OperatorAddress x = op)); [done|].
    rewrite Hop, Hst. naive_solver.
  - intros key i. rewrite ci_keys0. unfold owns. f_equiv. symmetry.
    eapply (exists_insert _ _ _ _ (λ x, Status x ≠ _ ∧ key_of (ConsensusPubkey x) = Some key));
      [done|]. rewrite Hk, Hst. naive_solver.
  - intros i r Hr. destruct (ci_rotations0 i r Hr) as (H1 & H2 & x & Hx & H3).
    split; [done|]. split; [done|]. exists x. split; [|done].
    rewrite lookup_insert_ne; [done|]. intros ->. naive_solver.
Qed.

(** An active slot stages a rotation to a free key. *)
Lemma inv_stage p s s' id slot r key :
  core_inv p s → Cs_Slots s !! id = Some slot → Status slot = SLOT_STATUS_ACTIVE →
  Cs_Rotations s !! id = None → PKR_SlotId r = id → PKR_OldPubkey r = ConsensusPubkey slot →
  key_of (PKR_NewPubkey r) = Some key → Cs_ByConsensus s !! key = None →
  becomes s s' (Cs_Slots s) (Cs_ActiveSlots s) (Cs_ByOperator s)
    (<[key := id]> (Cs_ByConsensus s)) (<[id := r]> (Cs_Rotations s)) (Cs_NextSlotID s) →
  core_inv p s'.
Proof.
  intros Hi Hs Hst Hnone Hid Hold Hkey Hfree Hb.
  assert (∀ i, ¬ owns s i key) as Hno by (intros i; rewrite <- (ci_keys _ _ Hi); congruence).
  open_inv Hi Hb.
  - intros k i. rewrite lookup_insert_Some, ci_keys0. setoid_rewrite lookup_insert_Some. split.
    + intros [[<- <-]|[Hne [Hx|(r' & Hr & Hk)]]]; [right; exists r; by auto | by left |].
      right. exists r'. split; [|done]. right. split; [congruence | done].
    + intros Hown. destruct (decide (key = k)) as [<-|Hne].
      * left. split; [done|]. destruct Hown as [Hx|(r' & [[<- _]|[_ Hr]] & Hk)]; [|done|].
        -- exfalso. apply (Hno i). by left.
        -- exfalso. apply (Hno i). right. by exists r'.
      * right. split; [done|]. destruct Hown as [Hx|(r' & [[_ <-]|[_ Hr]] & Hk)];
          [by left | congruence | right; by exists r'].
  - intros i r' [[<- <-]|[Hne Hr]]%lookup_insert_Some; [|by apply ci_rotations0].
    split; [done|]. split; [by eexists|]. exists slot. split_and!; [done..|].
    intros Heq. apply (Hno id). left. exists slot. split; [done|]. rewrite <- Heq, Hst. done.
Qed.

(** A slot that is not active changes its key at once. *)
Lemma inv_rekey p s s' id slot slot' old new :
  core_inv p s → Cs_Slots s !! id = Some slot → slot_ok (SlotVotingPower p) id slot' →
  OperatorAddress slot' = OperatorAddress slot → Status slot' = Status slot →
  Status slot ≠ SLOT_STATUS_ACTIVE → Status slot ≠ SLOT_STATUS_REMOVED →
  key_of (ConsensusPubkey slot) = Some old → key_of (ConsensusPubkey slot') = Some new →
  Cs_ByConsensus s !! new = None →
  becomes s s' (<[id := slot']> (Cs_Slots s)) (Cs_ActiveSlots s) (Cs_ByOperator s)
    (delete old (<[new := id]> (Cs_ByConsensus s))) (Cs_Rotations s) (Cs_NextSlotID s) →
  core_inv p s'.
Proof.
  intros Hi Hs Hok Hop Hst Hna Hnr Hold Hnew Hfree Hb.
  assert (∀ i, ¬ owns s i new) as Hno by (intros i; rewrite <- (ci_keys _ _ Hi); congruence).
  assert (owns s id old) as Hown by (left; by exists slot).
  assert (old ≠ new) as Hne by (intros ->; by apply (Hno id)).
  pose proof (owns_unique p s Hi) as Huniq.
  pose proof (inactive_no_rotation p s Hi id slot Hs Hna) as Hnone.
  open_inv Hi Hb.
  - by apply slots_insert.
  - by eapply next_insert.
  - intros i. rewrite ci_active0. symmetry.
    eapply (exists_insert _ _ _ _ (λ x, Status x = _)); [done | by rewrite Hst].
  - intros op i. rewrite ci_operators0. symmetry.
    eapply (exists_insert _ _ _ _ (λ x, Status x ≠ _ ∧ OperatorAddress x = op)); [done|].
    by rewrite Hst, Hop.
  - intros k i. rewrite lookup_delete_Some, lookup_insert_Some, ci_keys0.
    rewrite (exists_insert_iff _ _ _
      (λ x, Status x ≠ _ ∧ key_of (ConsensusPubkey x) = Some k)). split.
    + intros [Ho [[<- <-]|[Hn [Hx|Hr]]]]; [left; left; by rewrite Hst | | by right].
      left. right. split; [|done]. intros ->. naive_solver.
    + intros [[(-> & _ & Hk)|[Hi' Hx]]|Hr].
      * split; [congruence | left; split; [congruence | done]].
      * split; [intros <-; apply Hi'; eapply Huniq; [by left | done]|].
        right. split; [|by left]. intros <-. apply (Hno i). by left.
      * split; [|right; split; [|by right]].
        -- intros <-. assert (i = id) as -> by (eapply Huniq; [by right | done]).
           destruct Hr as (r & Hr & _). congruence.
        -- intros <-. apply (Hno i). by right.
  - intros i r Hr. destruct (ci_rotations0 i r Hr) as (H1 & H2 & x & Hx & H3).
    split; [done|]. split; [done|]. exists x. split; [|done].
    rewrite lookup_insert_ne; [done|]. intros ->. congruence.
Qed.

(** A staged rotation takes effect. *)
Lemma inv_apply p s s' id slot slot' r old :
  core_inv p s → Cs_Slots s !! id = Some slot → Cs_Rotations s !! id = Some r →
  slot_ok (SlotVotingPower p) id slot' → OperatorAddress slot' = OperatorAddress slot →
  Status slot' = Status slot → ConsensusPubkey slot' = PKR_NewPubkey r →
  key_of (ConsensusPubkey slot) = Some old →
  becomes s s' (<[id := slot']> (Cs_Slots s)) (Cs_ActiveSlots s) (Cs_ByOperator s)
    (delete old (Cs_ByConsensus s)) (delete id (Cs_Rotations s)) (Cs_NextSlotID s) →
  core_inv p s'.
Proof.
  intros Hi Hs Hr Hok Hop Hst Hpk Hold Hb.
  destruct (ci_rotations _ _ Hi id r Hr) as (_ & [new Hnew] & x & Hx & Ha & _ & Hdiff).
  assert (x = slot) as -> by congruence.
  assert (Status slot ≠ SLOT_STATUS_REMOVED) as Hnr by congruence.
  assert (owns s id old) as Hown by (left; by exists slot).
  assert (owns s id new) as Hown' by (right; by exists r).
  assert (old ≠ new) as Hne by congruence.
  pose proof (owns_unique p s Hi) as Huniq.
  open_inv Hi Hb.
  - by apply slots_insert.
  - by eapply next_insert.
  - intros i. rewrite ci_active0. symmetry.
    eapply (exists_insert _ _ _ _ (λ x, Status x = _)); [done | by rewrite Hst].
  - intros op i. rewrite ci_operators0. symmetry.
    eapply (exists_insert _ _ _ _ (λ x, Status x ≠ _ ∧ OperatorAddress x = op)); [done|].
    by rewrite Hst, Hop.
  - intros k i. rewrite lookup_delete_Some, ci_keys0.
    rewrite (exists_insert_iff _ _ _
      (λ x, Status x ≠ _ ∧ key_of (ConsensusPubkey x) = Some k)).
    setoid_rewrite lookup_delete_Some. rewrite Hpk, Hst. split.
    + intros [Ho [(y & Hy & Hys & Hyk)|(r' & Hr' & Hk)]].
      * left. right. split; [|by exists y]. intros ->. congruence.
      * destruct (decide (i = id)) as [->|Hni]; [left; left; split_and!; congruence|].
        right. exists r'. done.
    + intros [[(-> & _ & Hk)|[Hni Hy]]|(r' & [Hni Hr'] & Hk)].
      * split; [congruence | right; by exists r].
      * split; [|by left]. intros <-. apply Hni. eapply Huniq; [by left | done].
      * split; [|right; by exists r']. intros <-. apply Hni.
        apply (Huniq id i old); [done | right; by exists r'].
  - intros i r' [Hni Hr']%lookup_delete_Some.
    destruct (ci_rotations0 i r' Hr') as (H1 & H2 & H3).
    split; [done|]. split; [done|]. by rewrite lookup_insert_ne.
Qed.

(** Parameters with the same voting power. *)
Lemma inv_params p q s :
  core_inv p s → params_bounds q → SlotVotingPower q = SlotVotingPower p →
  core_inv q (s <| Cs_Params := Some q |>).
Proof. intros Hi Hq Hp. destruct Hi. split; simpl; rewrite ?Hp; done. Qed.

(** The applied validator set, replaced by one that names its keys. *)
Lemma inv_last p s last :
  core_inv p s → (∀ key v, last !! key = Some v → key_of (LAV_ConsensusPubkey v) = Some key) →
  core_inv p (s <| Cs_LastApplied := last |>).
Proof. intros Hi Hl. by destruct Hi. Qed.
End invariant.
