(* ===== verification/CoreSlotLifecycle.v ===== *)
(** * x/coreslot: messages over the store

    The messages a block can carry, delivered in a cache of their own, and the
    effect of each on the invariant of the store. *)
From S2P Require Import Prelude Checked SdkMath Bounds EconomicAddress RewardsTypes.
From S2P Require Import Collections CoreSlotTypes CoreSlotState CoreSlot CoreSlotMsgs.
From S2P Require Import CoreSlotInvariant.
From Stdlib Require Import String.
Local Open Scope Z_scope.

Inductive coreslot_message :=
  | CRegister (msg : MsgRegisterCoreSlot)
  | CActivate (msg : MsgActivateCoreSlot)
  | CInactivate (msg : MsgInactivateCoreSlot)
  | CSuspend (msg : MsgSuspendCoreSlot)
  | CRemove (msg : MsgRemoveCoreSlot)
  | CRotate (msg : MsgRotateConsensusKey)
  | CPayout (msg : MsgUpdatePayoutAddress)
  | CMetadata (msg : MsgUpdateOperatorMetadata)
  | CSettlement (msg : MsgUpdateSettlementAddress)
  | CPolicy (msg : MsgUpdateSelectionPolicy)
  | CParams (msg : MsgUpdateParams)
  | CNominate (msg : MsgNominateAuthority)
  | CAccept (msg : MsgAcceptAuthority)
  | CCancel (msg : MsgCancelAuthorityNomination).

(** What the wire format guarantees of a message: a uint64 is not negative. *)
Definition message_typed (m : coreslot_message) : Prop :=
  match m with
  | CParams {| UP_Params := Some q |} => is_u64 (MinActiveSlots q)
  | _ => True
  end.

(** Unfold the single-row writes. *)
Ltac cs_writes :=
  unfold setSlot, setByOperator, removeByOperator, setByConsensus, removeByConsensus,
    setReserved, removeReserved, setRotation, removeRotation, setRewardWeight, setNextSlotID,
    setParams, setPendingAuthority, removePendingAuthority, writePolicyVersion, setPolicy,
    setPolicyStart, setSlotActive, clearSlotActive in *.

(** Invert the run [H] of a handler started in a state satisfying the invariant
    [Hi]: its reads become lookups, its checks facts. *)
Ltac read_slot Hi :=
  match goal with
  | H : getParams _ = Ok _ |- _ => apply (inv_getParams _ _ _ Hi) in H; subst
  | H : getSlot _ _ = Ok _ |- _ =>
      apply (inv_getSlot _ _ _ Hi) in H as [Hs Hok]; pose proof (so_id _ _ _ _ Hok) as Hid
  | H : bool_decide _ = false |- _ => apply bool_decide_eq_false_1 in H
  end.
Ltac start Hi H := minv; cs_writes; minv; repeat read_slot Hi; zify_bool.

Section messages.
Context {BE : Bech32} {PK : PubKeyCodec} (econ : Validator) (height : Z).
Implicit Types (s : CoreSlotState) (p : CoreSlotParams).

Definition handle (m : coreslot_message) : CM unit :=
  match m with
  | CRegister msg => RegisterCoreSlot econ height msg ;; mret tt
  | CActivate msg => ActivateCoreSlot econ height msg
  | CInactivate msg => InactivateCoreSlot height msg
  | CSuspend msg => SuspendCoreSlot height msg
  | CRemove msg => RemoveCoreSlot height msg
  | CRotate msg => RotateConsensusKey height msg
  | CPayout msg => UpdatePayoutAddress econ height msg
  | CMetadata msg => UpdateOperatorMetadata height msg
  | CSettlement msg => UpdateSettlementAddress econ height msg
  | CPolicy msg => UpdateSelectionPolicy height msg ;; mret tt
  | CParams msg => UpdateCoreSlotParams msg
  | CNominate msg => NominateAuthority econ height msg
  | CAccept msg => AcceptAuthority econ msg
  | CCancel msg => CancelAuthorityNomination msg
  end.

Definition coreslot_deliver (m : coreslot_message) : CM unit := cached (handle m).

Lemma ensure_Ok any key addr s s' :
  ensureConsensusAvailable height any s = (s', Ok (key, addr)) →
  key_of any = Some key ∧ Cs_ByConsensus s !! key = None ∧
  (∀ r, Cs_Reserved s !! key = Some r → RCA_ReservedUntil r ≤ height) ∧
  s' = s <| Cs_Reserved := delete key (Cs_Reserved s) |>.
Proof.
  unfold ensureConsensusAvailable. intros H. minv. destruct x as [k a]. minv.
  cs_writes. destruct (Cs_Reserved _ !! k) as [r|] eqn:E; minv; simplify_eq.
  - split_and!; [apply key_of_Some; eauto | | |done].
    + by eapply eq_None_not_Some, bool_decide_eq_false_1.
    + intros r' Hr'. simplify_eq. zify_bool. lia.
  - split_and!; [apply key_of_Some; eauto | |intros; congruence|].
    + by eapply eq_None_not_Some, bool_decide_eq_false_1.
    + rewrite delete_id by done. by destruct s.
Qed.

Lemma cancel_Ok slot s s' :
  cancelRotationAndEmit slot s = (s', Ok tt) →
  s' = s <| Cs_ByConsensus := released_keys s (SlotId slot) |>
         <| Cs_Rotations := delete (SlotId slot) (Cs_Rotations s) |>.
Proof.
  unfold cancelRotationAndEmit, cancelPendingRotation, released_keys, key_of.
  intros H. minv. cs_writes.
  destruct (Cs_Rotations s !! SlotId slot) as [r|] eqn:E; minv.
  - destruct (consensusKey (PKR_NewPubkey r)) as [[k a]|] eqn:Ek; minv.
    by destruct s.
  - rewrite delete_id by done. by destruct s.
Qed.

(** ** Every handler keeps the invariant *)
Section preservation.
Context p s (Hi : core_inv econ p s).

Lemma touch_ok id slot slot' :
  slot_ok econ (SlotVotingPower p) id slot → SlotId slot' = SlotId slot →
  OperatorAddress slot' = OperatorAddress slot → ConsensusPubkey slot' = ConsensusPubkey slot →
  Status slot' = Status slot → ConsensusPower slot' = ConsensusPower slot →
  is_ok (Validate econ (PayoutAddress slot')) = true →
  is_ok (Validate econ (SettlementAddress slot')) = true →
  slot_ok econ (SlotVotingPower p) id slot'.
Proof. intros [] H1 H2 H3 H4 H5 ??. split; rewrite ?H1, ?H2, ?H3, ?H4, ?H5; done. Qed.

(** Finish with the lemma for the kind of write. *)
Ltac touch :=
  simpl in *; match goal with Hid : SlotId _ = _, Hok : slot_ok _ _ _ _ |- _ => rewrite ?Hid;
  eapply inv_touch; [exact Hi | eassumption | .. | split; reflexivity]; [|reflexivity..];
  eapply touch_ok; [exact Hok | reflexivity..| |]; simpl;
  first [by destruct Hok | by match goal with H : Validate _ _ = Ok _ |- _ => rewrite H end]
  end.

Lemma payout_inv msg s' : UpdatePayoutAddress econ height msg s = (s', Ok tt) → core_inv econ p s'.
Proof using Hi. unfold UpdatePayoutAddress. intros H. start Hi H. touch. Qed.

Lemma metadata_inv msg s' : UpdateOperatorMetadata height msg s = (s', Ok tt) → core_inv econ p s'.
Proof using Hi. unfold UpdateOperatorMetadata. intros H. start Hi H. touch. Qed.

Lemma settlement_inv msg s' :
  UpdateSettlementAddress econ height msg s = (s', Ok tt) → core_inv econ p s'.
Proof using Hi. unfold UpdateSettlementAddress. intros H. start Hi H. touch. Qed.

Lemma selection_inv msg s' v : UpdateSelectionPolicy height msg s = (s', Ok v) → core_inv econ p s'.
Proof using Hi. unfold UpdateSelectionPolicy. intros H. start Hi H. touch. Qed.

(** The record of a slot whose status changed, with the power of its status. *)
Lemma status_ok id slot slot' :
  slot_ok econ (SlotVotingPower p) id slot → SlotId slot' = SlotId slot →
  OperatorAddress slot' = OperatorAddress slot → ConsensusPubkey slot' = ConsensusPubkey slot →
  PayoutAddress slot' = PayoutAddress slot → SettlementAddress slot' = SettlementAddress slot →
  ConsensusPower slot' =
    (if decide (Status slot' = SLOT_STATUS_ACTIVE) then SlotVotingPower p else 0) →
  slot_ok econ (SlotVotingPower p) id slot'.
Proof. intros [] H1 H2 H3 H4 H5 ?. split; rewrite ?H1, ?H2, ?H3, ?H4, ?H5; done. Qed.

Lemma activate_inv msg s' : ActivateCoreSlot econ height msg s = (s', Ok tt) → core_inv econ p s'.
Proof using Hi.
  unfold ActivateCoreSlot, activeCount. intros H. start Hi H. simpl in *. rewrite Hid.
  eapply inv_activate; [exact Hi | eassumption | .. | split; reflexivity]; try done.
  - by eapply status_ok.
  - intros He. rewrite He in *. naive_solver.
  - intros He. rewrite He in *. naive_solver.
Qed.

Lemma inactivate_inv msg s' : InactivateCoreSlot height msg s = (s', Ok tt) → core_inv econ p s'.
Proof using Hi.
  unfold InactivateCoreSlot, activeCount. intros H. start Hi H. simpl in *.
  match goal with H : cancelRotationAndEmit _ _ = _ |- _ => apply cancel_Ok in H as -> end.
  simpl. rewrite Hid.
  pose proof (pb_min _ (ci_bounds _ _ _ Hi)).
  eapply inv_leave; [exact Hi | eassumption | .. | split; reflexivity]; try done.
  - by eapply status_ok.
  - intros He. rewrite He in *. naive_solver.
  - intros _. unfold active_size. lia.
Qed.

Lemma suspend_inv msg s' : SuspendCoreSlot height msg s = (s', Ok tt) → core_inv econ p s'.
Proof using Hi.
  unfold SuspendCoreSlot, activeCount. intros H. minv.
  assert (Status x3 = SLOT_STATUS_ACTIVE → 2 ≤ active_size s) as Hcount.
  { intros Ha. rewrite (bool_decide_eq_true_2 (Status x3 = _)) in H3 by done. minv. zify_bool.
    unfold active_size. lia. }
  match goal with H : (if ?b then _ else _) s = (?t, Ok tt) |- _ =>
    assert (t = s) as -> by (destruct b; minv; done) end.
  start Hi H. simpl in *.
  match goal with H : cancelRotationAndEmit _ _ = _ |- _ => apply cancel_Ok in H as -> end.
  simpl. rewrite Hid.
  eapply inv_leave; [exact Hi | eassumption | .. | split; reflexivity]; try done.
  - by eapply status_ok.
  - intros He. naive_solver.
  - intros (x & Hx & Ha). apply Hcount. congruence.
Qed.

Lemma remove_inv msg s' : RemoveCoreSlot height msg s = (s', Ok tt) → core_inv econ p s'.
Proof using Hi.
  unfold RemoveCoreSlot. intros H. minv.
  match goal with H : consensusKey _ = Ok ?k |- _ => destruct k as [key addr] end.
  start Hi H. simpl in *.
  match type of Hs with _ = Some ?x => assert (Cs_Rotations s !! SlotId x = None) as Hnone end.
  { rewrite Hid. eapply inactive_no_rotation; [exact Hi | done | naive_solver]. }
  match goal with H : cancelRotationAndEmit _ _ = _ |- _ => apply cancel_Ok in H as -> end.
  unfold released_keys. simpl. rewrite Hnone, (delete_id (Cs_Rotations s)) by done. rewrite Hid.
  eapply inv_remove; [exact Hi | eassumption | .. | split; reflexivity]; try done.
  - by eapply status_ok.
  - naive_solver.
  - naive_solver.
  - apply key_of_Some. eauto.
Qed.

(** The counter names a free identifier. *)
Lemma nextSlotID_Ok id : nextSlotID s = Ok id →
  Cs_NextSlotID s = Some id ∧ 0 < id ≤ MaxUint64.
Proof using Hi.
  unfold nextSlotID. intros H. minv.
  destruct (ci_next _ _ _ Hi) as (n & Hn & Hr & _). rewrite Hn in H. simpl in H.
  injection H as ->. done.
Qed.

Lemma register_inv msg s' id : RegisterCoreSlot econ height msg s = (s', Ok id) → core_inv econ p s'.
Proof using Hi.
  unfold RegisterCoreSlot, writeInitialPolicy. intros H. minv.
  destruct (RegCS_InitialSelectionPolicy msg) as [policy|]; [|done]. minv.
  match goal with H : ensureConsensusAvailable _ _ _ = (_, Ok ?k) |- _ =>
    destruct k as [key addr]; apply ensure_Ok in H as (Hkey & Hfree & _ & ->) end.
  match goal with H : nextSlotID _ = Ok _ |- _ => apply nextSlotID_Ok in H as [Hn Hr] end.
  start Hi H. match goal with H : AddUint64 _ 1 = Ok _ |- _ =>
    apply AddUint64_Ok in H as [-> Hmax]; [|widths; lia..] end.
  simpl in *.
  eapply inv_register; [exact Hi | exact Hn | .. | split; reflexivity]; try done.
  - split; simpl; try done; try lia;
      by match goal with H : _ econ ?a = Ok _ |- is_ok (_ econ ?a) = _ => rewrite H end.
  - by apply eq_None_not_Some.
Qed.

Lemma rotate_inv msg s' : RotateConsensusKey height msg s = (s', Ok tt) → core_inv econ p s'.
Proof using Hi.
  unfold RotateConsensusKey. intros H. minv.
  match goal with H : consensusKey _ = Ok ?k |- _ => destruct k as [old addr] end. minv.
  match goal with H : ensureConsensusAvailable _ _ _ = (_, Ok ?k) |- _ =>
    destruct k as [new addr']; apply ensure_Ok in H as (Hkey & Hfree & _ & ->) end.
  start Hi H. rewrite Hid in *.
  match goal with H : ¬ is_Some (Cs_Rotations s !! _) |- _ =>
    apply eq_None_not_Some in H as Hnone end.
  match goal with H : context [bool_decide (Status ?x = SLOT_STATUS_ACTIVE)] |- _ =>
    destruct (decide (Status x = SLOT_STATUS_ACTIVE)) as [Ha|Ha];
    [rewrite bool_decide_eq_true_2 in H by done | rewrite bool_decide_eq_false_2 in H by done]
  end; minv; simpl in *.
  - by eapply inv_stage; [exact Hi | exact Hs | exact Ha | exact Hnone | .. | split; reflexivity].
  - rewrite Hid. eapply inv_rekey;
      [exact Hi | exact Hs | .. | split; reflexivity]; simpl; try done.
    + by destruct Hok.
    + apply key_of_Some. eauto.
Qed.

Lemma params_inv msg s' :
  message_typed (CParams msg) → UpdateCoreSlotParams msg s = (s', Ok tt) →
  ∃ q, UP_Params msg = Some q ∧ core_inv econ q s'.
Proof using Hi.
  unfold UpdateCoreSlotParams, activeCount. destruct msg as [auth [q|]]; simpl; [|done].
  intros [Hmin _] H. start Hi H. exists q. split; [done|]. apply inv_params with p; [done| |].
  - by apply Validate_params.
  - pose proof (ci_count _ _ _ Hi) as Hc. unfold active_size in Hc.
    match goal with H : _ && _ = false |- _ => apply andb_false_iff in H as [H|H]; minv; zify_bool end;
      lia.
Qed.

Lemma nominate_inv msg s' : NominateAuthority econ height msg s = (s', Ok tt) → core_inv econ p s'.
Proof using Hi. unfold NominateAuthority. intros H. start Hi H. by destruct Hi. Qed.

Lemma cancel_inv msg s' : CancelAuthorityNomination msg s = (s', Ok tt) → core_inv econ p s'.
Proof using Hi. unfold CancelAuthorityNomination. intros H. start Hi H. by destruct Hi. Qed.

Lemma setHolder_bounds role addr :
  params_bounds (setHolder p role addr) ∧
  SlotVotingPower (setHolder p role addr) = SlotVotingPower p.
Proof using Hi.
  pose proof (ci_bounds _ _ _ Hi) as []. unfold setHolder. by destruct (_ =? _).
Qed.

Lemma accept_inv msg s' :
  AcceptAuthority econ msg s = (s', Ok tt) →
  core_inv econ (setHolder p (AA_Role msg) (AA_Nominee msg)) s'.
Proof using Hi.
  unfold AcceptAuthority. intros H. start Hi H.
  destruct (setHolder_bounds (AA_Role msg) (AA_Nominee msg)) as [Hb Hp].
  pose proof (inv_params _ _ _ _ Hi Hb Hp) as Hi'. by destruct Hi'.
Qed.
End preservation.

Lemma handle_inv p m s s' :
  message_typed m → core_inv econ p s → handle m s = (s', Ok tt) → ∃ q, core_inv econ q s'.
Proof.
  intros Ht Hi H. destruct m as [g|g|g|g|g|g|g|g|g|g|g|g|g|g]; simpl in H.
  - minv. exists p. by eapply register_inv.
  - exists p. by eapply activate_inv.
  - exists p. by eapply inactivate_inv.
  - exists p. by eapply suspend_inv.
  - exists p. by eapply remove_inv.
  - exists p. by eapply rotate_inv.
  - exists p. by eapply payout_inv.
  - exists p. by eapply metadata_inv.
  - exists p. by eapply settlement_inv.
  - minv. exists p. by eapply selection_inv.
  - destruct (params_inv p s Hi g s' Ht H) as (q & _ & Hq). by exists q.
  - exists p. by eapply nominate_inv.
  - eexists. by eapply accept_inv.
  - exists p. by eapply cancel_inv.
Qed.

Lemma deliver_inv p m s s' r :
  message_typed m → core_inv econ p s → coreslot_deliver m s = (s', r) → ∃ q, core_inv econ q s'.
Proof.
  intros Ht Hi H. destruct r as [[]|e].
  - exact (handle_inv p m s s' Ht Hi (proj1 (cached_Ok _ _ _ _) H)).
  - apply cached_Err in H as ->. by exists p.
Qed.
End messages.
