(* ===== verification/CoreSlotValidators.v ===== *)
(** * x/coreslot: what end block returns to CometBFT

    In a state that satisfies the invariant [EndBlock] always succeeds; applying
    its updates to the validator set applied last gives exactly the active
    slots, each address at most once, and the set is never empty. *)
From S2P Require Import Prelude Checked SdkMath Bounds EconomicAddress RewardsTypes.
From S2P Require Import Collections CoreSlotTypes CoreSlotState CoreSlot CoreSlotMsgs.
From S2P Require Import CoreSlotEndBlock CoreSlotInvariant CoreSlotLifecycle.
From Stdlib Require Import String.
Local Open Scope Z_scope.

(** How CometBFT reads an update: power zero removes the validator. *)
Definition apply_update {PK : PubKeyCodec} (m : gmap string Z) (u : keyedUpdate) : gmap string Z :=
  if ku_power u =? 0 then delete (ku_key u) m else <[ku_key u := ku_power u]> m.

Definition powers (m : gmap string LastAppliedValidator) : gmap string Z := LAV_Power <$> m.

(** The power an address must be told, if it has to be told one. *)
Definition change_for (desired last : gmap string LastAppliedValidator) (key : string) : option Z :=
  match desired !! key, last !! key with
  | Some next, Some old =>
      if LAV_Power next =? LAV_Power old then None else Some (LAV_Power next)
  | Some next, None => Some (LAV_Power next)
  | None, Some _ => Some 0
  | None, None => None
  end.

Section validators.
Context {BE : Bech32} {PK : PubKeyCodec} (econ : Validator) (height : Z).
Implicit Types (s : CoreSlotState) (p : CoreSlotParams) (slot : CoreSlot).

(** The update is for the address the key names. *)
Definition names_key (key : string) (u : keyedUpdate) : Prop :=
  ku_key u = key ∧ VU_Power (ku_update u) = ku_power u ∧
  ∃ bytes, ToCmtProtoPublicKey bytes = Ok (VU_PubKey (ku_update u)) ∧
    fmtHex (Address bytes) = key.

(** ** The active rows *)
Lemma active_rows_run s ids acc :
  (∀ id, id ∈ ids → is_active s id) →
  fold_m (λ slots id,
    slot ← wrap CsInvalidGenesis (coll_get (Cs_Slots s !! id));
    fail_if (bool_decide (Status slot ≠ SLOT_STATUS_ACTIVE)) CsInvalidTransition ;;
    mret (slots ++ [slot])) ids acc = Ok (acc ++ omap (λ id, Cs_Slots s !! id) ids).
Proof.
  revert acc. induction ids as [|id ids IH]; intros acc H; simpl; [by rewrite app_nil_r|].
  destruct (H id ltac:(left)) as (slot & Hs & Ha). rewrite Hs. simpl.
  rewrite bool_decide_eq_false_2 by (by intros ?). simpl.
  rewrite IH by (intros; apply H; by right). by rewrite <- app_assoc.
Qed.

Lemma ActiveSlotRows_spec p s :
  core_inv econ p s →
  ∃ rows, ActiveSlotRows s = Ok rows ∧ NoDup rows ∧
    (∀ slot, slot ∈ rows ↔ Cs_Slots s !! SlotId slot = Some slot ∧
       Status slot = SLOT_STATUS_ACTIVE) ∧
    NoDup (SlotId <$> rows) ∧ List.length rows = size (Cs_ActiveSlots s).
Proof.
  intros Hi. unfold ActiveSlotRows, activeSlotIDs. simpl.
  set (ids := merge_sort Z.le (elements (Cs_ActiveSlots s))).
  assert (ids ≡ₚ elements (Cs_ActiveSlots s)) as Hperm by apply merge_sort_Permutation.
  assert (∀ id, id ∈ ids ↔ is_active s id) as Hin.
  { intros id. by rewrite Hperm, elem_of_elements, (ci_active _ _ _ Hi). }
  rewrite active_rows_run by (intros; by apply Hin). simpl.
  assert (NoDup ids) as Hnd by (rewrite Hperm; apply NoDup_elements).
  assert (∀ l : list Z, (∀ id, id ∈ l → is_active s id) →
    SlotId <$> omap (λ id, Cs_Slots s !! id) l = l) as Hids.
  { induction l as [|id l IH]; intros Hl; [done|].
    destruct (Hl id ltac:(left)) as (slot & Hs & _). cbn. rewrite Hs. cbn.
    rewrite IH by (intros; apply Hl; by right). by rewrite (so_id _ _ _ _ (ci_slots _ _ _ Hi id slot Hs)). }
  specialize (Hids ids (λ id H, proj1 (Hin id) H)).
  eexists. split; [done|]. split_and!.
  - apply (NoDup_fmap_1 SlotId). by rewrite Hids.
  - intros slot. rewrite list_elem_of_omap. split.
    + intros (id & Hid & Hs). pose proof (so_id _ _ _ _ (ci_slots _ _ _ Hi id slot Hs)) as <-.
      split; [done|]. apply Hin in Hid as (x & Hx & Ha). congruence.
    + intros [Hs Ha]. exists (SlotId slot). split; [|done]. apply Hin. by exists slot.
  - by rewrite Hids.
  - rewrite <- (length_fmap SlotId), Hids, Hperm. done.
Qed.

(** ** The desired set *)
Definition applied_for slot : LastAppliedValidator := {|
  LAV_SlotId := SlotId slot;
  LAV_ConsensusPubkey := ConsensusPubkey slot;
  LAV_Power := ConsensusPower slot |}.

Lemma desired_step_run acc slot key :
  key_of (ConsensusPubkey slot) = Some key → acc !! key = None →
  desired_step acc slot = Ok (<[key := applied_for slot]> acc).
Proof. intros (addr & Hck)%key_of_Some Hfree. unfold desired_step. rewrite Hck. simpl. by rewrite Hfree. Qed.

Lemma desired_run rows acc :
  (∀ slot, slot ∈ rows → ∃ key, key_of (ConsensusPubkey slot) = Some key ∧ acc !! key = None) →
  (∀ a b, a ∈ rows → b ∈ rows → key_of (ConsensusPubkey a) = key_of (ConsensusPubkey b) → a = b) →
  NoDup rows →
  ∃ desired, fold_m desired_step rows acc = Ok desired ∧
    (∀ key v, desired !! key = Some v ↔ acc !! key = Some v ∨
      ∃ slot, slot ∈ rows ∧ key_of (ConsensusPubkey slot) = Some key ∧ v = applied_for slot) ∧
    size desired = (size acc + List.length rows)%nat.
Proof.
  revert acc. induction rows as [|slot rows IH]; intros acc Hk Hinj Hnd.
  { exists acc. split_and!; [done | set_solver | simpl; lia]. }
  apply NoDup_cons in Hnd as [Hout Hnd].
  destruct (Hk slot ltac:(left)) as (key & Hkey & Hfree).
  cbn [fold_m]. rewrite (desired_step_run acc slot key) by done. cbn [mbind res_bind].
  destruct (IH (<[key := applied_for slot]> acc)) as (desired & -> & Hd & Hsz).
  - intros x Hx. destruct (Hk x ltac:(by right)) as (k & Hxk & Hxn). exists k. split; [done|].
    rewrite lookup_insert_ne; [done|]. intros ->. apply Hout.
    rewrite (Hinj slot x ltac:(left) ltac:(by right)); [done | congruence].
  - intros a b Ha Hb. apply Hinj; by right.
  - done.
  - exists desired. split; [done|]. split; [|rewrite Hsz, map_size_insert_None by done; simpl; lia].
    intros k v. rewrite Hd, lookup_insert_Some.
    setoid_rewrite elem_of_cons. split.
    + intros [[[<- <-]|[_ H]]|(x & Hx & H)]; [|by left|]; right; eauto.
    + intros [H|(x & [->|Hx] & Hxk & ->)].
      * left. right. split; [congruence | done].
      * left. left. split; congruence.
      * right. eauto.
Qed.

(** ** The difference *)
Lemma validatorUpdate_run any key power :
  key_of any = Some key →
  ∃ u, validatorUpdate any power = Ok u ∧ VU_Power u = power ∧
    ∃ bytes, ToCmtProtoPublicKey bytes = Ok (VU_PubKey u) ∧ fmtHex (Address bytes) = key.
Proof.
  intros (addr & Hck)%key_of_Some. unfold consensusKey in Hck. minv.
  unfold validatorUpdate. rewrite H. simpl.
  assert (String.length x = 32%nat) as Hlen.
  { unfold decodePubKey in H. destruct any as [any|]; [|done]. minv.
    destruct (Unmarshal _); [|done]. minv.
    match goal with H : bool_decide (String.length _ ≠ _) = false |- _ =>
      apply bool_decide_eq_false_1 in H end.
    unfold PubKeySize in *. lia. }
  destruct (ToCmtProtoPublicKey_total x Hlen) as [pk Hpk]. rewrite Hpk. simpl.
  eexists. split_and!; [done..|]. by exists x.
Qed.

Lemma diff_key_run desired last keyed key :
  (∀ v, desired !! key = Some v → key_of (LAV_ConsensusPubkey v) = Some key) →
  (∀ v, last !! key = Some v → key_of (LAV_ConsensusPubkey v) = Some key) →
  match change_for desired last key with
  | None => diff_key desired last keyed key = Ok keyed
  | Some power => ∃ u, diff_key desired last keyed key = Ok (keyed ++ [u]) ∧
      names_key key u ∧ ku_power u = power
  end.
Proof.
  intros Hd Hl. unfold change_for, diff_key.
  destruct (desired !! key) as [next|]; destruct (last !! key) as [old|]; try done.
  - destruct (_ =? _) eqn:E; [done|].
    destruct (validatorUpdate_run _ key (LAV_Power next) (Hd _ eq_refl)) as (u & Hu & ? & ?).
    rewrite Hu. simpl. eexists. split; [done|]. by split_and!.
  - destruct (validatorUpdate_run _ key (LAV_Power next) (Hd _ eq_refl)) as (u & Hu & ? & ?).
    rewrite Hu. simpl. eexists. split; [done|]. by split_and!.
  - destruct (validatorUpdate_run _ key 0 (Hl _ eq_refl)) as (u & Hu & ? & ?).
    rewrite Hu. simpl. eexists. split; [done|]. by split_and!.
Qed.

Lemma diff_run desired last keys acc :
  (∀ key v, desired !! key = Some v → key_of (LAV_ConsensusPubkey v) = Some key) →
  (∀ key v, last !! key = Some v → key_of (LAV_ConsensusPubkey v) = Some key) →
  NoDup keys →
  ∃ new, fold_m (diff_key desired last) keys acc = Ok (acc ++ new) ∧
    NoDup (ku_key <$> new) ∧
    (∀ u, u ∈ new → names_key (ku_key u) u) ∧
    (∀ key power, (∃ u, u ∈ new ∧ ku_key u = key ∧ ku_power u = power) ↔
       key ∈ keys ∧ change_for desired last key = Some power).
Proof.
  intros Hd Hl. revert acc. induction keys as [|key keys IH]; intros acc Hnd; cbn [fold_m].
  { exists []. rewrite app_nil_r. split_and!; [done | constructor | set_solver | set_solver]. }
  apply NoDup_cons in Hnd as [Hout Hnd].
  pose proof (diff_key_run desired last acc key (Hd key) (Hl key)) as Hrun.
  destruct (change_for desired last key) as [power|] eqn:Ec.
  - destruct Hrun as (u & -> & Hn & Hp). cbn [mbind res_bind].
    destruct (IH (acc ++ [u]) Hnd) as (new & -> & Hnew & Hname & Hin).
    exists (u :: new). rewrite <- app_assoc. pose proof Hn as (Hk & _). split_and!; [done | | |].
    + rewrite fmap_cons. constructor; [|done]. rewrite Hk.
      intros (u' & Hu' & Hin')%list_elem_of_fmap.
      assert (∃ x, x ∈ new ∧ ku_key x = key ∧ ku_power x = ku_power u') as Hx by by exists u'.
      apply Hin in Hx as [Hx _]. done.
    + intros u' [->|Hu']%elem_of_cons; [by rewrite Hk | by apply Hname].
    + intros k pw. specialize (Hin k pw). setoid_rewrite elem_of_cons. split.
      * intros (u' & [->|Hu'] & Hk' & Hp'); [split; [left|]; congruence|].
        destruct (proj1 Hin) as [? ?]; [by exists u' |]. auto.
      * intros [[->|Hk'] Hc]; [exists u; split_and!; [by left | done | congruence]|].
        destruct (proj2 Hin) as (u' & ? & ?); [done|]. exists u'. auto.
  - rewrite Hrun. cbn [mbind res_bind].
    destruct (IH acc Hnd) as (new & -> & Hnew & Hname & Hin).
    exists new. split_and!; [done..|]. intros k pw. rewrite Hin. rewrite elem_of_cons.
    split; [naive_solver|]. intros [[->|Hk] Hc]; [congruence | done].
Qed.

Lemma adjacent_distinct (l : list keyedUpdate) : NoDup (ku_key <$> l) → adjacentDuplicate l = false.
Proof.
  induction l as [|a [|b l] IH]; intros Hnd; [done..|].
  rewrite fmap_cons in Hnd. apply NoDup_cons in Hnd as [Hout Hnd].
  change (bool_decide (ku_key b = ku_key a) || adjacentDuplicate (b :: l) = false).
  rewrite IH by done. rewrite bool_decide_eq_false_2; [done|].
  intros He. apply Hout. rewrite fmap_cons, He. by left.
Qed.

(** ** Applying the updates *)
Lemma apply_lookup (l : list keyedUpdate) (m : gmap string Z) key :
  NoDup (ku_key <$> l) →
  (∀ u, u ∈ l → ku_key u = key →
     foldl apply_update m l !! key = if ku_power u =? 0 then None else Some (ku_power u)) ∧
  ((∀ u, u ∈ l → ku_key u ≠ key) → foldl apply_update m l !! key = m !! key).
Proof.
  revert m. induction l as [|a l IH]; intros m Hnd; simpl; [set_solver|].
  rewrite fmap_cons in Hnd. apply NoDup_cons in Hnd as [Hout Hnd].
  destruct (IH (apply_update m a) Hnd) as [H1 H2]. split.
  - intros u [->|Hu]%elem_of_cons Hk; [|by apply H1]. rewrite H2.
    + unfold apply_update. rewrite Hk. destruct (_ =? _).
      * by rewrite lookup_delete_eq.
      * by rewrite lookup_insert_eq.
    + intros u' Hu' He. apply Hout. apply list_elem_of_fmap. exists u'. split; [congruence | done].
  - intros Hne. rewrite H2 by (intros; apply Hne; by right).
    unfold apply_update. specialize (Hne a ltac:(left)).
    destruct (_ =? _); [by rewrite lookup_delete_ne | by rewrite lookup_insert_ne].
Qed.

Lemma apply_changes desired last (l : list keyedUpdate) :
  (∀ key v, desired !! key = Some v → 0 < LAV_Power v) →
  NoDup (ku_key <$> l) →
  (∀ key power, (∃ u, u ∈ l ∧ ku_key u = key ∧ ku_power u = power) ↔
     change_for desired last key = Some power) →
  foldl apply_update (powers last) l = powers desired.
Proof.
  intros Hpos Hnd Hin. apply map_eq. intros key.
  destruct (apply_lookup l (powers last) key Hnd) as [H1 H2].
  destruct (change_for desired last key) as [power|] eqn:Ec.
  - destruct (proj2 (Hin key power) Ec) as (u & Hu & Hk & Hp). rewrite (H1 u Hu Hk), Hp.
    unfold powers. rewrite lookup_fmap. unfold change_for in Ec. specialize (Hpos key).
    destruct (desired !! key) as [next|]; simpl.
    + specialize (Hpos next eq_refl).
      assert (power = LAV_Power next) as -> by
        (destruct (last !! key); [destruct (_ =? _); [done|]|]; congruence).
      destruct (Z.eqb_spec (LAV_Power next) 0); [lia | done].
    + destruct (last !! key); [|done]. by injection Ec as <-.
  - rewrite H2.
    + unfold powers. rewrite !lookup_fmap. unfold change_for in Ec.
      destruct (desired !! key) as [next|], (last !! key) as [old|]; simpl; try done.
      destruct (Z.eqb_spec (LAV_Power next) (LAV_Power old)); congruence.
    + intros u Hu Hk. assert (change_for desired last key = Some (ku_power u)); [|congruence].
      apply Hin. by exists u.
Qed.

Lemma diffAndPersist_spec p s :
  core_inv econ p s →
  ∃ desired keyed,
    diffAndPersist s = (s <| Cs_LastApplied := desired |>, Ok (ku_update <$> keyed)) ∧
    core_inv econ p (s <| Cs_LastApplied := desired |>) ∧
    StronglySorted keyed_le keyed ∧ NoDup (ku_key <$> keyed) ∧
    (∀ u, u ∈ keyed → names_key (ku_key u) u) ∧
    foldl apply_update (powers (Cs_LastApplied s)) keyed = powers desired ∧
    (∀ key v, desired !! key = Some v ↔ ∃ id slot, Cs_Slots s !! id = Some slot ∧
       Status slot = SLOT_STATUS_ACTIVE ∧ key_of (ConsensusPubkey slot) = Some key ∧
       v = applied_for slot) ∧
    size desired = size (Cs_ActiveSlots s) ∧
    (∀ key power, (∃ u, u ∈ keyed ∧ ku_key u = key ∧ ku_power u = power) ↔
       change_for desired (Cs_LastApplied s) key = Some power).
Proof.
  intros Hi. destruct (ActiveSlotRows_spec p s Hi) as (rows & Hrows & Hnd & Hin & _ & Hlen).
  destruct (desired_run rows ∅) as (desired & Hrun & Hd & Hsz).
  { intros slot [Hs _]%Hin. destruct (so_key _ _ _ _ (ci_slots _ _ _ Hi _ _ Hs)) as [key Hk].
    exists key. by rewrite lookup_empty. }
  { intros a b [Ha Haa]%Hin [Hb Hba]%Hin Hk.
    destruct (so_key _ _ _ _ (ci_slots _ _ _ Hi _ _ Ha)) as [key Hka].
    assert (SlotId a = SlotId b) as He; [|congruence].
    apply (owns_unique econ p s Hi _ _ key); left.
    - exists a. rewrite Haa. done.
    - exists b. rewrite Hba, <- Hk. done. }
  { done. }
  setoid_rewrite lookup_empty in Hd.
  assert (∀ key v, desired !! key = Some v ↔ ∃ id slot, Cs_Slots s !! id = Some slot ∧
    Status slot = SLOT_STATUS_ACTIVE ∧ key_of (ConsensusPubkey slot) = Some key ∧
    v = applied_for slot) as Hdes.
  { intros key v. rewrite Hd. split.
    - intros [?|(slot & [Hs Ha]%Hin & Hk & ->)]; [done|]. by exists (SlotId slot), slot.
    - intros (id & slot & Hs & Ha & Hk & ->). right. exists slot. split; [|done].
      apply Hin. by rewrite (so_id _ _ _ _ (ci_slots _ _ _ Hi _ _ Hs)). }
  assert (∀ key v, desired !! key = Some v → key_of (LAV_ConsensusPubkey v) = Some key) as Hdk.
  { intros key v (id & slot & _ & _ & Hk & ->)%Hdes. done. }
  destruct (diff_run desired (Cs_LastApplied s)
    (elements (dom (Cs_LastApplied s) ∪ dom desired)) [] Hdk (ci_last _ _ _ Hi))
    as (new & Hdiff & Hnew & Hname & Hch); [apply NoDup_elements|].
  pose proof (merge_sort_Permutation keyed_le new) as Hperm.
  set (keyed := merge_sort keyed_le new) in *.
  assert (∀ key power, (∃ u, u ∈ keyed ∧ ku_key u = key ∧ ku_power u = power) ↔
    change_for desired (Cs_LastApplied s) key = Some power) as Hchange.
  { intros key power. setoid_rewrite Hperm. rewrite Hch. split; [by intros [_ ?]|].
    intros Hc. split; [|done]. rewrite elem_of_elements, elem_of_union, !elem_of_dom.
    unfold change_for in Hc.
    destruct (desired !! key), (Cs_LastApplied s !! key); eauto; done. }
  assert (NoDup (ku_key <$> keyed)) as Hkd by by rewrite Hperm.
  exists desired, keyed. split_and!.
  - unfold diffAndPersist, desiredValidators, reads, lift, gets.
    rewrite (M_bind_run _ _ _ s rows) by by rewrite Hrows.
    rewrite (M_bind_run _ _ _ s desired) by by rewrite Hrun.
    rewrite (M_bind_run _ _ _ s (Cs_LastApplied s)) by done.
    rewrite (M_bind_run _ _ _ s new) by by rewrite Hdiff.
    fold keyed. rewrite adjacent_distinct by done.
    rewrite (M_bind_run _ _ _ s tt) by done.
    unfold modify. erewrite M_bind_run by done.
    rewrite map_difference_diag, (right_id_L ∅ (∪)). done.
  - by apply inv_last.
  - apply StronglySorted_merge_sort.
    + intros a b c. apply str_le_trans.
    + intros a b. apply str_le_total.
  - done.
  - intros u Hu. apply Hname. by rewrite <- Hperm.
  - apply apply_changes; [|done|].
    + intros key v (id & slot & Hs & Ha & _ & ->)%Hdes. simpl.
      rewrite (so_power _ _ _ _ (ci_slots _ _ _ Hi _ _ Hs)), decide_True by done.
      apply (pb_power _ (ci_bounds _ _ _ Hi)).
    + done.
  - done.
  - rewrite Hsz, map_size_empty. lia.
  - done.
Qed.

(** ** Due rotations *)

(** The record of a slot whose staged key took effect. *)
Definition rekeyed slot (r : PendingKeyRotation) : CoreSlot :=
  slot <| ConsensusPubkey := PKR_NewPubkey r |> <| UpdatedHeight := height |>.

(** What applying some rotations may change. *)
Record rotates s s' (due : gset Z) : Prop := {
  ro_rotations : Cs_Rotations s' = base.filter (λ kv, fst kv ∉ due) (Cs_Rotations s);
  ro_slots : ∀ id, Cs_Slots s' !! id =
    (slot ← Cs_Slots s !! id;
     if decide (id ∈ due) then r ← Cs_Rotations s !! id; Some (rekeyed slot r) else Some slot);
  ro_last : Cs_LastApplied s' = Cs_LastApplied s;
  ro_active : Cs_ActiveSlots s' = Cs_ActiveSlots s;
  ro_policies : Cs_SelectionPolicies s' = Cs_SelectionPolicies s;
  ro_starts : Cs_PolicyStarts s' = Cs_PolicyStarts s
}.

Lemma applyRotation_run p s id r :
  core_inv econ p s → Cs_Rotations s !! id = Some r →
  ∃ s' slot, applyRotation height p r s = (s', Ok tt) ∧ core_inv econ p s' ∧
    Cs_Slots s !! id = Some slot ∧
    Cs_Rotations s' = delete id (Cs_Rotations s) ∧
    Cs_Slots s' = <[id := rekeyed slot r]> (Cs_Slots s) ∧
    Cs_LastApplied s' = Cs_LastApplied s ∧ Cs_ActiveSlots s' = Cs_ActiveSlots s ∧
    Cs_SelectionPolicies s' = Cs_SelectionPolicies s ∧ Cs_PolicyStarts s' = Cs_PolicyStarts s.
Proof.
  intros Hi Hr. destruct (ci_rotations _ _ _ Hi id r Hr)
    as (Hid & [new Hnew] & slot & Hs & Ha & Hold & Hne).
  pose proof (ci_slots _ _ _ Hi id slot Hs) as Hok.
  destruct (so_key _ _ _ _ Hok) as [old Hko].
  pose proof Hko as (oaddr & Hco)%key_of_Some. pose proof Hnew as (naddr & Hcn)%key_of_Some.
  eexists _, slot. split.
  - unfold applyRotation, reads, lift.
    rewrite (M_bind_run _ _ s s slot) by (unfold getSlot; by rewrite Hid, Hs).
    rewrite bool_decide_eq_false_2 by (intros ?; done).
    rewrite (M_bind_run _ _ s s (old, oaddr)) by by rewrite Hold, Hco.
    rewrite (M_bind_run _ _ s s (new, naddr)) by by rewrite Hcn.
    cs_writes. unfold modify. do 3 (erewrite M_bind_run by done). reflexivity.
  - split; [|rewrite Hid; simpl; rewrite (so_id _ _ _ _ Hok); by split_and!].
    rewrite Hid. simpl. rewrite (so_id _ _ _ _ Hok).
    eapply inv_apply; [exact Hi | exact Hs | exact Hr | .. | split; reflexivity]; try done.
    destruct Hok. split; simpl; try done.
Qed.

Lemma rotations_run p (due : list PendingKeyRotation) s :
  core_inv econ p s → NoDup (PKR_SlotId <$> due) →
  (∀ r, r ∈ due → Cs_Rotations s !! PKR_SlotId r = Some r) →
  ∃ s', for_each (applyRotation height p) due s = (s', Ok tt) ∧ core_inv econ p s' ∧
    rotates s s' (list_to_set (PKR_SlotId <$> due)).
Proof.
  revert s. induction due as [|r due IH]; intros s Hi Hnd Hin; cbn [for_each].
  { exists s. split; [done|]. split; [done|]. split; simpl; try done.
    - symmetry. apply map_filter_id. intros ???. set_solver.
    - intros id. destruct (Cs_Slots s !! id); simpl; [|done]. by rewrite decide_False by set_solver. }
  rewrite fmap_cons in Hnd. apply NoDup_cons in Hnd as [Hout Hnd].
  destruct (applyRotation_run p s (PKR_SlotId r) r Hi (Hin r ltac:(left)))
    as (s1 & slot & Hrun & Hi1 & Hs & Hr1 & Hs1 & Hl1 & Ha1 & Hp1 & Ht1).
  rewrite (M_bind_run _ _ _ _ _ Hrun).
  destruct (IH s1 Hi1 Hnd) as (s' & Hrun' & Hi' & Hro).
  { intros r' Hr'. rewrite Hr1, lookup_delete_ne; [apply Hin; by right|].
    intros He. apply Hout. apply list_elem_of_fmap. by exists r'. }
  exists s'. split; [done|]. split; [done|]. destruct Hro. split; try congruence.
  - rewrite ro_rotations0, Hr1. apply map_eq. intros i. apply option_eq. intros x.
    rewrite !map_lookup_filter_Some, lookup_delete_Some. set_solver.
  - intros i. rewrite ro_slots0, Hs1, Hr1. simpl. destruct (decide (i = PKR_SlotId r)) as [->|Hne].
    + rewrite lookup_insert_eq, Hs. simpl. rewrite decide_False by set_solver.
      rewrite decide_True by set_solver. by rewrite (Hin r ltac:(left)).
    + rewrite lookup_insert_ne by done. destruct (Cs_Slots s !! i); simpl; [|done].
      rewrite lookup_delete_ne by done. do 2 case_decide; try done; set_solver.
Qed.

Lemma dueRotations_spec p s :
  core_inv econ p s →
  NoDup (PKR_SlotId <$> dueRotations height s) ∧
  (∀ r, r ∈ dueRotations height s ↔
     Cs_Rotations s !! PKR_SlotId r = Some r ∧ PKR_EffectiveHeight r ≤ height).
Proof.
  intros Hi. unfold dueRotations.
  assert (∀ id r, (id, r) ∈ entries (Cs_Rotations s) → PKR_SlotId r = id) as Hid.
  { intros id r Hr%elem_of_entries. by destruct (ci_rotations _ _ _ Hi id r Hr). }
  assert (PKR_SlotId <$> (snd <$> entries (Cs_Rotations s)) = fst <$> entries (Cs_Rotations s)) as He.
  { rewrite <- list_fmap_compose. apply list_fmap_ext. intros k [id r] Hk. simpl.
    apply Hid. by eapply list_elem_of_lookup_2. }
  split.
  - rewrite merge_sort_Permutation. eapply sublist_NoDup; [|apply fmap_sublist, sublist_filter].
    rewrite He. apply entries_keys_NoDup.
  - intros r. rewrite merge_sort_Permutation, list_elem_of_filter, list_elem_of_fmap. split.
    + intros [Hh ([id x] & -> & Hx)]. simpl in *. rewrite (Hid id x Hx).
      by apply elem_of_entries in Hx.
    + intros [Hr Hh]. split; [done|]. exists (PKR_SlotId r, r). by rewrite elem_of_entries.
Qed.

(** What one end block does to a state that satisfies the invariant. *)
Record ends s s' (keyed : list keyedUpdate) p : Prop := {
  en_sorted : StronglySorted keyed_le keyed;
  en_distinct : NoDup (ku_key <$> keyed);
  en_names : ∀ u, u ∈ keyed → names_key (ku_key u) u;
  en_apply : foldl apply_update (powers (Cs_LastApplied s)) keyed = powers (Cs_LastApplied s');
  en_set : ∀ key power, powers (Cs_LastApplied s') !! key = Some power ↔
    ∃ id slot, Cs_Slots s' !! id = Some slot ∧ Status slot = SLOT_STATUS_ACTIVE ∧
      key_of (ConsensusPubkey slot) = Some key ∧ power = SlotVotingPower p;
  en_changes : ∀ key power, (∃ u, u ∈ keyed ∧ ku_key u = key ∧ ku_power u = power) ↔
    change_for (Cs_LastApplied s') (Cs_LastApplied s) key = Some power;
  en_size : size (powers (Cs_LastApplied s')) = size (Cs_ActiveSlots s);
  en_rotations : Cs_Rotations s' =
    base.filter (λ kr, height < PKR_EffectiveHeight (snd kr)) (Cs_Rotations s);
  en_slots : ∀ id, Cs_Slots s' !! id =
    (slot ← Cs_Slots s !! id;
     match Cs_Rotations s !! id with
     | Some r => if decide (PKR_EffectiveHeight r ≤ height) then Some (rekeyed slot r) else Some slot
     | None => Some slot
     end);
  en_policies : Cs_SelectionPolicies s' = Cs_SelectionPolicies s;
  en_starts : Cs_PolicyStarts s' = Cs_PolicyStarts s
}.

Lemma endblock_spec p s :
  core_inv econ p s →
  ∃ s' keyed, CoreSlotEndBlock height s = (s', Ok (ku_update <$> keyed)) ∧
    core_inv econ p s' ∧ ends s s' keyed p.
Proof.
  intros Hi. destruct (dueRotations_spec p s Hi) as [Hnd Hdue].
  destruct (rotations_run p (dueRotations height s) s Hi Hnd) as (s1 & Hrun & Hi1 & Hro).
  { intros r Hr. by apply Hdue. }
  destruct (diffAndPersist_spec p s1 Hi1)
    as (desired & keyed & Hdiff & Hi2 & Hsort & Hkd & Hname & Happ & Hdes & Hsize & Hchange).
  eexists _, keyed. split; [|split; [exact Hi2|]].
  - unfold CoreSlotEndBlock. apply cached_Ok. unfold coreSlotEndBlock, reads, gets.
    rewrite (M_bind_run _ _ s s p) by by (unfold getParams; rewrite (ci_params _ _ _ Hi)).
    rewrite (M_bind_run _ _ s s (dueRotations height s)) by done.
    rewrite (M_bind_run _ _ _ _ _ Hrun). exact Hdiff.
  - destruct Hro.
    assert (∀ id r, Cs_Rotations s !! id = Some r →
      id ∈ (list_to_set (PKR_SlotId <$> dueRotations height s) : gset Z) ↔
      PKR_EffectiveHeight r ≤ height) as Hset.
    { intros id r Hr. rewrite elem_of_list_to_set, list_elem_of_fmap.
      assert (PKR_SlotId r = id) as <- by by destruct (ci_rotations _ _ _ Hi id r Hr).
      split.
      - intros (x & Heq & [Hx Hh]%Hdue). congruence.
      - intros Hh. exists r. split; [done|]. by apply Hdue. }
    split; simpl; try done.
    + by rewrite <- Happ, ro_last0.
    + intros key power. unfold powers. rewrite lookup_fmap_Some. split.
      * intros (v & <- & (id & slot & Hs & Ha & Hk & ->)%Hdes). exists id, slot.
        split_and!; try done. simpl.
        rewrite (so_power _ _ _ _ (ci_slots _ _ _ Hi1 _ _ Hs)). by rewrite decide_True.
      * intros (id & slot & Hs & Ha & Hk & ->). exists (applied_for slot). split.
        -- simpl. rewrite (so_power _ _ _ _ (ci_slots _ _ _ Hi1 _ _ Hs)). by rewrite decide_True.
        -- apply Hdes. by exists id, slot.
    + intros key power. rewrite Hchange. by rewrite ro_last0.
    + unfold powers. rewrite map_size_fmap, Hsize. by rewrite ro_active0.
    + rewrite ro_rotations0. apply map_filter_ext. intros id r Hr. simpl.
      rewrite (Hset id r Hr). lia.
    + intros id. rewrite ro_slots0. destruct (Cs_Slots s !! id) as [slot|]; simpl; [|done].
      destruct (Cs_Rotations s !! id) as [r|] eqn:Er.
      * specialize (Hset id r Er). simpl. do 2 case_decide; naive_solver.
      * case_decide as Hin; [|done]. exfalso.
        apply elem_of_list_to_set, list_elem_of_fmap in Hin as (x & -> & [Hx _]%Hdue). congruence.
Qed.
End validators.
