(* ===== verification/CoreSlotPolicy.v ===== *)
(** * The selection-policy history of a slot

    [policy_inv]: a slot's versions are numbered from one without gaps, each is
    closed where the next begins, the seek index mirrors the rows, and updates
    after the first are at least a cooldown apart.  Every message and every end
    block keeps it, so resolving a height is a function of the history. *)
From S2P Require Import Prelude Checked SdkMath Bounds EconomicAddress RewardsTypes.
From S2P Require Import Collections CoreSlotTypes CoreSlotState CoreSlot CoreSlotMsgs.
From S2P Require Import CoreSlotInvariant CoreSlotLifecycle.
From Stdlib Require Import String.
Local Open Scope Z_scope.

Section policies.
Context {BE : Bech32} {PK : PubKeyCodec} (econ : Validator).
Implicit Types (s : CoreSlotState) (p : CoreSlotParams) (slot : CoreSlot) (id v h : Z)
  (q : SelectionPolicyVersion).

Definition version_of s id v : option SelectionPolicyVersion := Cs_SelectionPolicies s !! (id, v).

Record history_ok s h id slot : Prop := {
  ho_current : 1 ≤ CurrentSelectionPolicyVersion slot ≤ MaxUint64;
  ho_versions : ∀ v, is_Some (version_of s id v) ↔ 1 ≤ v ≤ CurrentSelectionPolicyVersion slot;
  ho_row : ∀ v q, version_of s id v = Some q →
    SPV_SlotId q = id ∧ SPV_PolicyVersion q = v ∧ 0 < SPV_ValidFromHeight q ≤ h + 1 ∧
    ValidateSelectionPolicyValues (SPV_SelectionRateBps q) (SPV_MaxSelectedParticipants q) = Ok tt;
  ho_last : ∀ q, version_of s id (CurrentSelectionPolicyVersion slot) = Some q →
    SPV_ValidUntilHeightExclusive q = 0;
  ho_next : ∀ v q q', version_of s id v = Some q → version_of s id (v + 1) = Some q' →
    SPV_ValidUntilHeightExclusive q = SPV_ValidFromHeight q' ∧
    SPV_ValidFromHeight q < SPV_ValidFromHeight q' ∧
    (2 ≤ v → SPV_ValidFromHeight q + HardMinSelectionPolicyUpdateCooldownBlocks ≤
       SPV_ValidFromHeight q');
  ho_updated : if decide (CurrentSelectionPolicyVersion slot = 1)
    then LastSelectionPolicyUpdateHeight slot = 0
    else 0 < LastSelectionPolicyUpdateHeight slot ∧
      ∀ q, version_of s id (CurrentSelectionPolicyVersion slot) = Some q →
        SPV_ValidFromHeight q = LastSelectionPolicyUpdateHeight slot + 1;
  ho_index : ∀ start v, Cs_PolicyStarts s !! (id, start) = Some v ↔
    ∃ q, version_of s id v = Some q ∧ SPV_ValidFromHeight q = start
}.

Record policy_inv h s : Prop := {
  pi_history : ∀ id slot, Cs_Slots s !! id = Some slot → history_ok s h id slot;
  pi_owner : ∀ id v, is_Some (version_of s id v) → is_Some (Cs_Slots s !! id);
  pi_start_owner : ∀ id start v, Cs_PolicyStarts s !! (id, start) = Some v →
    is_Some (Cs_Slots s !! id)
}.

Lemma policy_inv_mono h h' s : h ≤ h' → policy_inv h s → policy_inv h' s.
Proof.
  intros Hle [H1 H2 H3]. split; [|done..]. intros id slot Hs. destruct (H1 id slot Hs).
  split; try done. intros v q Hq. destruct (ho_row0 v q Hq) as (? & ? & ? & ?).
  split_and!; try done; lia.
Qed.

(** Writes that leave the history and the pointers to it alone. *)
Record policy_frame s s' : Prop := {
  pf_policies : Cs_SelectionPolicies s' = Cs_SelectionPolicies s;
  pf_starts : Cs_PolicyStarts s' = Cs_PolicyStarts s;
  pf_slots : ∀ id slot', Cs_Slots s' !! id = Some slot' → ∃ slot, Cs_Slots s !! id = Some slot ∧
    CurrentSelectionPolicyVersion slot' = CurrentSelectionPolicyVersion slot ∧
    LastSelectionPolicyUpdateHeight slot' = LastSelectionPolicyUpdateHeight slot;
  pf_kept : ∀ id, is_Some (Cs_Slots s !! id) → is_Some (Cs_Slots s' !! id)
}.

Lemma policy_inv_frame h s s' : policy_frame s s' → policy_inv h s → policy_inv h s'.
Proof.
  intros [Hp Hst Hsl Hk] [H1 H2 H3].
  assert (∀ id v, version_of s' id v = version_of s id v) as Hv
    by (intros; unfold version_of; by rewrite Hp).
  split.
  - intros id slot' Hs'. destruct (Hsl id slot' Hs') as (slot & Hs & Hc & Hl).
    destruct (H1 id slot Hs). split; rewrite ?Hc, ?Hl, ?Hst.
    + done.
    + intros v. by rewrite Hv.
    + intros v q. rewrite Hv. apply ho_row0.
    + intros q. rewrite Hv. apply ho_last0.
    + intros v q q'. rewrite !Hv. apply ho_next0.
    + case_decide; [done|]. destruct ho_updated0. split; [done|]. intros q. by rewrite Hv; auto.
    + intros start v. rewrite ho_index0. by setoid_rewrite Hv.
  - intros id v. rewrite Hv. intros H. apply Hk. by eapply H2.
  - intros id start v. rewrite Hst. intros H. apply Hk. by eapply H3.
Qed.

(** A row written in place, with its policy pointer kept. *)
Lemma frame_insert s s' id slot slot' :
  Cs_Slots s !! id = Some slot → Cs_Slots s' = <[id := slot']> (Cs_Slots s) →
  CurrentSelectionPolicyVersion slot' = CurrentSelectionPolicyVersion slot →
  LastSelectionPolicyUpdateHeight slot' = LastSelectionPolicyUpdateHeight slot →
  Cs_SelectionPolicies s' = Cs_SelectionPolicies s → Cs_PolicyStarts s' = Cs_PolicyStarts s →
  policy_frame s s'.
Proof.
  intros Hs Hs' Hc Hl Hp Hst. split; try done.
  - intros i x. rewrite Hs', lookup_insert_Some. intros [[<- <-]|[_ Hx]]; eauto.
  - intros i Hi. rewrite Hs', lookup_insert_is_Some'. by right.
Qed.

Lemma frame_same s s' :
  Cs_Slots s' = Cs_Slots s → Cs_SelectionPolicies s' = Cs_SelectionPolicies s →
  Cs_PolicyStarts s' = Cs_PolicyStarts s → policy_frame s s'.
Proof. intros Hs Hp Hst. split; try done; rewrite Hs; eauto. Qed.

(** ** Resolution *)
Section resolution.
Context h s id slot (Hpi : policy_inv h s) (Hslot : Cs_Slots s !! id = Some slot).

Lemma version_exists v : 1 ≤ v ≤ CurrentSelectionPolicyVersion slot →
  ∃ q, version_of s id v = Some q.
Proof using Hpi Hslot. intros Hv. by apply (ho_versions _ _ _ _ (pi_history _ _ Hpi id slot Hslot)). Qed.

(** Later versions start later. *)
Lemma version_order v v' q q' :
  version_of s id v = Some q → version_of s id v' = Some q' → v < v' →
  SPV_ValidUntilHeightExclusive q ≤ SPV_ValidFromHeight q' ∧
  SPV_ValidFromHeight q < SPV_ValidUntilHeightExclusive q.
Proof using Hpi Hslot.
  pose proof (pi_history _ _ Hpi id slot Hslot) as Hh. intros Hq Hq' Hlt.
  assert (∀ n : nat, ∀ q', version_of s id (v + 1 + Z.of_nat n) = Some q' →
    SPV_ValidUntilHeightExclusive q ≤ SPV_ValidFromHeight q' ∧
    SPV_ValidFromHeight q < SPV_ValidUntilHeightExclusive q) as Hn.
  { intros n. induction n as [|n IH]; intros x Hx.
    - rewrite Z.add_0_r in Hx. destruct (ho_next _ _ _ _ Hh v q x Hq Hx) as (-> & ? & _). lia.
    - destruct (version_exists (v + 1 + Z.of_nat n)) as [y Hy].
      { pose proof (proj1 (ho_versions _ _ _ _ Hh v) ltac:(eauto)).
        pose proof (proj1 (ho_versions _ _ _ _ Hh _) ltac:(eauto)). lia. }
      destruct (IH y Hy) as [H1 H2].
      replace (v + 1 + Z.of_nat (S n)) with (v + 1 + Z.of_nat n + 1) in Hx by lia.
      destruct (ho_next _ _ _ _ Hh _ y x Hy Hx) as (_ & ? & _). lia. }
  apply (Hn (Z.to_nat (v' - v - 1))). by replace (v + 1 + Z.of_nat _) with v' by lia.
Qed.

Lemma start_order v v' q q' :
  version_of s id v = Some q → version_of s id v' = Some q' → v ≤ v' →
  SPV_ValidFromHeight q ≤ SPV_ValidFromHeight q'.
Proof using Hpi Hslot.
  intros Hq Hq' Hle. destruct (decide (v = v')) as [->|]; [replace q' with q by congruence; lia|].
  destruct (version_order v v' q q' Hq Hq' ltac:(lia)). lia.
Qed.

(** The version in force at a height. *)
Definition in_force height q : Prop :=
  SPV_ValidFromHeight q ≤ height ∧
  (SPV_ValidUntilHeightExclusive q = 0 ∨ height < SPV_ValidUntilHeightExclusive q).

Lemma in_force_unique height v v' q q' :
  version_of s id v = Some q → version_of s id v' = Some q' →
  in_force height q → in_force height q' → v = v'.
Proof using Hpi Hslot.
  intros Hq Hq' [H1 H2] [H3 H4]. pose proof (pi_history _ _ Hpi id slot Hslot) as Hh.
  assert (∀ w x, version_of s id w = Some x → 0 < SPV_ValidFromHeight x) as Hpos.
  { intros w x Hx. by destruct (ho_row _ _ _ _ Hh w x Hx) as (_ & _ & [? _] & _). }
  destruct (Z.lt_trichotomy v v') as [Hlt|[->|Hlt]]; [|done|].
  - destruct (version_order v v' q q' Hq Hq' Hlt). specialize (Hpos v q Hq). lia.
  - destruct (version_order v' v q' q Hq' Hq Hlt). specialize (Hpos v' q' Hq'). lia.
Qed.

Lemma resolve_spec height :
  match seek_le height (prefix_map id (Cs_PolicyStarts s)) with
  | None => ∀ v q, version_of s id v = Some q → height < SPV_ValidFromHeight q
  | Some (start, v) => ∃ q, version_of s id v = Some q ∧ SPV_ValidFromHeight q = start ∧
      in_force height q
  end.
Proof using Hpi Hslot.
  pose proof (pi_history _ _ Hpi id slot Hslot) as Hh.
  destruct (seek_le _ _) as [[start v]|] eqn:E.
  - apply seek_le_Some in E as (Hl & Hle & Hmax). rewrite lookup_prefix_map in Hl.
    apply (ho_index _ _ _ _ Hh) in Hl as (q & Hq & <-). exists q. split_and!; [done..|].
    split; [done|]. pose proof (proj1 (ho_versions _ _ _ _ Hh v) ltac:(eauto)) as Hv.
    destruct (decide (v = CurrentSelectionPolicyVersion slot)) as [->|Hne].
    { left. by apply (ho_last _ _ _ _ Hh). }
    right. destruct (version_exists (v + 1) ltac:(lia)) as [q' Hq'].
    destruct (ho_next _ _ _ _ Hh v q q' Hq Hq') as (-> & Hlt & _).
    destruct (decide (SPV_ValidFromHeight q' ≤ height)) as [Hle'|]; [|lia].
    specialize (Hmax (SPV_ValidFromHeight q') (v + 1)). rewrite lookup_prefix_map in Hmax.
    rewrite (ho_index _ _ _ _ Hh) in Hmax. specialize (Hmax ltac:(eauto) Hle'). lia.
  - intros v q Hq. apply (proj1 (seek_le_None _ _) E _ v).
    rewrite lookup_prefix_map, (ho_index _ _ _ _ Hh). eauto.
Qed.

Lemma SelectionPolicyAtHeight_spec height :
  match SelectionPolicyAtHeight id height s with
  | Ok q => ∃ v, version_of s id v = Some q ∧ in_force height q
  | Err e => e = CsSelectionPolicyNotFound ∧
      ∀ v q, version_of s id v = Some q → height < SPV_ValidFromHeight q
  end.
Proof using Hpi Hslot.
  pose proof (resolve_spec height) as Hr. unfold SelectionPolicyAtHeight.
  destruct (seek_le _ _) as [[start v]|]; [|done].
  destruct Hr as (q & Hq & Hst & Hin). pose proof Hq as Hq'. unfold version_of in Hq'.
  rewrite Hq'. simpl.
  destruct (ho_row _ _ _ _ (pi_history _ _ Hpi id slot Hslot) v q Hq) as (Hi & Hv & _ & _).
  rewrite Hi, Hv, Hst, !Z.eqb_refl. simpl. destruct Hin as [Hle Hu].
  rewrite Z.gtb_ltb, Z.geb_leb. unfold in_force in *.
  destruct (Z.ltb_spec height start); [lia|].
  destruct (Z.eqb_spec (SPV_ValidUntilHeightExclusive q) 0),
    (Z.leb_spec (SPV_ValidUntilHeightExclusive q) height); try lia;
    simpl; exists v; rewrite Hst; auto.
Qed.
End resolution.

(** ** Every write keeps the history *)

(** A slot of its own, with its first version. *)
Lemma policy_inv_register h s s' id slot q :
  policy_inv h s → Cs_Slots s !! id = None →
  CurrentSelectionPolicyVersion slot = 1 → LastSelectionPolicyUpdateHeight slot = 0 →
  SPV_SlotId q = id → SPV_PolicyVersion q = 1 → 0 < SPV_ValidFromHeight q ≤ h + 1 →
  SPV_ValidUntilHeightExclusive q = 0 →
  ValidateSelectionPolicyValues (SPV_SelectionRateBps q) (SPV_MaxSelectedParticipants q) = Ok tt →
  Cs_Slots s' = <[id := slot]> (Cs_Slots s) →
  Cs_SelectionPolicies s' = <[(id, 1) := q]> (Cs_SelectionPolicies s) →
  Cs_PolicyStarts s' = <[(id, SPV_ValidFromHeight q) := 1]> (Cs_PolicyStarts s) →
  policy_inv h s'.
Proof.
  intros [H1 H2 H3] Hfree Hc Hl Hqi Hqv Hqf Hqu Hval Hs Hp Hst.
  assert (∀ v, version_of s id v = None) as Hnone.
  { intros v. apply eq_None_not_Some. intros Hx%H2. rewrite Hfree in Hx. by destruct Hx. }
  assert (∀ i v x, version_of s' i v = Some x ↔
    (i = id ∧ v = 1 ∧ x = q) ∨ (i ≠ id ∧ version_of s i v = Some x)) as Hv.
  { intros i v x. unfold version_of. rewrite Hp, lookup_insert_Some. split.
    - intros [[[= <- <-] <-]|[Hne Hx]]; [by left|]. right. split; [|done]. intros ->.
      specialize (Hnone v). unfold version_of in Hnone. congruence.
    - intros [(-> & -> & ->)|[Hne Hx]]; [by left | right]. split; [congruence | done]. }
  assert (∀ i start v, Cs_PolicyStarts s' !! (i, start) = Some v ↔
    (i = id ∧ start = SPV_ValidFromHeight q ∧ v = 1) ∨
    (i ≠ id ∧ Cs_PolicyStarts s !! (i, start) = Some v)) as Hw.
  { intros i start v. rewrite Hst, lookup_insert_Some. split.
    - intros [[[= <- <-] <-]|[Hne Hx]]; [by left|]. right. split; [|done]. intros ->.
      apply H3 in Hx. rewrite Hfree in Hx. by destruct Hx.
    - intros [(-> & -> & ->)|[Hne Hx]]; [by left | right]. split; [congruence | done]. }
  split.
  - intros i x. rewrite Hs, lookup_insert_Some. intros [[<- <-]|[Hne Hx]].
    + split; rewrite ?Hc, ?Hl; try done.
      * intros v. split; [intros (y & [(_ & -> & _)|[? _]]%Hv); [lia | done]|].
        intros Hv1. exists q. apply Hv. left. split_and!; [done | lia | done].
      * intros v y [(_ & -> & ->)|[? _]]%Hv; [tauto | done].
      * intros y [(_ & _ & ->)|[? _]]%Hv; done.
      * intros v y y' [(_ & -> & _)|[? _]]%Hv [(_ & ? & _)|[? _]]%Hv; try done.
      * intros start v. rewrite Hw. split.
        -- intros [(_ & -> & ->)|[? _]]; [|done]. exists q. split; [|done]. apply Hv. by left.
        -- intros (y & [(_ & -> & ->)|[? _]]%Hv & <-); [by left | done].
    + destruct (H1 i x Hx). assert (∀ v y, version_of s' i v = Some y ↔ version_of s i v = Some y) as Hvi.
      { intros v y. rewrite Hv. naive_solver. }
      split; try done.
      * intros v. rewrite <- ho_versions0. split; intros [y Hy]; exists y; by apply Hvi.
      * intros v y Hy%Hvi. by apply ho_row0.
      * intros y Hy%Hvi. by apply ho_last0.
      * intros v y y' Hy%Hvi Hy'%Hvi. by eapply ho_next0.
      * case_decide; [done|]. destruct ho_updated0. split; [done|]. intros y Hy%Hvi. auto.
      * intros start v. rewrite Hw. setoid_rewrite Hvi. rewrite <- ho_index0. naive_solver.
  - intros i v [x Hx]. rewrite Hs, lookup_insert_is_Some'. apply Hv in Hx as [(-> & _)|[_ Hx]].
    + by left.
    + right. eapply H2. by exists x.
  - intros i start v Hx. rewrite Hs, lookup_insert_is_Some'. apply Hw in Hx as [(-> & _)|[_ Hx]].
    + by left.
    + right. by eapply H3.
Qed.

(** The current version closed, and its successor opened one block later. *)
Section update.
Context h s s' id slot slot' (cur new : SelectionPolicyVersion).
Implicit Types (x y : SelectionPolicyVersion).
Abbreviation c := (CurrentSelectionPolicyVersion slot).
Abbreviation closed := (cur <| SPV_ValidUntilHeightExclusive := h + 1 |>).
Context (Hpi : policy_inv h s) (Hslot : Cs_Slots s !! id = Some slot)
  (Hcur : version_of s id c = Some cur) (Hfrom : SPV_ValidFromHeight cur ≤ h) (Hh : 0 < h)
  (Hcool : 2 ≤ c → LastSelectionPolicyUpdateHeight slot +
     HardMinSelectionPolicyUpdateCooldownBlocks ≤ h)
  (Hid : SPV_SlotId new = id) (Hver : SPV_PolicyVersion new = c + 1)
  (Hnf : SPV_ValidFromHeight new = h + 1) (Hnu : SPV_ValidUntilHeightExclusive new = 0)
  (Hval : ValidateSelectionPolicyValues (SPV_SelectionRateBps new)
     (SPV_MaxSelectedParticipants new) = Ok tt)
  (Hc' : CurrentSelectionPolicyVersion slot' = c + 1) (Hmax : c + 1 ≤ MaxUint64)
  (Hl' : LastSelectionPolicyUpdateHeight slot' = h)
  (Hslots : Cs_Slots s' = <[id := slot']> (Cs_Slots s))
  (Hpol : Cs_SelectionPolicies s' =
     <[(id, c + 1) := new]> (<[(id, c) := closed]> (Cs_SelectionPolicies s)))
  (Hst : Cs_PolicyStarts s' = <[(id, h + 1) := c + 1]> (Cs_PolicyStarts s)).

Local Lemma update_version i v x : version_of s' i v = Some x ↔
  (i = id ∧ v = c + 1 ∧ x = new) ∨ (i = id ∧ v = c ∧ x = closed) ∨
  ((i ≠ id ∨ (v ≠ c ∧ v ≠ c + 1)) ∧ version_of s i v = Some x).
Proof using All.
  unfold version_of. rewrite Hpol, !lookup_insert_Some. split.
  - intros [[[= <- <-] <-]|[Hne [[[= <- <-] <-]|[Hne' Hx]]]]; [by left | by right; left |].
    right. right. split; [|done]. destruct (decide (i = id)) as [->|]; [right | by left].
    split; congruence.
  - intros [(-> & -> & ->)|[(-> & -> & ->)|[Hne Hx]]]; [by left | |].
    + right. split; [intros [= ?]; lia | by left].
    + right. split; [intros [= ? ?]; subst; naive_solver|]. right.
      split; [intros [= ? ?]; subst; naive_solver | done].
Qed.

Local Lemma update_other i v x : i ≠ id → version_of s' i v = Some x ↔ version_of s i v = Some x.
Proof using All. intros Hne. rewrite update_version. naive_solver. Qed.

Lemma policy_inv_update : policy_inv h s'.
Proof using All.
  pose proof (pi_history _ _ Hpi id slot Hslot) as Hok.
  assert (∀ i start v, Cs_PolicyStarts s' !! (i, start) = Some v ↔
    (i = id ∧ start = h + 1 ∧ v = c + 1) ∨
    ((i ≠ id ∨ start ≠ h + 1) ∧ Cs_PolicyStarts s !! (i, start) = Some v)) as Hw.
  { intros i start v. rewrite Hst, lookup_insert_Some. split.
    - intros [[[= <- <-] <-]|[Hne Hx]]; [by left|]. right. split; [|done].
      destruct (decide (i = id)) as [->|]; [right; congruence | by left].
    - intros [(-> & -> & ->)|[Hne Hx]]; [by left | right]. split; [|done].
      intros [= ? ?]; subst; naive_solver. }
  assert (∀ v x, version_of s id v = Some x → 1 ≤ v ≤ c ∧ SPV_ValidFromHeight x ≤ h) as Hold.
  { intros v x Hx. pose proof (proj1 (ho_versions _ _ _ _ Hok v) ltac:(eauto)). split; [done|].
    pose proof (start_order h s id slot Hpi Hslot v c x cur Hx Hcur ltac:(lia)). lia. }
  destruct Hpi as [H1 H2 H3]. split.
  - intros i y. rewrite Hslots, lookup_insert_Some. intros [[<- <-]|[Hne Hy]].
    2: { destruct (H1 i y Hy). split; try done.
      + intros v. rewrite <- ho_versions0. by split; intros [x Hx]; exists x; apply update_other.
      + intros v x Hx%update_other; [|done]. by apply ho_row0.
      + intros x Hx%update_other; [|done]. by apply ho_last0.
      + intros v x x' Hx%update_other Hx'%update_other; try done. by eapply ho_next0.
      + case_decide; [done|]. destruct ho_updated0. split; [done|].
        intros x Hx%update_other; [auto | done].
      + intros start v. rewrite Hw, ho_index0. setoid_rewrite update_other; [|done].
        naive_solver. }
    pose proof (ho_current _ _ _ _ Hok) as Hc1.
    pose proof (ho_row _ _ _ _ Hok c cur Hcur) as (Hci & Hcv & Hcf & Hcval).
    split; rewrite ?Hc', ?Hl'.
    + lia.
    + intros v. split.
      * intros [x [(_ & -> & _)|[(_ & -> & _)|[_ Hx]]]%update_version]; [lia..|].
        apply Hold in Hx as [? _]. lia.
      * intros Hv. destruct (decide (v = c + 1)) as [->|].
        { exists new. apply update_version. by left. }
        destruct (decide (v = c)) as [->|].
        { exists closed. apply update_version. right. by left. }
        destruct (version_exists h s id slot ltac:(done) Hslot v ltac:(lia)) as [x Hx].
        exists x. apply update_version. right. right. auto.
    + intros v x [(_ & -> & ->)|[(_ & -> & ->)|[_ Hx]]]%update_version.
      * rewrite Hid, Hver, Hnf. split_and!; done || lia.
      * simpl. split_and!; done || lia.
      * by apply (ho_row _ _ _ _ Hok).
    + intros x [(_ & _ & ->)|[(_ & ? & _)|[[?|[_ ?]] Hx]]]%update_version; try done; lia.
    + intros v x x' Hx%update_version Hx'%update_version.
      destruct Hx' as [(_ & Hv' & ->)|[(_ & Hv' & ->)|[[?|[Hn1 Hn2]] Hx']]]; [| |done|].
      * assert (v = c) as -> by lia.
        destruct Hx as [(_ & ? & _)|[(_ & _ & ->)|[[?|[? _]] _]]]; [lia | |done|done].
        rewrite Hnf. simpl. split_and!; [done | lia|]. intros H2c. specialize (Hcool H2c).
        pose proof (ho_updated _ _ _ _ Hok) as Hu. rewrite decide_False in Hu by lia.
        destruct Hu as [_ Hu]. specialize (Hu cur Hcur). lia.
      * destruct Hx as [(_ & ? & _)|[(_ & ? & _)|[[?|[? _]] Hx]]]; [lia | lia | done|].
        rewrite <- Hv' in Hcur.
        destruct (ho_next _ _ _ _ Hok v x cur Hx Hcur) as (? & ? & ?). by simpl.
      * destruct Hx as [(_ & ? & _)|[(_ & ? & _)|[[?|[? _]] Hx]]]; [|lia|done|].
        -- apply Hold in Hx' as [? _]. lia.
        -- by eapply (ho_next _ _ _ _ Hok).
    + rewrite decide_False by lia. split; [done|].
      intros x [(_ & _ & ->)|[(_ & ? & _)|[[?|[_ ?]] Hx]]]%update_version; try done; lia.
    + intros start v. rewrite Hw. split.
      * intros [(_ & -> & ->)|[[?|Hs] Hx]]; [|done|].
        { exists new. split; [|done]. apply update_version. by left. }
        apply (ho_index _ _ _ _ Hok) in Hx as (x & Hx & <-).
        destruct (Hold v x Hx) as [Hvr _]. destruct (decide (v = c)) as [->|].
        -- exists closed. split; [apply update_version; right; by left|]. simpl. congruence.
        -- exists x. split; [|done]. apply update_version. right. right. split; [right; lia | done].
      * intros (x & [(_ & -> & ->)|[(_ & -> & ->)|[_ Hx]]]%update_version & <-).
        -- left. by rewrite Hnf.
        -- right. simpl. split; [right; lia|]. apply (ho_index _ _ _ _ Hok). by exists cur.
        -- right. destruct (Hold v x Hx) as [_ Hf]. split; [right; lia|].
           apply (ho_index _ _ _ _ Hok). by exists x.
  - intros i v [x Hx]. rewrite Hslots, lookup_insert_is_Some'.
    apply update_version in Hx as [(-> & _)|[(-> & _)|[_ Hx]]]; [by left..|].
    right. eapply H2. by exists x.
  - intros i start v Hx. rewrite Hslots, lookup_insert_is_Some'.
    apply Hw in Hx as [(-> & _)|[_ Hx]]; [by left|]. right. by eapply H3.
Qed.
End update.

(** ** What a message may do to the history *)
Inductive policy_effect h s s' : Prop :=
  | effect_none : policy_frame s s' → policy_effect h s s'
  | effect_register id slot q :
      Cs_Slots s !! id = None →
      CurrentSelectionPolicyVersion slot = 1 → LastSelectionPolicyUpdateHeight slot = 0 →
      SPV_SlotId q = id → SPV_PolicyVersion q = 1 → SPV_ValidFromHeight q = h →
      SPV_ValidUntilHeightExclusive q = 0 →
      ValidateSelectionPolicyValues (SPV_SelectionRateBps q)
        (SPV_MaxSelectedParticipants q) = Ok tt →
      Cs_Slots s' = <[id := slot]> (Cs_Slots s) →
      Cs_SelectionPolicies s' = <[(id, 1) := q]> (Cs_SelectionPolicies s) →
      Cs_PolicyStarts s' = <[(id, h) := 1]> (Cs_PolicyStarts s) →
      policy_effect h s s'
  | effect_update id slot slot' cur new :
      let c := CurrentSelectionPolicyVersion slot in
      Cs_Slots s !! id = Some slot →
      version_of s id c = Some cur → SPV_ValidFromHeight cur ≤ h →
      (2 ≤ c → LastSelectionPolicyUpdateHeight slot +
         HardMinSelectionPolicyUpdateCooldownBlocks ≤ h) →
      SPV_SlotId new = id → SPV_PolicyVersion new = c + 1 →
      SPV_ValidFromHeight new = h + 1 → SPV_ValidUntilHeightExclusive new = 0 →
      ValidateSelectionPolicyValues (SPV_SelectionRateBps new)
        (SPV_MaxSelectedParticipants new) = Ok tt →
      CurrentSelectionPolicyVersion slot' = c + 1 → c + 1 ≤ MaxUint64 →
      LastSelectionPolicyUpdateHeight slot' = h →
      Cs_Slots s' = <[id := slot']> (Cs_Slots s) →
      Cs_SelectionPolicies s' = <[(id, c + 1) := new]>
        (<[(id, c) := cur <| SPV_ValidUntilHeightExclusive := h + 1 |>]>
          (Cs_SelectionPolicies s)) →
      Cs_PolicyStarts s' = <[(id, h + 1) := c + 1]> (Cs_PolicyStarts s) →
      policy_effect h s s'.

Lemma policy_inv_effect h s s' : 0 < h → policy_effect h s s' → policy_inv h s → policy_inv h s'.
Proof.
  intros Hh [Hf|id slot q Hfree Hc Hl Hi Hv Hq Hu Hval Hs Hp Ht|id slot slot' cur new c] Hpi.
  - by eapply policy_inv_frame.
  - subst id. rewrite <- Hq in Ht. eapply policy_inv_register; try done; lia.
  - by eapply (policy_inv_update h s s' id slot slot' cur new).
Qed.

(** ** Every handler keeps the history *)
Section handlers.
Context (height : Z) p s (Hi : core_inv econ p s) (Hheight : 0 < height ≤ MaxInt64).

Ltac framed :=
  simpl in *; match goal with Hid : SlotId _ = _ |- _ => rewrite ?Hid in * end;
  eapply frame_insert; [eassumption | reflexivity | reflexivity..].

Lemma payout_frame msg s' : UpdatePayoutAddress econ height msg s = (s', Ok tt) → policy_frame s s'.
Proof using Hi. unfold UpdatePayoutAddress. intros H. start Hi H. framed. Qed.
Lemma metadata_frame msg s' : UpdateOperatorMetadata height msg s = (s', Ok tt) → policy_frame s s'.
Proof using Hi. unfold UpdateOperatorMetadata. intros H. start Hi H. framed. Qed.
Lemma settlement_frame msg s' :
  UpdateSettlementAddress econ height msg s = (s', Ok tt) → policy_frame s s'.
Proof using Hi. unfold UpdateSettlementAddress. intros H. start Hi H. framed. Qed.
Lemma activate_frame msg s' : ActivateCoreSlot econ height msg s = (s', Ok tt) → policy_frame s s'.
Proof using Hi. unfold ActivateCoreSlot, activeCount. intros H. start Hi H. framed. Qed.
Ltac canceled :=
  match goal with H : cancelRotationAndEmit _ _ = _ |- _ => apply cancel_Ok in H as -> end.

Lemma inactivate_frame msg s' : InactivateCoreSlot height msg s = (s', Ok tt) → policy_frame s s'.
Proof using Hi.
  unfold InactivateCoreSlot, activeCount. intros H. start Hi H. simpl in *. canceled. framed.
Qed.
Lemma suspend_frame msg s' : SuspendCoreSlot height msg s = (s', Ok tt) → policy_frame s s'.
Proof using Hi.
  unfold SuspendCoreSlot, activeCount. intros H. minv.
  match goal with H : (if ?b then _ else _) s = (?t, Ok tt) |- _ =>
    assert (t = s) as -> by (destruct b; minv; done) end.
  start Hi H. simpl in *. canceled. framed.
Qed.
Lemma remove_frame msg s' : RemoveCoreSlot height msg s = (s', Ok tt) → policy_frame s s'.
Proof using Hi.
  unfold RemoveCoreSlot. intros H. minv.
  match goal with H : consensusKey _ = Ok ?k |- _ => destruct k as [key addr] end.
  start Hi H. simpl in *. canceled. framed.
Qed.
Lemma rotate_frame msg s' : RotateConsensusKey height msg s = (s', Ok tt) → policy_frame s s'.
Proof using Hi.
  unfold RotateConsensusKey. intros H. minv.
  match goal with H : consensusKey _ = Ok ?k |- _ => destruct k as [old addr] end. minv.
  match goal with H : ensureConsensusAvailable _ _ _ = (_, Ok ?k) |- _ =>
    destruct k as [new addr']; apply ensure_Ok in H as (Hkey & Hfree & _ & ->) end.
  start Hi H. destruct (bool_decide (Status _ = _)); minv; [by apply frame_same|]. framed.
Qed.
Lemma params_frame msg s' : UpdateCoreSlotParams msg s = (s', Ok tt) → policy_frame s s'.
Proof using Hi.
  unfold UpdateCoreSlotParams, activeCount. destruct msg as [auth [q|]]; simpl; [|done].
  intros H. start Hi H. by apply frame_same.
Qed.
Lemma nominate_frame msg s' : NominateAuthority econ height msg s = (s', Ok tt) → policy_frame s s'.
Proof using Hi. unfold NominateAuthority. intros H. start Hi H. by apply frame_same. Qed.
Lemma cancel_frame msg s' : CancelAuthorityNomination msg s = (s', Ok tt) → policy_frame s s'.
Proof using Hi. unfold CancelAuthorityNomination. intros H. start Hi H. by apply frame_same. Qed.
Lemma accept_frame msg s' : AcceptAuthority econ msg s = (s', Ok tt) → policy_frame s s'.
Proof using Hi. unfold AcceptAuthority. intros H. start Hi H. by apply frame_same. Qed.

(** The identifier a registration takes is free, and has no history. *)
Lemma register_effect msg s' id :
  RegisterCoreSlot econ height msg s = (s', Ok id) → policy_effect height s s'.
Proof using Hi Hheight.
  unfold RegisterCoreSlot, writeInitialPolicy. intros H. minv.
  destruct (RegCS_InitialSelectionPolicy msg) as [policy|]; [|done]. minv.
  match goal with H : ensureConsensusAvailable _ _ _ = (_, Ok ?k) |- _ =>
    destruct k as [key addr]; apply ensure_Ok in H as (Hkey & Hfree & _ & ->) end.
  match goal with H : nextSlotID _ = Ok _ |- _ => unfold nextSlotID in H end.
  start Hi H. simpl in *.
  match goal with H : ¬ is_Some (Cs_Slots s !! ?n) |- _ =>
    apply eq_None_not_Some in H; eapply (effect_register height s _ n _ _ H) end;
    [ | | | | | | | reflexivity | reflexivity | reflexivity]; done.
Qed.

Lemma cooldown_elapsed slot :
  is_i64 (LastSelectionPolicyUpdateHeight slot) → LastSelectionPolicyUpdateHeight slot ≠ 0 →
  policyCooldown height p slot = Ok tt →
  LastSelectionPolicyUpdateHeight slot + HardMinSelectionPolicyUpdateCooldownBlocks ≤ height.
Proof using Hi.
  intros Hl Hn H. pose proof (pb_cooldown _ (ci_bounds _ _ _ Hi)) as Hcd.
  unfold policyCooldown in H. rewrite (proj2 (Z.eqb_neq _ _) Hn) in H. minv.
  assert (SelectionPolicyUpdateCooldownBlocks p ≤ MaxInt64) as Hm.
  { match goal with H : Int64FromUint64 _ = Ok _ |- _ => unfold Int64FromUint64 in H end.
    destruct (_ >? _) eqn:E; [done|]. zify_bool. lia. }
  unfold HardMinSelectionPolicyUpdateCooldownBlocks in *.
  repeat match goal with
  | H : Int64FromUint64 _ = Ok _ |- _ => apply Int64FromUint64_Ok in H as [-> _]; [|widths; lia]
  | H : AddInt64 _ _ = Ok _ |- _ => apply AddInt64_Ok in H as [-> _]; [|widths; lia..]
  end. zify_bool. lia.
Qed.

Lemma seam_from slot cur effective next :
  policy_inv height s → Cs_Slots s !! SlotId slot = Some slot →
  version_of s (SlotId slot) (SPV_PolicyVersion cur) = Some cur →
  validatePolicyTransitionSeam slot cur height effective next s = Ok tt →
  SPV_ValidFromHeight cur ≤ height.
Proof using Type.
  intros Hpi Hs Hcur H. unfold validatePolicyTransitionSeam in H. minv. zify_bool.
  match goal with H : SelectionPolicyAtHeight _ _ _ = Ok ?r |- _ =>
    pose proof (SelectionPolicyAtHeight_spec height s _ slot Hpi Hs height) as Hsp;
    rewrite H in Hsp end.
  destruct Hsp as (v & Hv & Hle & _).
  destruct (ho_row _ _ _ _ (pi_history _ _ Hpi _ _ Hs) v _ Hv) as (_ & Hvv & _). congruence.
Qed.

(** What a successful update knew and wrote. *)
Lemma update_policy_facts msg s' w :
  policy_inv height s → UpdateSelectionPolicy height msg s = (s', Ok w) →
  ∃ slot cur, let c := CurrentSelectionPolicyVersion slot in
    Cs_Slots s !! USP_SlotId msg = Some slot ∧ SlotId slot = USP_SlotId msg ∧
    USP_Operator msg = OperatorAddress slot ∧ operatorMutationAllowed slot = Ok tt ∧
    version_of s (USP_SlotId msg) c = Some cur ∧ SPV_ValidFromHeight cur ≤ height ∧
    (SPV_SelectionRateBps cur ≠ USP_SelectionRateBps msg ∨
     SPV_MaxSelectedParticipants cur ≠ USP_MaxSelectedParticipants msg) ∧
    ValidateSelectionPolicyValues (USP_SelectionRateBps msg)
      (USP_MaxSelectedParticipants msg) = Ok tt ∧
    (2 ≤ c → LastSelectionPolicyUpdateHeight slot +
       HardMinSelectionPolicyUpdateCooldownBlocks ≤ height) ∧
    w = c + 1 ∧ c + 1 ≤ MaxUint64 ∧ is_i64 (height + 1) ∧
    Cs_Slots s' = <[USP_SlotId msg := slot <| CurrentSelectionPolicyVersion := c + 1 |>
      <| LastSelectionPolicyUpdateHeight := height |> <| UpdatedHeight := height |>]> (Cs_Slots s) ∧
    Cs_SelectionPolicies s' = <[(USP_SlotId msg, c + 1) := {|
        SPV_SlotId := USP_SlotId msg; SPV_PolicyVersion := c + 1;
        SPV_SelectionRateBps := USP_SelectionRateBps msg;
        SPV_MaxSelectedParticipants := USP_MaxSelectedParticipants msg;
        SPV_ValidFromHeight := height + 1; SPV_ValidUntilHeightExclusive := 0 |}]>
      (<[(USP_SlotId msg, c) := cur <| SPV_ValidUntilHeightExclusive := height + 1 |>]>
        (Cs_SelectionPolicies s)) ∧
    Cs_PolicyStarts s' = <[(USP_SlotId msg, height + 1) := c + 1]> (Cs_PolicyStarts s).
Proof using Hi Hheight.
  unfold UpdateSelectionPolicy. intros Hpi H. start Hi H. simpl in *.
  match goal with H : currentPolicy ?x s = Ok ?y |- _ =>
    exists x, y; unfold currentPolicy in H; minv; zify_bool end.
  match goal with H : coll_get _ = Ok ?y |- _ => rename H into Hcur end.
  rewrite Hid in *.
  match goal with H : context [Cs_SelectionPolicies s !! ?k] |- _ =>
    destruct (Cs_SelectionPolicies s !! k) as [y|] eqn:Hrow; simpl in H; [|done] end.
  injection Hcur as ->.
  pose proof (pi_history _ _ Hpi _ _ Hs) as Hok'. pose proof (ho_current _ _ _ _ Hok') as Hc.
  repeat match goal with
  | H : AddUint64 _ 1 = Ok _ |- _ => apply AddUint64_Ok in H as [-> ?]; [|widths; lia..]
  | H : AddInt64 height 1 = Ok _ |- _ => apply AddInt64_Ok in H as [-> ?]; [|widths; lia..]
  end.
  match goal with H : SPV_PolicyVersion _ = CurrentSelectionPolicyVersion _ |- _ =>
    rename H into Hpv; rewrite Hpv in * end.
  match goal with H : policyCooldown _ _ ?x = _ |- _ =>
    assert (2 ≤ CurrentSelectionPolicyVersion x →
      LastSelectionPolicyUpdateHeight x + HardMinSelectionPolicyUpdateCooldownBlocks ≤ height)
      as Hcool end.
  { intros H2c. pose proof (ho_updated _ _ _ _ Hok') as Hu. rewrite decide_False in Hu by lia.
    destruct Hu as [Hpos Hu]. specialize (Hu _ Hrow).
    destruct (ho_row _ _ _ _ Hok' _ _ Hrow) as (_ & _ & ? & _).
    apply cooldown_elapsed; [widths; lia | lia | done]. }
  match goal with H : validatePolicyTransitionSeam _ _ _ _ _ _ = _ |- _ =>
    apply seam_from in H; [|done | by rewrite Hid | by rewrite Hid, Hpv] end.
  match goal with H : _ && _ = false |- _ => apply andb_false_iff in H; rename H into Hdiff end.
  split_and!; try done.
  - match goal with H : ¬ _ ≠ _ |- _ => by apply dec_stable in H end.
  - destruct Hdiff; zify_bool; auto.
  - by match goal with H : SPV_SlotId _ = _ |- _ => rewrite H end.
Qed.

Lemma policy_effect_update msg s' w :
  policy_inv height s → UpdateSelectionPolicy height msg s = (s', Ok w) →
  policy_effect height s s'.
Proof using All.
  intros Hpi H. destruct (update_policy_facts msg s' w Hpi H)
    as (slot & cur & Hs & Hid & _ & _ & Hcur & Hfrom & _ & Hval & Hcool & _ & Hmax & _ & Hs' & Hp' & Hst').
  eapply (effect_update height s s' (USP_SlotId msg) slot _ cur _ Hs Hcur Hfrom Hcool);
    [..| exact Hs' | exact Hp' | exact Hst']; done.
Qed.

Lemma handle_effect m s' :
  policy_inv height s → handle econ height m s = (s', Ok tt) → policy_effect height s s'.
Proof using All.
  intros Hpi H. destruct m as [g|g|g|g|g|g|g|g|g|g|g|g|g|g]; simpl in H;
    try (minv; by eapply register_effect); try (minv; by eapply policy_effect_update);
    apply effect_none.
  - by eapply activate_frame.
  - by eapply inactivate_frame.
  - by eapply suspend_frame.
  - by eapply remove_frame.
  - by eapply rotate_frame.
  - by eapply payout_frame.
  - by eapply metadata_frame.
  - by eapply settlement_frame.
  - by eapply params_frame.
  - by eapply nominate_frame.
  - by eapply accept_frame.
  - by eapply cancel_frame.
Qed.

Lemma deliver_effect m s' r :
  policy_inv height s → coreslot_deliver econ height m s = (s', r) → policy_effect height s s'.
Proof using All.
  intros Hpi H. destruct r as [[]|e].
  - exact (handle_effect m s' Hpi (proj1 (cached_Ok _ _ _ _) H)).
  - apply cached_Err in H as ->. apply effect_none. by apply frame_same.
Qed.
End handlers.
End policies.
