(* ===== verification/CoreSlotRows.v ===== *)
(** * What a CoreSlot message may change

    [evolves]: a slot keeps its identity for life, and a removed slot is frozen.
    [may_change]: which message moves which status, and who may send it.
    [authority_effect]: the two authority fields change hands only when the
    nominee on record accepts, and only the holder opens or withdraws a
    nomination. *)
From S2P Require Import Prelude Checked SdkMath Bounds EconomicAddress RewardsTypes.
From S2P Require Import Collections CoreSlotTypes CoreSlotState CoreSlot CoreSlotMsgs.
From S2P Require Import CoreSlotEndBlock CoreSlotInvariant CoreSlotLifecycle CoreSlotValidators.
From Stdlib Require Import String.
Local Open Scope Z_scope.

Section rows.
Context {BE : Bech32} {PK : PubKeyCodec} (econ : Validator).
Implicit Types (s : CoreSlotState) (p : CoreSlotParams) (slot : CoreSlot) (id : Z).

Record evolves slot slot' : Prop := {
  ev_id : SlotId slot' = SlotId slot;
  ev_operator : OperatorAddress slot' = OperatorAddress slot;
  ev_created : CreatedHeight slot' = CreatedHeight slot;
  ev_sequence : ActivationSequence slot ≤ ActivationSequence slot';
  ev_removed : Status slot = SLOT_STATUS_REMOVED → slot' = slot;
  ev_pending : Status slot' = SLOT_STATUS_PENDING → Status slot = SLOT_STATUS_PENDING
}.

#[export] Instance evolves_refl : Reflexive evolves.
Proof. intros slot. by split. Qed.
#[export] Instance evolves_trans : Transitive evolves.
Proof.
  intros a b c Hab Hbc. split.
  1-3: by rewrite ?(ev_id _ _ Hbc), ?(ev_operator _ _ Hbc), ?(ev_created _ _ Hbc);
    destruct Hab.
  - pose proof (ev_sequence _ _ Hab). pose proof (ev_sequence _ _ Hbc). lia.
  - intros Hr. pose proof (ev_removed _ _ Hab Hr) as ->. by apply (ev_removed _ _ Hbc).
  - intros Hp%(ev_pending _ _ Hbc). by apply (ev_pending _ _ Hab).
Qed.

(** The status [new] a message may give a slot, and its permitted senders. *)
Definition may_change p (m : coreslot_message) slot (new : SlotStatus) : Prop :=
  match m with
  | CActivate g => ActCS_SlotId g = SlotId slot ∧ ActCS_Authority g = Authority p ∧
      (Status slot = SLOT_STATUS_PENDING ∨ Status slot = SLOT_STATUS_INACTIVE ∨
       Status slot = SLOT_STATUS_SUSPENDED) ∧ new = SLOT_STATUS_ACTIVE
  | CInactivate g => InCS_SlotId g = SlotId slot ∧
      (InCS_AuthorityOrOperator g = Authority p ∨
       InCS_AuthorityOrOperator g = OperatorAddress slot) ∧
      Status slot = SLOT_STATUS_ACTIVE ∧ new = SLOT_STATUS_INACTIVE
  | CSuspend g => SusCS_SlotId g = SlotId slot ∧
      (SusCS_Authority g = Authority p ∨ SusCS_Authority g = EmergencyAuthority p) ∧
      Status slot ≠ SLOT_STATUS_REMOVED ∧ Status slot ≠ SLOT_STATUS_SUSPENDED ∧
      new = SLOT_STATUS_SUSPENDED
  | CRemove g => RemCS_SlotId g = SlotId slot ∧ RemCS_Authority g = Authority p ∧
      Status slot ≠ SLOT_STATUS_ACTIVE ∧ Status slot ≠ SLOT_STATUS_REMOVED ∧
      new = SLOT_STATUS_REMOVED
  | _ => False
  end.

Definition rows_effect p m s s' : Prop :=
  ∀ id slot, Cs_Slots s !! id = Some slot → ∃ slot', Cs_Slots s' !! id = Some slot' ∧
    evolves slot slot' ∧ (Status slot' = Status slot ∨ may_change p m slot (Status slot')).

Lemma rows_same p m s s' : Cs_Slots s' = Cs_Slots s → rows_effect p m s s'.
Proof. intros Hs id slot Hl. exists slot. rewrite Hs. by split_and!; [..| left]. Qed.

Lemma rows_insert p m s s' id slot slot' :
  Cs_Slots s !! id = Some slot → Cs_Slots s' = <[id := slot']> (Cs_Slots s) →
  evolves slot slot' → (Status slot' = Status slot ∨ may_change p m slot (Status slot')) →
  rows_effect p m s s'.
Proof.
  intros Hs Hs' He Hm i x Hx. rewrite Hs'. destruct (decide (id = i)) as [->|Hne].
  - rewrite lookup_insert_eq. replace x with slot by congruence. by exists slot'.
  - rewrite lookup_insert_ne by done. exists x. by split_and!; [..| left].
Qed.

Lemma rows_fresh p m s s' id slot' :
  Cs_Slots s !! id = None → Cs_Slots s' = <[id := slot']> (Cs_Slots s) → rows_effect p m s s'.
Proof.
  intros Hs Hs' i x Hx. rewrite Hs', lookup_insert_ne by congruence.
  exists x. by split_and!; [..| left].
Qed.

Lemma AddUint64_succ_ge a r : AddUint64 a 1 = Ok r → a ≤ r.
Proof.
  unfold AddUint64. rewrite u64_small by (widths; lia). destruct (_ >? _) eqn:E; [done|].
  intros [= <-]. zify_bool. destruct (Z.le_gt_cases 0 a) as [Ha|Ha].
  - rewrite u64_small by (widths; lia). lia.
  - unfold u64. pose proof (Z.mod_pos_bound (a + 1) (2 ^ 64) ltac:(lia)). lia.
Qed.

Lemma operator_allowed slot : operatorMutationAllowed slot = Ok tt →
  Status slot ≠ SLOT_STATUS_REMOVED.
Proof. unfold operatorMutationAllowed. by destruct (Status slot). Qed.

(** ** The authority fields *)
Record authority_effect height p p' m s s' : Prop := {
  ae_holder role : authorityRoleKey role = Ok role →
    currentHolder p' role = currentHolder p role ∨
    ∃ t, m = CAccept {| AA_Nominee := currentHolder p' role; AA_Role := role |} ∧
      Cs_PendingAuthority s !! role = Some t ∧ PAT_Nominee t = currentHolder p' role ∧
      is_ok (Validate econ (currentHolder p' role)) = true ∧
      Cs_PendingAuthority s' !! role = None;
  ae_pending role t : Cs_PendingAuthority s' !! role = Some t →
    Cs_PendingAuthority s !! role = Some t ∨
    m = CNominate {| NA_Authority := currentHolder p role; NA_Role := role;
                     NA_Nominee := PAT_Nominee t |} ∧ PAT_NominatedHeight t = height;
  ae_withdrawn role t : Cs_PendingAuthority s !! role = Some t →
    is_Some (Cs_PendingAuthority s' !! role) ∨
    m = CAccept {| AA_Nominee := PAT_Nominee t; AA_Role := role |} ∨
    m = CCancel {| CAN_Authority := currentHolder p role; CAN_Role := role |}
}.

Lemma authority_same height p m s s' :
  Cs_PendingAuthority s' = Cs_PendingAuthority s → authority_effect height p p m s s'.
Proof. intros Hp. split; rewrite Hp; eauto. Qed.

(** The two effects of a message. *)
Definition message_effect height p m s s' : Prop :=
  rows_effect p m s s' ∧
  ∃ p', Cs_Params s' = Some p' ∧ authority_effect height p p' m s s'.

(** ** Every handler *)
Section handlers.
Context (height : Z) p s (Hi : core_inv econ p s).

Lemma effect_row m s' id slot slot' :
  Cs_Slots s !! id = Some slot → Cs_Slots s' = <[id := slot']> (Cs_Slots s) →
  Cs_Params s' = Cs_Params s → Cs_PendingAuthority s' = Cs_PendingAuthority s →
  evolves slot slot' → (Status slot' = Status slot ∨ may_change p m slot (Status slot')) →
  message_effect height p m s s'.
Proof using Hi.
  intros Hs Hs' Hp Ha He Hm. split; [by eapply rows_insert|].
  exists p. rewrite Hp, (ci_params _ _ _ Hi). split; [done|]. by apply authority_same.
Qed.

Lemma effect_no_row m s' :
  Cs_Slots s' = Cs_Slots s →
  (∃ p', Cs_Params s' = Some p' ∧ authority_effect height p p' m s s') →
  message_effect height p m s s'.
Proof using Type. intros Hs Ha. split; [by apply rows_same | done]. Qed.

Ltac canceled :=
  try match goal with H : cancelRotationAndEmit _ _ = _ |- _ => apply cancel_Ok in H as -> end.
Ltac one_row :=
  simpl in *; canceled; match goal with Hid : SlotId _ = _ |- _ => rewrite ?Hid in * end;
  eapply effect_row; [eassumption | reflexivity | reflexivity | reflexivity | split |]; simpl;
  try done.
Ltac allowed :=
  match goal with H : operatorMutationAllowed _ = Ok tt |- _ => apply operator_allowed in H end.

Lemma activate_effect g s' :
  ActivateCoreSlot econ height g s = (s', Ok tt) → message_effect height p (CActivate g) s s'.
Proof using Hi.
  unfold ActivateCoreSlot, activeCount. intros H. start Hi H.
  match goal with H : AddUint64 _ 1 = Ok _ |- _ => apply AddUint64_succ_ge in H end.
  one_row; [intros He; rewrite He in *; naive_solver|].
  right. rewrite Hid. split_and!; [done | by apply dec_stable | | done].
  match goal with |- Status ?x = _ ∨ _ => destruct (Status x); naive_solver end.
Qed.
(** A sender that is neither of two addresses was refused. *)
Lemma one_of (a b c : string) : ¬ (a ≠ b ∧ a ≠ c) → a = b ∨ a = c.
Proof using Type. destruct (decide (a = b)), (decide (a = c)); naive_solver. Qed.

Lemma inactivate_effect g s' :
  InactivateCoreSlot height g s = (s', Ok tt) → message_effect height p (CInactivate g) s s'.
Proof using Hi.
  unfold InactivateCoreSlot, activeCount. intros H. start Hi H.
  one_row; [intros He; rewrite He in *; naive_solver|].
  right. rewrite Hid. split_and!; [done | by apply one_of | by apply dec_stable | done].
Qed.
Lemma suspend_effect g s' :
  SuspendCoreSlot height g s = (s', Ok tt) → message_effect height p (CSuspend g) s s'.
Proof using Hi.
  unfold SuspendCoreSlot, activeCount. intros H. minv.
  match goal with H : (if ?b then _ else _) s = (?t, Ok tt) |- _ =>
    assert (t = s) as -> by (destruct b; minv; done) end.
  start Hi H. one_row; [intros He; rewrite He in *; naive_solver|].
  right. rewrite Hid. split_and!; try done; first [by apply one_of | naive_solver].
Qed.
Lemma remove_effect g s' :
  RemoveCoreSlot height g s = (s', Ok tt) → message_effect height p (CRemove g) s s'.
Proof using Hi.
  unfold RemoveCoreSlot. intros H. minv.
  match goal with H : consensusKey _ = Ok ?k |- _ => destruct k as [key addr] end.
  start Hi H. one_row; [intros He; rewrite He in *; naive_solver|].
  right. rewrite Hid. split_and!; try done; first [by apply dec_stable | naive_solver].
Qed.
Lemma rotate_effect g s' :
  RotateConsensusKey height g s = (s', Ok tt) → message_effect height p (CRotate g) s s'.
Proof using Hi.
  unfold RotateConsensusKey. intros H. minv.
  match goal with H : consensusKey _ = Ok ?k |- _ => destruct k as [old addr] end. minv.
  match goal with H : ensureConsensusAvailable _ _ _ = (_, Ok ?k) |- _ =>
    destruct k as [new addr']; apply ensure_Ok in H as (Hkey & Hfree & _ & ->) end.
  start Hi H. destruct (bool_decide (Status _ = _)); minv.
  - apply effect_no_row; [done|]. exists p. simpl. rewrite (ci_params _ _ _ Hi).
    split; [done|]. by apply authority_same.
  - one_row. by left.
Qed.
Lemma payout_effect g s' :
  UpdatePayoutAddress econ height g s = (s', Ok tt) → message_effect height p (CPayout g) s s'.
Proof using Hi. unfold UpdatePayoutAddress. intros H. start Hi H. allowed. one_row. by left. Qed.
Lemma metadata_effect g s' :
  UpdateOperatorMetadata height g s = (s', Ok tt) → message_effect height p (CMetadata g) s s'.
Proof using Hi. unfold UpdateOperatorMetadata. intros H. start Hi H. allowed. one_row. by left. Qed.
Lemma settlement_effect g s' :
  UpdateSettlementAddress econ height g s = (s', Ok tt) →
  message_effect height p (CSettlement g) s s'.
Proof using Hi.
  unfold UpdateSettlementAddress. intros H. start Hi H. allowed. one_row. by left.
Qed.
Lemma selection_effect g s' w :
  UpdateSelectionPolicy height g s = (s', Ok w) → message_effect height p (CPolicy g) s s'.
Proof using Hi. unfold UpdateSelectionPolicy. intros H. start Hi H. allowed. one_row. by left. Qed.

Lemma register_row_effect g s' id :
  RegisterCoreSlot econ height g s = (s', Ok id) → message_effect height p (CRegister g) s s'.
Proof using Hi.
  unfold RegisterCoreSlot, writeInitialPolicy. intros H. minv.
  destruct (RegCS_InitialSelectionPolicy g) as [policy|]; [|done]. minv.
  match goal with H : ensureConsensusAvailable _ _ _ = (_, Ok ?k) |- _ =>
    destruct k as [key addr]; apply ensure_Ok in H as (Hkey & Hfree & _ & ->) end.
  match goal with H : nextSlotID _ = Ok _ |- _ => unfold nextSlotID in H end.
  start Hi H. simpl in *. split.
  - eapply rows_fresh; [by apply eq_None_not_Some | reflexivity].
  - exists p. simpl. rewrite (ci_params _ _ _ Hi). split; [done|]. by apply authority_same.
Qed.

Lemma params_effect g s' :
  UpdateCoreSlotParams g s = (s', Ok tt) → message_effect height p (CParams g) s s'.
Proof using Hi.
  unfold UpdateCoreSlotParams, activeCount. destruct g as [auth [q|]]; simpl; [|done].
  intros H. start Hi H. simpl in *. apply effect_no_row; [done|]. exists q. split; [done|].
  split; simpl; eauto. intros role _. left. unfold currentHolder.
  case_match; by apply dec_stable.
Qed.

Lemma holder_set role role' addr :
  authorityRoleKey role = Ok role → authorityRoleKey role' = Ok role' →
  currentHolder (setHolder p role addr) role' =
    if decide (role = role') then addr else currentHolder p role'.
Proof using Type.
  unfold authorityRoleKey, AUTHORITY_ROLE_PRIMARY, AUTHORITY_ROLE_EMERGENCY. intros H H'.
  assert (role = 1 ∨ role = 2) as [-> | ->] by (destruct (role =? 1) eqn:?, (role =? 2) eqn:?;
    zify_bool; simpl in *; auto; done);
  assert (role' = 1 ∨ role' = 2) as [-> | ->] by (destruct (role' =? 1) eqn:?, (role' =? 2) eqn:?;
    zify_bool; simpl in *; auto; done); reflexivity.
Qed.

Lemma roleKey_id role key : authorityRoleKey role = Ok key → key = role.
Proof using Type. unfold authorityRoleKey. case_match; [by intros [= ->] | done]. Qed.

Lemma nominate_effect g s' :
  NominateAuthority econ height g s = (s', Ok tt) → message_effect height p (CNominate g) s s'.
Proof using Hi.
  unfold NominateAuthority. intros H. start Hi H. simpl in *. apply effect_no_row; [done|].
  match goal with H : authorityRoleKey _ = Ok _ |- _ => pose proof (roleKey_id _ _ H) as -> end.
  exists p. simpl. rewrite (ci_params _ _ _ Hi). split; [done|]. split; simpl.
  - auto.
  - intros role t [[<- <-]|[_ Ht]]%lookup_insert_Some; [right | by left]. simpl.
    split; [|done]. destruct g; simpl in *. f_equal. f_equal. by apply dec_stable.
  - intros role t Ht. left. apply lookup_insert_is_Some'. eauto.
Qed.

Lemma accept_effect g s' :
  AcceptAuthority econ g s = (s', Ok tt) → message_effect height p (CAccept g) s s'.
Proof using Hi.
  unfold AcceptAuthority. intros H. start Hi H. simpl in *. apply effect_no_row; [done|].
  match goal with H : authorityRoleKey _ = Ok _ |- _ =>
    pose proof (roleKey_id _ _ H) as ->; rename H into Hrole end.
  match goal with H : coll_get _ = Ok ?x |- _ =>
    apply coll_get_Ok in H as Ht; rename x into pending end.
  match goal with H : ¬ AA_Nominee g ≠ _ |- _ => apply dec_stable in H as Hn end.
  exists (setHolder p (AA_Role g) (AA_Nominee g)). split; [done|]. split; simpl.
  - intros role Hr. rewrite holder_set by done. case_decide; [subst; right | by left].
    eexists. rewrite lookup_delete_eq. destruct g; simpl in *. split_and!; try done.
    by match goal with H : Validate _ _ = Ok _ |- _ => rewrite H end.
  - intros role t [_ ?]%lookup_delete_Some. by left.
  - intros role t' Hl. destruct (decide (role = AA_Role g)) as [->|Hne].
    + right. left. injection (eq_trans (eq_sym Hl) Ht) as ->. rewrite <- Hn. by destruct g.
    + left. rewrite lookup_delete_ne by done. eauto.
Qed.

Lemma withdraw_effect g s' :
  CancelAuthorityNomination g s = (s', Ok tt) → message_effect height p (CCancel g) s s'.
Proof using Hi.
  unfold CancelAuthorityNomination. intros H. start Hi H. simpl in *.
  match goal with H : authorityRoleKey _ = Ok _ |- _ =>
    pose proof (roleKey_id _ _ H) as ->; rename H into Hrole end.
  apply effect_no_row; [done|]. exists p. simpl. rewrite (ci_params _ _ _ Hi). split; [done|].
  split; simpl; [by auto | |].
  - intros role t [_ ?]%lookup_delete_Some. by left.
  - intros role t Hl. destruct (decide (role = CAN_Role g)) as [->|Hne].
    + right. right. destruct g; simpl in *. f_equal. f_equal. by apply dec_stable.
    + left. rewrite lookup_delete_ne by done. eauto.
Qed.

Lemma handle_effects m s' :
  handle econ height m s = (s', Ok tt) → message_effect height p m s s'.
Proof using Hi.
  intros H. destruct m as [g|g|g|g|g|g|g|g|g|g|g|g|g|g]; simpl in H.
  - minv. by eapply register_row_effect.
  - by apply activate_effect.
  - by apply inactivate_effect.
  - by apply suspend_effect.
  - by apply remove_effect.
  - by apply rotate_effect.
  - by apply payout_effect.
  - by apply metadata_effect.
  - by apply settlement_effect.
  - minv. by eapply selection_effect.
  - by apply params_effect.
  - by apply nominate_effect.
  - by apply accept_effect.
  - by apply withdraw_effect.
Qed.

Lemma deliver_effects m s' r :
  coreslot_deliver econ height m s = (s', r) → message_effect height p m s s'.
Proof using Hi.
  intros H. destruct r as [[]|e].
  - exact (handle_effects m s' (proj1 (cached_Ok _ _ _ _) H)).
  - apply cached_Err in H as ->. apply effect_no_row; [done|]. exists p.
    split; [apply (ci_params _ _ _ Hi)|]. by apply authority_same.
Qed.
End handlers.
End rows.
