(* ===== verification/CoreSlotBlocks.v ===== *)
(** * CoreSlot over a run of blocks

    [cs_step]: at a height, a message is delivered or the block ends.  A state
    that satisfies both invariants keeps them along any run; resolved policies
    stay resolved, slots evolve, and history grows no faster than the cooldown
    lets it. *)
From S2P Require Import Prelude Checked SdkMath Bounds EconomicAddress RewardsTypes.
From S2P Require Import Collections CoreSlotTypes CoreSlotState CoreSlot CoreSlotMsgs.
From S2P Require Import CoreSlotEndBlock CoreSlotInvariant CoreSlotLifecycle CoreSlotValidators.
From S2P Require Import CoreSlotPolicy CoreSlotRows.
From stdpp Require Import relations.
From Stdlib Require Import String.
Local Open Scope Z_scope.

Section blocks.
Context {BE : Bech32} {PK : PubKeyCodec} (econ : Validator).
Implicit Types (s : CoreSlotState) (p : CoreSlotParams) (slot : CoreSlot) (id v h : Z)
  (q : SelectionPolicyVersion) (x y z : Z * CoreSlotState).

Inductive cs_step : Z * CoreSlotState → Z * CoreSlotState → Prop :=
  | cs_message h m s s' r : message_typed m → coreslot_deliver econ h m s = (s', r) →
      cs_step (h, s) (h, s')
  | cs_endblock h s s' r : CoreSlotEndBlock h s = (s', r) → h + 1 ≤ MaxInt64 →
      cs_step (h, s) (h + 1, s').

(** A height and a state that satisfies both invariants there. *)
Definition cs_good x : Prop :=
  0 < fst x ≤ MaxInt64 ∧ (∃ p, core_inv econ p (snd x)) ∧ policy_inv (fst x) (snd x).

(** ** Resolved policies stay resolved *)
Definition same_terms q q' : Prop :=
  SPV_SlotId q' = SPV_SlotId q ∧ SPV_PolicyVersion q' = SPV_PolicyVersion q ∧
  SPV_SelectionRateBps q' = SPV_SelectionRateBps q ∧
  SPV_MaxSelectedParticipants q' = SPV_MaxSelectedParticipants q ∧
  SPV_ValidFromHeight q' = SPV_ValidFromHeight q.

Record history_kept h s s' : Prop := {
  hk_old id v q : version_of s id v = Some q → ∃ q', version_of s' id v = Some q' ∧
    same_terms q q' ∧
    (SPV_ValidUntilHeightExclusive q' = SPV_ValidUntilHeightExclusive q ∨
     SPV_ValidUntilHeightExclusive q = 0 ∧ h < SPV_ValidUntilHeightExclusive q');
  hk_new id v q' : version_of s' id v = Some q' → version_of s id v = None →
    h ≤ SPV_ValidFromHeight q' ∧ (is_Some (Cs_Slots s !! id) → h < SPV_ValidFromHeight q');
  hk_slots id : is_Some (Cs_Slots s !! id) → is_Some (Cs_Slots s' !! id)
}.

Lemma same_terms_refl q : same_terms q q.
Proof. done. Qed.
Lemma same_terms_trans q q' q'' : same_terms q q' → same_terms q' q'' → same_terms q q''.
Proof. unfold same_terms. intuition congruence. Qed.

Lemma kept_policies h s s' :
  Cs_SelectionPolicies s' = Cs_SelectionPolicies s →
  (∀ id, is_Some (Cs_Slots s !! id) → is_Some (Cs_Slots s' !! id)) → history_kept h s s'.
Proof.
  intros Hp Hk. assert (∀ id v, version_of s' id v = version_of s id v) as Hv
    by (intros; unfold version_of; by rewrite Hp).
  split; [|intros id v q'; rewrite Hv; congruence|done].
  intros id v q Hq. exists q. rewrite Hv. split_and!; [done.. | by left].
Qed.

Lemma kept_trans h h' s s1 s' :
  h ≤ h' → history_kept h s s1 → history_kept h' s1 s' → history_kept h s s'.
Proof.
  intros Hle [O1 N1 K1] [O2 N2 K2]. split; [| |auto].
  - intros id v q Hq. destruct (O1 id v q Hq) as (q1 & Hq1 & Ht1 & Hu1).
    destruct (O2 id v q1 Hq1) as (q2 & Hq2 & Ht2 & Hu2). exists q2.
    split; [done|]. split; [by eapply same_terms_trans|]. lia.
  - intros id v q2 Hq2 Hn. destruct (version_of s1 id v) as [q1|] eqn:Hq1.
    + destruct (O2 id v q1 Hq1) as (x & Hx & (_ & _ & _ & _ & Hf) & _).
      replace x with q2 in Hf by congruence. rewrite Hf. by apply N1 with v.
    + destruct (N2 id v q2 Hq2 Hq1) as [Hf Hs]. split; [lia|]. intros Hi%K1. specialize (Hs Hi). lia.
Qed.

Lemma kept_effect h s s' : policy_inv h s → policy_effect h s s' → history_kept h s s'.
Proof.
  intros Hpi [Hf|id slot q Hfree Hc Hl Hi Hv Hq Hu Hval Hs Hp Ht
    |id slot slot' cur new c Hs Hcur Hfrom Hcool Hi Hv Hq Hu Hval Hc Hmax Hl Hs' Hp Ht].
  - destruct Hf. by apply kept_policies.
  - assert (∀ v, version_of s id v = None) as Hnone.
    { intros v. apply eq_None_not_Some. intros Hx%(pi_owner _ _ Hpi). rewrite Hfree in Hx.
      by destruct Hx. }
    split.
    + intros i v x Hx. exists x. unfold version_of in *. rewrite Hp, lookup_insert_ne.
      * split_and!; [done.. | by left].
      * intros [= <- <-]. specialize (Hnone 1). congruence.
    + intros i v x. unfold version_of. rewrite Hp, lookup_insert_Some.
      intros [[[= <- <-] <-]|[_ Hx]] Hn; [|congruence]. split; [lia|].
      rewrite Hfree. by intros [??].
    + intros i. rewrite Hs, lookup_insert_is_Some'. auto.
  - assert (version_of s id (c + 1) = None) as Hnone.
    { apply eq_None_not_Some. intros Hx.
      apply (ho_versions _ _ _ _ (pi_history _ _ Hpi id slot Hs)) in Hx. lia. }
    split; unfold version_of in *.
    + intros i v x Hx. rewrite Hp, lookup_insert_ne by (intros [= <- <-]; congruence).
      destruct (decide ((id, c) = (i, v))) as [[= <- <-]|Hne].
      * rewrite lookup_insert_eq. replace x with cur by congruence. eexists. split; [done|].
        split; [done|]. right. split; [|simpl; lia].
        by apply (ho_last _ _ _ _ (pi_history _ _ Hpi id slot Hs)).
      * rewrite lookup_insert_ne by done. exists x. split_and!; [done.. | by left].
    + intros i v x. rewrite Hp, !lookup_insert_Some.
      intros [[_ <-]|[_ [[[= <- <-] _]|[_ Hx]]]] Hn; [lia|congruence|congruence].
    + intros i. rewrite Hs', lookup_insert_is_Some'. auto.
Qed.

(** ** One step *)
Lemma endblock_frame h s s' keyed p : ends h s s' keyed p → policy_frame s s'.
Proof.
  intros []. split; [done..| |].
  - intros id slot'. rewrite en_slots. destruct (Cs_Slots s !! id) as [slot|]; simpl; [|done].
    intros Hx. exists slot. split; [done|]. repeat case_match; by simplify_eq.
  - intros id [slot Hs]. rewrite en_slots, Hs. simpl. repeat case_match; eauto.
Qed.

Lemma step_good x y : cs_good x → cs_step x y → cs_good y.
Proof.
  intros (Hh & [p Hi] & Hpi) Hstep. destruct Hstep as [h m s s' r Ht Hd|h s s' r He Hm]; simpl in *.
  - split; [done|]. split; [by eapply deliver_inv|].
    apply (policy_inv_effect econ h s); [lia | by eapply deliver_effect | done].
  - destruct (endblock_spec econ h p s Hi) as (t & keyed & He' & Hi' & Hends).
    rewrite He in He'. injection He' as <- _. split; [simpl; lia|]. split; [by exists p|].
    simpl. apply (policy_inv_mono h); [lia|].
    eapply policy_inv_frame; [by eapply endblock_frame | exact Hpi].
Qed.

Lemma run_good x y : cs_good x → rtc cs_step x y → cs_good y.
Proof. intros Hx Hr. induction Hr; [done|]. eauto using step_good. Qed.

Lemma step_kept x y : cs_good x → cs_step x y →
  history_kept (fst x) (snd x) (snd y) ∧ fst x ≤ fst y.
Proof.
  intros (Hh & [p Hi] & Hpi) Hstep. destruct Hstep as [h m s s' r Ht Hd|h s s' r He Hm]; simpl in *.
  - split; [|lia]. eapply kept_effect; [done|]. by eapply deliver_effect.
  - destruct (endblock_spec econ h p s Hi) as (t & keyed & He' & Hi' & Hends).
    rewrite He in He'. injection He' as <- _. apply endblock_frame in Hends as [].
    split; [by apply kept_policies | lia].
Qed.

Lemma run_kept x y : cs_good x → rtc cs_step x y →
  history_kept (fst x) (snd x) (snd y) ∧ fst x ≤ fst y.
Proof.
  intros Hx Hr. induction Hr as [x|x y z Hs Hr IH].
  - split; [by apply kept_policies | lia].
  - destruct (step_kept x y Hx Hs) as [H1 L1].
    destruct (IH (step_good x y Hx Hs)) as [H2 L2]. split; [|lia]. by eapply kept_trans.
Qed.

(** ** Slots over a run *)
Lemma step_evolves x y id slot : cs_good x → cs_step x y → Cs_Slots (snd x) !! id = Some slot →
  ∃ slot', Cs_Slots (snd y) !! id = Some slot' ∧ evolves slot slot'.
Proof.
  intros (Hh & [p Hi] & Hpi) Hstep Hs.
  destruct Hstep as [h m s s' r Ht Hd|h s s' r He Hm]; simpl in *.
  - destruct (deliver_effects econ h p s Hi m s' r Hd) as [Hrows _].
    destruct (Hrows id slot Hs) as (slot' & Hs' & Hev & _). eauto.
  - destruct (endblock_spec econ h p s Hi) as (t & keyed & He' & Hi' & []).
    rewrite He in He'. injection He' as <- _. rewrite en_slots, Hs. simpl.
    destruct (Cs_Rotations s !! id) as [r'|] eqn:Er; [|by exists slot].
    case_decide; [|by exists slot]. eexists. split; [done|].
    destruct (ci_rotations _ _ _ Hi id r' Er) as (_ & _ & x & Hx & Ha & _).
    replace x with slot in Ha by congruence. split; simpl; try done. by rewrite Ha.
Qed.

Lemma run_evolves x y id slot : cs_good x → rtc cs_step x y → Cs_Slots (snd x) !! id = Some slot →
  ∃ slot', Cs_Slots (snd y) !! id = Some slot' ∧ evolves slot slot'.
Proof.
  intros Hx Hr. revert slot. induction Hr as [x|x y z Hs Hr IH]; intros slot Hl; [by exists slot|].
  destruct (step_evolves x y id slot Hx Hs Hl) as (s1 & H1 & E1).
  destruct (IH (step_good x y Hx Hs) s1 H1) as (s2 & H2 & E2).
  exists s2. split; [done|]. by etrans.
Qed.
End blocks.

(** ** Resolution over a run *)
Section resolution.
Context {BE : Bech32} {PK : PubKeyCodec} (econ : Validator).
Implicit Types (s : CoreSlotState) (id v h : Z) (q : SelectionPolicyVersion).

(** Resolving is finding the version in force. *)
Lemma resolve_iff h s id height q : policy_inv h s →
  SelectionPolicyAtHeight id height s = Ok q ↔
  ∃ v, version_of s id v = Some q ∧ in_force height q.
Proof.
  intros Hpi. destruct (Cs_Slots s !! id) as [slot|] eqn:Hs.
  - pose proof (SelectionPolicyAtHeight_spec h s id slot Hpi Hs height) as Hr. split.
    + intros H. by rewrite H in Hr.
    + intros (v & Hv & Hf). destruct (SelectionPolicyAtHeight _ _ _) as [q'|e].
      * destruct Hr as (v' & Hv' & Hf').
        pose proof (in_force_unique h s id slot Hpi Hs height v v' q q' Hv Hv' Hf Hf') as ->.
        congruence.
      * destruct Hr as [_ Hr]. specialize (Hr v q Hv). destruct Hf. lia.
  - split.
    + unfold SelectionPolicyAtHeight. destruct (seek_le _ _) as [[start v]|] eqn:E; [|done].
      apply seek_le_Some in E as (Hl & _ & _). rewrite lookup_prefix_map in Hl.
      apply (pi_start_owner _ _ Hpi) in Hl as [? ?]. congruence.
    + intros (v & Hv & _). destruct (pi_owner _ _ Hpi id v ltac:(eauto)). congruence.
Qed.

Lemma resolve_error h s id height e : policy_inv h s →
  SelectionPolicyAtHeight id height s = Err e → e = CsSelectionPolicyNotFound.
Proof.
  intros Hpi H. destruct (Cs_Slots s !! id) as [slot|] eqn:Hs.
  - pose proof (SelectionPolicyAtHeight_spec h s id slot Hpi Hs height) as Hr.
    rewrite H in Hr. tauto.
  - unfold SelectionPolicyAtHeight in H. destruct (seek_le _ _) as [[start v]|] eqn:E; [|congruence].
    apply seek_le_Some in E as (Hl & _ & _). rewrite lookup_prefix_map in Hl.
    apply (pi_start_owner _ _ Hpi) in Hl as [? ?]. congruence.
Qed.

(** Two resolutions that name the same terms, or neither of which names any. *)
Definition same_resolution (a b : res SelectionPolicyVersion) : Prop :=
  match a, b with
  | Ok q, Ok q' => same_terms q q'
  | Err e, Err e' => e = e'
  | _, _ => False
  end.

Lemma kept_resolution h h' s s' id height :
  policy_inv h s → policy_inv h' s' → history_kept h s s' →
  height < h ∨ (height ≤ h ∧ is_Some (Cs_Slots s !! id)) →
  same_resolution (SelectionPolicyAtHeight id height s) (SelectionPolicyAtHeight id height s').
Proof.
  intros Hpi Hpi' [Ho Hn _] Hle.
  destruct (SelectionPolicyAtHeight id height s) as [q|e] eqn:E.
  - apply (resolve_iff h) in E as (v & Hv & Hf1 & Hf2); [|done].
    destruct (Ho id v q Hv) as (q' & Hv' & Ht & Hu).
    assert (SelectionPolicyAtHeight id height s' = Ok q') as ->; [|done].
    apply (resolve_iff h'); [done|]. exists v. split; [done|]. unfold in_force.
    destruct Ht as (_ & _ & _ & _ & ->). split; [done|]. lia.
  - destruct (SelectionPolicyAtHeight id height s') as [q'|e'] eqn:E'; simpl.
    + apply (resolve_iff h') in E' as (v & Hv' & Hf1 & Hf2); [|done].
      destruct (version_of s id v) as [q|] eqn:Hv.
      * destruct (Ho id v q Hv) as (x & Hx & (_ & _ & _ & _ & Hf) & Hu).
        replace x with q' in * by congruence.
        assert (SelectionPolicyAtHeight id height s = Ok q) as Hok; [|congruence].
        apply (resolve_iff h); [done|]. exists v. split; [done|]. unfold in_force. lia.
      * destruct (Hn id v q' Hv' Hv) as [Hg Hg'].
        destruct Hle as [?|[? Hs]]; [lia|]. specialize (Hg' Hs). lia.
    + by rewrite (resolve_error h s id height e Hpi E), (resolve_error h' s' id height e' Hpi' E').
Qed.

(** Versions after the second start at least a cooldown apart. *)
Lemma version_spacing h s id slot (n : nat) v q q' : policy_inv h s →
  Cs_Slots s !! id = Some slot → 2 ≤ v →
  version_of s id v = Some q → version_of s id (v + Z.of_nat n) = Some q' →
  SPV_ValidFromHeight q + Z.of_nat n * HardMinSelectionPolicyUpdateCooldownBlocks ≤
    SPV_ValidFromHeight q'.
Proof.
  intros Hpi Hs Hv Hq. pose proof (pi_history _ _ Hpi id slot Hs) as Hh. revert q'.
  induction n as [|n IH]; intros q' Hq'.
  - rewrite Z.add_0_r in Hq'. replace q' with q by congruence. lia.
  - destruct (version_exists h s id slot Hpi Hs (v + Z.of_nat n)) as [x Hx].
    { pose proof (proj1 (ho_versions _ _ _ _ Hh _) (mk_is_Some _ _ Hq')). lia. }
    specialize (IH x Hx). replace (v + Z.of_nat (S n)) with (v + Z.of_nat n + 1) in Hq' by lia.
    destruct (ho_next _ _ _ _ Hh _ x q' Hx Hq') as (_ & _ & Hc). specialize (Hc ltac:(lia)). lia.
Qed.

Lemma version_count h s id slot : policy_inv h s → Cs_Slots s !! id = Some slot →
  (CurrentSelectionPolicyVersion slot - 2) * HardMinSelectionPolicyUpdateCooldownBlocks < h.
Proof.
  intros Hpi Hs. pose proof (pi_history _ _ Hpi id slot Hs) as Hh.
  set (c := CurrentSelectionPolicyVersion slot).
  pose proof (ho_current _ _ _ _ Hh) as Hc. fold c in Hc.
  destruct (version_exists h s id slot Hpi Hs 1) as [q1 Hq1]; [lia|].
  destruct (ho_row _ _ _ _ Hh 1 q1 Hq1) as (_ & _ & Hf1 & _).
  unfold HardMinSelectionPolicyUpdateCooldownBlocks in *.
  destruct (decide (2 ≤ c)) as [H2|H2]; [|lia].
  destruct (version_exists h s id slot Hpi Hs 2) as [q2 Hq2]; [lia|].
  destruct (version_exists h s id slot Hpi Hs c) as [qc Hqc]; [lia|].
  destruct (ho_next _ _ _ _ Hh 1 q1 q2 Hq1 Hq2) as (_ & Hlt & _).
  destruct (ho_row _ _ _ _ Hh c qc Hqc) as (_ & _ & Hfc & _).
  pose proof (version_spacing h s id slot (Z.to_nat (c - 2)) 2 q2 qc Hpi Hs ltac:(lia) Hq2) as Hsp.
  unfold HardMinSelectionPolicyUpdateCooldownBlocks in Hsp.
  replace (2 + Z.of_nat (Z.to_nat (c - 2))) with c in Hsp by lia. specialize (Hsp Hqc). lia.
Qed.
End resolution.
