(* ===== verification/CoreSlotGenesis.v ===== *)
(** * x/coreslot genesis: validation, import and export

    [GenesisState.Validate] and its helpers ([x/coreslot/types/genesis.go]) and
    [InitGenesis], [ExportGenesis] ([x/coreslot/keeper/genesis.go]).  A repeated
    message field of Go is a slice of pointers, any of which may be nil: a list of
    options.  Go maps used as sets are finite sets; a slice is shorter than
    2^63, so counting its elements does not wrap.  [LegacyNewDecFromStr] is not
    code of this repository: it is the class [DecCodec]. *)
From S2P Require Import Prelude Checked SdkMath Bounds EconomicAddress RewardsTypes.
From S2P Require Import Collections CoreSlotTypes CoreSlotState CoreSlot CoreSlotMsgs.
From S2P Require Import CoreSlotEndBlock.
From Stdlib Require Import String.
Local Open Scope Z_scope.

Record PendingAuthorityTransferEntry := {
  PATE_Role : AuthorityRole;
  PATE_Transfer : option PendingAuthorityTransfer
}.

(** [GenesisState] *)
Record CoreSlotGenesis := {
  CG_Params : option CoreSlotParams;
  CG_Slots : list (option CoreSlot);
  CG_PendingKeyRotations : list (option PendingKeyRotation);
  CG_ReservedConsensusAddresses : list (option ReservedConsensusAddress);
  CG_RewardWeights : list (option OperatorRewardWeight);
  CG_LastAppliedValidators : list (option LastAppliedValidator);
  CG_NextSlotId : Z;
  CG_SelectionPolicies : list (option SelectionPolicyVersion);
  CG_PendingAuthorityTransfers : list (option PendingAuthorityTransferEntry)
}.

(** [DefaultGenesis] *)
Definition DefaultCoreSlotGenesis (authority emergencyAuthority : string) : CoreSlotGenesis := {|
  CG_Params := Some (DefaultCoreSlotParams authority emergencyAuthority);
  CG_Slots := []; CG_PendingKeyRotations := []; CG_ReservedConsensusAddresses := [];
  CG_RewardWeights := []; CG_LastAppliedValidators := []; CG_NextSlotId := 1;
  CG_SelectionPolicies := []; CG_PendingAuthorityTransfers := [] |}.

Section validate.
Context {BE : Bech32} {PK : PubKeyCodec} {DC : DecCodec}.

Definition ValidateWeight (weight : string) : res unit :=
  fail_if (bool_decide (TrimSpace weight = EmptyString)) ErrPlain ;;
  match LegacyNewDecFromStr weight with
  | None => Err ErrExternal
  | Some v => fail_if (v <? 0) ErrPlain
  end.

Definition currentRoleHolder (params : CoreSlotParams) (role : AuthorityRole) : string :=
  if role =? AUTHORITY_ROLE_EMERGENCY then EmergencyAuthority params else Authority params.

(** The body of the loop over the nominations; [seen] collects their roles. *)
Definition checkTransfer (g : CoreSlotGenesis) (seen : gset Z)
    (entry : option PendingAuthorityTransferEntry) : res (gset Z) :=
  match entry with
  | None => Err ErrPlain
  | Some entry =>
      match PATE_Transfer entry with
      | None => Err ErrPlain
      | Some transfer =>
          let role : Z := PATE_Role entry in
          fail_if (negb ((role =? AUTHORITY_ROLE_PRIMARY) || (role =? AUTHORITY_ROLE_EMERGENCY)))
            ErrPlain ;;
          fail_if (bool_decide (role ∈ seen)) ErrPlain ;;
          fail_if (bool_decide (AccAddressFromBech32 (PAT_Nominee transfer) = None)) ErrExternal ;;
          fail_if (PAT_NominatedHeight transfer <=? 0) ErrPlain ;;
          params ← deref_ptr (CG_Params g);
          fail_if (bool_decide (PAT_Nominee transfer = currentRoleHolder params role)) ErrPlain ;;
          mret ({[role]} ∪ seen)
      end
  end.

Definition validatePendingAuthorityTransfers (g : CoreSlotGenesis) : res unit :=
  fold_m (checkTransfer g) (CG_PendingAuthorityTransfers g) ∅ ;; mret tt.

Definition indexGenesisPolicies (rows : list (option SelectionPolicyVersion))
    : res (gmap Z SelectionPolicyVersion) :=
  fold_m (λ (policies : gmap Z SelectionPolicyVersion) row,
    match row with
    | None => Err CsInvalidGenesis
    | Some row =>
        fail_if (bool_decide (is_Some (policies !! SPV_SlotId row))) CsInvalidGenesis ;;
        mret (<[SPV_SlotId row := row]> policies)
    end) rows ∅.

Definition validateFreshGenesisSlot (slot : CoreSlot) (policies : gmap Z SelectionPolicyVersion)
    : res unit :=
  match Status slot with
  | SLOT_STATUS_PENDING =>
      fail_if (negb (ActivationSequence slot =? 0) || negb (ActivatedHeight slot =? 0) ||
               negb (ActivationEffectiveHeight slot =? 0)) CsInvalidGenesis
  | SLOT_STATUS_ACTIVE =>
      fail_if (negb (ActivationSequence slot =? 1)) CsInvalidGenesis ;;
      fail_if ((ActivatedHeight slot <? 1) ||
               negb (ActivationEffectiveHeight slot =? ActivatedHeight slot)) CsInvalidGenesis
  | _ => Err CsInvalidGenesis
  end ;;
  fail_if (bool_decide (AccAddressFromBech32 (SettlementAddress slot) = None)) CsInvalidGenesis ;;
  fail_if (negb (CurrentSelectionPolicyVersion slot =? 1)) CsInvalidGenesis ;;
  fail_if (negb (LastSelectionPolicyUpdateHeight slot =? 0)) CsInvalidGenesis ;;
  match policies !! SlotId slot with
  | None => Err CsInvalidGenesis
  | Some policy =>
      fail_if (negb (SPV_PolicyVersion policy =? 1)) CsInvalidGenesis ;;
      fail_if (negb (SPV_ValidUntilHeightExclusive policy =? 0)) CsInvalidGenesis ;;
      wrap CsInvalidGenesis (ValidateSelectionPolicyValues (SPV_SelectionRateBps policy)
        (SPV_MaxSelectedParticipants policy))
  end.

Definition consensusAddressHex (value : option Any) : res string :=
  match value with
  | None => Err ErrPlain
  | Some value =>
      fail_if (bool_decide (Any_TypeUrl value ≠ "/cosmos.crypto.ed25519.PubKey"%string)) ErrPlain ;;
      match Unmarshal (Any_Value value) with
      | None => Err ErrExternal
      | Some key =>
          fail_if (bool_decide (String.length key ≠ PubKeySize)) ErrPlain ;;
          mret (fmtHex (Address key))
      end
  end.

Definition validateConsensusPubKey (value : option Any) : res unit :=
  match value with
  | None => Err ErrPlain
  | Some value =>
      fail_if (bool_decide (Any_TypeUrl value ≠ "/cosmos.crypto.ed25519.PubKey"%string)) ErrPlain ;;
      match Unmarshal (Any_Value value) with
      | None => Err ErrExternal
      | Some key => fail_if (bool_decide (String.length key ≠ PubKeySize)) ErrPlain
      end
  end.

(** [expectedValidator]: slot and power. *)
Definition expectedValidator : Type := Z * Z.

(** The local variables of the slot loop of [Validate]. *)
Record slotScan := {
  sc_ids : gset Z;
  sc_operators : gset string;
  sc_keys : gset string;
  sc_activeValidators : gmap string expectedValidator;
  sc_active : Z;
  sc_maxSlotID : Z
}.

(** The body of the slot loop. *)
Definition scanSlot (params : CoreSlotParams) (policies : gmap Z SelectionPolicyVersion)
    (c : slotScan) (slot : option CoreSlot) : res slotScan :=
  match slot with
  | None => Err ErrPlain
  | Some slot =>
      let id := SlotId slot in
      fail_if (id =? 0) ErrPlain ;;
      fail_if (bool_decide (id ∈ sc_ids c)) ErrPlain ;;
      let maxSlotID := if id >? sc_maxSlotID c then id else sc_maxSlotID c in
      validateFreshGenesisSlot slot policies ;;
      fail_if (bool_decide (AccAddressFromBech32 (OperatorAddress slot) = None)) ErrExternal ;;
      fail_if (bool_decide (AccAddressFromBech32 (PayoutAddress slot) = None)) ErrExternal ;;
      let removed := bool_decide (Status slot = SLOT_STATUS_REMOVED) in
      fail_if (negb removed && bool_decide (OperatorAddress slot ∈ sc_operators c)) ErrPlain ;;
      let operators := if removed then sc_operators c
        else {[OperatorAddress slot]} ∪ sc_operators c in
      match ConsensusPubkey slot with
      | None => Err ErrPlain
      | Some any =>
          fail_if (bool_decide (Any_Value any = EmptyString)) ErrPlain ;;
          validateConsensusPubKey (Some any) ;;
          let key := (Any_TypeUrl any ++ Any_Value any)%string in
          fail_if (bool_decide (key ∈ sc_keys c)) ErrPlain ;;
          ValidateWeight (RewardWeight slot) ;;
          let c := {| sc_ids := {[id]} ∪ sc_ids c; sc_operators := operators;
            sc_keys := {[key]} ∪ sc_keys c; sc_activeValidators := sc_activeValidators c;
            sc_active := sc_active c; sc_maxSlotID := maxSlotID |} in
          if bool_decide (Status slot = SLOT_STATUS_ACTIVE) then
            fail_if (negb (ConsensusPower slot =? SlotVotingPower params)) ErrPlain ;;
            addr ← consensusAddressHex (Some any);
            mret (c <| sc_active := sc_active c + 1 |>
              <| sc_activeValidators := <[addr := (id, ConsensusPower slot)]>
                   (sc_activeValidators c) |>)
          else
            fail_if (negb (ConsensusPower slot =? 0)) ErrPlain ;;
            mret c
      end
  end.

Definition scanSlots (params : CoreSlotParams) (policies : gmap Z SelectionPolicyVersion)
    (slots : list (option CoreSlot)) : res slotScan :=
  fold_m (scanSlot params policies) slots
    {| sc_ids := ∅; sc_operators := ∅; sc_keys := ∅; sc_activeValidators := ∅;
       sc_active := 0; sc_maxSlotID := 0 |}.

(** The check of the supplied last-applied set against the active slots. *)
Definition checkValidator (activeValidators : gmap string expectedValidator) (seen : gset string)
    (validator : option LastAppliedValidator) : res (gset string) :=
  match validator with
  | None => Err CsInvalidGenesis
  | Some validator =>
      fail_if (bool_decide (LAV_ConsensusPubkey validator = None)) CsInvalidGenesis ;;
      addr ← wrap CsInvalidGenesis (consensusAddressHex (LAV_ConsensusPubkey validator));
      match activeValidators !! addr with
      | None => Err CsInvalidGenesis
      | Some (slotID, power) =>
          fail_if (negb (LAV_SlotId validator =? slotID) || negb (LAV_Power validator =? power))
            CsInvalidGenesis ;;
          fail_if (bool_decide (addr ∈ seen)) CsInvalidGenesis ;;
          mret ({[addr]} ∪ seen)
      end
  end.
Definition checkLastApplied (activeValidators : gmap string expectedValidator)
    (validators : list (option LastAppliedValidator)) : res unit :=
  seen ← fold_m (checkValidator activeValidators) validators ∅;
  fail_if (bool_decide (size seen ≠ size activeValidators)) CsInvalidGenesis.

(** [GenesisState.Validate] *)
Definition CoreSlotGenesis_Validate (g : CoreSlotGenesis) : res unit :=
  match CG_Params g with
  | None => Err ErrPlain
  | Some params =>
      CoreSlotParams_Validate params ;;
      validatePendingAuthorityTransfers g ;;
      policies ← indexGenesisPolicies (CG_SelectionPolicies g);
      c ← scanSlots params policies (CG_Slots g);
      fail_if (bool_decide (CG_PendingKeyRotations g ≠ [])) CsInvalidGenesis ;;
      fail_if ((sc_active c <? MinActiveSlots params) || (sc_active c >? MaxActiveSlots params))
        ErrPlain ;;
      fail_if (sc_active c >? HardMaxActiveCoreSlots) ErrPlain ;;
      fail_if (sc_active c >? u64 (Z.quot MaxInt64 (SlotVotingPower params))) ErrPlain ;;
      fail_if (bool_decide (¬ dom policies ⊆ sc_ids c)) CsInvalidGenesis ;;
      nextFromMax ← wrap CsInvalidGenesis (AddUint64 (sc_maxSlotID c) 1);
      fail_if (CG_NextSlotId g <? nextFromMax) CsInvalidGenesis ;;
      for_each (λ weight, match weight with
        | None => Err CsInvalidGenesis
        | Some weight => fail_if (bool_decide (ORW_SlotId weight ∉ sc_ids c)) CsInvalidGenesis
        end) (CG_RewardWeights g) ;;
      fold_m (λ (reserved : gset string) reservation, match reservation with
        | None => Err CsInvalidGenesis
        | Some reservation =>
            let addr := fmtHex (RCA_ConsAddress reservation) in
            fail_if (bool_decide (addr ∈ reserved)) CsInvalidGenesis ;;
            mret ({[addr]} ∪ reserved)
        end) (CG_ReservedConsensusAddresses g) ∅ ;;
      match CG_LastAppliedValidators g with
      | [] => mret tt
      | validators => checkLastApplied (sc_activeValidators c) validators
      end
  end.

Definition EffectiveInitialHeight (height : Z) : res Z :=
  fail_if (height <? 0) CsInvalidGenesis ;;
  if height =? 0 then mret 1 else mret height.

Definition ValidateFreshGenesisInitialHeight (genesis : option CoreSlotGenesis)
    (initialHeight : Z) : res unit :=
  match genesis with
  | None => Err CsInvalidGenesis
  | Some genesis =>
      fail_if (initialHeight <? 1) CsInvalidGenesis ;;
      for_each (λ slot,
        slot ← deref_ptr slot;
        fail_if (bool_decide (Status slot = SLOT_STATUS_ACTIVE) &&
          (negb (ActivatedHeight slot =? initialHeight) ||
           negb (ActivationEffectiveHeight slot =? initialHeight))) CsInvalidGenesis)
        (CG_Slots genesis) ;;
      for_each (λ policy,
        policy ← deref_ptr policy;
        fail_if (negb (SPV_ValidFromHeight policy =? initialHeight)) CsInvalidGenesis)
        (CG_SelectionPolicies genesis)
  end.
End validate.

(** ** keeper/genesis.go *)
Section keeper.
Context {BE : Bech32} {PK : PubKeyCodec} {DC : DecCodec}.
Context (economicAddresses : Validator).
Implicit Types (s : CoreSlotState) (genesis : CoreSlotGenesis).

Definition validateGenesisEconomicAddresses genesis : res unit :=
  for_each (λ slot, match slot with
    | None => mret tt
    | Some slot =>
        wrap CsInvalidAddress (ParseAccountAddress economicAddresses (OperatorAddress slot)) ;;
        wrap CsInvalidAddress (Validate economicAddresses (PayoutAddress slot)) ;;
        wrap CsInvalidAddress (Validate economicAddresses (SettlementAddress slot)) ;;
        mret tt
    end) (CG_Slots genesis) ;;
  for_each (λ entry, match entry with
    | Some {| PATE_Transfer := Some transfer |} =>
        wrap CsInvalidAddress (Validate economicAddresses (PAT_Nominee transfer)) ;; mret tt
    | _ => Err CsInvalidGenesis
    end) (CG_PendingAuthorityTransfers genesis).

Definition initPendingAuthorityTransfers genesis : CM unit :=
  for_each (λ entry,
    entry ← lift (deref_ptr entry);
    key ← lift (wrap CsInvalidGenesis (authorityRoleKey (PATE_Role entry)));
    transfer ← lift (deref_ptr (PATE_Transfer entry));
    setPendingAuthority key transfer) (CG_PendingAuthorityTransfers genesis).

(** The loops of [InitGenesis] that write one record each. *)
Definition initSlot (slot : option CoreSlot) : CM unit :=
  slot ← lift (deref_ptr slot);
  '(key, _) ← lift (consensusKey (ConsensusPubkey slot));
  setSlot slot ;;
  setByOperator (OperatorAddress slot) (SlotId slot) ;;
  setByConsensus key (SlotId slot) ;;
  if bool_decide (Status slot = SLOT_STATUS_ACTIVE) then setSlotActive (SlotId slot) else mret tt.
Definition initPolicy (policy : option SelectionPolicyVersion) : CM unit :=
  policy ← lift (deref_ptr policy); writePolicyVersion policy.
Definition initRotation (rotation : option PendingKeyRotation) : CM unit :=
  rotation ← lift (deref_ptr rotation); setRotation rotation (PKR_SlotId rotation).
Definition initReserved (r : option ReservedConsensusAddress) : CM unit :=
  r ← lift (deref_ptr r); setReserved (fmtHex (RCA_ConsAddress r)) r.
Definition initWeight (weight : option OperatorRewardWeight) : CM unit :=
  weight ← lift (deref_ptr weight); setRewardWeight (ORW_SlotId weight) weight.

(** [assertGenesisValidatorConsistency]: the walks of the slot rows and of the
    last-applied set, then the counts. *)
Definition countRecordActive (active : gset Z) s : res Z :=
  fold_m (λ n '(id, slot),
    let live := bool_decide (Status slot = SLOT_STATUS_ACTIVE) in
    fail_if (negb (Bool.eqb live (bool_decide (id ∈ active)))) CsInvalidGenesis ;;
    mret (if live then n + 1 else n)) (entries (Cs_Slots s)) 0.
Definition lastAppliedSlots s : res (gset Z) :=
  fold_m (λ (seen : gset Z) validator,
    fail_if (bool_decide (LAV_SlotId validator ∈ seen)) CsInvalidGenesis ;;
    mret ({[LAV_SlotId validator]} ∪ seen)) (snd <$> map_to_list (Cs_LastApplied s)) ∅.
Definition assertGenesisValidatorConsistency (updates : list ValidatorUpdate) s : res unit :=
  activeSlots ← ActiveSlotRows s;
  let active : gset Z := list_to_set (SlotId <$> activeSlots) in
  recordActive ← countRecordActive active s;
  fail_if (negb (recordActive =? Z.of_nat (size active))) CsInvalidGenesis ;;
  lastApplied ← lastAppliedSlots s;
  fail_if (bool_decide (size lastApplied ≠ size active)) CsInvalidGenesis ;;
  fail_if (bool_decide (¬ active ⊆ lastApplied)) CsInvalidGenesis ;;
  fail_if (bool_decide (List.length updates ≠ size active)) CsInvalidGenesis.

(** [InitGenesis]; [height] is the block height of the context, zero for a chain
    that starts at height one. *)
Definition InitGenesis (height : Z) genesis : CM (list ValidatorUpdate) :=
  lift (CoreSlotGenesis_Validate genesis) ;;
  initialHeight ← lift (EffectiveInitialHeight height);
  lift (ValidateFreshGenesisInitialHeight (Some genesis) initialHeight) ;;
  lift (validateGenesisEconomicAddresses genesis) ;;
  params ← lift (deref_ptr (CG_Params genesis));
  setParams params ;;
  initPendingAuthorityTransfers genesis ;;
  for_each initSlot (CG_Slots genesis) ;;
  for_each initPolicy (CG_SelectionPolicies genesis) ;;
  for_each initRotation (CG_PendingKeyRotations genesis) ;;
  for_each initReserved (CG_ReservedConsensusAddresses genesis) ;;
  for_each initWeight (CG_RewardWeights genesis) ;;
  setNextSlotID (CG_NextSlotId genesis) ;;
  updates ← diffAndPersist;
  reads (assertGenesisValidatorConsistency updates) ;;
  mret updates.

(** The store of a new chain. *)
Definition emptyCoreSlotState : CoreSlotState := {|
  Cs_Params := None; Cs_Slots := ∅; Cs_ByOperator := ∅; Cs_ByConsensus := ∅; Cs_Reserved := ∅;
  Cs_Rotations := ∅; Cs_LastApplied := ∅; Cs_RewardWeights := ∅; Cs_NextSlotID := None;
  Cs_PendingAuthority := ∅; Cs_SelectionPolicies := ∅; Cs_ActiveSlots := ∅;
  Cs_PolicyStarts := ∅ |}.

(** The values of a map in ascending key order. *)
Definition str_key_le {A} (a b : string * A) : Prop := str_le (fst a) (fst b).
#[export] Instance str_key_le_dec {A} : RelDecision (@str_key_le A).
Proof. intros a b. unfold str_key_le. apply _. Defined.
Definition str_values {A} (m : gmap string A) : list A :=
  snd <$> merge_sort str_key_le (map_to_list m).
Definition pair_values {A} (m : gmap (Z * Z) A) : list A :=
  snd <$> pair_entries m.
Definition values {A} (m : gmap Z A) : list A := snd <$> entries m.

(** [ExportGenesis] *)
Definition ExportGenesis s : res CoreSlotGenesis :=
  params ← coll_get (Cs_Params s);
  mret {|
    CG_Params := Some params;
    CG_Slots := Some <$> values (Cs_Slots s);
    CG_PendingKeyRotations := Some <$> values (Cs_Rotations s);
    CG_ReservedConsensusAddresses := Some <$> str_values (Cs_Reserved s);
    CG_RewardWeights := Some <$> values (Cs_RewardWeights s);
    CG_LastAppliedValidators := Some <$> str_values (Cs_LastApplied s);
    CG_NextSlotId := default 0 (Cs_NextSlotID s);
    CG_SelectionPolicies := Some <$> pair_values (Cs_SelectionPolicies s);
    CG_PendingAuthorityTransfers :=
      (λ '(key, value), Some {| PATE_Role := key; PATE_Transfer := Some value |}) <$>
        entries (Cs_PendingAuthority s) |}.
End keeper.
