(* ===== verification/CoreSlotGenesisInvariant.v ===== *)
(** * x/coreslot: what a valid genesis establishes

    The facts each loop of [Validate] leaves behind, the store the write loops of
    [InitGenesis] build, and both invariants of that store.  A genesis whose
    slots have distinct consensus addresses is imported without an error. *)
From S2P Require Import Prelude Checked SdkMath Bounds EconomicAddress RewardsTypes.
From S2P Require Import Collections CoreSlotTypes CoreSlotState CoreSlot CoreSlotMsgs.
From S2P Require Import CoreSlotEndBlock CoreSlotInvariant CoreSlotLifecycle CoreSlotValidators.
From S2P Require Import CoreSlotPolicy CoreSlotRows CoreSlotBlocks CoreSlotGenesis.
From Stdlib Require Import String.
Local Open Scope Z_scope.

Section genesis.
Context {BE : Bech32} {PK : PubKeyCodec} {DC : DecCodec} (econ : Validator).
Implicit Types (s : CoreSlotState) (p : CoreSlotParams) (slot row : CoreSlot)
  (rows : list CoreSlot) (g : CoreSlotGenesis) (q : SelectionPolicyVersion).

(** ** What validation knows of the rows *)
Lemma consensusAddressHex_Ok any key : consensusAddressHex any = Ok key ↔ key_of any = Some key.
Proof.
  unfold consensusAddressHex, key_of, consensusKey, decodePubKey.
  destruct any as [any|]; [|by split]. unfold fail_if.
  destruct (bool_decide _); simpl; [by split|].
  destruct (Unmarshal _); simpl; [|by split]. destruct (bool_decide _); simpl; [by split|].
  by split; intros [= <-].
Qed.

Lemma validateConsensusPubKey_Ok any : validateConsensusPubKey any = Ok tt →
  is_Some (key_of any).
Proof.
  intros H. assert (∃ key, consensusAddressHex any = Ok key) as [key Hk].
  { unfold validateConsensusPubKey, consensusAddressHex in *. destruct any as [any|]; [|done].
    unfold fail_if in *. destruct (bool_decide _); simpl in *; [done|].
    destruct (Unmarshal _); simpl in *; [|done]. destruct (bool_decide _); simpl in *; eauto. done. }
  exists key. by apply consensusAddressHex_Ok.
Qed.

Record fresh_row p (policies : gmap Z SelectionPolicyVersion) row : Prop := {
  fr_id : SlotId row ≠ 0;
  fr_status : Status row = SLOT_STATUS_PENDING ∨ Status row = SLOT_STATUS_ACTIVE;
  fr_current : CurrentSelectionPolicyVersion row = 1;
  fr_updated : LastSelectionPolicyUpdateHeight row = 0;
  fr_key : is_Some (key_of (ConsensusPubkey row));
  fr_power : ConsensusPower row =
    if decide (Status row = SLOT_STATUS_ACTIVE) then SlotVotingPower p else 0;
  fr_policy : ∃ q, policies !! SlotId row = Some q ∧ SPV_PolicyVersion q = 1 ∧
    SPV_ValidUntilHeightExclusive q = 0 ∧
    ValidateSelectionPolicyValues (SPV_SelectionRateBps q) (SPV_MaxSelectedParticipants q) = Ok tt
}.

Lemma validateFreshGenesisSlot_Ok slot policies :
  validateFreshGenesisSlot slot policies = Ok tt →
  (Status slot = SLOT_STATUS_PENDING ∨ Status slot = SLOT_STATUS_ACTIVE) ∧
  CurrentSelectionPolicyVersion slot = 1 ∧ LastSelectionPolicyUpdateHeight slot = 0 ∧
  ∃ q, policies !! SlotId slot = Some q ∧ SPV_PolicyVersion q = 1 ∧
    SPV_ValidUntilHeightExclusive q = 0 ∧
    ValidateSelectionPolicyValues (SPV_SelectionRateBps q) (SPV_MaxSelectedParticipants q) = Ok tt.
Proof.
  unfold validateFreshGenesisSlot. intros H. minv. zify_bool.
  destruct (policies !! SlotId slot) as [q|]; [|done]. minv. zify_bool.
  split; [|by eauto 7]. destruct (Status slot); try done; auto.
Qed.

Definition active_rows rows : list CoreSlot :=
  base.filter (λ row, Status row = SLOT_STATUS_ACTIVE) rows.

Lemma scanSlot_Ok p policies c (slot : option CoreSlot) c' :
  scanSlot p policies c slot = Ok c' →
  ∃ row, slot = Some row ∧ fresh_row p policies row ∧
    SlotId row ∉ sc_ids c ∧ OperatorAddress row ∉ sc_operators c ∧
    sc_ids c' = {[SlotId row]} ∪ sc_ids c ∧
    sc_operators c' = {[OperatorAddress row]} ∪ sc_operators c ∧
    sc_active c' = sc_active c + Z.of_nat (List.length (active_rows [row])) ∧
    sc_maxSlotID c ≤ sc_maxSlotID c' ∧ SlotId row ≤ sc_maxSlotID c'.
Proof.
  unfold scanSlot. destruct slot as [row|]; [|done]. intros H. minv. zify_bool.
  match goal with H : validateFreshGenesisSlot _ _ = Ok _ |- _ =>
    apply validateFreshGenesisSlot_Ok in H as (Hst & Hcur & Hupd & Hpol) end.
  assert (Status row ≠ SLOT_STATUS_REMOVED) as Hnr by (destruct Hst; congruence).
  rewrite (bool_decide_eq_false_2 (Status row = SLOT_STATUS_REMOVED)) in * by done.
  destruct (ConsensusPubkey row) as [any|] eqn:Hany; [|done]. minv.
  match goal with H : validateConsensusPubKey _ = Ok _ |- _ =>
    apply validateConsensusPubKey_Ok in H as Hkey end.
  exists row. unfold active_rows. rewrite filter_cons.
  assert (sc_maxSlotID c ≤ (if SlotId row >? sc_maxSlotID c then SlotId row else sc_maxSlotID c) ∧
    SlotId row ≤ (if SlotId row >? sc_maxSlotID c then SlotId row else sc_maxSlotID c)) as Hmax.
  { destruct (_ >? _) eqn:E; zify_bool; lia. }
  match goal with H : (if _ then _ else _) = Ok c' |- _ => rename H into Hlast end.
  simpl in *. repeat match goal with
    H : bool_decide _ = false |- _ => apply bool_decide_eq_false_1 in H end.
  destruct (decide (Status row = SLOT_STATUS_ACTIVE)) as [Ha|Hna].
  - rewrite bool_decide_eq_true_2 in Hlast by done. minv. zify_bool. simpl in *.
    split_and!; try done; try lia. split; try done; [by rewrite Hany|]. by rewrite decide_True.
  - rewrite bool_decide_eq_false_2 in Hlast by done. minv. zify_bool. simpl in *.
    split_and!; try done; try lia. split; try done; [by rewrite Hany|]. by rewrite decide_False.
Qed.

Record scanned p policies (c0 c : slotScan) rows : Prop := {
  sd_rows row : row ∈ rows → fresh_row p policies row ∧ SlotId row ∉ sc_ids c0 ∧
    OperatorAddress row ∉ sc_operators c0 ∧ SlotId row ≤ sc_maxSlotID c;
  sd_ids_distinct : NoDup (SlotId <$> rows);
  sd_operators_distinct : NoDup (OperatorAddress <$> rows);
  sd_ids : sc_ids c = list_to_set (SlotId <$> rows) ∪ sc_ids c0;
  sd_active : sc_active c = sc_active c0 + Z.of_nat (List.length (active_rows rows));
  sd_max : sc_maxSlotID c0 ≤ sc_maxSlotID c
}.

Lemma scan_Ok p policies (slots : list (option CoreSlot)) c0 c :
  fold_m (scanSlot p policies) slots c0 = Ok c →
  ∃ rows, slots = Some <$> rows ∧ scanned p policies c0 c rows.
Proof.
  revert c0. induction slots as [|slot slots IH]; intros c0 H; cbn [fold_m] in H.
  { injection H as <-. exists []. split; [done|]. split; simpl.
    - intros row Hrow. by apply elem_of_nil in Hrow.
    - constructor.
    - constructor.
    - by rewrite (left_id_L ∅ (∪)).
    - lia.
    - lia. }
  apply res_bind_Ok in H as (c1 & H1 & H).
  apply scanSlot_Ok in H1 as (row & -> & Hrow & Hid & Hop & Hids & Hops & Hac & Hm & Hle).
  destruct (IH c1 H) as (rows & -> & []). exists (row :: rows). split; [done|]. split.
  - intros x [->|Hx]%elem_of_cons; [split_and!; try done; lia|].
    destruct (sd_rows0 x Hx) as (? & ? & ? & ?). split_and!; try done; set_solver.
  - rewrite fmap_cons. constructor; [|done]. intros (x & He & Hx)%list_elem_of_fmap.
    destruct (sd_rows0 x Hx) as (_ & Hn & _). set_solver.
  - rewrite fmap_cons. constructor; [|done]. intros (x & He & Hx)%list_elem_of_fmap.
    destruct (sd_rows0 x Hx) as (_ & _ & Hn & _). set_solver.
  - rewrite sd_ids0, Hids. set_solver.
  - rewrite sd_active0, Hac. unfold active_rows.
    change (row :: rows) with ([row] ++ rows). rewrite filter_app, length_app. lia.
  - lia.
Qed.

Lemma indexGenesisPolicies_Ok l m0 m :
  fold_m (λ (policies : gmap Z SelectionPolicyVersion) (x : option SelectionPolicyVersion),
    match x with
    | None => Err CsInvalidGenesis
    | Some q =>
        fail_if (bool_decide (is_Some (policies !! SPV_SlotId q))) CsInvalidGenesis ;;
        mret (<[SPV_SlotId q := q]> policies)
    end) l m0 = Ok m →
  ∃ qs, l = Some <$> qs ∧ NoDup (SPV_SlotId <$> qs) ∧
    (∀ q, q ∈ qs → m0 !! SPV_SlotId q = None) ∧
    ∀ id q, m !! id = Some q ↔ (q ∈ qs ∧ SPV_SlotId q = id) ∨ m0 !! id = Some q.
Proof.
  revert m0. induction l as [|x l IH]; intros m0 H; cbn [fold_m] in H.
  { injection H as <-. exists []. split_and!; try done; [constructor | set_solver..]. }
  apply res_bind_Ok in H as (m1 & H1 & H). destruct x as [q|]; [|done]. minv.
  match goal with H : bool_decide _ = false |- _ =>
    apply bool_decide_eq_false_1, eq_None_not_Some in H as Hnone end.
  destruct (IH _ H) as (qs & -> & Hnd & Hfree & Hin). exists (q :: qs). split_and!; [done| | |].
  - rewrite fmap_cons. constructor; [|done]. intros (x & He & Hx)%list_elem_of_fmap.
    specialize (Hfree x Hx). by rewrite He, lookup_insert_eq in Hfree.
  - intros x [->|Hx]%elem_of_cons; [done|]. specialize (Hfree x Hx).
    by apply lookup_insert_None in Hfree as [? _].
  - intros id x. rewrite Hin, lookup_insert_Some, elem_of_cons. naive_solver.
Qed.

(** ** The write loops *)
Definition row_key row : string := default EmptyString (key_of (ConsensusPubkey row)).

Lemma row_key_of row : is_Some (key_of (ConsensusPubkey row)) →
  key_of (ConsensusPubkey row) = Some (row_key row).
Proof. intros [k Hk]. unfold row_key. by rewrite Hk. Qed.

Definition slots_written rows s : CoreSlotState :=
  s <| Cs_Slots := insert_all SlotId (λ row, row) rows (Cs_Slots s) |>
    <| Cs_ByOperator := insert_all OperatorAddress SlotId rows (Cs_ByOperator s) |>
    <| Cs_ByConsensus := insert_all row_key SlotId rows (Cs_ByConsensus s) |>
    <| Cs_ActiveSlots := list_to_set (SlotId <$> active_rows rows) ∪ Cs_ActiveSlots s |>.

Lemma init_slots rows s :
  (∀ row, row ∈ rows → is_Some (key_of (ConsensusPubkey row))) →
  for_each initSlot (Some <$> rows) s = (slots_written rows s, Ok tt).
Proof.
  revert s. induction rows as [|row rows IH]; intros s Hk; cbn [fmap list_fmap for_each].
  { unfold slots_written. simpl. rewrite (left_id_L ∅ (∪)). by destruct s. }
  pose proof (row_key_of row (Hk row ltac:(left))) as (addr & Hck)%key_of_Some.
  rewrite (M_bind_run _ _ s (s <| Cs_Slots := <[SlotId row := row]> (Cs_Slots s) |>
    <| Cs_ByOperator := <[OperatorAddress row := SlotId row]> (Cs_ByOperator s) |>
    <| Cs_ByConsensus := <[row_key row := SlotId row]> (Cs_ByConsensus s) |>
    <| Cs_ActiveSlots := list_to_set (SlotId <$> active_rows [row]) ∪ Cs_ActiveSlots s |>) tt).
  - rewrite IH by (intros; apply Hk; by right). unfold slots_written, active_rows.
    change (row :: rows) with ([row] ++ rows). rewrite filter_app, fmap_app, list_to_set_app_L.
    cbn. rewrite (assoc_L (∪)). by rewrite (comm_L (∪) (list_to_set (SlotId <$> _)) _).
  - unfold initSlot, lift. cbn [deref_ptr].
    rewrite (M_bind_run _ _ s s row) by done.
    rewrite (M_bind_run _ _ s s (row_key row, addr)) by by rewrite Hck.
    cs_writes. unfold modify, active_rows. do 3 (erewrite M_bind_run by done).
    rewrite filter_cons. destruct (decide (Status row = SLOT_STATUS_ACTIVE)) as [Ha|Ha].
    + rewrite bool_decide_eq_true_2 by done. cbn. by rewrite (right_id_L ∅ (∪)).
    + rewrite bool_decide_eq_false_2 by done. cbn. rewrite (left_id_L ∅ (∪)). by destruct s.
Qed.

Definition policies_written (qs : list SelectionPolicyVersion) s : CoreSlotState :=
  s <| Cs_SelectionPolicies := insert_all (λ q, (SPV_SlotId q, SPV_PolicyVersion q)) (λ q, q) qs
         (Cs_SelectionPolicies s) |>
    <| Cs_PolicyStarts := insert_all (λ q, (SPV_SlotId q, SPV_ValidFromHeight q))
         SPV_PolicyVersion qs (Cs_PolicyStarts s) |>.

Lemma init_policies qs s :
  for_each initPolicy (Some <$> qs) s = (policies_written qs s, Ok tt).
Proof.
  revert s. induction qs as [|q qs IH]; intros s; cbn [fmap list_fmap for_each].
  { by destruct s. }
  erewrite (M_bind_run (initPolicy (Some q)) _ s) by reflexivity. by rewrite IH.
Qed.

(** Loops whose only effect is on one collection. *)
Lemma init_each {A B} (f : A → CM unit) (put : B → CoreSlotState → CoreSlotState) (l : list A) s :
  (∀ b s, ∀ x, x ∈ l → ∃ b', f x (put b s) = (put b' s, Ok tt)) →
  ∀ b, ∃ b', for_each f l (put b s) = (put b' s, Ok tt).
Proof.
  induction l as [|x l IH]; intros Hf b; [by exists b|]. cbn [for_each].
  destruct (Hf b s x ltac:(left)) as [b1 H1]. rewrite (M_bind_run _ _ _ _ _ H1).
  apply IH. intros b' s' y Hy. apply Hf. by right.
Qed.

Lemma init_reserved (l : list (option ReservedConsensusAddress)) s :
  Forall is_Some l →
  ∃ m, for_each initReserved l s = (s <| Cs_Reserved := m |>, Ok tt).
Proof.
  intros Hl. pose proof (init_each initReserved (λ m s, s <| Cs_Reserved := m |>) l s) as H.
  destruct (H ltac:(intros m t x Hx; rewrite Forall_forall in Hl; destruct (Hl x Hx) as [r ->];
    by eexists) (Cs_Reserved s)) as [m Hm].
  exists m. rewrite <- Hm. by destruct s.
Qed.

Lemma init_weights (l : list (option OperatorRewardWeight)) s :
  Forall is_Some l →
  ∃ m, for_each initWeight l s = (s <| Cs_RewardWeights := m |>, Ok tt).
Proof.
  intros Hl. pose proof (init_each initWeight (λ m s, s <| Cs_RewardWeights := m |>) l s) as H.
  destruct (H ltac:(intros m t x Hx; rewrite Forall_forall in Hl; destruct (Hl x Hx) as [r ->];
    by eexists) (Cs_RewardWeights s)) as [m Hm].
  exists m. rewrite <- Hm. by destruct s.
Qed.

Definition transfer_ready (entry : option PendingAuthorityTransferEntry) : Prop :=
  ∃ e t key, entry = Some e ∧ PATE_Transfer e = Some t ∧ authorityRoleKey (PATE_Role e) = Ok key.

Lemma checkTransfers_Ok g l seen seen' :
  fold_m (checkTransfer g) l seen = Ok seen' → Forall transfer_ready l.
Proof.
  revert seen. induction l as [|x l IH]; intros seen H; [constructor|]. cbn [fold_m] in H.
  apply res_bind_Ok in H as (s1 & H1 & H). constructor; [|by eapply IH].
  unfold checkTransfer in H1. destruct x as [e|]; [|done].
  destruct (PATE_Transfer e) as [t|] eqn:Et; [|done]. minv.
  exists e, t, (PATE_Role e). unfold authorityRoleKey.
  match goal with H : (_ || _) = true |- _ => rewrite H end. done.
Qed.

Lemma init_transfers g s :
  Forall transfer_ready (CG_PendingAuthorityTransfers g) →
  ∃ m, initPendingAuthorityTransfers g s = (s <| Cs_PendingAuthority := m |>, Ok tt).
Proof.
  intros Hl. unfold initPendingAuthorityTransfers.
  match goal with |- ∃ _, for_each ?f ?l _ = _ =>
    pose proof (init_each f (λ m s, s <| Cs_PendingAuthority := m |>) l s) as H end.
  destruct (H ltac:(intros m t x Hx; rewrite Forall_forall in Hl;
    destruct (Hl x Hx) as (e & tr & key & -> & Ht & Hk); eexists; unfold lift;
    erewrite M_bind_run by done; erewrite M_bind_run by (by rewrite Hk);
    erewrite M_bind_run by (by rewrite Ht); reflexivity) (Cs_PendingAuthority s)) as [m Hm].
  exists m. rewrite <- Hm. by destruct s.
Qed.

(** ** The store that was written *)

(** The wire format's ranges: a uint64 is one. *)
Definition genesis_typed g : Prop :=
  (∀ p, CG_Params g = Some p → is_u64 (MinActiveSlots p)) ∧ is_u64 (CG_NextSlotId g) ∧
  ∀ row, Some row ∈ CG_Slots g → is_u64 (SlotId row).

(** No two slots have keys with one consensus address.  [Validate] compares the
    encodings of the keys, which need not be canonical. *)
Definition distinct_consensus g : Prop :=
  ∀ a b, Some a ∈ CG_Slots g → Some b ∈ CG_Slots g →
    key_of (ConsensusPubkey a) = key_of (ConsensusPubkey b) → SlotId a = SlotId b.

(** What the checks of an accepted genesis at a first height establish. *)
Record admitted p g (h0 : Z) rows (qs : list SelectionPolicyVersion) : Prop := {
  ad_params : CG_Params g = Some p;
  ad_bounds : params_bounds p;
  ad_slots : CG_Slots g = Some <$> rows;
  ad_policies : CG_SelectionPolicies g = Some <$> qs;
  ad_height : 0 < h0;
  ad_rows row : row ∈ rows → 0 < SlotId row < CG_NextSlotId g ∧
    (Status row = SLOT_STATUS_PENDING ∨ Status row = SLOT_STATUS_ACTIVE) ∧
    CurrentSelectionPolicyVersion row = 1 ∧ LastSelectionPolicyUpdateHeight row = 0;
  ad_ok row : row ∈ rows → slot_ok econ (SlotVotingPower p) (SlotId row) row;
  ad_ids : NoDup (SlotId <$> rows);
  ad_operators : NoDup (OperatorAddress <$> rows);
  ad_keys : NoDup (row_key <$> rows);
  ad_next : CG_NextSlotId g ≤ MaxUint64;
  ad_count : 1 ≤ Z.of_nat (List.length (active_rows rows)) ≤ HardMaxActiveCoreSlots ∧
    Z.of_nat (List.length (active_rows rows)) * SlotVotingPower p ≤ MaxInt64;
  ad_policy_ids : NoDup (SPV_SlotId <$> qs);
  ad_policy q : q ∈ qs → SPV_PolicyVersion q = 1 ∧ SPV_ValidUntilHeightExclusive q = 0 ∧
    SPV_ValidFromHeight q = h0 ∧
    ValidateSelectionPolicyValues (SPV_SelectionRateBps q) (SPV_MaxSelectedParticipants q) = Ok tt;
  ad_policy_slot id : id ∈ (SPV_SlotId <$> qs) ↔ id ∈ (SlotId <$> rows);
  ad_rotations : CG_PendingKeyRotations g = [];
  ad_reserved : Forall is_Some (CG_ReservedConsensusAddresses g);
  ad_weights : Forall is_Some (CG_RewardWeights g);
  ad_transfers : Forall transfer_ready (CG_PendingAuthorityTransfers g)
}.

Section imported.
Context p g h0 rows qs s (Had : admitted p g h0 rows qs).
Context (Hparams : Cs_Params s = Some p)
  (Hslots : Cs_Slots s = insert_all SlotId (λ row, row) rows ∅)
  (Hops : Cs_ByOperator s = insert_all OperatorAddress SlotId rows ∅)
  (Hkeys : Cs_ByConsensus s = insert_all row_key SlotId rows ∅)
  (Hactive : Cs_ActiveSlots s = list_to_set (SlotId <$> active_rows rows))
  (Hpol : Cs_SelectionPolicies s =
     insert_all (λ q, (SPV_SlotId q, SPV_PolicyVersion q)) (λ q, q) qs ∅)
  (Hstarts : Cs_PolicyStarts s =
     insert_all (λ q, (SPV_SlotId q, SPV_ValidFromHeight q)) SPV_PolicyVersion qs ∅)
  (Hrot : Cs_Rotations s = ∅) (Hlast : Cs_LastApplied s = ∅)
  (Hnext : Cs_NextSlotID s = Some (CG_NextSlotId g)).

Lemma imported_slot id row : Cs_Slots s !! id = Some row ↔ row ∈ rows ∧ SlotId row = id.
Proof using Had Hslots.
  rewrite Hslots, insert_all_empty by apply (ad_ids _ _ _ _ _ Had). naive_solver.
Qed.

Lemma imported_active_size :
  size (Cs_ActiveSlots s) = List.length (active_rows rows).
Proof using Had Hactive.
  rewrite Hactive, size_list_to_set, length_fmap; [done|].
  eapply sublist_NoDup; [apply (ad_ids _ _ _ _ _ Had)|]. apply fmap_sublist, sublist_filter.
Qed.

Lemma imported_inv : core_inv econ p s.
Proof using All.
  assert (∀ id row, Cs_Slots s !! id = Some row → Status row ≠ SLOT_STATUS_REMOVED) as Hlive.
  { intros id row [Hin _]%imported_slot.
    destruct (ad_rows _ _ _ _ _ Had row Hin) as (_ & [-> | ->] & _); done. }
  split.
  - done.
  - apply (ad_bounds _ _ _ _ _ Had).
  - intros id row [Hin <-]%imported_slot. by apply (ad_ok _ _ _ _ _ Had).
  - exists (CG_NextSlotId g). split; [done|]. split.
    + assert (∃ row, row ∈ rows) as [row Hin].
      { destruct rows as [|row ?]; [|by exists row; left].
        pose proof (ad_count _ _ _ _ _ Had) as [[? _] _]. done. }
      pose proof (ad_next _ _ _ _ _ Had). destruct (ad_rows _ _ _ _ _ Had row Hin). lia.
    + intros id [row [Hin <-]%imported_slot]. destruct (ad_rows _ _ _ _ _ Had row Hin). lia.
  - intros id. rewrite Hactive, elem_of_list_to_set, list_elem_of_fmap. unfold active_rows, is_active.
    setoid_rewrite list_elem_of_filter. setoid_rewrite imported_slot. naive_solver.
  - unfold active_size. rewrite imported_active_size. apply (ad_count _ _ _ _ _ Had).
  - unfold active_size. rewrite imported_active_size. apply (ad_count _ _ _ _ _ Had).
  - intros op id. rewrite Hops, insert_all_empty by apply (ad_operators _ _ _ _ _ Had). split.
    + intros (row & Hin & Hop & Hid). exists row.
      assert (Cs_Slots s !! id = Some row) as Hs by by apply imported_slot.
      split_and!; [done | by eapply Hlive | done].
    + intros (row & [Hin <-]%imported_slot & _ & Hop). by exists row.
  - intros key id. rewrite Hkeys, insert_all_empty by apply (ad_keys _ _ _ _ _ Had).
    unfold owns. rewrite Hrot. split.
    + intros (row & Hin & <- & Hid). left. exists row.
      assert (Cs_Slots s !! id = Some row) as Hs by by apply imported_slot.
      split_and!; [done | by eapply Hlive |].
      apply row_key_of. apply (so_key _ _ _ _ (ad_ok _ _ _ _ _ Had row Hin)).
    + intros [(row & [Hin <-]%imported_slot & _ & Hk)|(r & Hr & _)]; [|by rewrite lookup_empty in Hr].
      exists row. split_and!; [done | | done]. unfold row_key. by rewrite Hk.
  - intros id r. by rewrite Hrot, lookup_empty.
  - intros key v. by rewrite Hlast, lookup_empty.
Qed.

Lemma imported_version id v q : version_of s id v = Some q ↔ q ∈ qs ∧ SPV_SlotId q = id ∧ v = 1.
Proof using Had Hpol.
  unfold version_of. rewrite Hpol, insert_all_empty.
  - split.
    + intros (x & Hx & [= <- <-] & <-). by destruct (ad_policy _ _ _ _ _ Had x Hx) as [? _].
    + intros (Hq & <- & ->). exists q. destruct (ad_policy _ _ _ _ _ Had q Hq) as [-> _]. done.
  - apply (NoDup_fmap_1 fst). rewrite <- list_fmap_compose. apply (ad_policy_ids _ _ _ _ _ Had).
Qed.

Lemma imported_policies : policy_inv h0 s.
Proof using All.
  pose proof (ad_height _ _ _ _ _ Had) as Hh.
  assert (∀ id start v, Cs_PolicyStarts s !! (id, start) = Some v ↔
    ∃ q, q ∈ qs ∧ SPV_SlotId q = id ∧ start = h0 ∧ v = 1) as Hst.
  { intros id start v. rewrite Hstarts, insert_all_empty.
    - split.
      + intros (x & Hx & [= <- <-] & <-). exists x.
        by destruct (ad_policy _ _ _ _ _ Had x Hx) as (? & _ & ? & _).
      + intros (x & Hx & <- & -> & ->). exists x.
        by destruct (ad_policy _ _ _ _ _ Had x Hx) as (-> & _ & -> & _).
    - apply (NoDup_fmap_1 fst). rewrite <- list_fmap_compose. apply (ad_policy_ids _ _ _ _ _ Had). }
  assert (∀ q, q ∈ qs → is_Some (Cs_Slots s !! SPV_SlotId q)) as Hown.
  { intros q Hq. assert (SPV_SlotId q ∈ SlotId <$> rows) as Hin.
    { apply (ad_policy_slot _ _ _ _ _ Had). apply list_elem_of_fmap. by exists q. }
    apply list_elem_of_fmap in Hin as (row & He & Hin). exists row. by apply imported_slot. }
  split.
  - intros id row [Hin <-]%imported_slot.
    destruct (ad_rows _ _ _ _ _ Had row Hin) as (_ & _ & Hc & Hl). split; rewrite ?Hc, ?Hl.
    + widths. lia.
    + intros v. split; [intros (q & (_ & _ & ->)%imported_version); lia|]. intros Hv.
      assert (SlotId row ∈ SPV_SlotId <$> qs) as (q & He & Hq)%list_elem_of_fmap.
      { apply (ad_policy_slot _ _ _ _ _ Had). apply list_elem_of_fmap. by exists row. }
      exists q. apply imported_version. split_and!; [done | done | lia].
    + intros v q (Hq & He & ->)%imported_version.
      destruct (ad_policy _ _ _ _ _ Had q Hq) as (-> & _ & -> & Hv).
      split_and!; done || lia.
    + intros q (Hq & _ & _)%imported_version.
      by destruct (ad_policy _ _ _ _ _ Had q Hq) as (_ & ? & _).
    + intros v q q' (_ & _ & ->)%imported_version (_ & _ & ?)%imported_version. lia.
    + by rewrite decide_True.
    + intros start v. rewrite Hst. split.
      * intros (q & Hq & He & -> & ->). exists q. split; [by apply imported_version|].
        by destruct (ad_policy _ _ _ _ _ Had q Hq) as (_ & _ & ? & _).
      * intros (q & (Hq & He & ->)%imported_version & <-). exists q.
        by destruct (ad_policy _ _ _ _ _ Had q Hq) as (_ & _ & ? & _).
  - intros id v (q & (Hq & <- & _)%imported_version). by apply Hown.
  - intros id start v (q & Hq & <- & _)%Hst. by apply Hown.
Qed.
End imported.

(** ** Accepted genesis documents *)
Lemma AddUint64_succ a r : 0 ≤ a → AddUint64 a 1 = Ok r → r = a + 1.
Proof.
  unfold AddUint64. rewrite u64_small by (widths; lia). destruct (_ >? _) eqn:E; [done|].
  intros Ha [= <-]. zify_bool. by rewrite u64_small by (widths; lia).
Qed.

Lemma fresh_heights g h0 :
  ValidateFreshGenesisInitialHeight (Some g) h0 = Ok tt →
  0 < h0 ∧ ∀ q, Some q ∈ CG_SelectionPolicies g → SPV_ValidFromHeight q = h0.
Proof.
  unfold ValidateFreshGenesisInitialHeight. intros H. minv. zify_bool. split; [lia|].
  match goal with H : for_each _ (CG_SelectionPolicies g) = _ |- _ => rename H into Hall end.
  rewrite for_each_Ok in Hall. intros q Hq. specialize (Hall _ Hq). simpl in Hall. minv.
  by zify_bool.
Qed.

Lemma admitted_addresses g row :
  validateGenesisEconomicAddresses econ g = Ok tt → Some row ∈ CG_Slots g →
  is_ok (ParseAccountAddress econ (OperatorAddress row)) = true ∧
  is_ok (Validate econ (PayoutAddress row)) = true ∧
  is_ok (Validate econ (SettlementAddress row)) = true.
Proof.
  unfold validateGenesisEconomicAddresses. intros H Hin. minv.
  match goal with H : for_each _ (CG_Slots g) = Ok _ |- _ =>
    rewrite for_each_Ok in H; specialize (H _ Hin); cbn beta iota in H end. minv.
  repeat match goal with H : _ = Ok _ |- _ => rewrite H; clear H end. done.
Qed.

Lemma each_some {A} (f : option A → res unit) l :
  for_each f l = Ok tt → (∀ e, f None ≠ Ok e) → Forall is_Some l.
Proof.
  rewrite for_each_Ok, Forall_forall. intros H Hn x Hx. specialize (H x Hx).
  destruct x as [a|]; [by exists a|]. by destruct (Hn tt).
Qed.

Lemma reserved_some (l : list (option ReservedConsensusAddress)) (seen out : gset string) :
  fold_m (λ (reserved : gset string) (r : option ReservedConsensusAddress), match r with
    | None => Err CsInvalidGenesis
    | Some r =>
        let addr := fmtHex (RCA_ConsAddress r) in
        fail_if (bool_decide (addr ∈ reserved)) CsInvalidGenesis ;;
        mret ({[addr]} ∪ reserved)
    end) l seen = Ok out → Forall is_Some l.
Proof.
  revert seen. induction l as [|x l IH]; intros seen H; [constructor|]. cbn [fold_m] in H.
  apply res_bind_Ok in H as (s1 & H1 & H). destruct x as [r|]; [|done].
  constructor; [by exists r | by eapply IH].
Qed.

Lemma validate_admitted g h0 :
  CoreSlotGenesis_Validate g = Ok tt → ValidateFreshGenesisInitialHeight (Some g) h0 = Ok tt →
  validateGenesisEconomicAddresses econ g = Ok tt → genesis_typed g → distinct_consensus g →
  ∃ p rows qs, admitted p g h0 rows qs.
Proof.
  intros Hv [Hh Hfrom]%fresh_heights Haddr (Hmin & Hnext & Hids) Hdist.
  unfold CoreSlotGenesis_Validate in Hv. destruct (CG_Params g) as [p|] eqn:Hp; [|done]. minv.
  match goal with H : CoreSlotParams_Validate _ = _ |- _ =>
    apply Validate_params in H as Hb; [|by destruct (Hmin p eq_refl)] end.
  match goal with H : indexGenesisPolicies _ = Ok ?m |- _ =>
    apply indexGenesisPolicies_Ok in H as (qs & Hqs & Hqnd & _ & Hq); rename m into policies end.
  match goal with H : scanSlots _ _ _ = Ok ?x |- _ =>
    apply scan_Ok in H as (rows & Hrows & []); rename x into c end.
  unfold validatePendingAuthorityTransfers in *. minv. zify_bool. simpl in *.
  match goal with H : AddUint64 _ 1 = Ok _ |- _ => rename H into Hadd end.
  repeat match goal with H : bool_decide (¬ _) = false |- _ =>
    apply bool_decide_eq_false_1, dec_stable in H end.
  assert (dom policies ⊆ sc_ids c) as Hsub by done.
  apply AddUint64_succ in Hadd as ->; [|done].
  assert (∀ row, row ∈ rows → Some row ∈ CG_Slots g) as Hin.
  { intros row Hrow. rewrite Hrows. by apply list_elem_of_fmap_2. }
  assert (∀ q, q ∈ qs → policies !! SPV_SlotId q = Some q) as Hqp.
  { intros q Hqi. apply Hq. by left. }
  assert (∀ q, q ∈ qs → ∃ row, row ∈ rows ∧ SlotId row = SPV_SlotId q) as Hqr.
  { intros q Hqi. assert (SPV_SlotId q ∈ sc_ids c) as Hc.
    { apply Hsub, elem_of_dom. eauto. }
    rewrite sd_ids0, elem_of_union, elem_of_list_to_set, list_elem_of_fmap in Hc.
    destruct Hc as [(row & -> & Hrow)|?%elem_of_empty]; [by exists row | done]. }
  assert (∀ row, row ∈ rows → is_u64 (SlotId row) ∧ SlotId row ≠ 0) as Hpos.
  { intros row Hrow. split; [by apply Hids, Hin|].
    destruct (sd_rows0 row Hrow) as (Hf & _). apply (fr_id _ _ _ Hf). }
  assert (0 ≤ MaxInt64 ÷ SlotVotingPower p ≤ MaxInt64) as Hquot.
  { pose proof (pb_power _ Hb). rewrite Z.quot_div_nonneg by (widths; lia).
    split; [apply Z.div_pos; widths; lia|]. apply Z.div_le_upper_bound; widths; nia. }
  exists p, rows, qs. split; try done.
  - intros row Hrow. destruct (sd_rows0 row Hrow) as ([] & _ & _ & Hle).
    destruct (Hpos row Hrow). widths. split_and!; done || lia.
  - intros row Hrow. destruct (sd_rows0 row Hrow) as ([] & _ & _ & Hle).
    destruct (admitted_addresses g row Haddr (Hin row Hrow)) as (? & ? & ?).
    destruct (Hpos row Hrow). split; first [done | widths; lia].
  - apply NoDup_fmap_2_strong; [|by apply (NoDup_fmap_1 SlotId)]. intros a b Ha Hb' Hk.
    apply (NoDup_fmap_inj_on SlotId rows); try done. apply Hdist; [by apply Hin..|].
    destruct (sd_rows0 a Ha) as (Hfa & _), (sd_rows0 b Hb') as (Hfb & _).
    by rewrite (row_key_of a (fr_key _ _ _ Hfa)), (row_key_of b (fr_key _ _ _ Hfb)), Hk.
  - by destruct Hnext.
  - pose proof (pb_power _ Hb). pose proof (pb_min _ Hb). rewrite u64_small in * by (widths; lia).
    assert (MaxInt64 ÷ SlotVotingPower p * SlotVotingPower p ≤ MaxInt64).
    { rewrite Z.quot_div_nonneg by (widths; lia).
      pose proof (Z.mul_div_le MaxInt64 (SlotVotingPower p) ltac:(lia)). lia. }
    split; [lia|]. nia.
  - intros q Hqi. destruct (Hqr q Hqi) as (row & Hrow & He).
    destruct (sd_rows0 row Hrow) as (Hf & _). destruct (fr_policy _ _ _ Hf) as (q' & Hx & ? & ? & ?).
    rewrite He, (Hqp q Hqi) in Hx. injection Hx as <-. split_and!; try done.
    apply Hfrom. rewrite Hqs. by apply list_elem_of_fmap_2.
  - intros id. rewrite !list_elem_of_fmap. split.
    + intros (q & -> & Hqi). destruct (Hqr q Hqi) as (row & Hrow & <-). by exists row.
    + intros (row & -> & Hrow). destruct (sd_rows0 row Hrow) as (Hf & _).
      destruct (fr_policy _ _ _ Hf) as (q & Hx & _). apply Hq in Hx as [[Hx <-]|Hx]; [by exists q|].
      by rewrite lookup_empty in Hx.
  - by eapply reserved_some.
  - by eapply each_some.
  - by eapply checkTransfers_Ok.
Qed.

(** ** The final assertion never fires *)
Section consistency.
Context p s (Hi : core_inv econ p s).
Context (Hlast : ∀ key v, Cs_LastApplied s !! key = Some v ↔ ∃ id slot, Cs_Slots s !! id = Some slot ∧
  Status slot = SLOT_STATUS_ACTIVE ∧ key_of (ConsensusPubkey slot) = Some key ∧ v = applied_for slot).

Lemma count_run (active : gset Z) (l : list (Z * CoreSlot)) n :
  (∀ id slot, (id, slot) ∈ l → id ∈ active ↔ Status slot = SLOT_STATUS_ACTIVE) →
  fold_m (λ n '(id, slot),
    let live := bool_decide (Status slot = SLOT_STATUS_ACTIVE) in
    fail_if (negb (Bool.eqb live (bool_decide (id ∈ active)))) CsInvalidGenesis ;;
    mret (if live then n + 1 else n)) l n =
  Ok (n + Z.of_nat (List.length (base.filter (λ e, Status (snd e) = SLOT_STATUS_ACTIVE) l))).
Proof using Type.
  revert n. induction l as [|[id slot] l IH]; intros n Hl; cbn [fold_m].
  { rewrite Z.add_0_r. done. }
  rewrite filter_cons. cbn [snd].
  rewrite (bool_decide_ext (id ∈ active) (Status slot = SLOT_STATUS_ACTIVE))
    by (apply Hl; left).
  rewrite Bool.eqb_reflx. cbn. rewrite IH by (intros; apply Hl; by right).
  destruct (decide (Status slot = SLOT_STATUS_ACTIVE)) as [Ha|Ha].
  - rewrite bool_decide_eq_true_2 by done. cbn [List.length]. f_equal. lia.
  - by rewrite bool_decide_eq_false_2.
Qed.

Lemma record_count :
  countRecordActive (Cs_ActiveSlots s) s = Ok (Z.of_nat (size (Cs_ActiveSlots s))).
Proof using Hi.
  unfold countRecordActive. rewrite count_run.
  - rewrite Z.add_0_l. do 2 f_equal. set (l := base.filter _ _).
    assert (Cs_ActiveSlots s = list_to_set (fst <$> l)) as ->.
    { apply set_eq. intros id. rewrite (ci_active _ _ _ Hi), elem_of_list_to_set, list_elem_of_fmap.
      unfold is_active, l. split.
      - intros (slot & Hs & Ha). exists (id, slot). rewrite list_elem_of_filter, elem_of_entries.
        done.
      - intros ([i slot] & -> & Hin). apply list_elem_of_filter in Hin as [Ha Hs%elem_of_entries].
        by exists slot. }
    rewrite size_list_to_set, length_fmap; [done|].
    eapply sublist_NoDup; [|apply fmap_sublist, sublist_filter]. apply entries_keys_NoDup.
  - intros id slot Hs%elem_of_entries. rewrite (ci_active _ _ _ Hi). unfold is_active.
    split; [by intros (x & Hx & Ha); simplify_eq | eauto].
Qed.

Lemma last_slots : lastAppliedSlots s = Ok (Cs_ActiveSlots s).
Proof using Hi Hlast.
  unfold lastAppliedSlots. rewrite (fold_collect LAV_SlotId); [| |set_solver].
  - f_equal. rewrite (right_id_L ∅ (∪)). apply set_eq. intros id.
    rewrite elem_of_list_to_set, list_elem_of_fmap, (ci_active _ _ _ Hi). split.
    + intros (v & -> & Hv). apply list_elem_of_fmap in Hv as ([key x] & -> & Hx).
      apply elem_of_map_to_list, Hlast in Hx as (i & slot & Hs & Ha & _ & ->). exists slot.
      cbn. by rewrite (so_id _ _ _ _ (ci_slots _ _ _ Hi i slot Hs)).
    + intros (slot & Hs & Ha). exists (applied_for slot).
      pose proof (ci_slots _ _ _ Hi id slot Hs) as Hok.
      split; [symmetry; apply (so_id _ _ _ _ Hok)|].
      destruct (so_key _ _ _ _ Hok) as [key Hk]. apply list_elem_of_fmap. exists (key, applied_for slot).
      split; [done|]. apply elem_of_map_to_list, Hlast. by exists id, slot.
  - rewrite <- list_fmap_compose. apply NoDup_fmap_2_strong; [|apply NoDup_map_to_list].
    intros [k1 v1] [k2 v2] (i1 & s1 & Hs1 & _ & Hk1 & ->)%elem_of_map_to_list%Hlast
      (i2 & s2 & Hs2 & _ & Hk2 & ->)%elem_of_map_to_list%Hlast He. cbn in He.
    pose proof (so_id _ _ _ _ (ci_slots _ _ _ Hi _ _ Hs1)).
    pose proof (so_id _ _ _ _ (ci_slots _ _ _ Hi _ _ Hs2)).
    assert (s1 = s2) as -> by congruence. f_equal. congruence.
Qed.

Lemma assertion_holds (updates : list ValidatorUpdate) :
  List.length updates = size (Cs_ActiveSlots s) →
  assertGenesisValidatorConsistency updates s = Ok tt.
Proof using Hi Hlast.
  intros Hlen. unfold assertGenesisValidatorConsistency.
  destruct (ActiveSlotRows_spec econ p s Hi) as (rows & -> & _ & Hin & _ & _).
  cbn [mbind res_bind].
  assert (list_to_set (SlotId <$> rows) = Cs_ActiveSlots s) as ->.
  { apply set_eq. intros id. rewrite elem_of_list_to_set, list_elem_of_fmap, (ci_active _ _ _ Hi).
    split.
    - intros (slot & -> & [Hs Ha]%Hin). by exists slot.
    - intros (slot & Hs & Ha). pose proof (so_id _ _ _ _ (ci_slots _ _ _ Hi id slot Hs)) as <-.
      exists slot. split; [done|]. by apply Hin. }
  rewrite record_count, last_slots. cbn [mbind res_bind]. rewrite Z.eqb_refl. cbn [negb].
  rewrite !bool_decide_eq_false_2; [done | | |]; rewrite ?Hlen; by intros ?.
Qed.
End consistency.

(** ** Import *)

(** Every update of a first difference is an insertion. *)
Lemma first_updates desired (keyed : list keyedUpdate) :
  NoDup (ku_key <$> keyed) →
  (∀ key power, (∃ u, u ∈ keyed ∧ ku_key u = key ∧ ku_power u = power) ↔
     change_for desired ∅ key = Some power) →
  List.length keyed = size desired.
Proof.
  intros Hnd Hc. rewrite <- (length_fmap ku_key), <- size_dom.
  rewrite <- (size_list_to_set (C := gset string)) by done. f_equal. apply set_eq. intros key.
  rewrite elem_of_list_to_set, list_elem_of_fmap, elem_of_dom.
  unfold change_for in Hc. split.
  - intros (u & -> & Hu). specialize (Hc (ku_key u) (ku_power u)). rewrite lookup_empty in Hc.
    destruct (desired !! ku_key u); [eauto|]. destruct Hc as [Hc _]. discriminate Hc. eauto.
  - intros [v Hv]. specialize (Hc key (LAV_Power v)). rewrite Hv, lookup_empty in Hc.
    destruct Hc as [_ Hc]. destruct (Hc eq_refl) as (u & Hu & Hk & _). by exists u.
Qed.

(** The first difference of a store, and its assertion. *)
Lemma first_diff p s :
  core_inv econ p s → Cs_LastApplied s = ∅ →
  ∃ s' keyed, diffAndPersist s = (s', Ok (ku_update <$> keyed)) ∧
    assertGenesisValidatorConsistency (ku_update <$> keyed) s' = Ok tt ∧
    core_inv econ p s' ∧ policy_frame s s' ∧ Cs_Slots s' = Cs_Slots s ∧
    foldl apply_update ∅ keyed = powers (Cs_LastApplied s') ∧ NoDup (ku_key <$> keyed) ∧
    (∀ key power, powers (Cs_LastApplied s') !! key = Some power ↔
      ∃ id slot, Cs_Slots s' !! id = Some slot ∧ Status slot = SLOT_STATUS_ACTIVE ∧
        key_of (ConsensusPubkey slot) = Some key ∧ power = SlotVotingPower p).
Proof.
  intros Hi Hl. destruct (diffAndPersist_spec econ p s Hi)
    as (desired & keyed & Hdiff & Hi' & _ & Hnd & _ & Happ & Hdes & Hsize & Hch).
  exists (s <| Cs_LastApplied := desired |>), keyed. rewrite Hl in Happ, Hch.
  split_and!; try done.
  - apply (assertion_holds p); [done | exact Hdes|].
    rewrite length_fmap, (first_updates desired keyed Hnd Hch). exact Hsize.
  - by apply frame_same.
  - intros key power. simpl. unfold powers. rewrite lookup_fmap_Some. setoid_rewrite Hdes. split.
    + intros (v & <- & id & slot & Hs & Hst & Hk & ->). exists id, slot. split_and!; try done.
      simpl. rewrite (so_power _ _ _ _ (ci_slots _ _ _ Hi _ _ Hs)). by rewrite decide_True.
    + intros (id & slot & Hs & Hst & Hk & ->). exists (applied_for slot). split; [|by eauto 6].
      simpl. rewrite (so_power _ _ _ _ (ci_slots _ _ _ Hi _ _ Hs)). by rewrite decide_True.
Qed.

(** The writes of [InitGenesis], up to the difference. *)
Definition import_writes g p : CM unit :=
  setParams p ;;
  initPendingAuthorityTransfers g ;;
  for_each initSlot (CG_Slots g) ;;
  for_each initPolicy (CG_SelectionPolicies g) ;;
  for_each initRotation (CG_PendingKeyRotations g) ;;
  for_each initReserved (CG_ReservedConsensusAddresses g) ;;
  for_each initWeight (CG_RewardWeights g) ;;
  setNextSlotID (CG_NextSlotId g).

Lemma writes_run p g h0 rows qs (Had : admitted p g h0 rows qs) :
  ∃ s, import_writes g p emptyCoreSlotState = (s, Ok tt) ∧
    core_inv econ p s ∧ policy_inv h0 s ∧ Cs_LastApplied s = ∅ ∧
    (∀ id slot, Cs_Slots s !! id = Some slot ↔ Some slot ∈ CG_Slots g ∧ SlotId slot = id).
Proof.
  destruct (init_transfers g (emptyCoreSlotState <| Cs_Params := Some p |>)
    (ad_transfers _ _ _ _ _ Had)) as [mt Hmt].
  set (s1 := policies_written qs (slots_written rows
    (emptyCoreSlotState <| Cs_Params := Some p |> <| Cs_PendingAuthority := mt |>))).
  destruct (init_reserved (CG_ReservedConsensusAddresses g) s1 (ad_reserved _ _ _ _ _ Had))
    as [mr Hmr].
  destruct (init_weights (CG_RewardWeights g) (s1 <| Cs_Reserved := mr |>)
    (ad_weights _ _ _ _ _ Had)) as [mw Hmw].
  exists (s1 <| Cs_Reserved := mr |> <| Cs_RewardWeights := mw |>
    <| Cs_NextSlotID := Some (CG_NextSlotId g) |>). split_and!.
  - unfold import_writes, setParams, setNextSlotID, modify.
    erewrite M_bind_run by reflexivity. rewrite (M_bind_run _ _ _ _ _ Hmt).
    rewrite (ad_slots _ _ _ _ _ Had), (ad_policies _ _ _ _ _ Had), (ad_rotations _ _ _ _ _ Had).
    erewrite M_bind_run; [|apply init_slots].
    2: { intros row Hrow. apply (so_key _ _ _ _ (ad_ok _ _ _ _ _ Had row Hrow)). }
    erewrite M_bind_run; [|apply init_policies]. erewrite M_bind_run by reflexivity.
    fold s1. rewrite (M_bind_run _ _ _ _ _ Hmr), (M_bind_run _ _ _ _ _ Hmw). reflexivity.
  - by apply (imported_inv p g h0 rows qs _ Had); simpl; rewrite ?(right_id_L ∅ (∪)).
  - by apply (imported_policies p g h0 rows qs _ Had); simpl; rewrite ?(right_id_L ∅ (∪)).
  - reflexivity.
  - intros id slot. etrans; [apply (imported_slot p g h0 rows qs _ Had); reflexivity|].
    rewrite (ad_slots _ _ _ _ _ Had), list_elem_of_fmap. naive_solver.
Qed.

Lemma import_spec g height h0 :
  EffectiveInitialHeight height = Ok h0 → h0 ≤ MaxInt64 →
  CoreSlotGenesis_Validate g = Ok tt → ValidateFreshGenesisInitialHeight (Some g) h0 = Ok tt →
  validateGenesisEconomicAddresses econ g = Ok tt → genesis_typed g → distinct_consensus g →
  ∃ p s keyed, InitGenesis econ height g emptyCoreSlotState = (s, Ok (ku_update <$> keyed)) ∧
    CG_Params g = Some p ∧ core_inv econ p s ∧ cs_good econ (h0, s) ∧
    foldl apply_update ∅ keyed = powers (Cs_LastApplied s) ∧
    NoDup (ku_key <$> keyed) ∧
    (∀ key power, powers (Cs_LastApplied s) !! key = Some power ↔
      ∃ id slot, Cs_Slots s !! id = Some slot ∧ Status slot = SLOT_STATUS_ACTIVE ∧
        key_of (ConsensusPubkey slot) = Some key ∧ power = SlotVotingPower p) ∧
    (∀ id slot, Cs_Slots s !! id = Some slot ↔ Some slot ∈ CG_Slots g ∧ SlotId slot = id).
Proof.
  intros Hh Hmax Hv Hf Ha Ht Hd.
  destruct (validate_admitted g h0 Hv Hf Ha Ht Hd) as (p & rows & qs & Had).
  destruct (writes_run p g h0 rows qs Had) as (s2 & Hrun & Hi & Hpi & Hl & Hslots).
  destruct (first_diff p s2 Hi Hl)
    as (s3 & keyed & Hdiff & Hassert & Hi' & Hfr & Hsl & Happ & Hnd & Hset).
  exists p, s3, keyed. split_and!; try done.
  - unfold InitGenesis, lift.
    rewrite (M_bind_run _ _ emptyCoreSlotState emptyCoreSlotState tt) by by rewrite Hv.
    rewrite (M_bind_run _ _ emptyCoreSlotState emptyCoreSlotState h0) by by rewrite Hh.
    rewrite (M_bind_run _ _ emptyCoreSlotState emptyCoreSlotState tt) by by rewrite Hf.
    rewrite (M_bind_run _ _ emptyCoreSlotState emptyCoreSlotState tt) by by rewrite Ha.
    rewrite (M_bind_run _ _ emptyCoreSlotState emptyCoreSlotState p)
      by by rewrite (ad_params _ _ _ _ _ Had).
    unfold import_writes in Hrun.
    repeat (apply M_bind_Ok in Hrun as (? & ? & Hstep & Hrun);
      rewrite (M_bind_run _ _ _ _ _ Hstep); clear Hstep).
    rewrite (M_bind_run _ _ _ _ _ Hrun), (M_bind_run _ _ _ _ _ Hdiff). unfold reads.
    erewrite M_bind_run; [reflexivity|]. by rewrite Hassert.
  - apply (ad_params _ _ _ _ _ Had).
  - split; [pose proof (ad_height _ _ _ _ _ Had); simpl; lia|]. split; [by exists p|].
    simpl. by eapply policy_inv_frame.
  - intros id slot. rewrite Hsl. apply Hslots.
Qed.
End genesis.
