(* ===== verification/CoreSlotTheorems.v ===== *)
(** * x/coreslot: the properties

    The validator set, the lifecycle of slots, the authority handover, the
    selection-policy history and the genesis import, over any run of blocks. *)
From S2P Require Import Prelude Checked SdkMath Bounds EconomicAddress RewardsTypes.
From S2P Require Import Allocation RewardConfig.
From S2P Require Import Collections CoreSlotTypes CoreSlotState CoreSlot CoreSlotMsgs.
From S2P Require Import CoreSlotEndBlock CoreSlotInvariant CoreSlotLifecycle CoreSlotValidators.
From S2P Require Import CoreSlotPolicy CoreSlotRows CoreSlotBlocks CoreSlotGenesis.
From S2P Require Import CoreSlotGenesisInvariant.
From stdpp Require Import relations.
From Stdlib Require Import String.
Local Open Scope Z_scope.

(** ** A sample chain

    Two active slots and a pending one; a key is its own encoding and address. *)
#[program] Definition plain_keys : PubKeyCodec := {|
  Unmarshal v := Some v;
  Address key := key;
  CmtPublicKey := string;
  ToCmtProtoPublicKey key := Ok key
|}.
Next Obligation. intros key _. by exists key. Qed.
Definition one_decimal : DecCodec := {| LegacyNewDecFromStr _ := Some 1 |}.

Definition sample_key (c : string) : option Any := Some {|
  Any_TypeUrl := "/cosmos.crypto.ed25519.PubKey";
  Any_Value := c ++ "234567890123456789012345678901X" |}%string.
Definition sample_core_slot (id : Z) (operator key : string) (status : SlotStatus) : CoreSlot := {|
  SlotId := id; OperatorAddress := operator; ConsensusPubkey := sample_key key;
  PayoutAddress := operator; Status := status;
  ConsensusPower := if decide (status = SLOT_STATUS_ACTIVE) then 1 else 0;
  RewardWeight := "1"%string; CreatedHeight := 0;
  ActivatedHeight := if decide (status = SLOT_STATUS_ACTIVE) then 1 else 0;
  UpdatedHeight := 0; SuspendedHeight := 0; RemovedHeight := 0; Metadata := None;
  SettlementAddress := operator;
  ActivationSequence := if decide (status = SLOT_STATUS_ACTIVE) then 1 else 0;
  ActivationEffectiveHeight := if decide (status = SLOT_STATUS_ACTIVE) then 1 else 0;
  CurrentSelectionPolicyVersion := 1; LastSelectionPolicyUpdateHeight := 0 |}.
Definition sample_policy (id : Z) : SelectionPolicyVersion := {|
  SPV_SlotId := id; SPV_PolicyVersion := 1; SPV_SelectionRateBps := 500;
  SPV_MaxSelectedParticipants := 10; SPV_ValidFromHeight := 1;
  SPV_ValidUntilHeightExclusive := 0 |}.
Definition sample_genesis : CoreSlotGenesis := {|
  CG_Params := Some (DefaultCoreSlotParams "gov" "guard");
  CG_Slots := [Some (sample_core_slot 1 "ann" "a" SLOT_STATUS_ACTIVE);
               Some (sample_core_slot 2 "bob" "b" SLOT_STATUS_ACTIVE);
               Some (sample_core_slot 3 "cat" "c" SLOT_STATUS_PENDING)];
  CG_PendingKeyRotations := []; CG_ReservedConsensusAddresses := []; CG_RewardWeights := [];
  CG_LastAppliedValidators := []; CG_NextSlotId := 4;
  CG_SelectionPolicies := [Some (sample_policy 1); Some (sample_policy 2); Some (sample_policy 3)];
  CG_PendingAuthorityTransfers := [] |}.

#[local] Existing Instances bech32_id plain_keys one_decimal.

Definition sample_core : CoreSlotState :=
  fst (InitGenesis sample_validator 0 sample_genesis emptyCoreSlotState).

Lemma sample_typed : genesis_typed sample_genesis.
Proof.
  split; [|split].
  - intros p [= <-]. done.
  - done.
  - intros row Hrow. repeat (apply elem_of_cons in Hrow as [[= ->]|Hrow]; [done|]).
    by apply elem_of_nil in Hrow.
Qed.

Lemma sample_distinct : distinct_consensus sample_genesis.
Proof.
  intros a b Ha Hb.
  repeat (apply elem_of_cons in Ha as [[= ->]|Ha]; [|]); try by apply elem_of_nil in Ha.
  all: repeat (apply elem_of_cons in Hb as [[= ->]|Hb]; [|]); try by apply elem_of_nil in Hb.
  all: vm_compute; congruence.
Qed.

Lemma sample_import : ∃ p, core_inv sample_validator p sample_core ∧
  cs_good sample_validator (1, sample_core).
Proof.
  destruct (import_spec sample_validator sample_genesis 0 1) as (p & s & keyed & Hrun & _ & Hi & Hg & _);
    [by vm_compute.. | exact sample_typed | exact sample_distinct|].
  replace sample_core with s by exact (eq_sym (f_equal fst Hrun)).
  exists p. exact (conj Hi Hg).
Qed.

(** A message delivered to the sample chain at height 1. *)
Definition sample_deliver (m : coreslot_message) (s : CoreSlotState) : CoreSlotState :=
  fst (coreslot_deliver sample_validator 1 m s).
Lemma sample_message_step m s : message_typed m → cs_step sample_validator (1, s) (1, sample_deliver m s).
Proof. intros Ht. eapply cs_message; [exact Ht | apply surjective_pairing]. Qed.

(** ** Properties *)
Section properties.
Context {BE : Bech32} {PK : PubKeyCodec} {DC : DecCodec} (econ : Validator).

(** C17: in a state that satisfies the invariant, ending a block succeeds: the
    updates are sorted, one per consensus address, each tells CometBFT something
    new, and applying them to the set applied last gives exactly the active slots
    with the slot voting power, which are at least one and whose total power fits
    an int64. *)
Theorem endblock_reports_active_slots height p s :
  core_inv econ p s →
  ∃ s' keyed, CoreSlotEndBlock height s = (s', Ok (ku_update <$> keyed)) ∧
    core_inv econ p s' ∧ StronglySorted keyed_le keyed ∧ NoDup (ku_key <$> keyed) ∧
    (∀ u, u ∈ keyed → names_key (ku_key u) u ∧
       powers (Cs_LastApplied s) !! ku_key u ≠ powers (Cs_LastApplied s') !! ku_key u) ∧
    foldl apply_update (powers (Cs_LastApplied s)) keyed = powers (Cs_LastApplied s') ∧
    (∀ key power, powers (Cs_LastApplied s') !! key = Some power ↔
       ∃ id slot, Cs_Slots s' !! id = Some slot ∧ Status slot = SLOT_STATUS_ACTIVE ∧
         key_of (ConsensusPubkey slot) = Some key ∧ power = SlotVotingPower p) ∧
    1 ≤ Z.of_nat (size (powers (Cs_LastApplied s'))) ∧
    Z.of_nat (size (powers (Cs_LastApplied s'))) * SlotVotingPower p ≤ MaxInt64.
Proof.
  intros Hi. destruct (endblock_spec econ height p s Hi) as (s' & keyed & Hrun & Hi' & []).
  exists s', keyed. split_and!; try done.
  - intros u Hu. split; [by apply en_names|].
    pose proof (proj1 (en_changes (ku_key u) (ku_power u)) ltac:(by exists u)) as Hc.
    unfold change_for in Hc. unfold powers. rewrite !lookup_fmap.
    destruct (Cs_LastApplied s' !! _) as [next|], (Cs_LastApplied s !! _) as [old|]; simpl; try done.
    destruct (Z.eqb_spec (LAV_Power next) (LAV_Power old)); [done|]. congruence.
  - rewrite en_size. apply (ci_count _ _ _ Hi).
  - rewrite en_size. apply (ci_total _ _ _ Hi).
Qed.

(** C16: along any run of messages and end blocks from a good state, the state
    stays good, the next end block succeeds, the active index names exactly the
    active rows, between one and a hundred of them, and no two slots that are not
    removed share an operator or a consensus address. *)
Theorem coreslot_run_safe x y :
  cs_good econ x → rtc (cs_step econ) x y →
  let s := snd y in
  cs_good econ y ∧
  (∃ s' updates, CoreSlotEndBlock (fst y) s = (s', Ok updates)) ∧
  (∀ id, id ∈ Cs_ActiveSlots s ↔ is_active s id) ∧
  1 ≤ Z.of_nat (size (Cs_ActiveSlots s)) ≤ 100 ∧
  (∀ id id' slot slot', Cs_Slots s !! id = Some slot → Cs_Slots s !! id' = Some slot' →
     Status slot ≠ SLOT_STATUS_REMOVED → Status slot' ≠ SLOT_STATUS_REMOVED →
     OperatorAddress slot = OperatorAddress slot' ∨
       key_of (ConsensusPubkey slot) = key_of (ConsensusPubkey slot') → id = id').
Proof.
  intros Hx Hr s. pose proof (run_good econ x y Hx Hr) as Hy. split; [done|].
  destruct Hy as (_ & [p Hi] & _). split_and!.
  - destruct (endblock_spec econ (fst y) p s Hi) as (s' & keyed & Hrun & _). eauto.
  - apply (ci_active _ _ _ Hi).
  - apply (ci_count _ _ _ Hi).
  - apply (ci_count _ _ _ Hi).
  - intros id id' a b Ha Hb Hna Hnb [Ho|Hk].
    + assert (Cs_ByOperator s !! OperatorAddress a = Some id) by (apply (ci_operators _ _ _ Hi); eauto).
      assert (Cs_ByOperator s !! OperatorAddress a = Some id'); [|congruence].
      apply (ci_operators _ _ _ Hi). eauto.
    + destruct (so_key _ _ _ _ (ci_slots _ _ _ Hi id a Ha)) as [key Hkey].
      apply (owns_unique econ p s Hi id id' key); left; [by exists a|]. exists b. by rewrite <- Hk.
Qed.

(** A genesis that passes validation, whose slots have distinct consensus
    addresses, is imported into an empty store without an error; the state is
    good at the first height, holds exactly the genesis slots, and the updates
    returned describe exactly the active ones. *)
Theorem genesis_import_establishes g height h0 :
  EffectiveInitialHeight height = Ok h0 → h0 ≤ MaxInt64 →
  CoreSlotGenesis_Validate g = Ok tt → ValidateFreshGenesisInitialHeight (Some g) h0 = Ok tt →
  validateGenesisEconomicAddresses econ g = Ok tt → genesis_typed g → distinct_consensus g →
  ∃ p s keyed, InitGenesis econ height g emptyCoreSlotState = (s, Ok (ku_update <$> keyed)) ∧
    CG_Params g = Some p ∧ cs_good econ (h0, s) ∧
    (∀ id slot, Cs_Slots s !! id = Some slot ↔ Some slot ∈ CG_Slots g ∧ SlotId slot = id) ∧
    NoDup (ku_key <$> keyed) ∧ foldl apply_update ∅ keyed = powers (Cs_LastApplied s) ∧
    (∀ key power, powers (Cs_LastApplied s) !! key = Some power ↔
      ∃ id slot, Cs_Slots s !! id = Some slot ∧ Status slot = SLOT_STATUS_ACTIVE ∧
        key_of (ConsensusPubkey slot) = Some key ∧ power = SlotVotingPower p).
Proof.
  intros Hh Hmax Hv Hf Ha Ht Hd.
  destruct (import_spec econ g height h0 Hh Hmax Hv Hf Ha Ht Hd)
    as (p & s & keyed & Hrun & Hp & _ & Hg & Happ & Hnd & Hset & Hslots).
  exists p, s, keyed. by split_and!.
Qed.

(** Of a slot's policy versions at most one is in force at a height, and
    resolving the height finds it; the only failure is a height before the first
    version, and what is found is a valid policy of the slot. *)
Theorem selection_policy_resolution h s id slot height :
  cs_good econ (h, s) → Cs_Slots s !! id = Some slot →
  match SelectionPolicyAtHeight id height s with
  | Ok q => SPV_SlotId q = id ∧ version_of s id (SPV_PolicyVersion q) = Some q ∧
      in_force height q ∧
      (∀ v q', version_of s id v = Some q' → in_force height q' → q' = q) ∧
      ValidateSelectionPolicyValues (SPV_SelectionRateBps q)
        (SPV_MaxSelectedParticipants q) = Ok tt
  | Err e => e = CsSelectionPolicyNotFound ∧
      ∃ first, version_of s id 1 = Some first ∧ height < SPV_ValidFromHeight first
  end.
Proof.
  intros (_ & _ & Hpi) Hs. simpl in Hpi.
  pose proof (SelectionPolicyAtHeight_spec h s id slot Hpi Hs height) as Hr.
  pose proof (pi_history _ _ Hpi id slot Hs) as Hh.
  destruct (SelectionPolicyAtHeight id height s) as [q|e].
  - destruct Hr as (v & Hv & Hf). destruct (ho_row _ _ _ _ Hh v q Hv) as (Hid & Hver & _ & Hval).
    split_and!; try done; [by rewrite Hver|]. intros v' q' Hv' Hf'.
    pose proof (in_force_unique h s id slot Hpi Hs height v v' q q' Hv Hv' Hf Hf'). congruence.
  - destruct Hr as [-> Hr]. split; [done|].
    destruct (version_exists h s id slot Hpi Hs 1) as [first Hfirst].
    { pose proof (ho_current _ _ _ _ Hh). lia. }
    exists first. split; [done|]. by apply (Hr 1).
Qed.

(** The policy history is append only.  What a height resolves to, its rate
    and maximum included, never changes once the height is past, whatever
    messages and blocks follow; for a registered slot the current height is
    settled too. *)
Theorem selection_policy_history_immutable x y id height :
  cs_good econ x → rtc (cs_step econ) x y →
  height < fst x ∨ height ≤ fst x ∧ is_Some (Cs_Slots (snd x) !! id) →
  same_resolution (SelectionPolicyAtHeight id height (snd x))
    (SelectionPolicyAtHeight id height (snd y)).
Proof.
  intros Hx Hr Hle. pose proof (run_good econ x y Hx Hr) as (_ & _ & Hpy).
  destruct (run_kept econ x y Hx Hr) as [Hk _]. destruct Hx as (_ & _ & Hpx).
  by eapply (kept_resolution (fst x) (fst y)).
Qed.

(** A slot's history grows by at most one version per cooldown after the
    first update: at height [h] it has fewer than [h / 360 + 3] versions, numbered
    without gaps. *)
Theorem selection_policy_growth_bounded h s id slot :
  cs_good econ (h, s) → Cs_Slots s !! id = Some slot →
  (∀ v, is_Some (version_of s id v) ↔ 1 ≤ v ≤ CurrentSelectionPolicyVersion slot) ∧
  CurrentSelectionPolicyVersion slot < h `div` 360 + 3.
Proof.
  intros (_ & _ & Hpi) Hs. simpl in Hpi.
  split; [apply (ho_versions _ _ _ _ (pi_history _ _ Hpi id slot Hs))|].
  pose proof (version_count h s id slot Hpi Hs) as Hc.
  unfold HardMinSelectionPolicyUpdateCooldownBlocks in Hc.
  pose proof (Z.div_le_lower_bound h 360 (CurrentSelectionPolicyVersion slot - 2)). lia.
Qed.

(** A slot keeps its identifier, operator and creation height for life, its
    activation count never falls, it never returns to PENDING, and a REMOVED slot
    is frozen: no message and no end block ever changes its record. *)
Theorem slot_lifecycle x y id slot :
  cs_good econ x → rtc (cs_step econ) x y → Cs_Slots (snd x) !! id = Some slot →
  ∃ slot', Cs_Slots (snd y) !! id = Some slot' ∧
    SlotId slot' = id ∧ OperatorAddress slot' = OperatorAddress slot ∧
    CreatedHeight slot' = CreatedHeight slot ∧
    ActivationSequence slot ≤ ActivationSequence slot' ∧
    (Status slot' = SLOT_STATUS_PENDING → Status slot = SLOT_STATUS_PENDING) ∧
    (Status slot = SLOT_STATUS_REMOVED → slot' = slot).
Proof.
  intros Hx Hr Hs. pose proof (run_good econ x y Hx Hr) as (_ & [p Hi] & _).
  destruct (run_evolves econ x y id slot Hx Hr Hs) as (slot' & Hs' & []).
  exists slot'. split_and!; try done. apply (so_id _ _ _ _ (ci_slots _ _ _ Hi id slot' Hs')).
Qed.

(** One message changes the status of a slot only along an edge of the
    lifecycle, and only when the sender may: the authority, the emergency
    authority for a suspension, the operator for an inactivation. *)
Theorem slot_status_authorised height p s m s' r id slot :
  core_inv econ p s → coreslot_deliver econ height m s = (s', r) →
  Cs_Slots s !! id = Some slot →
  ∃ slot', Cs_Slots s' !! id = Some slot' ∧
    (Status slot' = Status slot ∨ may_change p m slot (Status slot')).
Proof.
  intros Hi Hd Hs. destruct (deliver_effects econ height p s Hi m s' r Hd) as [Hrows _].
  destruct (Hrows id slot Hs) as (slot' & Hs' & _ & Hc). by exists slot'.
Qed.

(** C24: an authority role changes hands only when the nominee on record accepts
    and is an admissible address, which closes the nomination; only the holder
    opens a nomination, and only the holder's withdrawal or the nominee's
    acceptance closes one. *)
Theorem authority_handover height p s m s' r :
  core_inv econ p s → coreslot_deliver econ height m s = (s', r) →
  ∃ p', Cs_Params s' = Some p' ∧
    (∀ role, authorityRoleKey role = Ok role →
       currentHolder p' role = currentHolder p role ∨
       ∃ t, m = CAccept {| AA_Nominee := currentHolder p' role; AA_Role := role |} ∧
         Cs_PendingAuthority s !! role = Some t ∧ PAT_Nominee t = currentHolder p' role ∧
         is_ok (Validate econ (currentHolder p' role)) = true ∧
         Cs_PendingAuthority s' !! role = None) ∧
    (∀ role t, Cs_PendingAuthority s' !! role = Some t →
       Cs_PendingAuthority s !! role = Some t ∨
       m = CNominate {| NA_Authority := currentHolder p role; NA_Role := role;
                        NA_Nominee := PAT_Nominee t |} ∧ PAT_NominatedHeight t = height) ∧
    (∀ role t, Cs_PendingAuthority s !! role = Some t →
       is_Some (Cs_PendingAuthority s' !! role) ∨
       m = CAccept {| AA_Nominee := PAT_Nominee t; AA_Role := role |} ∨
       m = CCancel {| CAN_Authority := currentHolder p role; CAN_Role := role |}).
Proof.
  intros Hi Hd. destruct (deliver_effects econ height p s Hi m s' r Hd) as (_ & p' & Hp & []).
  by exists p'.
Qed.
End properties.

(** C37: a consensus key stays reserved for exactly the configured number of
    blocks while the deadline fits an int64; past that the unchecked sum wraps and
    the reservation has expired before it began.  Parameter validation puts no
    bound on the number of blocks. *)
Theorem reservation_deadline height p addr id reason :
  0 < height ≤ MaxInt64 → is_u64 (ConsensusKeyReuseLockout p) →
  let until := RCA_ReservedUntil (reservation height p addr id reason) in
  (height + ConsensusKeyReuseLockout p ≤ MaxInt64 →
     until = height + ConsensusKeyReuseLockout p) ∧
  (MaxInt64 < height + ConsensusKeyReuseLockout p → until < height).
Proof.
  intros Hh Hl until. subst until. unfold reservation, i64. cbn [RCA_ReservedUntil].
  generalize dependent (ConsensusKeyReuseLockout p). intros n Hn. widths. split.
  - intros Hle. rewrite (Z.mod_small (n + 2 ^ 63)) by lia.
    rewrite Z.mod_small by lia. lia.
  - intros Hgt. destruct (Z.lt_ge_cases n (2 ^ 63)) as [Hs|Hs].
    + rewrite (Z.mod_small (n + 2 ^ 63)) by lia.
      replace (height + (n + 2 ^ 63 - 2 ^ 63) + 2 ^ 63)
        with (height + n - 2 ^ 63 + 1 * 2 ^ 64) by lia.
      rewrite Z.mod_add, Z.mod_small by lia. lia.
    + replace (n + 2 ^ 63) with (n - 2 ^ 63 + 1 * 2 ^ 64) by lia.
      rewrite Z.mod_add, (Z.mod_small (n - 2 ^ 63)) by lia. rewrite Z.mod_small by lia. lia.
Qed.

(** ** Witnesses *)
Definition sample_remove : coreslot_message :=
  CRemove {| RemCS_Authority := "gov"; RemCS_SlotId := 3; RemCS_Reason := "" |}%string.
Definition sample_nominate : coreslot_message :=
  CNominate {| NA_Authority := "gov"; NA_Role := 1; NA_Nominee := "heir" |}%string.
Definition sample_accept : coreslot_message :=
  CAccept {| AA_Nominee := "heir"; AA_Role := 1 |}%string.
Definition sample_update : coreslot_message :=
  CPolicy {| USP_Operator := "ann"; USP_SlotId := 1; USP_SelectionRateBps := 700;
             USP_MaxSelectedParticipants := 20 |}%string.

(** A lookup in the sample store, by running it. *)
Ltac run_sample := match goal with |- ?a = Some ?b => vm_cast_no_check (eq_refl a) end.

Lemma endblock_reports_active_slots_witness :
  ∃ p s' keyed, CoreSlotEndBlock 1 sample_core = (s', Ok (ku_update <$> keyed)) ∧
    core_inv sample_validator p s'.
Proof.
  destruct sample_import as (p & Hi & _).
  destruct (endblock_reports_active_slots sample_validator 1 p sample_core Hi)
    as (s' & keyed & Hrun & Hi' & _).
  exists p, s', keyed. exact (conj Hrun Hi').
Defined.

Lemma coreslot_run_safe_witness :
  cs_good sample_validator (1, sample_deliver sample_remove sample_core).
Proof.
  destruct sample_import as (p & _ & Hg).
  exact (proj1 (coreslot_run_safe sample_validator (1, sample_core) _ Hg
    (rtc_once _ _ (sample_message_step sample_remove sample_core I)))).
Defined.

Lemma genesis_import_establishes_witness :
  ∃ p s keyed, InitGenesis sample_validator 0 sample_genesis emptyCoreSlotState =
    (s, Ok (ku_update <$> keyed)) ∧ CG_Params sample_genesis = Some p.
Proof.
  destruct (genesis_import_establishes sample_validator sample_genesis 0 1)
    as (p & s & keyed & Hrun & Hp & _);
    [by vm_compute.. | exact sample_typed | exact sample_distinct|].
  exists p, s, keyed. exact (conj Hrun Hp).
Defined.

Lemma sample_slot_1 :
  Cs_Slots sample_core !! 1 = Some (sample_core_slot 1 "ann" "a" SLOT_STATUS_ACTIVE).
Proof. vm_cast_no_check (eq_refl (Some (sample_core_slot 1 "ann" "a" SLOT_STATUS_ACTIVE))). Qed.

Lemma selection_policy_resolution_witness :
  ∃ q, SelectionPolicyAtHeight 1 9 sample_core = Ok q ∧ in_force 9 q.
Proof.
  destruct sample_import as (p & _ & Hg).
  pose proof (selection_policy_resolution sample_validator 1 sample_core 1 _ 9 Hg sample_slot_1)
    as Hr.
  assert (SelectionPolicyAtHeight 1 9 sample_core = Ok (sample_policy 1)) as He
    by vm_cast_no_check (eq_refl (@Ok SelectionPolicyVersion (sample_policy 1))).
  rewrite He in Hr. exists (sample_policy 1). exact (conj He (proj1 (proj2 (proj2 Hr)))).
Defined.

Lemma selection_policy_history_immutable_witness :
  same_resolution (SelectionPolicyAtHeight 1 1 sample_core)
    (SelectionPolicyAtHeight 1 1 (sample_deliver sample_update sample_core)).
Proof.
  destruct sample_import as (p & _ & Hg).
  refine (selection_policy_history_immutable sample_validator (1, sample_core) (1, _) 1 1 Hg
    (rtc_once _ _ (sample_message_step sample_update sample_core I)) (or_intror (conj _ _))).
  - reflexivity.
  - exact (mk_is_Some _ _ sample_slot_1).
Defined.

Lemma selection_policy_growth_bounded_witness :
  CurrentSelectionPolicyVersion (sample_core_slot 1 "ann" "a" SLOT_STATUS_ACTIVE) < 1 `div` 360 + 3.
Proof.
  destruct sample_import as (p & _ & Hg).
  exact (proj2 (selection_policy_growth_bounded sample_validator 1 sample_core 1 _ Hg
    sample_slot_1)).
Defined.

Lemma slot_lifecycle_witness :
  ∃ slot', Cs_Slots (sample_deliver sample_update sample_core) !! 1 = Some slot' ∧
    OperatorAddress slot' = "ann"%string.
Proof.
  destruct sample_import as (p & _ & Hg).
  destruct (slot_lifecycle sample_validator (1, sample_core) (1, _) 1 _ Hg
    (rtc_once _ _ (sample_message_step sample_update sample_core I)) sample_slot_1)
    as (slot' & Hs & _ & Ho & _).
  exists slot'. exact (conj Hs Ho).
Defined.

Lemma slot_status_authorised_witness :
  ∃ slot', Cs_Slots (sample_deliver sample_remove sample_core) !! 1 = Some slot'.
Proof.
  destruct sample_import as (p & Hi & _).
  destruct (slot_status_authorised sample_validator 1 p sample_core sample_remove _ _ 1 _ Hi
    (surjective_pairing _) sample_slot_1) as (slot' & Hs & _).
  exists slot'. exact Hs.
Defined.

Lemma authority_handover_witness :
  let s := sample_deliver sample_nominate sample_core in
  ∃ p', Cs_Params (sample_deliver sample_accept s) = Some p'.
Proof.
  intros s. destruct sample_import as (p & _ & Hg).
  destruct (step_good sample_validator _ _ Hg (sample_message_step sample_nominate sample_core I))
    as (_ & [q Hi] & _).
  destruct (authority_handover sample_validator 1 q s sample_accept _ _ Hi
    (surjective_pairing _)) as (p' & Hp & _).
  exists p'. exact Hp.
Defined.

Lemma reservation_deadline_witness :
  let p := (DefaultCoreSlotParams "gov" "guard") <| ConsensusKeyReuseLockout := 2 ^ 63 |> in
  CoreSlotParams_Validate p = Ok tt ∧ RCA_ReservedUntil (reservation 5 p "addr" 1 "removed") < 5.
Proof.
  split; [by vm_compute|].
  apply (reservation_deadline 5 ((DefaultCoreSlotParams "gov" "guard")
    <| ConsensusKeyReuseLockout := 2 ^ 63 |>)); [by vm_compute | by vm_compute | by vm_compute].
Defined.
