(* ===== verification/Pause.v ===== *)
(** * x/rewards/keeper/pause.go: the pause switch

    A pause or resume signed at height [H] takes effect at [H + 1]; the item holds
    the current value and at most one pending transition.  The theorems give the
    whole life of a transition: several requests in one block leave the last,
    the applied value is the requested one at exactly the next block, and the
    application never fails on the states the module reaches. *)
From S2P Require Import Prelude Checked RewardsTypes.
Local Open Scope Z_scope.

(** The [PauseState] item. *)
Definition PauseItem := option RewardsPauseState.

Definition GetPauseState (p : PauseItem) : res RewardsPauseState :=
  match p with
  | None => Err RwInvalidState
  | Some state =>
      Pause_Validate state ;;
      mret state
  end.

Definition SetPauseState (state : RewardsPauseState) : M PauseItem unit :=
  lift (Pause_Validate state) ;;
  modify (λ _, Some state).

Definition RewardsPaused (p : PauseItem) : res bool :=
  state ← GetPauseState p;
  mret (CurrentPaused state).

Definition SettlementReleaseEnabled (p : PauseItem) : res bool :=
  paused ← RewardsPaused p;
  mret (negb paused).

Definition SchedulePauseTransition (height : Z) (paused : bool) : M PauseItem unit :=
  current ← reads GetPauseState;
  unsignedHeight ← lift (wrap RwInvalidState (Uint64FromInt64 height));
  effective ← lift (wrap RwInvalidState (AddUint64 unsignedHeight 1));
  SetPauseState {|
    CurrentPaused := CurrentPaused current;
    HasPending := true;
    PendingValue := paused;
    PendingEffectiveHeight := effective |}.

Definition applyPendingPauseTransition (height : Z) : M PauseItem unit :=
  state ← reads GetPauseState;
  if negb (HasPending state) then mret tt
  else if PendingEffectiveHeight state >? height then mret tt
  else if PendingEffectiveHeight state <? height then mthrow RwInvalidState
  else SetPauseState {|
    CurrentPaused := PendingValue state;
    HasPending := false;
    PendingValue := false;
    PendingEffectiveHeight := 0 |}.

(** ** Lemmas *)

(** Between blocks [height] and [height + 1]: readable, and a pending transition
    is due in the next block. *)
Definition pause_ok (height : Z) (p : PauseItem) : Prop :=
  ∃ st, p = Some st ∧ Pause_Validate st = Ok tt ∧
    (HasPending st = true → PendingEffectiveHeight st = height + 1).

Lemma GetPauseState_ok h st :
  pause_ok h (Some st) → GetPauseState (Some st) = Ok st.
Proof. intros (st' & [= <-] & Hv & _). unfold GetPauseState. by rewrite Hv. Qed.

Lemma schedule_pause_run h b st :
  pause_ok h (Some st) ∨ pause_ok (h - 1) (Some st) → 0 ≤ h < MaxInt64 →
  SchedulePauseTransition h b (Some st) =
    (Some {| CurrentPaused := CurrentPaused st; HasPending := true; PendingValue := b;
             PendingEffectiveHeight := h + 1 |}, Ok tt).
Proof.
  intros Hp Hh. assert (GetPauseState (Some st) = Ok st) as Hg
    by (destruct Hp; by eapply GetPauseState_ok).
  unfold SchedulePauseTransition.
  rewrite (M_bind_run _ _ _ (Some st) st) by (unfold reads; by rewrite Hg).
  rewrite (M_bind_run _ _ _ (Some st) h).
  2:{ unfold lift. f_equal. apply wrap_Ok, Uint64FromInt64_Ok; widths; lia. }
  rewrite (M_bind_run _ _ _ (Some st) (h + 1)).
  2:{ unfold lift. f_equal. apply wrap_Ok, AddUint64_Ok; widths; lia. }
  unfold SetPauseState, Pause_Validate. simpl.
  destruct (Z.eqb_spec (h + 1) 0); [lia | reflexivity].
Qed.

Lemma last_cons_default {A} (x : A) l d : List.last (x :: l) d = List.last l x.
Proof.
  revert x d. induction l as [|y l IH]; intros x d; [done|].
  transitivity (List.last (y :: l) d); [done|]. by rewrite !IH.
Qed.

(** ** Properties *)

(** Pause requests of one block take effect together at the next one, the last
    request winning: from a state with nothing overdue, any sequence of requests
    at height [h] succeeds, leaves the current value untouched during the block,
    and the application at [h + 1] succeeds and sets it to the value of the last
    request (or leaves it, if there was none), clearing the pending slot;
    applying at [h] itself changes nothing. *)
Theorem pause_takes_effect_next_block (h : Z) (st : RewardsPauseState) (requests : list bool) :
  0 ≤ h < MaxInt64 → Pause_Validate st = Ok tt → HasPending st = false →
  ∃ st1,
    for_each (SchedulePauseTransition h) requests (Some st) = (Some st1, Ok tt) ∧
    RewardsPaused (Some st1) = Ok (CurrentPaused st) ∧
    applyPendingPauseTransition h (Some st1) = (Some st1, Ok tt) ∧
    let final := List.last requests (CurrentPaused st) in
    ∃ st2, applyPendingPauseTransition (h + 1) (Some st1) = (Some st2, Ok tt) ∧
      RewardsPaused (Some st2) = Ok final ∧ HasPending st2 = false ∧
      Pause_Validate st2 = Ok tt.
Proof.
  intros Hh Hv Hp. destruct (decide (requests = [])) as [->|Hne].
  { assert (GetPauseState (Some st) = Ok st) as Hg by (unfold GetPauseState; by rewrite Hv).
    assert (∀ k, applyPendingPauseTransition k (Some st) = (Some st, Ok tt)) as Happ.
    { intros k. unfold applyPendingPauseTransition.
      rewrite (M_bind_run _ _ _ (Some st) st) by (unfold reads; by rewrite Hg). by rewrite Hp. }
    exists st. unfold RewardsPaused. rewrite Hg. split_and!; [done..|].
    exists st. rewrite Hg. done. }
  set (st1 := {| CurrentPaused := CurrentPaused st; HasPending := true;
    PendingValue := List.last requests (CurrentPaused st); PendingEffectiveHeight := h + 1 |}).
  assert (Pause_Validate st1 = Ok tt) as Hv1.
  { unfold Pause_Validate. simpl. destruct (Z.eqb_spec (h + 1) 0); [lia | done]. }
  assert (∀ reqs b, for_each (SchedulePauseTransition h) reqs
    (Some {| CurrentPaused := CurrentPaused st; HasPending := true; PendingValue := b;
             PendingEffectiveHeight := h + 1 |}) =
    (Some {| CurrentPaused := CurrentPaused st; HasPending := true;
             PendingValue := List.last reqs b; PendingEffectiveHeight := h + 1 |}, Ok tt))
    as Hrun.
  { induction reqs as [|r reqs IH]; intros b; [done|].
    simpl for_each. erewrite M_bind_run.
    2:{ apply schedule_pause_run; [left|done]. eexists. split_and!; [done| |done].
        unfold Pause_Validate. simpl. by destruct (Z.eqb_spec (h + 1) 0); [lia|]. }
    simpl CurrentPaused. rewrite IH. do 3 f_equal. by rewrite last_cons_default. }
  exists st1. split_and!.
  - destruct requests as [|r reqs]; [done|]. simpl for_each. erewrite M_bind_run.
    2:{ apply schedule_pause_run; [left|done]. exists st. split_and!; [done..|]. congruence. }
    rewrite Hrun. unfold st1. do 3 f_equal. by rewrite last_cons_default.
  - unfold RewardsPaused, GetPauseState. by rewrite Hv1.
  - unfold applyPendingPauseTransition.
    rewrite (M_bind_run _ _ _ (Some st1) st1)
      by (unfold reads, GetPauseState; by rewrite Hv1).
    simpl. rewrite Z.gtb_ltb. by destruct (Z.ltb_spec h (h + 1)); [|lia].
  - simpl. exists {| CurrentPaused := List.last requests (CurrentPaused st);
      HasPending := false; PendingValue := false; PendingEffectiveHeight := 0 |}.
    split_and!; [|done..]. unfold applyPendingPauseTransition.
    rewrite (M_bind_run _ _ _ (Some st1) st1)
      by (unfold reads, GetPauseState; by rewrite Hv1).
    simpl. rewrite Z.gtb_ltb, Z.ltb_irrefl. done.
Qed.

Lemma pause_takes_effect_next_block_witness :
  ∃ st1, for_each (SchedulePauseTransition 7) [true; false; true]
    (Some {| CurrentPaused := false; HasPending := false; PendingValue := false;
             PendingEffectiveHeight := 0 |}) = (Some st1, Ok tt).
Proof.
  destruct (pause_takes_effect_next_block 7 {| CurrentPaused := false; HasPending := false;
    PendingValue := false; PendingEffectiveHeight := 0 |} [true; false; true])
    as (st1 & H & _); [ground.. | exists st1; exact H].
Defined.
