(* ===== verification/Entitlement.v ===== *)
(** * x/rewards/keeper/entitlement.go: what the escrow owes

    The slot entitlements, keyed by (epoch, slot), and the accumulator of the
    outstanding liability, with the bookkeeping half of [release.go].  The
    invariant [ent_wf]: every record is valid and the accumulator is exactly the
    sum of what each entitlement still owes. *)
From S2P Require Import Prelude Checked SdkMath EconomicAddress RewardsTypes Collections.
From S2P Require Import RewardConfig.
Local Open Scope Z_scope.

Record EntitlementStore := {
  SlotEntitlements : gmap (Z * Z) SlotEntitlement;
  OutstandingEntitlementLiability : option string
}.

Definition entitlementKey (epoch slotID : Z) : Z * Z := (epoch, slotID).

Definition set_entitlement (key : Z * Z) (e : SlotEntitlement) (s : EntitlementStore)
    : EntitlementStore := {|
  SlotEntitlements := <[key := e]> (SlotEntitlements s);
  OutstandingEntitlementLiability := OutstandingEntitlementLiability s |}.
Definition set_liability (v : string) (s : EntitlementStore) : EntitlementStore := {|
  SlotEntitlements := SlotEntitlements s;
  OutstandingEntitlementLiability := Some v |}.

Section entitlement.
Context {SI : SdkInt} (economicAddresses : Validator).

Definition validateEntitlementRecord (key : Z * Z) (entitlement : SlotEntitlement) : res unit :=
  fail_if (negb (Ent_Epoch entitlement =? fst key) || negb (Ent_SlotId entitlement =? snd key))
    RwInvalidState ;;
  Ent_Validate entitlement.

(** The Go result [(entitlement, found, err)]. *)
Definition GetSlotEntitlement (s : EntitlementStore) (slotID epoch : Z)
    : res (option SlotEntitlement) :=
  fail_if ((slotID =? 0) || (epoch =? 0)) RwInvalidState ;;
  let key := entitlementKey epoch slotID in
  match SlotEntitlements s !! key with
  | None => mret None
  | Some entitlement =>
      validateEntitlementRecord key entitlement ;;
      mret (Some entitlement)
  end.

Definition IterateEntitlementsForEpoch (s : EntitlementStore) (epoch : Z)
    : res (list SlotEntitlement) :=
  fail_if (epoch =? 0) RwInvalidState ;;
  fold_m (λ rows kv,
    validateEntitlementRecord (fst kv) (snd kv) ;;
    mret (rows ++ [snd kv])) (prefix_entries epoch (SlotEntitlements s)) [].

Definition GetOutstandingEntitlementLiability (s : EntitlementStore) : res Z :=
  match OutstandingEntitlementLiability s with
  | None => Err RwInvalidState
  | Some raw => wrap RwInvalidState (ParseAmountString raw)
  end.

Definition SetOutstandingEntitlementLiability (amount : option Z) : M EntitlementStore unit :=
  match amount with
  | None => mthrow RwInvalidState
  | Some amount =>
      fail_if (amount <? 0) RwInvalidState ;;
      modify (set_liability (Int_String amount))
  end.

Definition addOutstandingLiability (amount : Z) : M EntitlementStore unit :=
  current ← reads GetOutstandingEntitlementLiability;
  next ← lift (or_err RwInvalidState (Int_SafeAdd current amount));
  SetOutstandingEntitlementLiability (Some next).

Definition subOutstandingLiability (amount : Z) : M EntitlementStore unit :=
  current ← reads GetOutstandingEntitlementLiability;
  next ← lift (or_err RwInvalidState (Int_SafeSub current amount));
  SetOutstandingEntitlementLiability (Some next).

Definition SumOutstandingEntitlementLiability (s : EntitlementStore) : res Z :=
  fold_m (λ total kv,
    validateEntitlementRecord (fst kv) (snd kv) ;;
    remaining ← Ent_Remaining (snd kv);
    or_err RwInvalidState (Int_SafeAdd total remaining))
    (pair_entries (SlotEntitlements s)) 0.

(** [economic_address.go] *)
Definition validatePayoutDestination (address : string) : res unit :=
  _ ← wrap RwInvalidAddress (Validate economicAddresses address);
  mret tt.

Definition createSlotEntitlement (entitlement : SlotEntitlement)
    (governing : RewardConfigVersion) : M EntitlementStore unit :=
  lift (Ent_Validate entitlement) ;;
  released ← lift (Ent_Released entitlement);
  fail_if (negb (released =? 0)) RwInvalidState ;;
  lift (validatePayoutDestination (Ent_PayoutAddress entitlement)) ;;
  fail_if (RCV_EffectiveEpoch governing >? Ent_Epoch entitlement) RwInvalidState ;;
  fail_if (negb (RCV_Version governing =? Ent_RewardConfigVersion entitlement))
    RwInvalidState ;;
  let key := entitlementKey (Ent_Epoch entitlement) (Ent_SlotId entitlement) in
  exists_ ← gets (λ s, bool_decide (is_Some (SlotEntitlements s !! key)));
  fail_if exists_ RwInvalidState ;;
  amount ← lift (Ent_Amount entitlement);
  modify (set_entitlement key entitlement) ;;
  addOutstandingLiability amount.

(** [release.go] *)
Definition assertReleaseCeiling (entitlement : SlotEntitlement) (requested : Z) : res unit :=
  amount ← Ent_Amount entitlement;
  released ← Ent_Released entitlement;
  next ← or_err RwInvalidState (Int_SafeAdd released requested);
  fail_if (next >? amount) RwInvalidState.

Definition with_released (e : SlotEntitlement) (released : string) : SlotEntitlement := {|
  Ent_SlotId := Ent_SlotId e;
  Ent_Epoch := Ent_Epoch e;
  Ent_TotalBlocksActive := Ent_TotalBlocksActive e;
  Ent_EntitlementAmount := Ent_EntitlementAmount e;
  Ent_ReleasedAmount := released;
  Ent_PayoutAddress := Ent_PayoutAddress e;
  Ent_RewardConfigVersion := Ent_RewardConfigVersion e;
  Ent_SlotStatusAtEpochClose := Ent_SlotStatusAtEpochClose e;
  Ent_ActivationSequenceAtEpochClose := Ent_ActivationSequenceAtEpochClose e;
  Ent_CreatedHeight := Ent_CreatedHeight e |}.

Definition recordRelease (entitlement : SlotEntitlement) (released : Z)
    : M EntitlementStore unit :=
  current ← lift (Ent_Released entitlement);
  next ← lift (or_err RwInvalidState (Int_SafeAdd current released));
  let updated := with_released entitlement (Int_String next) in
  lift (Ent_Validate updated) ;;
  modify (set_entitlement (entitlementKey (Ent_Epoch updated) (Ent_SlotId updated)) updated) ;;
  subOutstandingLiability released.
End entitlement.

(** ** The invariant *)
Section invariant.
Context {SI : SdkInt} (economicAddresses : Validator).
Implicit Types (s : EntitlementStore) (e : SlotEntitlement).

(** What an entitlement still owes; zero for an unreadable record. *)
Definition owed (e : SlotEntitlement) : Z :=
  match Ent_Amount e, Ent_Released e with Ok a, Ok r => a - r | _, _ => 0 end.

Definition records_ok (m : gmap (Z * Z) SlotEntitlement) : Prop :=
  ∀ k e, m !! k = Some e → validateEntitlementRecord k e = Ok tt.

Record ent_wf (s : EntitlementStore) : Prop := {
  ent_records : records_ok (SlotEntitlements s);
  ent_liability : GetOutstandingEntitlementLiability s =
    Ok (map_sum owed (SlotEntitlements s))
}.

Lemma Ent_Amount_Ok e a : Ent_Amount e = Ok a → 0 ≤ a ∧ int_ok a = true.
Proof. unfold Ent_Amount. intros H. apply wrap_Ok in H. by apply ParseAmountString_Ok in H. Qed.
Lemma Ent_Released_Ok e r : Ent_Released e = Ok r → 0 ≤ r ∧ int_ok r = true.
Proof. unfold Ent_Released. intros H. apply wrap_Ok in H. by apply ParseAmountString_Ok in H. Qed.

Lemma Ent_Validate_Ok e :
  Ent_Validate e = Ok tt ↔
  Ent_SlotId e ≠ 0 ∧ Ent_Epoch e ≠ 0 ∧ Ent_RewardConfigVersion e ≠ 0 ∧
  Ent_CreatedHeight e ≠ 0 ∧ Ent_TotalBlocksActive e ≠ 0 ∧
  ∃ a r, Ent_Amount e = Ok a ∧ Ent_Released e = Ok r ∧ 0 < a ∧ r ≤ a.
Proof.
  unfold Ent_Validate. split.
  - intros H. minv. zify_bool. split_and!; [done..|]. eexists _, _. split_and!; eauto; lia.
  - intros (H1 & H2 & H3 & H4 & H5 & a & r & Ha & Hr & Hp & Hle).
    rewrite Ha, Hr. repeat match goal with |- context [?x =? 0] =>
      destruct (Z.eqb_spec x 0); [done|] end.
    cbn [fail_if mret res_ret mbind res_bind]. rewrite !Z.gtb_ltb.
    destruct (Z.ltb_spec 0 a); [|lia]. cbn [negb fail_if mret res_ret mbind res_bind].
    destruct (Z.ltb_spec a r); [lia | done].
Qed.

Lemma record_valid k e :
  validateEntitlementRecord k e = Ok tt ↔
  k = entitlementKey (Ent_Epoch e) (Ent_SlotId e) ∧ Ent_Validate e = Ok tt.
Proof.
  unfold validateEntitlementRecord, entitlementKey. destruct k as [k1 k2]. simpl.
  destruct (Z.eqb_spec (Ent_Epoch e) k1), (Z.eqb_spec (Ent_SlotId e) k2); simpl;
    (split; [intros H; simplify_eq/=; try done | intros [H Hv]; simplify_eq/=; try done]).
Qed.

Lemma owed_valid e : Ent_Validate e = Ok tt →
  ∃ a r, Ent_Amount e = Ok a ∧ Ent_Released e = Ok r ∧ 0 ≤ r ≤ a ∧ 0 < a ∧
    int_ok a = true ∧ owed e = a - r ∧ Ent_Remaining e = Ok (a - r).
Proof.
  intros (_ & _ & _ & _ & _ & a & r & Ha & Hr & Hp & Hle)%Ent_Validate_Ok.
  pose proof (Ent_Amount_Ok e a Ha) as [? Hok]. pose proof (Ent_Released_Ok e r Hr) as [? _].
  exists a, r. unfold owed, Ent_Remaining. rewrite Ha, Hr. split_and!; try done.
  cbn [mbind res_bind]. apply SafeSub_Ok. split; [done | int_solve].
Qed.

Lemma records_owed_nonneg m : records_ok m → ∀ k e, m !! k = Some e → 0 ≤ owed e.
Proof.
  intros Hr k e Hk. apply Hr, record_valid in Hk as [_ Hv].
  apply owed_valid in Hv as (a & r & _ & _ & ? & _ & _ & -> & _). lia.
Qed.

Lemma liability_bounds s : ent_wf s →
  0 ≤ map_sum owed (SlotEntitlements s) ∧ int_ok (map_sum owed (SlotEntitlements s)) = true.
Proof.
  intros [_ H]. unfold GetOutstandingEntitlementLiability in H.
  destruct (OutstandingEntitlementLiability s); [|done]. apply wrap_Ok in H.
  by apply ParseAmountString_Ok in H.
Qed.

(** Setting the accumulator. *)
Lemma set_liability_run s z :
  0 ≤ z → SetOutstandingEntitlementLiability (Some z) s = (set_liability (Int_String z) s, Ok tt).
Proof. intros Hz. unfold SetOutstandingEntitlementLiability. by destruct (Z.ltb_spec z 0); [lia|]. Qed.

Lemma get_set_liability s z :
  0 ≤ z → int_ok z = true →
  GetOutstandingEntitlementLiability (set_liability (Int_String z) s) = Ok z.
Proof.
  intros Hz Hok. unfold GetOutstandingEntitlementLiability. simpl.
  by rewrite ParseAmountString_String.
Qed.

Lemma addOutstandingLiability_run s cur amount :
  GetOutstandingEntitlementLiability s = Ok cur → 0 ≤ cur → 0 ≤ amount →
  cur + amount < 2 ^ 256 →
  addOutstandingLiability amount s = (set_liability (Int_String (cur + amount)) s, Ok tt).
Proof.
  intros Hg Hc Ha Hb. unfold addOutstandingLiability.
  rewrite (M_bind_run _ _ s s cur) by (unfold reads; by rewrite Hg).
  rewrite (M_bind_run _ _ s s (cur + amount)).
  2:{ unfold lift. f_equal. apply SafeAdd_Ok. split; [done | int_solve]. }
  apply set_liability_run. lia.
Qed.

Lemma subOutstandingLiability_run s cur amount :
  GetOutstandingEntitlementLiability s = Ok cur → 0 ≤ amount ≤ cur → int_ok cur = true →
  subOutstandingLiability amount s = (set_liability (Int_String (cur - amount)) s, Ok tt).
Proof.
  intros Hg Hc Hok. unfold subOutstandingLiability.
  rewrite (M_bind_run _ _ s s cur) by (unfold reads; by rewrite Hg).
  rewrite (M_bind_run _ _ s s (cur - amount)).
  2:{ unfold lift. f_equal. apply SafeSub_Ok. split; [done | int_solve]. }
  apply set_liability_run. lia.
Qed.
End invariant.

(** ** Creation and release keep the books *)
Section operations.
Context {SI : SdkInt} (economicAddresses : Validator).
Implicit Types (s : EntitlementStore) (e : SlotEntitlement).

(** The conditions under which an entitlement is created. *)
Definition creatable e (gov : RewardConfigVersion) : Prop :=
  Ent_Validate e = Ok tt ∧ Ent_Released e = Ok 0 ∧
  validatePayoutDestination economicAddresses (Ent_PayoutAddress e) = Ok tt ∧
  RCV_EffectiveEpoch gov ≤ Ent_Epoch e ∧ RCV_Version gov = Ent_RewardConfigVersion e.

(** Nothing is released yet, and the payout address can be paid. *)
Definition unpaid e : Prop :=
  Ent_Released e = Ok 0 ∧
  validatePayoutDestination economicAddresses (Ent_PayoutAddress e) = Ok tt.

Definition key_of e : Z * Z := entitlementKey (Ent_Epoch e) (Ent_SlotId e).

Lemma create_spec s e gov a :
  ent_wf s → creatable e gov → SlotEntitlements s !! key_of e = None →
  Ent_Amount e = Ok a → map_sum owed (SlotEntitlements s) + a < 2 ^ 256 →
  ∃ s', createSlotEntitlement economicAddresses e gov s = (s', Ok tt) ∧ ent_wf s' ∧
    SlotEntitlements s' = <[key_of e := e]> (SlotEntitlements s) ∧
    map_sum owed (SlotEntitlements s') = map_sum owed (SlotEntitlements s) + a.
Proof.
  intros Hwf (Hv & Hr & Hp & Hge & Hgv) Hnone Ha Hb.
  pose proof (liability_bounds s Hwf) as [Hl _]. pose proof (Ent_Amount_Ok e a Ha) as [Ha0 _].
  destruct (owed_valid e Hv) as (a' & r' & Ha' & Hr' & _ & _ & _ & Ho & _).
  rewrite Ha in Ha'. rewrite Hr in Hr'. injection Ha' as <-. injection Hr' as <-.
  assert (map_sum owed (<[key_of e := e]> (SlotEntitlements s)) =
    map_sum owed (SlotEntitlements s) + a) as Hsum
    by (rewrite map_sum_insert_new by done; lia).
  exists (set_liability (Int_String (map_sum owed (SlotEntitlements s) + a))
    (set_entitlement (key_of e) e s)).
  split_and!; [| |done|done].
  - unfold createSlotEntitlement.
    rewrite (M_bind_run _ _ s s tt) by (unfold lift; by rewrite Hv).
    rewrite (M_bind_run _ _ s s 0) by (unfold lift; by rewrite Hr).
    rewrite (M_bind_run _ _ s s tt) by done.
    rewrite (M_bind_run _ _ s s tt) by (unfold lift; by rewrite Hp).
    rewrite Z.gtb_ltb. destruct (Z.ltb_spec (Ent_Epoch e) (RCV_EffectiveEpoch gov)); [lia|].
    rewrite (M_bind_run _ _ s s tt) by done. rewrite Hgv, Z.eqb_refl.
    rewrite (M_bind_run _ _ s s tt) by done.
    fold (key_of e). rewrite (M_bind_run _ _ s s false).
    2:{ unfold gets. rewrite bool_decide_eq_false_2; [done|]. rewrite Hnone. by intros [? ?]. }
    rewrite (M_bind_run _ _ s s tt) by done.
    rewrite (M_bind_run _ _ s s a) by (unfold lift; by rewrite Ha).
    rewrite (M_bind_run _ _ s (set_entitlement (key_of e) e s) tt) by done.
    apply addOutstandingLiability_run; [|done..]. by destruct Hwf.
  - split.
    + simpl. intros k' e' Hk. apply lookup_insert_Some in Hk as [[<- <-]|[_ Hk]].
      * by apply record_valid.
      * by apply Hwf.
    + simpl SlotEntitlements. rewrite Hsum. apply get_set_liability; [lia | int_solve].
Qed.

Lemma create_Ok s s' e gov :
  ent_wf s → createSlotEntitlement economicAddresses e gov s = (s', Ok tt) →
  creatable e gov ∧ SlotEntitlements s !! key_of e = None ∧ ent_wf s' ∧
  SlotEntitlements s' = <[key_of e := e]> (SlotEntitlements s) ∧
  ∃ a, Ent_Amount e = Ok a ∧ 0 < a ∧
    map_sum owed (SlotEntitlements s') = map_sum owed (SlotEntitlements s) + a.
Proof.
  intros Hwf H. pose proof H as Hrun. unfold createSlotEntitlement in H. minv. zify_bool.
  repeat match goal with H : bool_decide _ = false |- _ =>
    apply bool_decide_eq_false_1 in H end. 
  match goal with H : ¬ is_Some _ |- _ => apply eq_None_not_Some in H; rename H into Hnone end.
  match goal with H : Ent_Amount e = Ok ?x |- _ => rename x into a; rename H into Ha end.
  unfold addOutstandingLiability in *. minv. zify_bool.
  match goal with H : GetOutstandingEntitlementLiability _ = Ok ?x |- _ =>
    change (GetOutstandingEntitlementLiability s = Ok x) in H;
    rewrite (ent_liability s Hwf) in H; injection H as <- end.
  match goal with H : or_err _ (Int_SafeAdd _ _) = Ok _ |- _ =>
    apply SafeAdd_Ok in H as [-> Hb] end.
  assert (creatable e gov) as Hc.
  { split_and!; [done | | done | lia | done].
    match goal with H : Ent_Released e = Ok ?x |- _ => rewrite H; f_equal; lia end. }
  destruct (create_spec s e gov a Hwf Hc Hnone Ha) as (s1 & Hrun1 & Hwf1 & Hm & Hs).
  { apply int_ok_true in Hb. lia. }
  rewrite Hrun in Hrun1. injection Hrun1 as <-.
  split_and!; [done|done|done|done|]. exists a. split_and!; [done| |done].
  destruct Hc as (Hv & _). apply Ent_Validate_Ok in Hv as (_ & _ & _ & _ & _ & a' & r' & ? & _ & ? & _).
  congruence.
Qed.

Lemma with_released_valid e a r z :
  Ent_Validate e = Ok tt → Ent_Amount e = Ok a → Ent_Released e = Ok r →
  0 ≤ z ≤ a → let e' := with_released e (Int_String z) in
  Ent_Validate e' = Ok tt ∧ Ent_Amount e' = Ok a ∧ Ent_Released e' = Ok z ∧ owed e' = a - z.
Proof.
  intros Hv Ha Hr Hz e'. pose proof (Ent_Amount_Ok e a Ha) as [_ Hok].
  assert (Ent_Released e' = Ok z) as Hr'.
  { unfold Ent_Released. simpl. rewrite ParseAmountString_String; [done | lia |].
    by apply (int_ok_le z a). }
  assert (Ent_Amount e' = Ok a) as Ha' by done.
  split_and!; [|done|done|].
  - apply Ent_Validate_Ok in Hv as (? & ? & ? & ? & ? & a2 & r2 & Ha2 & _ & ? & _).
    apply Ent_Validate_Ok. split_and!; try done. exists a, z. split_and!; try done.
    + congruence.
    + lia.
  - unfold owed. by rewrite Ha', Hr'.
Qed.

Lemma recordRelease_spec s e a r x :
  ent_wf s → SlotEntitlements s !! key_of e = Some e →
  Ent_Amount e = Ok a → Ent_Released e = Ok r → 0 ≤ x → r + x ≤ a →
  ∃ s', recordRelease e x s = (s', Ok tt) ∧ ent_wf s' ∧
    SlotEntitlements s' =
      <[key_of e := with_released e (Int_String (r + x))]> (SlotEntitlements s) ∧
    map_sum owed (SlotEntitlements s') = map_sum owed (SlotEntitlements s) - x.
Proof.
  intros Hwf Hk Ha Hr Hx Hle.
  pose proof (ent_records s Hwf _ _ Hk) as Hrec. apply record_valid in Hrec as [_ Hv].
  pose proof (Ent_Amount_Ok e a Ha) as [_ Hok]. pose proof (Ent_Released_Ok e r Hr) as [Hr0 _].
  destruct (with_released_valid e a r (r + x) Hv Ha Hr ltac:(lia)) as (Hv' & Ha' & Hr' & Ho').
  pose proof (liability_bounds s Hwf) as [Hl Hlok].
  assert (owed e = a - r) as Ho by (unfold owed; by rewrite Ha, Hr).
  pose proof (map_sum_elem owed (SlotEntitlements s) _ e
    (records_owed_nonneg _ (ent_records s Hwf)) Hk) as Hel.
  set (e' := with_released e (Int_String (r + x))) in *.
  assert (map_sum owed (<[key_of e := e']> (SlotEntitlements s)) =
    map_sum owed (SlotEntitlements s) - x) as Hsum
    by (rewrite (map_sum_insert owed _ _ e) by done; lia).
  exists (set_liability (Int_String (map_sum owed (SlotEntitlements s) - x))
    (set_entitlement (key_of e) e' s)).
  split_and!; [| |done|done].
  - unfold recordRelease. rewrite (M_bind_run _ _ s s r) by (unfold lift; by rewrite Hr).
    rewrite (M_bind_run _ _ s s (r + x)).
    2:{ unfold lift. f_equal. apply SafeAdd_Ok. split; [done | int_solve]. }
    fold e'. rewrite (M_bind_run _ _ s s tt) by (unfold lift; by rewrite Hv').
    rewrite (M_bind_run _ _ s (set_entitlement (key_of e) e' s) tt) by done.
    apply subOutstandingLiability_run; [by destruct Hwf | lia | done].
  - split.
    + simpl. intros k' e2 Hk2. apply lookup_insert_Some in Hk2 as [[<- <-]|[_ Hk2]].
      * by apply record_valid.
      * by apply Hwf.
    + simpl SlotEntitlements. rewrite Hsum. apply get_set_liability; [lia|].
      apply (int_ok_le _ (map_sum owed (SlotEntitlements s))); [done | lia].
Qed.

Lemma recordRelease_Ok s s' e x :
  ent_wf s → SlotEntitlements s !! key_of e = Some e → 0 ≤ x →
  recordRelease e x s = (s', Ok tt) →
  ∃ a r, Ent_Amount e = Ok a ∧ Ent_Released e = Ok r ∧ r + x ≤ a ∧ ent_wf s' ∧
    SlotEntitlements s' =
      <[key_of e := with_released e (Int_String (r + x))]> (SlotEntitlements s) ∧
    map_sum owed (SlotEntitlements s') = map_sum owed (SlotEntitlements s) - x.
Proof.
  intros Hwf Hk Hx H.
  pose proof (ent_records s Hwf _ _ Hk) as Hrec. apply record_valid in Hrec as [_ Hv].
  destruct (owed_valid e Hv) as (a & r & Ha & Hr & Hle & _ & Hok & _).
  exists a, r. assert (r + x ≤ a) as Hb.
  { unfold recordRelease in H. minv. rewrite Hr in *. simplify_eq.
    match goal with H : or_err _ _ = Ok _ |- _ => apply SafeAdd_Ok in H as [-> Hov] end.
    match goal with H : Ent_Validate (with_released _ _) = Ok _ |- _ =>
      apply Ent_Validate_Ok in H as (_ & _ & _ & _ & _ & a2 & r2 & Ha2 & Hr2 & _ & Hle2) end.
    change (Ent_Amount e = Ok a2) in Ha2. unfold Ent_Released in Hr2. simpl in Hr2.
    rewrite ParseAmountString_String in Hr2 by (lia || done). simpl in Hr2.
    rewrite Ha in Ha2. simplify_eq. lia. }
  destruct (recordRelease_spec s e a r x Hwf Hk Ha Hr Hx Hb) as (s1 & H1 & ? & ? & ?).
  rewrite H in H1. injection H1 as <-. done.
Qed.

Lemma sum_entries_spec (l : list ((Z * Z) * SlotEntitlement)) acc :
  0 ≤ acc → (∀ k e, (k, e) ∈ l → validateEntitlementRecord k e = Ok tt) →
  int_ok (acc + sum_of (λ kv, owed (snd kv)) l) = true →
  fold_m (λ total kv,
    validateEntitlementRecord (fst kv) (snd kv) ;;
    remaining ← Ent_Remaining (snd kv);
    or_err RwInvalidState (Int_SafeAdd total remaining)) l acc =
  Ok (acc + sum_of (λ kv, owed (snd kv)) l).
Proof.
  revert acc. induction l as [|[k e] l IH]; intros acc Hacc Hall Hok.
  { simpl. by rewrite Z.add_0_r. }
  rewrite sum_of_cons in *. cbn [fold_m fst snd] in *.
  pose proof (Hall k e ltac:(by left)) as Hv. rewrite Hv. cbn [mbind res_bind].
  apply record_valid in Hv as [_ Hv].
  destruct (owed_valid e Hv) as (a & r & _ & _ & Hle & _ & _ & Ho & Hrem).
  rewrite Hrem. cbn [mbind res_bind]. rewrite <- Ho.
  assert (∀ k e, (k, e) ∈ l → validateEntitlementRecord k e = Ok tt) as Hall'
    by (intros k' e' ?; apply Hall; by right).
  assert (0 ≤ sum_of (λ kv : Z * Z * SlotEntitlement, owed (snd kv)) l) as Hnn.
  { apply sum_of_nonneg, Forall_forall. intros [k' e'] Hin. simpl.
    pose proof (Hall' k' e' Hin) as Hv'. apply record_valid in Hv' as [_ Hv'].
    destruct (owed_valid e' Hv') as (? & ? & _ & _ & ? & _ & _ & ? & _). lia. }
  assert (or_err RwInvalidState (Int_SafeAdd acc (owed e)) = Ok (acc + owed e)) as ->
    by (apply SafeAdd_Ok; split; [done | int_solve]).
  cbn [mbind res_bind]. rewrite IH; [f_equal; lia | lia | done |].
  by rewrite <- Z.add_assoc.
Qed.

(** The recomputed liability is the accumulator. *)
Lemma SumOutstanding_spec s : ent_wf s →
  SumOutstandingEntitlementLiability s = Ok (map_sum owed (SlotEntitlements s)).
Proof.
  intros Hwf. pose proof (liability_bounds s Hwf) as [_ Hok].
  assert (map_sum owed (SlotEntitlements s) =
    0 + sum_of (λ kv, owed (snd kv)) (pair_entries (SlotEntitlements s))) as Hsum.
  { unfold map_sum. by rewrite (sum_of_Permutation _ _ _ (pair_entries_Permutation _)). }
  unfold SumOutstandingEntitlementLiability. rewrite Hsum in Hok |- *.
  apply sum_entries_spec; [done| |done].
  intros k e Hin%elem_of_pair_entries. by apply Hwf.
Qed.
(** Listing rows that are all valid. *)
Lemma iterate_loop (l : list ((Z * Z) * SlotEntitlement)) rows :
  (∀ k x, (k, x) ∈ l → validateEntitlementRecord k x = Ok tt) →
  fold_m (λ rows kv, validateEntitlementRecord (fst kv) (snd kv) ;; mret (rows ++ [snd kv])) l rows =
    (Ok (rows ++ (snd <$> l)) : res (list SlotEntitlement)).
Proof.
  revert rows. induction l as [|[k x] l IH]; intros rows Hl; cbn [fold_m fmap list_fmap].
  { by rewrite app_nil_r. }
  cbn [fst snd]. rewrite (Hl k x) by by left. cbn [mbind res_bind mret res_ret].
  rewrite IH by (intros; apply Hl; by right). by rewrite <- app_assoc.
Qed.

End operations.
