(* ===== verification/RewardsKeeper.v ===== *)
(** * x/rewards/keeper: the module's store and its accessors

    One record holds every collection of the keeper, the two histories and the
    entitlement books as their own components, together with the bank state the
    module acts on.  [params.go], [state.go], [epoch.go] and
    [economic_address.go] are modelled here; the block hooks and the release path
    are in [Finalize.v], [Lifecycle.v] and [Release.v]. *)
From S2P Require Import Prelude Checked SdkMath Bounds EconomicAddress RewardsTypes.
From S2P Require Import Collections EpochHistory RewardConfig Bank CoreSlotTypes Pause.
From S2P Require Import Entitlement Allocation.
Local Open Scope Z_scope.

Definition ModuleName : string := "rewards"%string.

Record Store {BK : BankKeeper} := {
  Rs_Params : option Params;
  Rs_PendingParams : option Params;
  Rs_State : option RewardsState;
  Rs_CurrentEpochConfig : option EpochConfigSnapshot;
  Rs_ActiveBlocks : gmap (Z * Z) Z;
  Rs_FinalizedEpochs : gmap Z EpochReward;
  Rs_Geometry : Geometry;
  Rs_RewardConfig : RewardConfigStore;
  Rs_Entitlements : EntitlementStore;
  Rs_PauseState : PauseItem;
  Rs_OpenRewardEnabledBlocks : option Z;
  Rs_Bank : Bank
}.

(** ** Writing one collection *)
Section setters.
Context {BK : BankKeeper}.

Definition put_Params (v : option Params) (s : Store) : Store := {|
  Rs_Params := v; Rs_PendingParams := Rs_PendingParams s;
  Rs_State := Rs_State s; Rs_CurrentEpochConfig := Rs_CurrentEpochConfig s;
  Rs_ActiveBlocks := Rs_ActiveBlocks s; Rs_FinalizedEpochs := Rs_FinalizedEpochs s;
  Rs_Geometry := Rs_Geometry s; Rs_RewardConfig := Rs_RewardConfig s;
  Rs_Entitlements := Rs_Entitlements s; Rs_PauseState := Rs_PauseState s;
  Rs_OpenRewardEnabledBlocks := Rs_OpenRewardEnabledBlocks s; Rs_Bank := Rs_Bank s |}.
Definition put_PendingParams (v : option Params) (s : Store) : Store := {|
  Rs_Params := Rs_Params s; Rs_PendingParams := v;
  Rs_State := Rs_State s; Rs_CurrentEpochConfig := Rs_CurrentEpochConfig s;
  Rs_ActiveBlocks := Rs_ActiveBlocks s; Rs_FinalizedEpochs := Rs_FinalizedEpochs s;
  Rs_Geometry := Rs_Geometry s; Rs_RewardConfig := Rs_RewardConfig s;
  Rs_Entitlements := Rs_Entitlements s; Rs_PauseState := Rs_PauseState s;
  Rs_OpenRewardEnabledBlocks := Rs_OpenRewardEnabledBlocks s; Rs_Bank := Rs_Bank s |}.
Definition put_State (v : option RewardsState) (s : Store) : Store := {|
  Rs_Params := Rs_Params s; Rs_PendingParams := Rs_PendingParams s;
  Rs_State := v; Rs_CurrentEpochConfig := Rs_CurrentEpochConfig s;
  Rs_ActiveBlocks := Rs_ActiveBlocks s; Rs_FinalizedEpochs := Rs_FinalizedEpochs s;
  Rs_Geometry := Rs_Geometry s; Rs_RewardConfig := Rs_RewardConfig s;
  Rs_Entitlements := Rs_Entitlements s; Rs_PauseState := Rs_PauseState s;
  Rs_OpenRewardEnabledBlocks := Rs_OpenRewardEnabledBlocks s; Rs_Bank := Rs_Bank s |}.
Definition put_CurrentEpochConfig (v : option EpochConfigSnapshot) (s : Store) : Store := {|
  Rs_Params := Rs_Params s; Rs_PendingParams := Rs_PendingParams s;
  Rs_State := Rs_State s; Rs_CurrentEpochConfig := v;
  Rs_ActiveBlocks := Rs_ActiveBlocks s; Rs_FinalizedEpochs := Rs_FinalizedEpochs s;
  Rs_Geometry := Rs_Geometry s; Rs_RewardConfig := Rs_RewardConfig s;
  Rs_Entitlements := Rs_Entitlements s; Rs_PauseState := Rs_PauseState s;
  Rs_OpenRewardEnabledBlocks := Rs_OpenRewardEnabledBlocks s; Rs_Bank := Rs_Bank s |}.
Definition put_ActiveBlocks (v : gmap (Z * Z) Z) (s : Store) : Store := {|
  Rs_Params := Rs_Params s; Rs_PendingParams := Rs_PendingParams s;
  Rs_State := Rs_State s; Rs_CurrentEpochConfig := Rs_CurrentEpochConfig s;
  Rs_ActiveBlocks := v; Rs_FinalizedEpochs := Rs_FinalizedEpochs s;
  Rs_Geometry := Rs_Geometry s; Rs_RewardConfig := Rs_RewardConfig s;
  Rs_Entitlements := Rs_Entitlements s; Rs_PauseState := Rs_PauseState s;
  Rs_OpenRewardEnabledBlocks := Rs_OpenRewardEnabledBlocks s; Rs_Bank := Rs_Bank s |}.
Definition put_FinalizedEpochs (v : gmap Z EpochReward) (s : Store) : Store := {|
  Rs_Params := Rs_Params s; Rs_PendingParams := Rs_PendingParams s;
  Rs_State := Rs_State s; Rs_CurrentEpochConfig := Rs_CurrentEpochConfig s;
  Rs_ActiveBlocks := Rs_ActiveBlocks s; Rs_FinalizedEpochs := v;
  Rs_Geometry := Rs_Geometry s; Rs_RewardConfig := Rs_RewardConfig s;
  Rs_Entitlements := Rs_Entitlements s; Rs_PauseState := Rs_PauseState s;
  Rs_OpenRewardEnabledBlocks := Rs_OpenRewardEnabledBlocks s; Rs_Bank := Rs_Bank s |}.
Definition put_Geometry (v : Geometry) (s : Store) : Store := {|
  Rs_Params := Rs_Params s; Rs_PendingParams := Rs_PendingParams s;
  Rs_State := Rs_State s; Rs_CurrentEpochConfig := Rs_CurrentEpochConfig s;
  Rs_ActiveBlocks := Rs_ActiveBlocks s; Rs_FinalizedEpochs := Rs_FinalizedEpochs s;
  Rs_Geometry := v; Rs_RewardConfig := Rs_RewardConfig s;
  Rs_Entitlements := Rs_Entitlements s; Rs_PauseState := Rs_PauseState s;
  Rs_OpenRewardEnabledBlocks := Rs_OpenRewardEnabledBlocks s; Rs_Bank := Rs_Bank s |}.
Definition put_RewardConfig (v : RewardConfigStore) (s : Store) : Store := {|
  Rs_Params := Rs_Params s; Rs_PendingParams := Rs_PendingParams s;
  Rs_State := Rs_State s; Rs_CurrentEpochConfig := Rs_CurrentEpochConfig s;
  Rs_ActiveBlocks := Rs_ActiveBlocks s; Rs_FinalizedEpochs := Rs_FinalizedEpochs s;
  Rs_Geometry := Rs_Geometry s; Rs_RewardConfig := v;
  Rs_Entitlements := Rs_Entitlements s; Rs_PauseState := Rs_PauseState s;
  Rs_OpenRewardEnabledBlocks := Rs_OpenRewardEnabledBlocks s; Rs_Bank := Rs_Bank s |}.
Definition put_Entitlements (v : EntitlementStore) (s : Store) : Store := {|
  Rs_Params := Rs_Params s; Rs_PendingParams := Rs_PendingParams s;
  Rs_State := Rs_State s; Rs_CurrentEpochConfig := Rs_CurrentEpochConfig s;
  Rs_ActiveBlocks := Rs_ActiveBlocks s; Rs_FinalizedEpochs := Rs_FinalizedEpochs s;
  Rs_Geometry := Rs_Geometry s; Rs_RewardConfig := Rs_RewardConfig s;
  Rs_Entitlements := v; Rs_PauseState := Rs_PauseState s;
  Rs_OpenRewardEnabledBlocks := Rs_OpenRewardEnabledBlocks s; Rs_Bank := Rs_Bank s |}.
Definition put_PauseState (v : PauseItem) (s : Store) : Store := {|
  Rs_Params := Rs_Params s; Rs_PendingParams := Rs_PendingParams s;
  Rs_State := Rs_State s; Rs_CurrentEpochConfig := Rs_CurrentEpochConfig s;
  Rs_ActiveBlocks := Rs_ActiveBlocks s; Rs_FinalizedEpochs := Rs_FinalizedEpochs s;
  Rs_Geometry := Rs_Geometry s; Rs_RewardConfig := Rs_RewardConfig s;
  Rs_Entitlements := Rs_Entitlements s; Rs_PauseState := v;
  Rs_OpenRewardEnabledBlocks := Rs_OpenRewardEnabledBlocks s; Rs_Bank := Rs_Bank s |}.
Definition put_OpenRewardEnabledBlocks (v : option Z) (s : Store) : Store := {|
  Rs_Params := Rs_Params s; Rs_PendingParams := Rs_PendingParams s;
  Rs_State := Rs_State s; Rs_CurrentEpochConfig := Rs_CurrentEpochConfig s;
  Rs_ActiveBlocks := Rs_ActiveBlocks s; Rs_FinalizedEpochs := Rs_FinalizedEpochs s;
  Rs_Geometry := Rs_Geometry s; Rs_RewardConfig := Rs_RewardConfig s;
  Rs_Entitlements := Rs_Entitlements s; Rs_PauseState := Rs_PauseState s;
  Rs_OpenRewardEnabledBlocks := v; Rs_Bank := Rs_Bank s |}.
Definition put_Bank (v : Bank) (s : Store) : Store := {|
  Rs_Params := Rs_Params s; Rs_PendingParams := Rs_PendingParams s;
  Rs_State := Rs_State s; Rs_CurrentEpochConfig := Rs_CurrentEpochConfig s;
  Rs_ActiveBlocks := Rs_ActiveBlocks s; Rs_FinalizedEpochs := Rs_FinalizedEpochs s;
  Rs_Geometry := Rs_Geometry s; Rs_RewardConfig := Rs_RewardConfig s;
  Rs_Entitlements := Rs_Entitlements s; Rs_PauseState := Rs_PauseState s;
  Rs_OpenRewardEnabledBlocks := Rs_OpenRewardEnabledBlocks s; Rs_Bank := v |}.
End setters.

(** ** Accessors *)
Section keeper.
Context {SI : SdkInt} {BE : Bech32} {BK : BankKeeper} {CK : CoreSlotKeeper}.
Context (economicAddresses : Validator).
Abbreviation KM := (M Store).

(** Code that works on one component of the store. *)
Definition on_geometry {A} (m : M Geometry A) : KM A := zoom Rs_Geometry put_Geometry m.
Definition on_reward_config {A} (m : M RewardConfigStore A) : KM A :=
  zoom Rs_RewardConfig put_RewardConfig m.
Definition on_entitlements {A} (m : M EntitlementStore A) : KM A :=
  zoom Rs_Entitlements put_Entitlements m.
Definition on_pause {A} (m : M PauseItem A) : KM A := zoom Rs_PauseState put_PauseState m.
Definition on_bank {A} (m : M Bank A) : KM A := zoom Rs_Bank put_Bank m.

(** [economic_address.go] *)
Definition validateParamsTreasury (params : Params) : res unit :=
  validateTreasuryAddress economicAddresses (P_TreasuryAddress params)
    (P_EmissionTreasuryShareBps params) (P_FeeTreasuryShareBps params).
Definition validateSnapshotTreasury (snapshot : EpochConfigSnapshot) : res unit :=
  validateTreasuryAddress economicAddresses (Snap_TreasuryAddress snapshot)
    (Snap_EmissionTreasuryShareBps snapshot) (Snap_FeeTreasuryShareBps snapshot).
Definition validateOperatorIdentity (address : string) : res unit :=
  _ ← wrap RwInvalidAddress (ParseAccountAddress economicAddresses address);
  mret tt.
Definition validateRewardRecord (reward : option EligibleSlotReward) : res unit :=
  match reward with
  | None => Err RwInvalidState
  | Some reward =>
      validateOperatorIdentity (ESR_OperatorAddress reward) ;;
      validatePayoutDestination economicAddresses (ESR_PayoutAddress reward)
  end.
Definition validateFinalizedEpochAddresses (epoch : EpochReward) : res unit :=
  match Config epoch with
  | Some cfg => validateSnapshotTreasury cfg
  | None => mret tt
  end ;;
  for_each validateRewardRecord (Rewards epoch).

(** [params.go] *)
Definition GetParams (s : Store) : res Params := coll_get (Rs_Params s).

Definition MonetaryParams (s : Store) : res Params :=
  params ← GetParams s;
  wrap RwInvalidState (ValidateDenom (P_NativeDenom params)) ;;
  maxSupply ← wrap RwInvalidState (ParseAmountString (P_MaxSupply params));
  fail_if (negb (maxSupply >? 0)) RwInvalidState ;;
  fail_if (bool_decide (P_HalvingMode params ≠ HALVING_MODE_SUPPLY_THRESHOLD)) RwInvalidState ;;
  mret params.

Definition SetParams (params : Params) : KM unit :=
  lift (Params_Validate params) ;;
  lift (validateParamsTreasury params) ;;
  modify (put_Params (Some params)).

Definition GetPendingParams (s : Store) : option Params := Rs_PendingParams s.

Definition SetPendingParams (params : Params) : KM unit :=
  current ← reads GetParams;
  lift (ValidateUpdate current params) ;;
  lift (validateParamsTreasury params) ;;
  modify (put_PendingParams (Some params)).

Definition ClearPendingParams : KM unit := modify (put_PendingParams None).

Definition BuildEpochConfigSnapshot (params : Params) : res EpochConfigSnapshot :=
  Params_Validate params ;;
  let snapshot := DefaultEpochConfigSnapshot params in
  Snapshot_Validate snapshot ;;
  mret snapshot.

(** [state.go] *)
Definition GetState (s : Store) : res RewardsState := coll_get (Rs_State s).

Definition SetState (state : RewardsState) : KM unit :=
  fail_if ((CurrentEpoch state =? 0) || (CurrentEpochStartHeight state =? 0)) RwInvalidState ;;
  cumulative ← lift (wrap RwInvalidState (ParseAmountString (CumulativeEmitted state)));
  _ ← lift (wrap RwInvalidState (ParseAmountString (CarryForwardRemainder state)));
  params ← reads GetParams;
  maxSupply ← lift (deref (NewIntFromString (P_MaxSupply params)));
  fail_if (cumulative >? maxSupply) RwInvalidState ;;
  modify (put_State (Some state)).

Definition GetOpenRewardEnabledBlocks (s : Store) : res Z :=
  wrap RwInvalidState (coll_get (Rs_OpenRewardEnabledBlocks s)).
Definition SetOpenRewardEnabledBlocks (blocks : Z) : KM unit :=
  modify (put_OpenRewardEnabledBlocks (Some blocks)).

Definition GetCurrentEpochConfig (s : Store) : res EpochConfigSnapshot :=
  coll_get (Rs_CurrentEpochConfig s).
Definition SetCurrentEpochConfig (cfg : EpochConfigSnapshot) : KM unit :=
  lift (Snapshot_Validate cfg) ;;
  lift (validateSnapshotTreasury cfg) ;;
  modify (put_CurrentEpochConfig (Some cfg)).

Definition with_epoch_length (length : Z) (s : EpochConfigSnapshot) : EpochConfigSnapshot := {|
  Snap_SnapshotVersion := Snap_SnapshotVersion s;
  Snap_EpochLengthBlocks := length;
  Snap_DistributionMethod := Snap_DistributionMethod s;
  Snap_RemainderPolicy := Snap_RemainderPolicy s;
  Snap_InitialBlockSubsidy := Snap_InitialBlockSubsidy s;
  Snap_HalvingMode := Snap_HalvingMode s;
  Snap_WeightedRewardsEnabled := Snap_WeightedRewardsEnabled s;
  Snap_FeeCollectionEnabled := Snap_FeeCollectionEnabled s;
  Snap_FeeDistributionEnabled := Snap_FeeDistributionEnabled s;
  Snap_FeeDenom := Snap_FeeDenom s;
  Snap_FeeDistributionMode := Snap_FeeDistributionMode s;
  Snap_TreasuryAddress := Snap_TreasuryAddress s;
  Snap_EmissionTreasuryShareBps := Snap_EmissionTreasuryShareBps s;
  Snap_FeeTreasuryShareBps := Snap_FeeTreasuryShareBps s |}.

(** [Keeper.buildEpochConfigSnapshot] *)
Definition buildEpochConfigSnapshot (params : Params) (s : Store) : res EpochConfigSnapshot :=
  snapshot ← BuildEpochConfigSnapshot params;
  state ← GetState s;
  length ← EpochLengthForEpoch (Rs_Geometry s) (CurrentEpoch state);
  let snapshot := with_epoch_length length snapshot in
  Snapshot_Validate snapshot ;;
  mret snapshot.

Definition GetActiveBlocks (s : Store) (epoch slotID : Z) : res Z :=
  coll_get (Rs_ActiveBlocks s !! (epoch, slotID)).
Definition SetActiveBlocks (epoch slotID blocks : Z) : KM unit :=
  fail_if ((epoch =? 0) || (slotID =? 0)) RwInvalidState ;;
  modify (λ s, put_ActiveBlocks (<[(epoch, slotID) := blocks]> (Rs_ActiveBlocks s)) s).

Definition IncrementActiveBlocks (epoch slotID : Z) : KM unit :=
  blocks ← gets (λ s, default 0 (Rs_ActiveBlocks s !! (epoch, slotID)));
  next ← lift (wrap RwInvalidState (AddUint64 blocks 1));
  SetActiveBlocks epoch slotID next.

Definition DeleteActiveBlocksForEpoch (epoch : Z) : KM unit :=
  keys ← gets (λ s, fst <$> prefix_entries epoch (Rs_ActiveBlocks s));
  for_each (λ key, modify (λ s, put_ActiveBlocks (delete key (Rs_ActiveBlocks s)) s)) keys.

Definition IterateActiveBlocksForEpoch (s : Store) (epoch : Z) : list SlotActiveBlocks :=
  (λ kv, {| AB_SlotId := snd (fst kv); AB_BlocksActive := snd kv |}) <$>
    prefix_entries epoch (Rs_ActiveBlocks s).

Definition GetFinalizedEpoch (s : Store) (epoch : Z) : option EpochReward :=
  Rs_FinalizedEpochs s !! epoch.
Definition SetFinalizedEpoch (epoch : EpochReward) : KM unit :=
  fail_if (EpochNumber epoch =? 0) RwInvalidState ;;
  exists_ ← gets (λ s, bool_decide (is_Some (Rs_FinalizedEpochs s !! EpochNumber epoch)));
  fail_if exists_ RwInvalidState ;;
  lift (validateFinalizedEpochAddresses epoch) ;;
  modify (λ s, put_FinalizedEpochs (<[EpochNumber epoch := epoch]> (Rs_FinalizedEpochs s)) s).

(** [epoch.go] *)
Definition ShouldFinalizeAtHeight (height : Z) (s : Store) : res bool :=
  state ← GetState s;
  verifyCurrentEpochAnchor (Rs_Geometry s) state ;;
  endHeight ← EpochEndHeight (Rs_Geometry s) (CurrentEpoch state);
  if height <? endHeight then mret false
  else if height =? endHeight then mret true
  else Err RwInvalidState.

Definition ConfiguredEpochEndHeight (state : RewardsState) (cfg : EpochConfigSnapshot) : res Z :=
  fail_if ((CurrentEpoch state =? 0) || (CurrentEpochStartHeight state =? 0)) RwInvalidState ;;
  fail_if (Snap_EpochLengthBlocks cfg =? 0) RwInvalidState ;;
  let delta := u64 (Snap_EpochLengthBlocks cfg - 1) in
  fail_if (CurrentEpochStartHeight state >? u64 (MaxUint64 - delta)) RwInvalidState ;;
  mret (u64 (CurrentEpochStartHeight state + delta)).

(** [fees.go] *)
Definition GetDistributableFees (params : Params) : res Z :=
  fail_if (P_FeeCollectionEnabled params || P_FeeDistributionEnabled params ||
           bool_decide (P_FeeDistributionMode params ≠ FEE_DISTRIBUTION_MODE_NONE))
    RwUnsupportedFeature ;;
  mret 0.

(** [treasury.go].  Coins with a zero amount are never sent. *)
Definition PayTreasury (address : string) (amount : Z) (denom : string) : KM unit :=
  if amount =? 0 then mret tt
  else
    recipient ← lift (wrap RwInvalidAddress (Validate economicAddresses address));
    on_bank (SendCoinsFromModuleToAccount ModuleName recipient denom amount).

(** [coreslot_reader.go] *)
Definition slotRewardSnapshot (slot : CoreSlot) : res SlotRewardSnapshot :=
  operator ← wrap RwInvalidAddress (ParseAccountAddress economicAddresses (OperatorAddress slot));
  payout ← wrap RwInvalidAddress (Validate economicAddresses (PayoutAddress slot));
  mret {|
    SRS_SlotID := SlotId slot;
    SRS_OperatorAddress := operator;
    SRS_PayoutAddress := payout;
    SRS_Status := Status slot;
    SRS_ActivationSequence := ActivationSequence slot |}.

Definition GetSlotRewardSnapshot (cs : CoreSlotStore) (slotID : Z) : res SlotRewardSnapshot :=
  slot ← GetSlot cs slotID;
  fail_if (negb (SlotId slot =? slotID)) RwInvalidState ;;
  slotRewardSnapshot slot.

Definition GetActiveSlotSnapshots (cs : CoreSlotStore) : res (list SlotRewardSnapshot) :=
  slots ← GetActiveSlots cs;
  fold_m (λ acc slot,
    if bool_decide (Status slot ≠ SLOT_STATUS_ACTIVE) then mret acc
    else
      snapshot ← slotRewardSnapshot slot;
      mret (acc ++ [snapshot])) slots [].
End keeper.

(** ** A sample store *)
Definition sample_entitlement : SlotEntitlement := {|
  Ent_SlotId := 7; Ent_Epoch := 1; Ent_TotalBlocksActive := 360;
  Ent_EntitlementAmount := "100"%string; Ent_ReleasedAmount := "10"%string;
  Ent_PayoutAddress := "operator"%string; Ent_RewardConfigVersion := 1;
  Ent_SlotStatusAtEpochClose := SLOT_STATUS_ACTIVE; Ent_ActivationSequenceAtEpochClose := 1;
  Ent_CreatedHeight := 360 |}.
Definition sample_books : EntitlementStore := {|
  SlotEntitlements := {[(1, 7) := sample_entitlement]};
  OutstandingEntitlementLiability := Some "90"%string |}.
Definition sample_state : RewardsState := {|
  CurrentEpoch := 2; CurrentEpochStartHeight := 361;
  CumulativeEmitted := "105"%string; CarryForwardRemainder := "5"%string |}.
Definition sample_ledger : ledger := {|
  balances := {[("rewards"%string, "utwlt"%string) := 95%N]};
  supply := {["utwlt"%string := 105]} |}.
Definition sample_record (epoch : Z) : EpochReward := {|
  EpochNumber := epoch; StartHeight := 360 * epoch - 359; EndHeight := 360 * epoch;
  MintedEmission := "0"%string; CarryIn := "0"%string; DistributableFees := "0"%string;
  TreasuryAmount := "0"%string; RewardPool := "0"%string; AllocatedAmount := "0"%string;
  CarryOut := "0"%string; ER_DistributionMethod := DISTRIBUTION_METHOD_UNIFORM_ACTIVE_BLOCKS;
  ER_RemainderPolicy := REMAINDER_POLICY_CARRY_FORWARD; Rewards := [];
  CumulativeEmittedAfterEpoch := "0"%string; Config := None; RewardEnabledBlocks := 0 |}.
Definition sample_store : @Store ledger_bank := {|
  Rs_Params := Some DefaultParams;
  Rs_PendingParams := None;
  Rs_State := Some sample_state;
  Rs_CurrentEpochConfig := Some (DefaultEpochConfigSnapshot DefaultParams);
  Rs_ActiveBlocks := {[(2, 7) := 3]};
  Rs_FinalizedEpochs := {[1 := sample_record 1]};
  Rs_Geometry := sample_geometry;
  Rs_RewardConfig := sample_reward_store;
  Rs_Entitlements := sample_books;
  Rs_PauseState := Some {| CurrentPaused := false; HasPending := false; PendingValue := false;
    PendingEffectiveHeight := 0 |};
  Rs_OpenRewardEnabledBlocks := Some 3;
  Rs_Bank := (sample_ledger : @Bank ledger_bank) |}.

Lemma sample_books_wf : @ent_wf sdkint_256 sample_books.
Proof.
  split; [|vm_compute; reflexivity]. intros k e Hk. simpl in Hk.
  apply lookup_singleton_Some in Hk as [<- <-]. ground.
Qed.
