(* ===== verification/RewardsInvariant.v ===== *)
(** * The invariant of the rewards module

    [rewards_inv] collects what the keeper maintains between two blocks: valid
    parameters, readable amounts, well-formed histories, participation rows of
    the open epoch only, books that balance, and the solvency equation: the
    escrow holds exactly the outstanding liability plus the carried remainder
    ([ledger_inv]); and a reward-configuration schedule the next epoch close can
    promote ([config_inv]).
    [environment] states how the pieces the application wires together agree. *)
From S2P Require Import Prelude Checked SdkMath Bounds EconomicAddress RewardsTypes.
From S2P Require Import Collections Emission Allocation EpochHistory RewardConfig Bank.
From S2P Require Import CoreSlotTypes Pause Entitlement RewardsKeeper.
Local Open Scope Z_scope.

Section invariant.
Context {SI : SdkInt} {BE : Bech32} {BK : BankKeeper}.
Context (econ : Validator) (module_addr : AccAddress).

(** The wiring of [app.go]: the module account exists and the address rule
    refuses it, the rule refuses what the bank blocks, and the text of an
    admitted raw address is itself admitted, as the same address. *)
Record environment : Prop := {
  env_module : GetModuleAddress ModuleName = Some module_addr;
  env_refused : module_addr ∈ moduleAccounts econ;
  env_blocked : ∀ text raw, Validate econ text = Ok raw → BlockedAddr raw = false;
  env_text : ∀ text raw, Validate econ text = Ok raw →
    Validate econ (AccAddress_String raw) = Ok raw
}.

Definition params_ok (p : Params) : Prop :=
  Params_Validate p = Ok tt ∧ validateParamsTreasury econ p = Ok tt.

(** What the amounts of the store read as. *)
Record View := {
  V_params : Params;
  V_state : RewardsState;
  V_max : Z;
  V_cumulative : Z;
  V_carry : Z;
  V_enabled : Z
}.

(** [closed] is the last finalized epoch: the one before the current epoch
    while it is open, the current one between its close and the next block.
    [base] is the supply that was not minted by this module. *)
(** An entitlement names the configuration that governs its epoch. *)
Definition governed (rc : RewardConfigStore) (epoch : Z) (x : SlotEntitlement) : Prop :=
  ∃ w, governing (RewardConfigVersions rc) epoch = Some w ∧
    RCV_Version w = Ent_RewardConfigVersion x.

Record ledger_inv (base closed : Z) (s : Store) (v : View) : Prop := {
  i_params : Rs_Params s = Some (V_params v);
  i_params_ok : params_ok (V_params v);
  i_max : ParseAmountString (P_MaxSupply (V_params v)) = Ok (V_max v);
  i_max_bound : V_max v < 2 ^ 128;
  i_pending : ∀ q, Rs_PendingParams s = Some q →
    params_ok q ∧ P_MaxSupply q = P_MaxSupply (V_params v);
  i_state : Rs_State s = Some (V_state v);
  i_cum : ParseAmountString (CumulativeEmitted (V_state v)) = Ok (V_cumulative v);
  i_cum_max : V_cumulative v ≤ V_max v;
  i_carry : ParseAmountString (CarryForwardRemainder (V_state v)) = Ok (V_carry v);
  i_cfg : ∃ cfg, Rs_CurrentEpochConfig s = Some cfg ∧ Snapshot_Validate cfg = Ok tt ∧
    validateSnapshotTreasury econ cfg = Ok tt;
  i_epoch : 1 ≤ CurrentEpoch (V_state v) < MaxUint64;
  i_closed : CurrentEpoch (V_state v) - 1 ≤ closed ≤ CurrentEpoch (V_state v);
  i_geometry : history_wf (EpochConfigVersions (Rs_Geometry s));
  i_versions : ∀ k x, EpochConfigVersions (Rs_Geometry s) !! k = Some x →
    k ≤ CurrentEpoch (V_state v) ∧ ECV_Version x ≤ k;
  i_schedule : schedule_ok (Rs_Geometry s);
  i_schedule_future : ∀ k x, ScheduledEpochConfigs (Rs_Geometry s) !! k = Some x →
    CurrentEpoch (V_state v) < k;
  i_anchor : start_of (EpochConfigVersions (Rs_Geometry s)) (CurrentEpoch (V_state v)) =
    CurrentEpochStartHeight (V_state v);
  i_next_start : start_of (EpochConfigVersions (Rs_Geometry s))
    (CurrentEpoch (V_state v) + 1) ≤ MaxUint64;
  i_reward : reward_wf econ (Rs_RewardConfig s);
  i_reward_shares : ∀ k x, RewardConfigVersions (Rs_RewardConfig s) !! k = Some x →
    0 ≤ RCV_EmissionTreasuryShareBps x;
  i_books : ent_wf (Rs_Entitlements s);
  i_books_epochs : ∀ e slot x,
    SlotEntitlements (Rs_Entitlements s) !! (e, slot) = Some x → e ≤ closed;
  i_payout : ∀ k x, SlotEntitlements (Rs_Entitlements s) !! k = Some x →
    validatePayoutDestination econ (Ent_PayoutAddress x) = Ok tt;
  i_governed : ∀ k x, SlotEntitlements (Rs_Entitlements s) !! k = Some x →
    governed (Rs_RewardConfig s) (fst k) x;
  i_slots : ∀ k x, SlotEntitlements (Rs_Entitlements s) !! k = Some x → is_u64 (snd k);
  i_finalized : ∀ e x, Rs_FinalizedEpochs s !! e = Some x → 1 ≤ e ≤ closed ∧ Rewards x = [];
  i_records : ∀ e, 1 ≤ e ≤ closed → ∃ x, Rs_FinalizedEpochs s !! e = Some x ∧ EpochNumber x = e;
  i_enabled : Rs_OpenRewardEnabledBlocks s = Some (V_enabled v);
  i_enabled_bound : 0 ≤ V_enabled v ≤
    length_of (EpochConfigVersions (Rs_Geometry s)) (CurrentEpoch (V_state v));
  i_rows : ∀ e slot b, Rs_ActiveBlocks s !! (e, slot) = Some b →
    e = CurrentEpoch (V_state v) ∧ closed < e ∧ 0 < slot ≤ MaxUint64 ∧ 0 ≤ b ≤ V_enabled v;
  i_solvent : GetBalance (Rs_Bank s) module_addr NativeBaseDenom =
    map_sum owed (SlotEntitlements (Rs_Entitlements s)) + V_carry v;
  i_supply : GetSupply (Rs_Bank s) NativeBaseDenom = base + V_cumulative v;
  i_base : 0 ≤ base < 2 ^ 128;
  i_owed : map_sum owed (SlotEntitlements (Rs_Entitlements s)) + V_carry v ≤
    base + V_cumulative v
}.

(** The reward-configuration history reaches at most one epoch past the last
    closed one, and a scheduled change is the one the next close promotes. *)
Record config_inv (closed : Z) (rc : RewardConfigStore) : Prop := {
  i_reward_versions : ∀ k x, RewardConfigVersions rc !! k = Some x →
    k ≤ closed + 1 ∧ RCV_Version x ≤ k;
  i_reward_schedule : ∀ k x, ScheduledRewardConfigs rc !! k = Some x →
    k = closed + 2 ∧ ValidateScheduledRewardConfigRecord k x = Ok tt ∧
    validateScheduledRewardConfigTreasury econ x = Ok tt ∧
    0 ≤ SRC_EmissionTreasuryShareBps x
}.

Definition rewards_inv (base closed : Z) (s : Store) (v : View) : Prop :=
  ledger_inv base closed s v ∧ config_inv closed (Rs_RewardConfig s).
End invariant.

(** ** Validated parameters *)
Section params.
Context {SI : SdkInt} {BE : Bech32}.

(** What [Params.Validate] admits. *)
Lemma Params_Validate_iff p :
  Params_Validate p = Ok tt ↔
  (∃ m, ParseAmountString (P_MaxSupply p) = Ok m ∧ 0 < m) ∧
  (∃ i, ParseAmountString (P_InitialBlockSubsidy p) = Ok i ∧ 0 < i) ∧
  P_NativeDenom p = NativeBaseDenom ∧ P_FeeDenom p = NativeBaseDenom ∧
  P_TargetBlockTimeSeconds p ≠ 0 ∧ P_EpochLengthBlocks p ≠ 0 ∧ P_MaxClaimEpochsPerTx p ≠ 0 ∧
  P_HalvingMode p = HALVING_MODE_SUPPLY_THRESHOLD ∧
  P_DistributionMethod p = DISTRIBUTION_METHOD_UNIFORM_ACTIVE_BLOCKS ∧
  P_RemainderPolicy p = REMAINDER_POLICY_CARRY_FORWARD ∧
  P_FeeDistributionMode p = FEE_DISTRIBUTION_MODE_NONE ∧
  P_FeeCollectionEnabled p = false ∧ P_FeeDistributionEnabled p = false ∧
  P_WeightedRewardsEnabled p = false ∧
  P_EmissionTreasuryShareBps p ≤ MaxBasisPoints ∧ P_FeeTreasuryShareBps p ≤ MaxBasisPoints ∧
  (0 < P_EmissionTreasuryShareBps p ∨ 0 < P_FeeTreasuryShareBps p →
     is_Some (AccAddressFromBech32 (P_TreasuryAddress p))).
Proof.
  unfold Params_Validate, ValidateDenom, ValidateBasisPoints. split.
  - intros H. repeat (apply res_bind_Ok in H as (? & ? & H)). minv. zify_bool.
    repeat match goal with H : bool_decide _ = false |- _ =>
      apply bool_decide_eq_false_1, dec_stable in H end.
    split_and!; try (eauto with lia; congruence).
    intros Hs. destruct (AccAddressFromBech32 (P_TreasuryAddress p)); [eauto|].
    rewrite !Z.gtb_ltb in H. destruct (Z.ltb_spec 0 (P_EmissionTreasuryShareBps p)),
      (Z.ltb_spec 0 (P_FeeTreasuryShareBps p)); simpl in H; done || lia.
  - intros ((m & Hm & Hm0) & (i & Hi & Hi0) & Hn & Hfd & Ht & Hl & Hc & Hh & Hd & Hr & Hfm & Hf1 &
      Hf2 & Hw & He & Hf & Hta).
    rewrite Hm, Hi, Hn, Hfd, Hh, Hd, Hr, Hfm, Hf1, Hf2, Hw, !Z.gtb_ltb.
    apply Z.ltb_lt in Hm0, Hi0. apply Z.ltb_ge in He, Hf. apply Z.eqb_neq in Ht, Hl, Hc.
    rewrite !bool_decide_eq_false_2 by (by intros []).
    cbn [mbind res_bind]. rewrite !Z.gtb_ltb, Hm0. cbn [negb fail_if mret res_ret mbind res_bind].
    rewrite Hi0, Ht, Hl, Hc, He, Hf. cbn.
    apply Z.ltb_ge in He, Hf.
    destruct (Z.ltb_spec 0 (P_EmissionTreasuryShareBps p)); simpl.
    + destruct Hta as [? ->]; [by left | done].
    + destruct (Z.ltb_spec 0 (P_FeeTreasuryShareBps p)); [|done].
      destruct Hta as [? ->]; [by right | done].
Qed.

Lemma Params_Validate_facts p :
  Params_Validate p = Ok tt →
  P_NativeDenom p = NativeBaseDenom ∧ P_HalvingMode p = HALVING_MODE_SUPPLY_THRESHOLD ∧
  P_DistributionMethod p = DISTRIBUTION_METHOD_UNIFORM_ACTIVE_BLOCKS ∧
  P_FeeDistributionMode p = FEE_DISTRIBUTION_MODE_NONE ∧
  P_FeeCollectionEnabled p = false ∧ P_FeeDistributionEnabled p = false ∧
  P_WeightedRewardsEnabled p = false ∧
  (∃ m, ParseAmountString (P_MaxSupply p) = Ok m ∧ 0 < m) ∧
  (∃ i, ParseAmountString (P_InitialBlockSubsidy p) = Ok i ∧ 0 < i) ∧
  P_EpochLengthBlocks p ≠ 0.
Proof. rewrite Params_Validate_iff. naive_solver. Qed.

Lemma ParseAmountString_NewInt s z : ParseAmountString s = Ok z → NewIntFromString s = Some z.
Proof.
  unfold ParseAmountString. intros H. minv. destruct (NewIntFromString s); minv. done.
Qed.
End params.

(** ** Snapshots of validated parameters are valid *)
Section snapshots.
Context {SI : SdkInt} {BE : Bech32} (econ : Validator).

Lemma Snapshot_Validate_facts cfg :
  Snapshot_Validate cfg = Ok tt →
  Snap_WeightedRewardsEnabled cfg = false ∧
  Snap_DistributionMethod cfg = DISTRIBUTION_METHOD_UNIFORM_ACTIVE_BLOCKS ∧
  Snap_FeeCollectionEnabled cfg = false ∧ Snap_FeeDistributionEnabled cfg = false ∧
  Snap_FeeDistributionMode cfg = FEE_DISTRIBUTION_MODE_NONE.
Proof.
  unfold Snapshot_Validate. intros H. minv.
  match goal with H : Params_Validate _ = _ |- _ => apply Params_Validate_facts in H end.
  destruct_and?. done.
Qed.

Lemma DefaultMaxSupply_parses : ParseAmountString DefaultMaxSupply = Ok 21000000000000.
Proof.
  assert (DefaultMaxSupply = Int_String 21000000000000) as ->
    by (rewrite Int_String_nonneg by lia; vm_compute; reflexivity).
  apply ParseAmountString_String; [lia | reflexivity].
Qed.

(** The snapshot of valid parameters, at any positive length. *)
Lemma snapshot_of_params_valid p length :
  Params_Validate p = Ok tt → length ≠ 0 →
  Snapshot_Validate (with_epoch_length length (DefaultEpochConfigSnapshot p)) = Ok tt.
Proof.
  rewrite Params_Validate_iff. intros Hp Hl. unfold Snapshot_Validate. cbn -[Params_Validate Z.eqb].
  destruct (Z.eqb_spec length 0) as [|_]; [done|].
  assert (∃ i, ParseAmountString (P_InitialBlockSubsidy p) = Ok i ∧ 0 < i) as (i & Hi & Hi0)
    by naive_solver.
  rewrite Hi. cbn -[Params_Validate]. apply wrap_Ok, Params_Validate_iff.
  cbn -[ParseAmountString]. rewrite DefaultMaxSupply_parses. naive_solver.
Qed.
End snapshots.

(** ** What the module reads in a state of the invariant *)
Section reads.
Context {SI : SdkInt} {BE : Bech32} {BK : BankKeeper}.
Context (econ : Validator) (module_addr : AccAddress).
Context (base closed : Z) (s : Store) (v : View).
Context (Hi : ledger_inv econ module_addr base closed s v).
Let st := V_state v.
Let history := EpochConfigVersions (Rs_Geometry s).

Lemma inv_MonetaryParams : MonetaryParams s = Ok (V_params v).
Proof using Hi.
  destruct (Params_Validate_facts _ (proj1 (i_params_ok _ _ _ _ _ _ Hi)))
    as (Hden & Hh & _ & _ & _ & _ & _ & (mx & Hmx & Hmx0) & _).
  unfold MonetaryParams, GetParams, coll_get. rewrite (i_params _ _ _ _ _ _ Hi).
  cbn [mbind res_bind]. unfold ValidateDenom.
  rewrite Hden, Hmx, Hh, !bool_decide_eq_false_2 by (by intros []).
  cbn [fail_if mret res_ret wrap mbind res_bind]. rewrite Z.gtb_ltb.
  by destruct (Z.ltb_spec 0 mx); [|lia].
Qed.

Lemma inv_GetState : GetState s = Ok st.
Proof using Hi. unfold GetState. by rewrite (i_state _ _ _ _ _ _ Hi). Qed.

Lemma inv_start_bounds :
  1 ≤ CurrentEpochStartHeight st ∧
  start_of history (CurrentEpoch st) = CurrentEpochStartHeight st ∧
  start_of history (CurrentEpoch st + 1) =
    CurrentEpochStartHeight st + length_of history (CurrentEpoch st) ∧
  360 ≤ length_of history (CurrentEpoch st) ≤ 720 ∧
  CurrentEpochStartHeight st + length_of history (CurrentEpoch st) ≤ MaxUint64.
Proof using Hi.
  pose proof (i_epoch _ _ _ _ _ _ Hi) as He. pose proof (i_geometry _ _ _ _ _ _ Hi) as Hwf.
  pose proof (i_anchor _ _ _ _ _ _ Hi) as Ha. pose proof (i_next_start _ _ _ _ _ _ Hi) as Hn.
  fold st history in He, Ha, Hn, Hwf.
  pose proof (start_of_positive _ Hwf (CurrentEpoch st) ltac:(lia)) as Hp.
  pose proof (start_of_succ _ Hwf (CurrentEpoch st) ltac:(lia)) as Hs.
  destruct (EpochLengthForEpoch_spec _ Hwf (CurrentEpoch st)) as [_ Hl]; [lia|].
  fold history in Hp, Hs, Hl. split_and!; lia.
Qed.

Lemma inv_anchor_ok : verifyCurrentEpochAnchor (Rs_Geometry s) st = Ok tt.
Proof using Hi.
  destruct inv_start_bounds as (H1 & H2 & _ & H3 & H4).
  pose proof (i_epoch _ _ _ _ _ _ Hi) as He. pose proof (i_geometry _ _ _ _ _ _ Hi) as Hwf.
  fold st in He. unfold verifyCurrentEpochAnchor.
  rewrite EpochStartHeight_spec by (done || lia). fold history. rewrite H2.
  unfold representable. rewrite decide_True by (widths; lia).
  cbn [mbind res_bind]. by rewrite Z.eqb_refl.
Qed.

Lemma inv_end :
  EpochEndHeight (Rs_Geometry s) (CurrentEpoch st) =
    Ok (CurrentEpochStartHeight st + length_of history (CurrentEpoch st) - 1).
Proof using Hi.
  destruct inv_start_bounds as (H1 & H2 & H3 & H4 & H5).
  pose proof (i_epoch _ _ _ _ _ _ Hi) as He. pose proof (i_geometry _ _ _ _ _ _ Hi) as Hwf.
  fold st in He. fold history in H3. rewrite EpochEndHeight_spec; [|done|lia|lia|];
    fold history; rewrite H3; done || lia.
Qed.

(** The amounts, and the equations that tie them. *)
Lemma inv_amounts :
  P_NativeDenom (V_params v) = NativeBaseDenom ∧
  P_HalvingMode (V_params v) = HALVING_MODE_SUPPLY_THRESHOLD ∧
  0 < V_max v < 2 ^ 128 ∧ 0 ≤ V_cumulative v ≤ V_max v ∧ 0 ≤ V_carry v ∧ 0 ≤ base < 2 ^ 128 ∧
  0 ≤ map_sum owed (SlotEntitlements (Rs_Entitlements s)) ∧
  map_sum owed (SlotEntitlements (Rs_Entitlements s)) + V_carry v ≤ base + V_cumulative v ∧
  GetBalance (Rs_Bank s) module_addr NativeBaseDenom =
    map_sum owed (SlotEntitlements (Rs_Entitlements s)) + V_carry v ∧
  GetSupply (Rs_Bank s) NativeBaseDenom = base + V_cumulative v.
Proof using Hi.
  destruct (Params_Validate_facts _ (proj1 (i_params_ok _ _ _ _ _ _ Hi)))
    as (Hden & Hmode & _ & _ & _ & _ & _ & (mx & Hmx & Hmx0) & _).
  pose proof (i_max _ _ _ _ _ _ Hi) as Hmax. rewrite Hmax in Hmx. injection Hmx as <-.
  pose proof (liability_bounds _ (i_books _ _ _ _ _ _ Hi)) as [? _].
  pose proof (ParseAmountString_Ok _ _ (i_cum _ _ _ _ _ _ Hi)) as [? _].
  pose proof (ParseAmountString_Ok _ _ (i_carry _ _ _ _ _ _ Hi)) as [? _].
  destruct Hi. split_and!; done || lia.
Qed.

Lemma inv_enabled_bound : 0 ≤ V_enabled v ≤ 720.
Proof using Hi.
  destruct inv_start_bounds as (_ & _ & _ & ? & _).
  pose proof (i_enabled_bound _ _ _ _ _ _ Hi) as Hb. fold st history in Hb. lia.
Qed.
End reads.

(** The ledger invariant sees only the governing side of the reward store. *)
Lemma ledger_inv_reward_config {SI : SdkInt} {BE : Bech32} {BK : BankKeeper}
    econ module_addr base closed (s : Store) v rc :
  ledger_inv econ module_addr base closed s v → reward_wf econ rc →
  (∀ k x, RewardConfigVersions rc !! k = Some x → 0 ≤ RCV_EmissionTreasuryShareBps x) →
  (∀ e, e ≤ closed → governing (RewardConfigVersions rc) e =
     governing (RewardConfigVersions (Rs_RewardConfig s)) e) →
  ledger_inv econ module_addr base closed (put_RewardConfig rc s) v.
Proof.
  intros Hi Hwf Hsh Hgov. pose proof (i_governed _ _ _ _ _ _ Hi) as Hg.
  pose proof (i_books_epochs _ _ _ _ _ _ Hi) as Hbe. destruct Hi. split; try done.
  intros [e slot] x Hx. destruct (Hg _ _ Hx) as (w & Hw & Hv). exists w. split; [|done].
  simpl in *. rewrite Hgov; [done|]. by apply (Hbe e slot x).
Qed.

(** ** The sample store satisfies the invariant *)
Lemma sample_environment : @environment bech32_id ledger_bank sample_validator "rewards"%string.
Proof.
  split; [reflexivity | simpl; set_solver | done |].
  intros text raw (Hp & H)%Validate_Ok. apply ParseAccountAddress_Ok in Hp as (c & Hc & H1 & H2 & H3).
  simpl in Hc. injection Hc as <-. injection H2 as <-.
  apply Validate_Ok. split; [|done]. apply ParseAccountAddress_Ok. by exists (λ s, Some s).
Qed.

Definition sample_view : View := {|
  V_params := DefaultParams; V_state := sample_state; V_max := 21000000000000;
  V_cumulative := 105; V_carry := 5; V_enabled := 3 |}.

Lemma sample_ledger_inv :
  @ledger_inv sdkint_256 bech32_id ledger_bank sample_validator "rewards"%string 0 1
    sample_store sample_view.
Proof.
  assert (∀ k x, EpochConfigVersions sample_geometry !! k = Some x → k = 1 ∧ x = sample_version)
    as Hgeo by (intros k x Hk; simpl in Hk; by apply lookup_singleton_Some in Hk as [<- <-]).
  assert (∀ k x, SlotEntitlements sample_books !! k = Some x → k = (1, 7) ∧ x = sample_entitlement)
    as Hbook by (intros k x Hk; simpl in Hk; by apply lookup_singleton_Some in Hk as [<- <-]).
  split.
  - reflexivity.
  - split; vm_compute; reflexivity.
  - vm_compute; reflexivity.
  - vm_compute; reflexivity.
  - discriminate.
  - reflexivity.
  - vm_compute; reflexivity.
  - vm_compute; discriminate.
  - vm_compute; reflexivity.
  - eexists. split; [reflexivity|]. split; vm_compute; reflexivity.
  - vm_compute. split; [discriminate | reflexivity].
  - vm_compute. split; discriminate.
  - exact sample_geometry_wf.
  - intros k x Hk. apply Hgeo in Hk as [-> ->]. vm_compute. split; discriminate.
  - exact sample_schedule_ok.
  - intros k x Hk. simpl in Hk. apply lookup_singleton_Some in Hk as [<- _]. reflexivity.
  - vm_compute; reflexivity.
  - vm_compute; discriminate.
  - exact sample_reward_wf.
  - intros k x Hk. simpl in Hk. apply lookup_singleton_Some in Hk as [_ <-]. vm_compute. discriminate.
  - exact sample_books_wf.
  - intros e slot x Hk. apply Hbook in Hk as [Hk _]. injection Hk as -> _. lia.
  - intros k x Hk. apply Hbook in Hk as [_ ->]. vm_compute. reflexivity.
  - intros k x Hk. apply Hbook in Hk as [-> ->]. eexists. split; vm_compute; reflexivity.
  - intros k x Hk. apply Hbook in Hk as [-> _]. vm_compute. split; discriminate.
  - intros e x Hk. simpl in Hk. apply lookup_singleton_Some in Hk as [<- <-]. by split.
  - intros e He. exists (sample_record 1). replace e with 1 by lia. by split.
  - reflexivity.
  - vm_compute. split; discriminate.
  - intros e slot b Hk. simpl in Hk. apply lookup_singleton_Some in Hk as [[= <- <-] <-].
    vm_compute. repeat split; discriminate.
  - vm_compute; reflexivity.
  - vm_compute; reflexivity.
  - vm_compute. split; [discriminate | reflexivity].
  - vm_compute; discriminate.
Qed.
