(* ===== verification/Release.v ===== *)
(** * x/rewards/keeper/release.go: paying out of the escrow

    [PayEntitlement] pays an explicit set of payout lines against one
    entitlement, [PayEntitlementRemainderToOperator] pays what is left of it to
    its payout address.  Both run on a cached store.  The theorems: a failed
    payment changes nothing; a successful one credits every recipient with
    exactly the sum of its lines, debits the escrow and the liability by exactly
    the total, and never releases more than the entitlement. *)
From S2P Require Import Prelude Checked SdkMath Bounds EconomicAddress RewardsTypes.
From S2P Require Import Collections RewardConfig Bank CoreSlotTypes Pause Entitlement.
From S2P Require Import Allocation RewardsKeeper.
Local Open Scope Z_scope.

Record resolvedPayout := {
  rp_address : AccAddress;
  rp_amount : Z
}.

Section release.
Context {SI : SdkInt} {BE : Bech32} {BK : BankKeeper}.
Context (economicAddresses : Validator).
Abbreviation KM := (M Store).

(** One line of [resolvePayoutSet]. *)
Definition resolve_line (acc : gmap string resolvedPayout * Z) (payout : EntitlementPayout)
    : res (gmap string resolvedPayout * Z) :=
  let '(grouped, total) := acc in
  amount ← ParseCanonicalPayoutAmount (Payout_Amount payout);
  fail_if (negb (amount >? 0)) RwInvalidState ;;
  address ← wrap RwInvalidAddress (Validate economicAddresses (Payout_Recipient payout));
  total ← or_err RwInvalidState (Int_SafeAdd total amount);
  let key := AccAddress_String address in
  match grouped !! key with
  | None => mret (<[key := {| rp_address := address; rp_amount := amount |}]> grouped, total)
  | Some existing =>
      combined ← or_err RwInvalidState (Int_SafeAdd (rp_amount existing) amount);
      mret (<[key := {| rp_address := rp_address existing; rp_amount := combined |}]> grouped,
            total)
  end.

Definition resolvePayoutSet (payouts : list EntitlementPayout)
    : res (gmap string resolvedPayout * Z) :=
  fold_m resolve_line payouts (∅, 0).

Definition sortedRecipients (grouped : gmap string resolvedPayout) : list string :=
  merge_sort str_le (fst <$> map_to_list grouped).

Definition loadReleasableEntitlement (slotID epoch : Z) (s : Store) : res SlotEntitlement :=
  releaseEnabled ← SettlementReleaseEnabled (Rs_PauseState s);
  fail_if (negb releaseEnabled) RwUnsupportedFeature ;;
  found ← GetSlotEntitlement (Rs_Entitlements s) slotID epoch;
  match found with
  | None => Err RwInvalidState
  | Some entitlement => mret entitlement
  end.

Definition payEntitlement (slotID epoch : Z) (payouts : list EntitlementPayout) : KM unit :=
  fail_if (bool_decide (payouts = [])) RwInvalidState ;;
  entitlement ← reads (loadReleasableEntitlement slotID epoch);
  params ← reads MonetaryParams;
  '(grouped, total) ← lift (resolvePayoutSet payouts);
  lift (assertReleaseCeiling entitlement total) ;;
  for_each (λ recipient,
    match grouped !! recipient with
    | None => mret tt
    | Some rp =>
        on_bank (SendCoinsFromModuleToAccount ModuleName (rp_address rp)
          (P_NativeDenom params) (rp_amount rp))
    end) (sortedRecipients grouped) ;;
  on_entitlements (recordRelease entitlement total).

Definition PayEntitlement (slotID epoch : Z) (payouts : list EntitlementPayout) : KM unit :=
  cached (payEntitlement slotID epoch payouts).

Definition payEntitlementRemainder (slotID epoch : Z) : KM unit :=
  entitlement ← reads (loadReleasableEntitlement slotID epoch);
  remaining ← lift (Ent_Remaining entitlement);
  if remaining =? 0 then mret tt
  else
    params ← reads MonetaryParams;
    recipient ← lift (wrap RwInvalidAddress
      (Validate economicAddresses (Ent_PayoutAddress entitlement)));
    on_bank (SendCoinsFromModuleToAccount ModuleName recipient (P_NativeDenom params)
      remaining) ;;
    on_entitlements (recordRelease entitlement remaining).

Definition PayEntitlementRemainderToOperator (slotID epoch : Z) : KM unit :=
  cached (payEntitlementRemainder slotID epoch).
End release.

(** ** What a payout set asks for *)
Section payout_sets.
Context {SI : SdkInt} {BE : Bech32} (economicAddresses : Validator).

(** The amount one line asks for, and what it asks for [x]. *)
Definition line_amount (p : EntitlementPayout) : Z :=
  match ParseCanonicalPayoutAmount (Payout_Amount p) with Ok a => a | Err _ => 0 end.
Definition line_for (x : AccAddress) (p : EntitlementPayout) : Z :=
  match Validate economicAddresses (Payout_Recipient p) with
  | Ok a => if decide (a = x) then line_amount p else 0
  | Err _ => 0
  end.
Definition rp_for (x : AccAddress) (rp : resolvedPayout) : Z :=
  if decide (rp_address rp = x) then rp_amount rp else 0.

(** Every group is keyed by the text of its address, which the rule admits. *)
Definition grouped_ok (g : gmap string resolvedPayout) : Prop :=
  ∀ k rp, g !! k = Some rp →
    k = AccAddress_String (rp_address rp) ∧ 0 < rp_amount rp ∧
    (∃ text, Validate economicAddresses text = Ok (rp_address rp)).

Lemma Validate_nonempty text raw : Validate economicAddresses text = Ok raw → raw ≠ EmptyString.
Proof. intros (H & _)%Validate_Ok. apply ParseAccountAddress_Ok in H. naive_solver. Qed.

Lemma resolve_line_Ok g total p g' total' :
  grouped_ok g → resolve_line economicAddresses (g, total) p = Ok (g', total') →
  grouped_ok g' ∧ 0 < line_amount p ∧ total' = total + line_amount p ∧
  map_sum rp_amount g' = map_sum rp_amount g + line_amount p ∧
  (∀ x, map_sum (rp_for x) g' = map_sum (rp_for x) g + line_for x p) ∧
  is_ok (Validate economicAddresses (Payout_Recipient p)) = true.
Proof.
  intros Hg H. unfold resolve_line in H.
  apply res_bind_Ok in H as (a & Ha & H). apply res_bind_Ok in H as ([] & Hpos & H).
  apply res_fail_if_Ok in Hpos. apply negb_false_iff in Hpos. zify_bool.
  apply res_bind_Ok in H as (raw & Hraw & H). apply wrap_Ok in Hraw.
  apply res_bind_Ok in H as (t & Ht & H). apply SafeAdd_Ok in Ht as [-> Ht].
  assert (line_amount p = a) as Hla by (unfold line_amount; by rewrite Ha).
  assert (∀ x, line_for x p = if decide (raw = x) then a else 0) as Hlf
    by (intros x; unfold line_for; by rewrite Hraw, Hla).
  rewrite Hraw, Hla. destruct (g !! AccAddress_String raw) as [ex|] eqn:E.
  - apply res_bind_Ok in H as (c & Hc & H). apply SafeAdd_Ok in Hc as [-> Hc].
    injection H as <- <-. destruct (Hg _ _ E) as (Hkey & Hp & text & Htext).
    assert (rp_address ex = raw) as Hex.
    { apply AccAddress_String_inj; [by eapply Validate_nonempty..|done]. }
    split_and!; try done.
    + intros k rp Hk. apply lookup_insert_Some in Hk as [[<- <-]|[_ Hk]]; [|by apply Hg].
      simpl. split_and!; [done | lia | by exists text].
    + rewrite (map_sum_insert _ _ _ ex) by done. simpl. lia.
    + intros x. rewrite (map_sum_insert _ _ _ ex) by done. rewrite Hlf.
      unfold rp_for. simpl. rewrite Hex. case_decide; lia.
  - injection H as <- <-. split_and!; try done.
    + intros k rp Hk. apply lookup_insert_Some in Hk as [[<- <-]|[_ Hk]]; [|by apply Hg].
      simpl. split_and!; [done | lia | by eexists].
    + rewrite map_sum_insert_new by done. simpl. lia.
    + intros x. rewrite map_sum_insert_new by done. rewrite Hlf. unfold rp_for. simpl. lia.
Qed.

Lemma resolve_Ok payouts g total g' total' :
  grouped_ok g → fold_m (resolve_line economicAddresses) payouts (g, total) = Ok (g', total') →
  grouped_ok g' ∧ Forall (λ p, 0 < line_amount p ∧
    is_ok (Validate economicAddresses (Payout_Recipient p)) = true) payouts ∧
  total' = total + sum_of line_amount payouts ∧
  map_sum rp_amount g' = map_sum rp_amount g + sum_of line_amount payouts ∧
  (∀ x, map_sum (rp_for x) g' = map_sum (rp_for x) g + sum_of (line_for x) payouts).
Proof.
  revert g total. induction payouts as [|p payouts IH]; intros g total Hg H; simpl in *.
  { injection H as <- <-. split_and!; try done; try lia. }
  apply res_bind_Ok in H as ([g1 t1] & Hl & H).
  destruct (resolve_line_Ok _ _ _ _ _ Hg Hl) as (Hg1 & Hp & -> & Hs & Hx & Hv).
  destruct (IH _ _ Hg1 H) as (Hg2 & Hall & -> & Hs2 & Hx2).
  split_and!; [done | by constructor | lia | lia |].
  intros x. rewrite Hx2, Hx. lia.
Qed.
End payout_sets.

(** ** The transfers *)
Section transfers.
Context {SI : SdkInt} {BE : Bech32} {BK : BankKeeper}.
Context (economicAddresses : Validator).
Context (module_addr : AccAddress) (Hmod : GetModuleAddress ModuleName = Some module_addr).

Lemma on_bank_Ok {A} (m : M Bank A) (s s' : Store) a :
  on_bank m s = (s', Ok a) → ∃ b, m (Rs_Bank s) = (b, Ok a) ∧ s' = put_Bank b s.
Proof. unfold on_bank. intros H. by apply zoom_Ok in H. Qed.

(** One send, seen from the balances. *)
Definition moved (denom : string) (to : AccAddress → Z) (total : Z) (b b' : Bank) : Prop :=
  (∀ x d, GetBalance b' x d = GetBalance b x d
     + (if decide (d = denom) then to x else 0)
     - (if decide (x = module_addr ∧ d = denom) then total else 0)) ∧
  (∀ d, GetSupply b' d = GetSupply b d).

Lemma send_moved recipient denom amount b b' :
  0 < amount → SendCoinsFromModuleToAccount ModuleName recipient denom amount b = (b', Ok tt) →
  moved denom (λ x, if decide (recipient = x) then amount else 0) amount b b'.
Proof using Hmod.
  intros Ha H. destruct (SendCoins_Ok _ _ _ _ _ _ _ Hmod Ha H) as (_ & Hb & Hs).
  split; [|done]. intros x d. rewrite Hb.
  repeat case_decide; destruct_and?; subst; try lia; naive_solver.
Qed.

Lemma moved_trans denom f g m n b1 b2 b3 :
  moved denom f m b1 b2 → moved denom g n b2 b3 →
  moved denom (λ x, f x + g x) (m + n) b1 b3.
Proof.
  intros [H1 S1] [H2 S2]. split; [|intros d; by rewrite S2, S1].
  intros x d. rewrite H2, H1. repeat case_decide; lia.
Qed.

Lemma moved_ext denom f g m n b1 b2 :
  (∀ x, f x = g x) → m = n → moved denom f m b1 b2 → moved denom g n b1 b2.
Proof. intros Hf -> [H1 H2]. split; [|done]. intros x d. by rewrite H1, Hf. Qed.

Definition at_key (f : resolvedPayout → Z) (g : gmap string resolvedPayout) (k : string) : Z :=
  match g !! k with Some rp => f rp | None => 0 end.

Lemma sum_sortedRecipients f g : sum_of (at_key f g) (sortedRecipients g) = map_sum f g.
Proof.
  unfold sortedRecipients. rewrite (sum_of_Permutation _ _ _ (merge_sort_Permutation _ _)).
  unfold map_sum. assert (∀ l, (∀ k rp, (k, rp) ∈ l → g !! k = Some rp) →
    sum_of (at_key f g) (fst <$> l) = sum_of (λ kv, f (snd kv)) l) as Hl.
  { induction l as [|[k rp] l IH]; intros Hin; [done|]. rewrite fmap_cons, !sum_of_cons, IH.
    - cbn [fst snd]. unfold at_key at 1. by rewrite (Hin k rp ltac:(by left)).
    - intros k' rp' ?. apply Hin. by right. }
  apply Hl. intros k rp. by rewrite elem_of_map_to_list.
Qed.

Lemma sends_Ok g denom l s s' :
  grouped_ok economicAddresses g →
  for_each (λ recipient,
    match g !! recipient with
    | None => mret tt
    | Some rp => on_bank (SendCoinsFromModuleToAccount ModuleName (rp_address rp) denom
                   (rp_amount rp))
    end) l s = (s', Ok tt) →
  s' = put_Bank (Rs_Bank s') s ∧
  moved denom (λ x, sum_of (at_key (rp_for x) g) l) (sum_of (at_key rp_amount g) l)
    (Rs_Bank s) (Rs_Bank s').
Proof using Hmod.
  intros Hg. revert s. induction l as [|k l IH]; intros s H.
  - apply M_ret_Ok in H as [-> _]. split; [by destruct s|].
    split; [|done]. intros x d. simpl. repeat case_decide; lia.
  - simpl in H. apply M_bind_Ok in H as ([] & s1 & H1 & H).
    assert (s1 = put_Bank (Rs_Bank s1) s ∧
      moved denom (λ x, at_key (rp_for x) g k) (at_key rp_amount g k) (Rs_Bank s) (Rs_Bank s1))
      as [Hs1 Hm1].
    { unfold at_key. destruct (g !! k) as [rp|] eqn:E.
      - apply on_bank_Ok in H1 as (b & Hb & ->). split; [done|]. simpl.
        apply send_moved; [|done]. by apply (Hg k rp).
      - apply M_ret_Ok in H1 as [-> _]. split; [by destruct s|].
        split; [|done]. intros x d. repeat case_decide; lia. }
    destruct (IH s1 H) as [Hs' Hm']. split.
    + rewrite Hs', Hs1. reflexivity.
    + eapply moved_ext; [| |exact (moved_trans _ _ _ _ _ _ _ _ Hm1 Hm')]; done.
Qed.
End transfers.

(** ** Loading the entitlement *)
Section load.
Context {SI : SdkInt} {BE : Bech32} {BK : BankKeeper}.

Lemma load_Ok slotID epoch (s : Store) e :
  loadReleasableEntitlement slotID epoch s = Ok e ↔
  RewardsPaused (Rs_PauseState s) = Ok false ∧ slotID ≠ 0 ∧ epoch ≠ 0 ∧
  SlotEntitlements (Rs_Entitlements s) !! (epoch, slotID) = Some e ∧
  key_of e = (epoch, slotID) ∧ Ent_Validate e = Ok tt.
Proof.
  unfold loadReleasableEntitlement, SettlementReleaseEnabled, GetSlotEntitlement, entitlementKey.
  split.
  - intros H. minv. zify_bool.
    destruct (SlotEntitlements (Rs_Entitlements s) !! (epoch, slotID)) as [e'|]; minv.
    match goal with H : validateEntitlementRecord _ _ = Ok tt |- _ =>
      apply record_valid in H as [Hk ?] end.
    split_and!; done.
  - intros (-> & H1 & H2 & H3 & H4 & H5). cbn [mbind res_bind mret res_ret negb fail_if].
    destruct (Z.eqb_spec slotID 0); [done|]. destruct (Z.eqb_spec epoch 0); [done|].
    cbn [orb fail_if mret res_ret mbind res_bind]. rewrite H3.
    assert (validateEntitlementRecord (epoch, slotID) e = Ok tt) as -> by (by apply record_valid).
    done.
Qed.

Lemma MonetaryParams_Ok (s : Store) p : MonetaryParams s = Ok p → GetParams s = Ok p.
Proof. unfold MonetaryParams. intros H. minv. done. Qed.
End load.

(** ** Properties *)

(** The store after a payment: the bank moved, the books updated, the rest kept. *)
Definition with_bank_and_books {BK : BankKeeper} (s s' : Store) : Prop :=
  s' = put_Entitlements (Rs_Entitlements s') (put_Bank (Rs_Bank s') s).

Lemma PayEntitlement_spec {SI : SdkInt} {BE : Bech32} {BK : BankKeeper}
    (econ : Validator) (module_addr : AccAddress) (slotID epoch : Z)
    (payouts : list EntitlementPayout) (s s' : Store) (r : res unit) :
  GetModuleAddress ModuleName = Some module_addr → ent_wf (Rs_Entitlements s) →
  PayEntitlement econ slotID epoch payouts s = (s', r) →
  match r with
  | Err _ => s' = s
  | Ok _ =>
      let total := sum_of line_amount payouts in
      ∃ params e a rel,
        GetParams s = Ok params ∧ RewardsPaused (Rs_PauseState s) = Ok false ∧ payouts ≠ [] ∧
        Forall (λ p, 0 < line_amount p ∧ is_ok (Validate econ (Payout_Recipient p)) = true) payouts ∧
        SlotEntitlements (Rs_Entitlements s) !! (epoch, slotID) = Some e ∧
        Ent_Amount e = Ok a ∧ Ent_Released e = Ok rel ∧ rel + total ≤ a ∧
        with_bank_and_books s s' ∧ ent_wf (Rs_Entitlements s') ∧
        SlotEntitlements (Rs_Entitlements s') =
          <[(epoch, slotID) := with_released e (Int_String (rel + total))]>
            (SlotEntitlements (Rs_Entitlements s)) ∧
        map_sum owed (SlotEntitlements (Rs_Entitlements s')) =
          map_sum owed (SlotEntitlements (Rs_Entitlements s)) - total ∧
        moved module_addr (P_NativeDenom params) (λ x, sum_of (line_for econ x) payouts) total
          (Rs_Bank s) (Rs_Bank s')
  end.
Proof.
  intros Hmod Hwf H. destruct r as [[]|err]; [|by eapply cached_Err].
  unfold PayEntitlement in H. apply (proj1 (cached_Ok _ _ _ _)) in H. unfold payEntitlement in H.
  apply M_bind_Ok in H as ([] & s1 & H1 & H). apply M_fail_if_Ok in H1 as [-> Hne].
  apply bool_decide_eq_false_1 in Hne.
  apply M_bind_Ok in H as (e & s1 & H1 & H). apply reads_Ok in H1 as [-> Hload].
  apply M_bind_Ok in H as (params & s1 & H1 & H). apply reads_Ok in H1 as [-> Hpar].
  apply M_bind_Ok in H as ([g total] & s1 & H1 & H). apply lift_Ok in H1 as [-> Hres].
  apply M_bind_Ok in H as ([] & s1 & H1 & H). apply lift_Ok in H1 as [-> Hceil].
  apply M_bind_Ok in H as ([] & s1 & Hsend & H).
  destruct (resolve_Ok econ payouts ∅ 0 g total) as (Hg & Hall & Htot & Hsum & Hx);
    [by intros k rp Hk; rewrite lookup_empty in Hk | exact Hres |].
  rewrite map_sum_empty in Hsum.
  destruct (sends_Ok econ module_addr Hmod g _ _ _ _ Hg Hsend) as [Hs1 Hmoved].
  apply load_Ok in Hload as (Hpz & _ & _ & Hk & Hkey & _).
  unfold on_entitlements in H. apply zoom_Ok in H as (t & Hrel & ->).
  rewrite Hs1 in Hrel. simpl in Hrel.
  assert (0 ≤ total) as Ht0.
  { rewrite Htot. apply sum_of_nonneg. eapply Forall_impl; [exact Hall|]. simpl. lia. }
  rewrite <- Hkey in Hk |- *.
  destruct (recordRelease_Ok _ _ e total Hwf Hk Ht0 Hrel)
    as (a & rel & Ha & Hr & Hle & Hwf' & Hm & Hs').
  assert (total = sum_of line_amount payouts) as Htot' by lia.
  rewrite <- Htot'.
  apply MonetaryParams_Ok in Hpar. exists params, e, a, rel.
  split_and!; try done.
  - rewrite Hs1. reflexivity.
  - simpl. rewrite Hs1. simpl. eapply moved_ext; [| |exact Hmoved].
    + intros x. cbv beta. rewrite sum_sortedRecipients, Hx, map_sum_empty. lia.
    + rewrite sum_sortedRecipients. lia.
Qed.

(** C23: a payout set is paid exactly or not at all.  A failed [PayEntitlement]
    leaves the whole store, balances included, as it was.  A successful one ran
    unpaused on an existing entitlement, every line had a positive canonical
    amount and an admissible recipient; each account receives exactly the sum of
    the lines naming it, the rewards account is debited exactly the total, the
    released amount grows by the total and stays within the entitlement, the
    outstanding liability drops by the total and still equals what all
    entitlements owe, and the supply is untouched. *)
Theorem pay_entitlement_exact {SI : SdkInt} {BE : Bech32} {BK : BankKeeper}
    (econ : Validator) (module_addr : AccAddress) (slotID epoch : Z)
    (payouts : list EntitlementPayout) (s s' : Store) (r : res unit) :
  GetModuleAddress ModuleName = Some module_addr → ent_wf (Rs_Entitlements s) →
  PayEntitlement econ slotID epoch payouts s = (s', r) →
  match r with
  | Err _ => s' = s
  | Ok _ =>
      let total := sum_of line_amount payouts in
      ∃ params e a rel,
        GetParams s = Ok params ∧ RewardsPaused (Rs_PauseState s) = Ok false ∧ payouts ≠ [] ∧
        Forall (λ p, 0 < line_amount p ∧ is_ok (Validate econ (Payout_Recipient p)) = true) payouts ∧
        SlotEntitlements (Rs_Entitlements s) !! (epoch, slotID) = Some e ∧
        Ent_Amount e = Ok a ∧ Ent_Released e = Ok rel ∧ rel + total ≤ a ∧
        with_bank_and_books s s' ∧ ent_wf (Rs_Entitlements s') ∧
        SlotEntitlements (Rs_Entitlements s') =
          <[(epoch, slotID) := with_released e (Int_String (rel + total))]>
            (SlotEntitlements (Rs_Entitlements s)) ∧
        map_sum owed (SlotEntitlements (Rs_Entitlements s')) =
          map_sum owed (SlotEntitlements (Rs_Entitlements s)) - total ∧
        moved module_addr (P_NativeDenom params) (λ x, sum_of (line_for econ x) payouts) total
          (Rs_Bank s) (Rs_Bank s')
  end.
Proof. apply PayEntitlement_spec. Qed.

Definition sample_payouts : list EntitlementPayout :=
  [{| Payout_Recipient := "bob"%string; Payout_Amount := "30"%string |};
   {| Payout_Recipient := "alice"%string; Payout_Amount := "20"%string |};
   {| Payout_Recipient := "bob"%string; Payout_Amount := "7"%string |}].

(** The store after the sample payment, evaluated. *)
Definition sample_paid : @Store ledger_bank :=
  Eval vm_compute in
    fst (@PayEntitlement sdkint_256 bech32_id ledger_bank sample_validator 7 1 sample_payouts
      sample_store).
Definition sample_settled : @Store ledger_bank :=
  Eval vm_compute in
    fst (@PayEntitlementRemainderToOperator sdkint_256 ledger_bank sample_validator 7 1
      sample_store).

Lemma pay_entitlement_exact_witness :
  @PayEntitlement sdkint_256 bech32_id ledger_bank sample_validator 7 1 sample_payouts
    sample_store = (sample_paid, Ok tt) ∧
  @GetBalance ledger_bank (Rs_Bank sample_paid) "bob"%string "utwlt"%string = 37.
Proof.
  split; [vm_eq|].
  destruct (@pay_entitlement_exact sdkint_256 bech32_id ledger_bank sample_validator
    "rewards"%string 7 1 sample_payouts sample_store sample_paid (Ok tt))
    as (p & e & a & rel & Hp & _ & _ & _ & _ & _ & _ & _ & _ & _ & _ & _ & Hb & _).
  - reflexivity.
  - exact sample_books_wf.
  - vm_eq.
  - injection Hp as <-. etransitivity; [exact (Hb "bob"%string "utwlt"%string)|].
    vm_eq.
Defined.

Lemma PayRemainder_spec {SI : SdkInt} {BE : Bech32} {BK : BankKeeper}
    (econ : Validator) (module_addr : AccAddress) (slotID epoch : Z)
    (s s' : Store) (r : res unit) :
  GetModuleAddress ModuleName = Some module_addr → ent_wf (Rs_Entitlements s) →
  PayEntitlementRemainderToOperator econ slotID epoch s = (s', r) →
  match r with
  | Err _ => s' = s
  | Ok _ =>
      ∃ e, SlotEntitlements (Rs_Entitlements s) !! (epoch, slotID) = Some e ∧
        ent_wf (Rs_Entitlements s') ∧ with_bank_and_books s s' ∧
        map_sum owed (SlotEntitlements (Rs_Entitlements s')) =
          map_sum owed (SlotEntitlements (Rs_Entitlements s)) - owed e ∧
        (∃ e' a, SlotEntitlements (Rs_Entitlements s') !! (epoch, slotID) = Some e' ∧ owed e' = 0 ∧
           Ent_Amount e = Ok a ∧ Ent_Amount e' = Ok a ∧ Ent_Released e' = Ok a ∧
           Ent_PayoutAddress e' = Ent_PayoutAddress e ∧
           Ent_RewardConfigVersion e' = Ent_RewardConfigVersion e) ∧
        (∀ k, k ≠ (epoch, slotID) → SlotEntitlements (Rs_Entitlements s') !! k =
           SlotEntitlements (Rs_Entitlements s) !! k) ∧
        (owed e = 0 → s' = s) ∧
        (0 < owed e → ∃ params recipient, GetParams s = Ok params ∧
           Validate econ (Ent_PayoutAddress e) = Ok recipient ∧
           moved module_addr (P_NativeDenom params)
             (λ x, if decide (recipient = x) then owed e else 0) (owed e)
             (Rs_Bank s) (Rs_Bank s')) ∧
        PayEntitlementRemainderToOperator econ slotID epoch s' = (s', Ok tt)
  end.
Proof.
  intros Hmod Hwf H. destruct r as [[]|err]; [|by eapply cached_Err].
  unfold PayEntitlementRemainderToOperator in H. apply (proj1 (cached_Ok _ _ _ _)) in H.
  assert (∀ st, payEntitlementRemainder econ slotID epoch st = (st, Ok tt) →
    PayEntitlementRemainderToOperator econ slotID epoch st = (st, Ok tt)) as Hagain
    by (intros st Hst; by apply cached_Ok).
  unfold payEntitlementRemainder in H at 1.
  apply M_bind_Ok in H as (e & s1 & H1 & H). apply reads_Ok in H1 as [-> Hload].
  pose proof Hload as (Hpz & Hs0 & He0 & Hk & Hkey & Hv)%load_Ok.
  destruct (owed_valid e Hv) as (a & rel & Ha & Hr & Hle & Hap & Hok & Ho & Hrem).
  apply M_bind_Ok in H as (rem & s1 & H1 & H). apply lift_Ok in H1 as [-> H1].
  rewrite Hrem in H1. injection H1 as <-. exists e. rewrite Ho.
  destruct (Z.eqb_spec (a - rel) 0) as [Hz|Hz].
  - apply M_ret_Ok in H as [-> _]. split_and!; [done|done|by destruct s|lia| |done|done|lia|].
    + exists e, a. split_and!; [done | lia | done | done | by replace a with rel by lia | done | done].
    + apply Hagain. unfold payEntitlementRemainder.
      rewrite (M_bind_run _ _ s s e) by (unfold reads; by rewrite Hload).
      rewrite (M_bind_run _ _ s s (a - rel)) by (unfold lift; by rewrite Hrem). by rewrite Hz.
  - apply M_bind_Ok in H as (params & s1 & H1 & H). apply reads_Ok in H1 as [-> Hpar].
    apply MonetaryParams_Ok in Hpar.
    apply M_bind_Ok in H as (recip & s1 & H1 & H). apply lift_Ok in H1 as [-> H1].
    apply wrap_Ok in H1. apply M_bind_Ok in H as ([] & s1 & Hsend & H).
    apply on_bank_Ok in Hsend as (b & Hb & ->).
    apply (send_moved module_addr Hmod) in Hb; [|lia].
    unfold on_entitlements in H. apply zoom_Ok in H as (t & Hrel & ->). simpl in Hrel.
    rewrite <- Hkey in Hk |- *.
    destruct (recordRelease_Ok _ _ e (a - rel) Hwf Hk ltac:(lia) Hrel)
      as (a' & rel' & Ha' & Hr' & _ & Hwf' & Hm & Hs').
    rewrite Ha in Ha'. rewrite Hr in Hr'. injection Ha' as <-. injection Hr' as <-.
    replace (rel + (a - rel)) with a in Hm by lia.
    destruct (with_released_valid e a rel a Hv Ha Hr ltac:(lia)) as (Hv' & Ha' & Hr' & Ho').
    assert (SlotEntitlements t !! key_of e = Some (with_released e (Int_String a))) as Hk'
      by (rewrite Hm; apply lookup_insert_eq).
    split_and!; try done; try lia.
    + exists (with_released e (Int_String a)), a. split_and!; done || lia.
    + intros k Hne. simpl. rewrite Hm. by rewrite lookup_insert_ne.
    + intros _. exists params, recip. done.
    + apply Hagain. unfold payEntitlementRemainder.
      set (s2 := put_Entitlements t (put_Bank b s)).
      assert (loadReleasableEntitlement slotID epoch s2 = Ok (with_released e (Int_String a))) as Hl2.
      { apply load_Ok. rewrite <- Hkey. split_and!; done. }
      rewrite (M_bind_run _ _ s2 s2 (with_released e (Int_String a)))
        by (unfold reads; by rewrite Hl2).
      rewrite (M_bind_run _ _ s2 s2 0); [done|]. unfold lift, Ent_Remaining.
      rewrite Ha', Hr'. cbn [mbind res_bind]. f_equal. apply SafeSub_Ok. rewrite Z.sub_diag. done.
Qed.

(** Paying the remainder to the operator settles the entitlement: on success
    the payout address recorded in it receives exactly what was left (nothing,
    and with no other change, when it was already settled), the released amount
    becomes the entitlement amount and the liability drops by the same, every
    other entitlement is as it was; a failure changes nothing; and paying again afterwards is a successful no-op. *)
Theorem pay_remainder_settles {SI : SdkInt} {BE : Bech32} {BK : BankKeeper}
    (econ : Validator) (module_addr : AccAddress) (slotID epoch : Z)
    (s s' : Store) (r : res unit) :
  GetModuleAddress ModuleName = Some module_addr → ent_wf (Rs_Entitlements s) →
  PayEntitlementRemainderToOperator econ slotID epoch s = (s', r) →
  match r with
  | Err _ => s' = s
  | Ok _ =>
      ∃ e, SlotEntitlements (Rs_Entitlements s) !! (epoch, slotID) = Some e ∧
        ent_wf (Rs_Entitlements s') ∧ with_bank_and_books s s' ∧
        map_sum owed (SlotEntitlements (Rs_Entitlements s')) =
          map_sum owed (SlotEntitlements (Rs_Entitlements s)) - owed e ∧
        (∃ e' a, SlotEntitlements (Rs_Entitlements s') !! (epoch, slotID) = Some e' ∧ owed e' = 0 ∧
           Ent_Amount e = Ok a ∧ Ent_Amount e' = Ok a ∧ Ent_Released e' = Ok a ∧
           Ent_PayoutAddress e' = Ent_PayoutAddress e ∧
           Ent_RewardConfigVersion e' = Ent_RewardConfigVersion e) ∧
        (∀ k, k ≠ (epoch, slotID) → SlotEntitlements (Rs_Entitlements s') !! k =
           SlotEntitlements (Rs_Entitlements s) !! k) ∧
        (owed e = 0 → s' = s) ∧
        (0 < owed e → ∃ params recipient, GetParams s = Ok params ∧
           Validate econ (Ent_PayoutAddress e) = Ok recipient ∧
           moved module_addr (P_NativeDenom params)
             (λ x, if decide (recipient = x) then owed e else 0) (owed e)
             (Rs_Bank s) (Rs_Bank s')) ∧
        PayEntitlementRemainderToOperator econ slotID epoch s' = (s', Ok tt)
  end.
Proof. apply PayRemainder_spec. Qed.

Lemma pay_remainder_settles_witness :
  map_sum (@owed sdkint_256) (SlotEntitlements (Rs_Entitlements sample_settled)) = 0.
Proof.
  destruct (@pay_remainder_settles sdkint_256 bech32_id ledger_bank sample_validator
    "rewards"%string 7 1 sample_store sample_settled (Ok tt)) as (e & He & _ & _ & Hs & _).
  - reflexivity.
  - exact sample_books_wf.
  - vm_eq.
  - etransitivity; [exact Hs|]. injection He as <-. vm_eq.
Defined.
