(* ===== verification/Finalize.v ===== *)
(** * x/rewards/keeper/finalize.go: closing an epoch

    [finalizeEpoch] as one program over the store: it mints the emission of the
    epoch's reward-enabled blocks, pays the treasury its share, allocates the rest
    with the carry over the participation rows, records the entitlements and the
    finalized epoch, activates pending parameters, and ends with the solvency
    check.  Block height and the CoreSlot store are arguments. *)
From S2P Require Import Prelude Checked SdkMath Bounds EconomicAddress RewardsTypes.
From S2P Require Import Collections Emission Allocation EpochHistory RewardConfig Bank.
From S2P Require Import CoreSlotTypes Pause Entitlement RewardsKeeper RewardsInvariant Release.
Local Open Scope Z_scope.

Section finalize.
Context {SI : SdkInt} {BE : Bech32} {BK : BankKeeper} {CK : CoreSlotKeeper}.
Context (economicAddresses : Validator) (cs : CoreSlotStore) (blockHeight : Z).
Abbreviation KM := (M Store).

Definition validateEpochParticipation (g : Geometry) (epoch rewardEnabledBlocks : Z)
    (rows : list SlotActiveBlocks) : res unit :=
  length ← EpochLengthForEpoch g epoch;
  fail_if (rewardEnabledBlocks >? length) RwInvalidState ;;
  for_each (λ row,
    fail_if (AB_SlotId row =? 0) RwInvalidState ;;
    fail_if (AB_BlocksActive row >? rewardEnabledBlocks) RwInvalidState) rows.

(** The snapshot of every slot with positive participation. *)
Definition collectSnapshots (rows : list SlotActiveBlocks) : res (gmap Z SlotRewardSnapshot) :=
  fold_m (λ snapshots row,
    if AB_BlocksActive row =? 0 then mret snapshots
    else
      snapshot ← GetSlotRewardSnapshot economicAddresses cs (AB_SlotId row);
      mret (<[AB_SlotId row := snapshot]> snapshots)) rows ∅.

Definition assertEscrowSolvency (denom : string) (carryOut : Z) (s : Store) : res unit :=
  match GetModuleAddress ModuleName with
  | None => Err RwInvalidState
  | Some address =>
      liability ← GetOutstandingEntitlementLiability (Rs_Entitlements s);
      owed ← or_err RwInvalidState (Int_SafeAdd liability carryOut);
      fail_if (negb (GetBalance (Rs_Bank s) address denom =? owed)) RwInvalidState
  end.

(** The pending parameters keep the flags of the current ones. *)
Definition with_flags_of (params pending : Params) : Params := {|
  P_EmissionsEnabled := P_EmissionsEnabled params;
  P_EpochSettlementEnabled := P_EpochSettlementEnabled params;
  P_ClaimsEnabled := P_ClaimsEnabled params;
  P_NativeDenom := P_NativeDenom pending;
  P_MaxSupply := P_MaxSupply pending;
  P_InitialBlockSubsidy := P_InitialBlockSubsidy pending;
  P_TargetBlockTimeSeconds := P_TargetBlockTimeSeconds pending;
  P_EpochLengthBlocks := P_EpochLengthBlocks pending;
  P_HalvingMode := P_HalvingMode pending;
  P_DistributionMethod := P_DistributionMethod pending;
  P_RemainderPolicy := P_RemainderPolicy pending;
  P_MaxClaimEpochsPerTx := P_MaxClaimEpochsPerTx pending;
  P_FeeCollectionEnabled := P_FeeCollectionEnabled pending;
  P_FeeDistributionEnabled := P_FeeDistributionEnabled pending;
  P_FeeDenom := P_FeeDenom pending;
  P_FeeDistributionMode := P_FeeDistributionMode pending;
  P_TreasuryAddress := P_TreasuryAddress pending;
  P_EmissionTreasuryShareBps := P_EmissionTreasuryShareBps pending;
  P_FeeTreasuryShareBps := P_FeeTreasuryShareBps pending;
  P_WeightedRewardsEnabled := P_WeightedRewardsEnabled pending |}.

(** Minting and the treasury payment; the result is the emission, the
    cumulative amount after it, the treasury amount, the carried-in remainder
    and the reward pool. *)
Definition mintEpoch (params : Params) (state : RewardsState) (rewardEnabledBlocks : Z)
    (rewardConfig : RewardConfigVersion) : KM (Z * Z * Z * Z * Z) :=
  cumulative ← lift (ParseAmountString (CumulativeEmitted state));
  maxSupply ← lift (ParseAmountString (P_MaxSupply params));
  initialSubsidy ← lift (ParseAmountString (RCV_InitialBlockSubsidy rewardConfig));
  '(emission, cumulativeAfter) ←
    lift (ComputeEpochEmission (Some cumulative) rewardEnabledBlocks (Some maxSupply)
      (Some initialSubsidy) (P_HalvingMode params));
  fail_if (cumulativeAfter >? maxSupply) RwInvalidState ;;
  (if emission >? 0
   then on_bank (MintCoins ModuleName (P_NativeDenom params) emission)
   else mret tt) ;;
  carryIn ← lift (ParseAmountString (CarryForwardRemainder state));
  treasuryAmount ←
    lift (ComputeEmissionTreasuryAmount (Some emission)
      (RCV_EmissionTreasuryShareBps rewardConfig));
  PayTreasury economicAddresses (RCV_TreasuryAddress rewardConfig) treasuryAmount
    (P_NativeDenom params) ;;
  pool ← lift (ComputeRewardPoolV2 (Some emission) (Some treasuryAmount) (Some carryIn));
  mret (emission, cumulativeAfter, treasuryAmount, carryIn, pool).

(** Allocating the pool and recording the entitlements; the result is the
    allocated amount and the remainder carried on. *)
Definition distributeEpoch (state : RewardsState) (rows : list SlotActiveBlocks)
    (snapshots : gmap Z SlotRewardSnapshot) (rewardConfig : RewardConfigVersion) (pool : Z)
    : KM (Z * Z) :=
  height ← lift (wrap RwInvalidState (Uint64FromInt64 blockHeight));
  '(entitlements, allocated, carryOut, nPos) ←
    lift (AllocateSlotEntitlements (CurrentEpoch state) (Some pool) rows snapshots
      (RCV_Version rewardConfig) height);
  lift (assertAllocationConservation pool allocated carryOut nPos) ;;
  for_each (λ entitlement,
    on_entitlements (createSlotEntitlement economicAddresses entitlement rewardConfig))
    entitlements ;;
  mret (allocated, carryOut).

(** Activating pending parameters; the result is the set now in force. *)
Definition activatePending (params : Params) : KM Params :=
  found ← gets GetPendingParams;
  match found with
  | None => mret params
  | Some pending =>
      let pending := with_flags_of params pending in
      SetParams economicAddresses pending ;;
      ClearPendingParams ;;
      mret pending
  end.

(** The end of the transition: the finalized epoch's record, the participation
    rows cleared, pending parameters and the next configuration in force, the
    accounting state, and the solvency check. *)
Definition closeEpoch (params : Params) (state : RewardsState) (cfg : EpochConfigSnapshot)
    (endHeight rewardEnabledBlocks emission cumulativeAfter treasuryAmount carryIn pool
     allocated carryOut : Z) : KM unit :=
  SetFinalizedEpoch economicAddresses {|
    EpochNumber := CurrentEpoch state;
    StartHeight := CurrentEpochStartHeight state;
    EndHeight := endHeight;
    MintedEmission := Int_String emission;
    CarryIn := Int_String carryIn;
    DistributableFees := "0"%string;
    TreasuryAmount := Int_String treasuryAmount;
    RewardPool := Int_String pool;
    AllocatedAmount := Int_String allocated;
    CarryOut := Int_String carryOut;
    ER_DistributionMethod := Snap_DistributionMethod cfg;
    ER_RemainderPolicy := Snap_RemainderPolicy cfg;
    Rewards := [];
    CumulativeEmittedAfterEpoch := Int_String cumulativeAfter;
    Config := Some cfg;
    RewardEnabledBlocks := rewardEnabledBlocks |} ;;
  DeleteActiveBlocksForEpoch (CurrentEpoch state) ;;
  nextParams ← activatePending params;
  nextCfg ← reads (buildEpochConfigSnapshot nextParams);
  SetCurrentEpochConfig economicAddresses nextCfg ;;
  SetState {|
    CurrentEpoch := CurrentEpoch state;
    CurrentEpochStartHeight := CurrentEpochStartHeight state;
    CumulativeEmitted := Int_String cumulativeAfter;
    CarryForwardRemainder := Int_String carryOut |} ;;
  reads (assertEscrowSolvency (P_NativeDenom params) carryOut).

Definition finalizeEpoch : KM unit :=
  params ← reads MonetaryParams;
  state ← reads GetState;
  reads (λ s, verifyCurrentEpochAnchor (Rs_Geometry s) state) ;;
  cfg ← reads GetCurrentEpochConfig;
  fail_if (Snap_WeightedRewardsEnabled cfg ||
           bool_decide (Snap_DistributionMethod cfg ≠ DISTRIBUTION_METHOD_UNIFORM_ACTIVE_BLOCKS))
    RwUnsupportedFeature ;;
  fail_if (Snap_FeeCollectionEnabled cfg || Snap_FeeDistributionEnabled cfg ||
           bool_decide (Snap_FeeDistributionMode cfg ≠ FEE_DISTRIBUTION_MODE_NONE))
    RwUnsupportedFeature ;;
  endHeight ← reads (λ s, EpochEndHeight (Rs_Geometry s) (CurrentEpoch state));
  rewardEnabledBlocks ← reads GetOpenRewardEnabledBlocks;
  rows ← gets (λ s, IterateActiveBlocksForEpoch s (CurrentEpoch state));
  reads (λ s, validateEpochParticipation (Rs_Geometry s) (CurrentEpoch state)
    rewardEnabledBlocks rows) ;;
  rewardConfig ← reads (λ s, RewardConfigForTarget economicAddresses (Rs_RewardConfig s)
    (CurrentEpoch state));
  snapshots ← lift (collectSnapshots rows);
  '(emission, cumulativeAfter, treasuryAmount, carryIn, pool) ←
    mintEpoch params state rewardEnabledBlocks rewardConfig;
  '(allocated, carryOut) ← distributeEpoch state rows snapshots rewardConfig pool;
  closeEpoch params state cfg endHeight rewardEnabledBlocks emission cumulativeAfter
    treasuryAmount carryIn pool allocated carryOut.

(** [Keeper.FinalizeEpoch] *)
Definition FinalizeEpoch : KM unit := cached finalizeEpoch.
End finalize.

(** ** Each stage succeeds, and what it does *)
Section stages.
Context {SI : SdkInt} {BE : Bech32} {BK : BankKeeper} {CK : CoreSlotKeeper}.
Context (econ : Validator) (module_addr : AccAddress) (Henv : environment econ module_addr).
Context (cs : CoreSlotStore) (blockHeight : Z).

Lemma treasury_recipient v t e :
  version_ok econ (RCV_EffectiveEpoch v) v → t = e * RCV_EmissionTreasuryShareBps v / MaxBasisPoints →
  0 ≤ RCV_EmissionTreasuryShareBps v → t ≠ 0 →
  ∃ raw, Validate econ (RCV_TreasuryAddress v) = Ok raw.
Proof.
  intros (_ & _ & Hres) -> H0 Ht. unfold validateResolvedRewardConfig in Hres.
  apply res_bind_Ok in Hres as (? & _ & Hres).
  unfold validateRewardConfigTreasury, validateTreasuryAddress, treasuryAddressRequired in Hres.
  rewrite Z.gtb_ltb in Hres. destruct (Z.ltb_spec 0 (RCV_EmissionTreasuryShareBps v)) as [|Hz].
  - simpl in Hres. destruct (Validate econ (RCV_TreasuryAddress v)) as [raw|]; [eauto | done].
  - destruct Ht. assert (RCV_EmissionTreasuryShareBps v = 0) as -> by lia.
    by rewrite Z.mul_0_r.
Qed.

(** Minting and the treasury payment. *)
Lemma mintEpoch_spec (s : Store) p st v max cum carry init enabled :
  ParseAmountString (CumulativeEmitted st) = Ok cum →
  ParseAmountString (P_MaxSupply p) = Ok max → cum ≤ max → 0 < max < 2 ^ 128 →
  ParseAmountString (RCV_InitialBlockSubsidy v) = Ok init →
  ParseAmountString (CarryForwardRemainder st) = Ok carry → carry < 2 ^ 129 →
  P_HalvingMode p = HALVING_MODE_SUPPLY_THRESHOLD →
  version_ok econ (RCV_EffectiveEpoch v) v → 0 ≤ RCV_EmissionTreasuryShareBps v ≤ 5000 →
  GetSupply (Rs_Bank s) (P_NativeDenom p) < 2 ^ 200 →
  let c' := emit max init (Z.to_nat enabled) cum in
  let e := c' - cum in
  let t := e * RCV_EmissionTreasuryShareBps v / MaxBasisPoints in
  cum ≤ c' ≤ max ∧ 0 ≤ t ≤ e ∧
  ∃ b recipient,
    mintEpoch econ p st enabled v s = (put_Bank b s, Ok (e, c', t, carry, e - t + carry)) ∧
    GetBalance b module_addr (P_NativeDenom p) =
      GetBalance (Rs_Bank s) module_addr (P_NativeDenom p) + e - t ∧
    GetSupply b (P_NativeDenom p) = GetSupply (Rs_Bank s) (P_NativeDenom p) + e ∧
    (0 < t → Validate econ (RCV_TreasuryAddress v) = Ok recipient) ∧
    (∀ x d, x ≠ module_addr → GetBalance b x d = GetBalance (Rs_Bank s) x d +
       if decide (t ≠ 0 ∧ x = recipient ∧ d = P_NativeDenom p) then t else 0).
Proof using Henv.
  intros Hcum Hmax Hle Hmb Hinit Hcarry Hcb Hmode Hv Hsh Hsup c' e t.
  pose proof (ParseAmountString_Ok _ _ Hcum) as [Hc0 _].
  pose proof (ParseAmountString_Ok _ _ Hinit) as [Hi0 Hi1].
  pose proof (ParseAmountString_Ok _ _ Hcarry) as [Hk0 _].
  assert (supply_ok max cum) as Hs by (split; lia).
  assert (subsidy_ok init) as Hi by (split; [done | int_solve]).
  destruct (emit_supply_ok max init (Z.to_nat enabled) cum Hs Hi) as [Hc' _]. fold c' in Hc'.
  pose proof (emit_mono max init (Z.to_nat enabled) cum Hs Hi) as Hmono. fold c' in Hmono.
  assert (0 ≤ t ∧ 2 * t ≤ e) as [Ht0 Ht1].
  { unfold t, MaxBasisPoints. split; [apply Z.div_pos; nia|].
    pose proof (Z.mul_div_le (e * RCV_EmissionTreasuryShareBps v) 10000 ltac:(lia)). nia. }
  split; [lia|]. split; [lia|].
  (* minting *)
  assert (∃ b1, (if e >? 0 then on_bank (MintCoins ModuleName (P_NativeDenom p) e) else mret tt) s =
      (put_Bank b1 s, Ok tt) ∧
    (∀ x d, GetBalance b1 x d = GetBalance (Rs_Bank s) x d +
       if decide (x = module_addr ∧ d = P_NativeDenom p) then e else 0) ∧
    GetSupply b1 (P_NativeDenom p) = GetSupply (Rs_Bank s) (P_NativeDenom p) + e)
    as (b1 & Hmint & Hb1 & Hs1).
  { rewrite Z.gtb_ltb. destruct (Z.ltb_spec 0 e) as [Hpos|Hneg].
    - destruct (MintCoins_total ModuleName (P_NativeDenom p) e (Rs_Bank s) module_addr)
        as [b1 Hb1]; [apply Henv | done | lia |].
      destruct (MintCoins_Ok _ _ _ _ _ _ (env_module _ _ Henv) Hpos Hb1) as [H1 H2].
      exists b1. split_and!; [by apply zoom_run | done |]. rewrite H2. by rewrite decide_True.
    - exists (Rs_Bank s). split_and!; [by destruct s | |].
      + intros x d. case_decide; lia.
      + lia. }
  (* the treasury *)
  assert (∃ b2 recipient, PayTreasury econ (RCV_TreasuryAddress v) t (P_NativeDenom p)
      (put_Bank b1 s) = (put_Bank b2 s, Ok tt) ∧
    (t ≠ 0 → Validate econ (RCV_TreasuryAddress v) = Ok recipient) ∧
    moved module_addr (P_NativeDenom p)
      (λ x, if decide (t ≠ 0 ∧ recipient = x) then t else 0) t b1 b2)
    as (b2 & recipient & Hpay & Hrec & Hb2 & Hs2).
  { unfold PayTreasury. destruct (Z.eqb_spec t 0) as [Hz|Hz].
    - exists b1, EmptyString. split; [done|]. split; [done|]. split; [|done].
      intros x d. repeat case_decide; destruct_and?; try done; lia.
    - destruct (treasury_recipient v t e Hv eq_refl ltac:(lia) Hz) as [raw Hraw].
      destruct (SendCoins_total ModuleName raw (P_NativeDenom p) t b1 module_addr) as [b2 Hb2].
      + apply Henv. + lia.
      + rewrite Hb1, decide_True by done.
        pose proof (GetBalance_nonneg (Rs_Bank s) module_addr (P_NativeDenom p)). lia.
      + by eapply (env_blocked _ _ Henv).
      + exists b2, raw. split_and!; [|done|].
        * rewrite (M_bind_run _ _ _ (put_Bank b1 s) raw) by (unfold lift; by rewrite Hraw).
          unfold on_bank. erewrite zoom_run; [reflexivity | exact Hb2].
        * eapply moved_ext; [| |eapply send_moved; [apply Henv | |exact Hb2]]; [|done|lia].
          intros x. simpl. repeat case_decide; destruct_and?; naive_solver. }
  exists b2, recipient. split_and!.
  - unfold mintEpoch. rewrite (M_bind_run _ _ s s cum) by (unfold lift; by rewrite Hcum).
    rewrite (M_bind_run _ _ s s max) by (unfold lift; by rewrite Hmax).
    rewrite (M_bind_run _ _ s s init) by (unfold lift; by rewrite Hinit).
    rewrite (M_bind_run _ _ s s (e, c')).
    2:{ unfold lift. by rewrite Hmode, ComputeEpochEmission_spec. }
    cbv beta iota. rewrite (M_bind_run _ _ s s tt).
    2:{ apply M_fail_if_Ok. split; [done|]. rewrite Z.gtb_ltb. apply Z.ltb_ge. lia. }
    rewrite (M_bind_run _ _ s (put_Bank b1 s) tt) by exact Hmint.
    rewrite (M_bind_run _ _ _ (put_Bank b1 s) carry) by (unfold lift; by rewrite Hcarry).
    rewrite (M_bind_run _ _ _ (put_Bank b1 s) t).
    2:{ unfold lift. rewrite ComputeEmissionTreasuryAmount_spec; [done|lia| |];
        unfold MaxBasisPoints; lia. }
    rewrite (M_bind_run _ _ _ (put_Bank b2 s) tt) by exact Hpay.
    rewrite (M_bind_run _ _ _ (put_Bank b2 s) (e - t + carry)).
    2:{ unfold lift. rewrite ComputeRewardPoolV2_spec by lia. done. }
    done.
  - assert (¬ (t ≠ 0 ∧ recipient = module_addr)) as Hnm.
    { intros [Hz ->]. apply Hrec, Validate_Ok in Hz as (_ & _ & Hz & _).
      apply Hz, (env_refused _ _ Henv). }
    rewrite Hb2, Hb1. repeat case_decide; destruct_and?; tauto || lia.
  - by rewrite Hs2.
  - intros Hp. apply Hrec. lia.
  - intros x d Hx. rewrite Hb2, Hb1.
    rewrite !(decide_False (P := x = module_addr ∧ d = P_NativeDenom p)) by naive_solver.
    repeat case_decide; destruct_and?; subst; try lia; naive_solver.
Qed.

(** Recording a list of entitlements. *)
Lemma create_all_spec ents gov (s : Store) :
  ent_wf (Rs_Entitlements s) → Forall (λ e, creatable econ e gov) ents →
  NoDup (key_of <$> ents) →
  (∀ e, e ∈ ents → SlotEntitlements (Rs_Entitlements s) !! key_of e = None) →
  map_sum owed (SlotEntitlements (Rs_Entitlements s)) + sum_of amount_of ents < 2 ^ 256 →
  ∃ books, for_each (λ e, on_entitlements (createSlotEntitlement econ e gov)) ents s =
      (put_Entitlements books s, Ok tt) ∧ ent_wf books ∧
    map_sum owed (SlotEntitlements books) =
      map_sum owed (SlotEntitlements (Rs_Entitlements s)) + sum_of amount_of ents ∧
    (∀ k x, SlotEntitlements books !! k = Some x ↔
       SlotEntitlements (Rs_Entitlements s) !! k = Some x ∨ (x ∈ ents ∧ k = key_of x)).
Proof.
  revert s. induction ents as [|e ents IH]; intros s Hwf Hc Hnd Hnew Hb.
  { exists (Rs_Entitlements s). split_and!; [by destruct s | done | simpl; lia |].
    intros k x. split; [by left|]. intros [?|[Hx _]]; [done|]. by apply not_elem_of_nil in Hx. }
  apply Forall_cons in Hc as [Hc Hcs]. rewrite fmap_cons in Hnd.
  apply NoDup_cons in Hnd as [Hnin Hnd]. simpl in Hb.
  pose proof Hc as (Hv & _).
  destruct (owed_valid e Hv) as (a & r & Ha & _ & _ & Hap & _).
  assert (∀ e', Ent_Validate e' = Ok tt → 0 ≤ amount_of e') as Hnn.
  { intros e' Hv'. destruct (owed_valid e' Hv') as (a' & ? & Ha' & _ & ? & _).
    unfold amount_of. rewrite Ha'. lia. }
  assert (amount_of e = a) as Haa by (unfold amount_of; by rewrite Ha).
  assert (0 ≤ sum_of amount_of ents) as Hsn.
  { apply sum_of_nonneg. eapply Forall_impl; [exact Hcs|]. intros e' (Hv' & _). by apply Hnn. }
  destruct (create_spec econ (Rs_Entitlements s) e gov a Hwf Hc) as (b1 & Hrun & Hwf1 & Hm1 & Hs1);
    [apply Hnew; by left | done | lia |].
  destruct (IH (put_Entitlements b1 s)) as (books & Hrun2 & Hwf2 & Hs2 & Hm2); simpl; try done.
  - intros e' He'. rewrite Hm1, lookup_insert_ne; [apply Hnew; by right|].
    intros Heq. apply Hnin. rewrite Heq. by apply list_elem_of_fmap_2.
  - lia.
  - exists books. split_and!; [|done|simpl in Hs2; lia|].
    + simpl for_each. rewrite (M_bind_run _ _ s (put_Entitlements b1 s) tt).
      * exact Hrun2.
      * unfold on_entitlements. by erewrite zoom_run by exact Hrun.
    + intros k x. rewrite Hm2. simpl. rewrite Hm1, elem_of_cons, lookup_insert_Some.
      split.
      * intros [[[<- <-]|[? ?]]|[? ?]]; [right; by split; [left|] | by left | right; split; [by right|done]].
      * intros [Hx|[[->|Hx] ->]]; [|by left; left|by right].
        left. right. split; [|done]. intros <-.
        rewrite (Hnew e ltac:(by left)) in Hx. done.
Qed.
End stages.

(** The entitlements of an allocation. *)
Section entitlements_of.
Context {SI : SdkInt} {BE : Bech32} {BK : BankKeeper}.
Context (econ : Validator) (module_addr : AccAddress) (Henv : environment econ module_addr).
Context (epoch pool total height : Z) (snapshots : gmap Z SlotRewardSnapshot).
Context (gov : RewardConfigVersion).
Context (Hpool : 0 ≤ pool < 2 ^ 256) (Htotal : 0 < total).
Let ent := entitlement_for epoch pool total snapshots (RCV_Version gov) height.

Lemma entitlement_creatable row e :
  0 < epoch → RCV_EffectiveEpoch gov ≤ epoch → RCV_Version gov ≠ 0 → 0 < height →
  AB_SlotId row ≠ 0 → 0 < AB_BlocksActive row → pool * AB_BlocksActive row < 2 ^ 256 →
  (∀ sn, snapshots !! AB_SlotId row = Some sn →
     ∃ text, Validate econ text = Ok (SRS_PayoutAddress sn)) →
  ent row = Some e → creatable econ e gov ∧ key_of e = (epoch, AB_SlotId row).
Proof using Henv Hpool Htotal.
  intros He Hg Hgv Hh Hid Hb Hov Hsn H.
  destruct (entitlement_for_Some epoch pool total snapshots (RCV_Version gov) height Hpool Htotal
    row e ltac:(lia) Hov H) as (Ha & Hpos & Hs & Hep & sn & Hlk & Hpay).
  destruct (Hsn sn Hlk) as [text Htext].
  unfold ent, entitlement_for in H. rewrite Hlk in H. simpl in H.
  destruct (share pool total row =? 0); [done|]. injection H as <-.
  assert (∀ x, Ent_ReleasedAmount x = "0"%string → Ent_Released x = Ok 0) as Hrel.
  { intros x Hx. unfold Ent_Released. by rewrite Hx, ParseAmountString_zero. }
  split; [|done]. split_and!; simpl; [|by apply Hrel| |done|done].
  - apply Ent_Validate_Ok. simpl. split_and!; try lia; try done.
    eexists _, 0. split_and!; [exact Ha | by apply Hrel | done | lia].
  - unfold validatePayoutDestination. by rewrite (env_text _ _ Henv _ _ Htext).
Qed.

Lemma entitlements_NoDup rows :
  NoDup (AB_SlotId <$> rows) →
  (∀ row e, row ∈ rows → ent row = Some e → key_of e = (epoch, AB_SlotId row)) →
  NoDup (key_of <$> omap ent rows).
Proof.
  induction rows as [|row rows IH]; intros Hnd Hk; [constructor|].
  rewrite fmap_cons in Hnd. apply NoDup_cons in Hnd as [Hnin Hnd].
  assert (NoDup (key_of <$> omap ent rows)) as IH'
    by (apply IH; [done | intros row' e' ?; apply Hk; by right]).
  cbn [omap list_omap]. destruct (ent row) as [e|] eqn:E; [|done].
  rewrite fmap_cons. apply NoDup_cons. split; [|done].
  rewrite (Hk row e ltac:(by left) E). intros Hin.
  apply list_elem_of_fmap in Hin as (e' & Hke & Hin).
  apply list_elem_of_omap in Hin as (row' & Hrow' & He').
  rewrite (Hk row' e' ltac:(by right) He') in Hke. injection Hke as Hid.
  apply Hnin. rewrite Hid. by apply list_elem_of_fmap_2.
Qed.
End entitlements_of.

(** The whole distribution. *)
Section distribution.
Context {SI : SdkInt} {BE : Bech32} {BK : BankKeeper} {CK : CoreSlotKeeper}.
Context (econ : Validator) (module_addr : AccAddress) (Henv : environment econ module_addr).

Lemma distributeEpoch_spec (height : Z) (s : Store) st rows snapshots gov pool :
  0 < height ≤ MaxInt64 → ent_wf (Rs_Entitlements s) → 0 < CurrentEpoch st →
  RCV_EffectiveEpoch gov ≤ CurrentEpoch st → RCV_Version gov ≠ 0 →
  0 ≤ pool < 2 ^ 140 → rows_ok rows → weight_of rows < 2 ^ 100 →
  Z.of_nat (length rows) ≤ MaxUint64 → NoDup (AB_SlotId <$> rows) →
  (∀ r, r ∈ rows → AB_SlotId r ≠ 0) →
  (∀ r, r ∈ rows → 0 < AB_BlocksActive r → ∃ sn, snapshots !! AB_SlotId r = Some sn ∧
     ∃ text, Validate econ text = Ok (SRS_PayoutAddress sn)) →
  (∀ slot, SlotEntitlements (Rs_Entitlements s) !! (CurrentEpoch st, slot) = None) →
  map_sum owed (SlotEntitlements (Rs_Entitlements s)) + pool < 2 ^ 256 →
  ∃ books allocated carry,
    distributeEpoch econ height st rows snapshots gov pool s =
      (put_Entitlements books s, Ok (allocated, carry)) ∧
    allocated + carry = pool ∧ 0 ≤ allocated ∧ 0 ≤ carry ∧ ent_wf books ∧
    map_sum owed (SlotEntitlements books) =
      map_sum owed (SlotEntitlements (Rs_Entitlements s)) + allocated ∧
    (∀ k x, SlotEntitlements (Rs_Entitlements s) !! k = Some x →
       SlotEntitlements books !! k = Some x) ∧
    (∀ k x, SlotEntitlements books !! k = Some x →
       SlotEntitlements (Rs_Entitlements s) !! k = Some x ∨
       fst k = CurrentEpoch st ∧ unpaid econ x ∧ RCV_Version gov = Ent_RewardConfigVersion x ∧
         snd k ∈ AB_SlotId <$> rows).
Proof using Henv.
  intros Hh Hwf He Hge Hgv Hp Hr Hw Hl Hnd Hid Hsn Hnew Hb.
  destruct (weight_of_positive rows Hr) as [Hwp Hw0].
  assert (pool * weight_of rows < 2 ^ 256) as Hov by nia.
  assert (∀ r, r ∈ rows → 0 < AB_BlocksActive r → is_Some (snapshots !! AB_SlotId r)) as Hsome
    by (intros r H1 H2; destruct (Hsn r H1 H2) as (sn & -> & _); eauto).
  pose proof (AllocateSlotEntitlements_spec (CurrentEpoch st) pool snapshots (RCV_Version gov)
    height rows ltac:(lia) Hr Hov ltac:(lia) Hl Hsome) as Halloc.
  set (total := weight_of rows) in *.
  set (ents := if total =? 0 then [] else
    omap (entitlement_for (CurrentEpoch st) pool total snapshots (RCV_Version gov) height)
      (positive (merge_sort row_le rows))).
  set (allocated := if total =? 0 then 0 else sum_of (share pool total) (positive rows)).
  set (nPos := if total =? 0 then 0 else Z.of_nat (length (positive rows))).
  assert (AllocateSlotEntitlements (CurrentEpoch st) (Some pool) rows snapshots
    (RCV_Version gov) height = Ok (ents, allocated, pool - allocated, nPos)) as Hrun.
  { rewrite Halloc. unfold ents, allocated, nPos. destruct (total =? 0); [|done].
    by rewrite Z.sub_0_r. }
  pose proof (positive_sort rows) as Hps.
  assert (0 ≤ allocated ≤ pool ∧ (nPos ≠ 0 → pool - allocated ≤ nPos - 1) ∧
    0 ≤ nPos ≤ MaxUint64) as (Hal & Hc & Hn).
  { unfold allocated, nPos. destruct (Z.eqb_spec total 0); [widths; lia|].
    destruct (carry_bounds pool rows) as [Hcb1 Hcb2]; [lia | done | fold total; lia |].
    fold total in Hcb1, Hcb2.
    assert (length (positive rows) ≤ length rows)%nat by apply length_filter. lia. }
  assert (∀ row, row ∈ positive (merge_sort row_le rows) →
    row ∈ rows ∧ 0 < AB_BlocksActive row ∧ pool * AB_BlocksActive row < 2 ^ 256) as Hrows.
  { intros row Hin. rewrite Hps in Hin. apply positive_elem in Hin as [Hin Hpos].
    split_and!; [done..|]. pose proof (row_overflow pool rows ltac:(lia) Hr Hov) as Hf.
    rewrite Forall_forall in Hf. by apply Hf. }
  assert (∀ row e, total ≠ 0 → row ∈ positive (merge_sort row_le rows) →
    entitlement_for (CurrentEpoch st) pool total snapshots (RCV_Version gov) height row = Some e →
    creatable econ e gov ∧ key_of e = (CurrentEpoch st, AB_SlotId row)) as Hent.
  { intros row e Ht Hin HE. destruct (Hrows row Hin) as (Hr1 & Hr2 & Hr3).
    destruct (Hsn row Hr1 Hr2) as (sn & Hlk & Htext).
    apply (entitlement_creatable econ module_addr Henv (CurrentEpoch st) pool total height
      snapshots gov ltac:(lia) ltac:(lia) row e); try done; try lia.
    - by apply Hid.
    - intros sn' Hsn'. rewrite Hlk in Hsn'. by injection Hsn' as <-. }
  assert (sum_of amount_of ents = allocated) as Hamt.
  { unfold ents, allocated. destruct (Z.eqb_spec total 0) as [|Hne]; [done|].
    rewrite (entitlements_sum (CurrentEpoch st) pool total snapshots (RCV_Version gov) height
      ltac:(lia) ltac:(lia)); [by apply sum_of_Permutation | | |].
    - unfold rows_ok. rewrite Hps. by apply rows_ok_positive.
    - apply Forall_forall. intros row Hin. by apply Hrows.
    - intros row Hin. destruct (Hrows row Hin) as (? & ? & _). by apply Hsome. }
  assert (∀ e, e ∈ ents → creatable econ e gov ∧ fst (key_of e) = CurrentEpoch st ∧
    snd (key_of e) ∈ AB_SlotId <$> rows) as Hall.
  { intros e Hin. unfold ents in Hin.
    destruct (Z.eqb_spec total 0); [by apply not_elem_of_nil in Hin|].
    apply list_elem_of_omap in Hin as (row & Hrow & HE).
    destruct (Hent row e) as [? ->]; [done..|]. destruct (Hrows row Hrow) as [Hin _].
    split_and!; [done..|]. simpl. by apply list_elem_of_fmap_2. }
  destruct (create_all_spec econ ents gov s) as (books & Hcreate & Hwf' & Hsum & Hm); try done.
  - apply Forall_forall. intros e Hin. by apply Hall.
  - unfold ents. destruct (Z.eqb_spec total 0); [constructor|].
    apply (entitlements_NoDup (CurrentEpoch st)).
    + rewrite Hps. unfold positive. eapply sublist_NoDup; [exact Hnd|].
      apply fmap_sublist, sublist_filter.
    + intros row e Hin HE. by apply Hent.
  - intros e Hin. destruct (Hall e Hin) as [_ [Hk _]]. destruct (key_of e) as [ep slot].
    simpl in Hk. by rewrite Hk.
  - lia.
  - exists books, allocated, (pool - allocated). split_and!; try done; try lia.
    + unfold distributeEpoch.
      rewrite (M_bind_run _ _ s s height).
      2:{ unfold lift. rewrite (proj2 (Uint64FromInt64_Ok height height ltac:(unfold is_i64; widths; lia))); [done|lia]. }
      rewrite (M_bind_run _ _ s s (ents, allocated, pool - allocated, nPos)).
      2:{ unfold lift. by rewrite Hrun. }
      cbv beta iota. rewrite (M_bind_run _ _ s s tt).
      2:{ unfold lift. by rewrite assertAllocationConservation_Ok by lia. }
      by rewrite (M_bind_run _ _ _ _ _ Hcreate).
    + intros k x Hk. apply Hm. by left.
    + intros k x Hk. apply Hm in Hk as [?|[Hin ->]]; [by left | right].
      destruct (Hall x Hin) as ((_ & Hrel & Hdest & _ & Hver) & Hep & Hslot). by split_and!.
Qed.
End distribution.

(** The participation rows of the open epoch. *)
Section participation.
Context {SI : SdkInt} {BE : Bech32} {BK : BankKeeper} {CK : CoreSlotKeeper}.
Context (econ : Validator) (cs : CoreSlotStore).

(** Distinct ids between 1 and [n] are at most [n]. *)
Lemma distinct_ids_bound (l : list Z) n :
  0 ≤ n → NoDup l → Forall (λ x, 0 < x ≤ n) l → Z.of_nat (length l) ≤ n.
Proof.
  intros Hn Hnd Hall. assert (length l ≤ length (seqZ 1 n))%nat as H.
  { apply submseteq_length, NoDup_submseteq; [done|]. intros x Hx.
    rewrite Forall_forall in Hall. specialize (Hall x Hx). apply elem_of_seqZ. lia. }
  rewrite length_seqZ in H. lia.
Qed.

Lemma elem_of_rows (s : Store) e row :
  row ∈ IterateActiveBlocksForEpoch s e ↔
  Rs_ActiveBlocks s !! (e, AB_SlotId row) = Some (AB_BlocksActive row).
Proof.
  unfold IterateActiveBlocksForEpoch. rewrite list_elem_of_fmap. split.
  - intros ([[e' id] b] & -> & Hin). apply elem_of_prefix_entries in Hin as [Hk He].
    simpl in *. by subst.
  - intros Hk. exists ((e, AB_SlotId row), AB_BlocksActive row). split; [by destruct row|].
    by apply elem_of_prefix_entries.
Qed.

Lemma rows_NoDup (s : Store) e : NoDup (AB_SlotId <$> IterateActiveBlocksForEpoch s e).
Proof.
  unfold IterateActiveBlocksForEpoch. rewrite <- list_fmap_compose.
  rewrite (list_fmap_ext _ (snd ∘ fst)); [|done]. rewrite list_fmap_compose.
  apply NoDup_fmap_2_strong; [|apply prefix_entries_keys_NoDup].
  intros [e1 i1] [e2 i2] H1 H2 Heq.
  apply list_elem_of_fmap in H1 as ([k1 b1] & Hk1 & H1), H2 as ([k2 b2] & Hk2 & H2).
  apply elem_of_prefix_entries in H1 as [_ H1], H2 as [_ H2]. by simplify_eq/=.
Qed.

(** Bounds on the rows of an epoch with [enabled] reward-enabled blocks. *)
Lemma rows_bounds (s : Store) e enabled :
  0 ≤ enabled ≤ 720 →
  (∀ id b, Rs_ActiveBlocks s !! (e, id) = Some b → 0 < id ≤ MaxUint64 ∧ 0 ≤ b ≤ enabled) →
  let rows := IterateActiveBlocksForEpoch s e in
  rows_ok rows ∧ Z.of_nat (length rows) ≤ MaxUint64 ∧ weight_of rows < 2 ^ 100 ∧
  (∀ r, r ∈ rows → 0 < AB_SlotId r ≤ MaxUint64 ∧ 0 ≤ AB_BlocksActive r ≤ enabled).
Proof.
  intros He Hall rows. assert (∀ r, r ∈ rows → 0 < AB_SlotId r ≤ MaxUint64 ∧
    0 ≤ AB_BlocksActive r ≤ enabled) as Hr by (intros r Hr%elem_of_rows; by apply Hall).
  assert (Z.of_nat (length rows) ≤ MaxUint64) as Hlen.
  { rewrite <- (length_fmap AB_SlotId). apply distinct_ids_bound; [widths; lia | apply rows_NoDup |].
    apply Forall_fmap, Forall_forall. intros r Hin. by apply Hr. }
  split_and!; [|done| |].
  - apply Forall_forall. intros r Hin. specialize (Hr r Hin). widths. lia.
  - assert (∀ l : list SlotActiveBlocks, (∀ r, r ∈ l → 0 ≤ AB_BlocksActive r ≤ enabled) →
      weight_of l ≤ 720 * Z.of_nat (length l)) as Hw.
    { induction l as [|r l IH]; intros Hl; [done|]. unfold weight_of in *. simpl.
      specialize (IH ltac:(intros; apply Hl; by right)).
      pose proof (Hl r ltac:(by left)). lia. }
    specialize (Hw rows ltac:(intros r Hin; by apply Hr)). widths. lia.
  - intros r Hin. specialize (Hr r Hin). lia.
Qed.

Lemma validateEpochParticipation_Ok g e enabled rows :
  history_wf (EpochConfigVersions g) → 1 ≤ e →
  enabled ≤ length_of (EpochConfigVersions g) e →
  (∀ r, r ∈ rows → 0 < AB_SlotId r ∧ 0 ≤ AB_BlocksActive r ≤ enabled) →
  validateEpochParticipation g e enabled rows = Ok tt.
Proof.
  intros Hwf He Hen Hall. unfold validateEpochParticipation.
  destruct (EpochLengthForEpoch_spec g Hwf e He) as [-> _]. cbn [mbind res_bind].
  rewrite Z.gtb_ltb. destruct (Z.ltb_spec (length_of (EpochConfigVersions g) e) enabled); [lia|].
  cbn [fail_if mret res_ret mbind res_bind]. clear Hen.
  induction rows as [|r rows IH]; [done|]. simpl.
  destruct (Hall r ltac:(by left)) as [Hid Hb]. rewrite Z.gtb_ltb.
  destruct (Z.eqb_spec (AB_SlotId r) 0); [lia|].
  destruct (Z.ltb_spec enabled (AB_BlocksActive r)); [lia|]. simpl.
  apply IH. intros r' Hr'. apply Hall. by right.
Qed.

(** The snapshots collected: one for every row with participation. *)
Lemma collectSnapshots_Ok rows :
  (∀ r, r ∈ rows → AB_BlocksActive r ≠ 0 →
     ∃ sn, GetSlotRewardSnapshot econ cs (AB_SlotId r) = Ok sn) →
  ∃ snapshots, collectSnapshots econ cs rows = Ok snapshots ∧
    ∀ r, r ∈ rows → AB_BlocksActive r ≠ 0 →
      ∃ sn, GetSlotRewardSnapshot econ cs (AB_SlotId r) = Ok sn ∧
        snapshots !! AB_SlotId r = Some sn.
Proof.
  intros Hall. unfold collectSnapshots.
  enough (∀ acc : gmap Z SlotRewardSnapshot,
    (∀ id sn, acc !! id = Some sn → GetSlotRewardSnapshot econ cs id = Ok sn) →
    ∃ m, fold_m (λ snapshots row,
      if AB_BlocksActive row =? 0 then mret snapshots
      else
        snapshot ← GetSlotRewardSnapshot econ cs (AB_SlotId row);
        mret (<[AB_SlotId row := snapshot]> snapshots)) rows acc = Ok m ∧
      (∀ id sn, m !! id = Some sn → GetSlotRewardSnapshot econ cs id = Ok sn) ∧
      (∀ id, is_Some (acc !! id) → is_Some (m !! id)) ∧
      (∀ r, r ∈ rows → AB_BlocksActive r ≠ 0 → is_Some (m !! AB_SlotId r))) as H.
  { destruct (H ∅) as (m & Hm & Hans & _ & Hin).
    { intros id sn Hn. by rewrite lookup_empty in Hn. }
    exists m. split; [done|]. intros r Hr Hb. destruct (Hin r Hr Hb) as [sn Hsn].
    exists sn. split; [by apply Hans | done]. }
  induction rows as [|r rows IH]; intros acc Hacc; simpl.
  { exists acc. split_and!; try done. by intros r Hr%not_elem_of_nil. }
  destruct (Z.eqb_spec (AB_BlocksActive r) 0) as [Hz|Hz].
  - cbn [mret res_ret mbind res_bind].
    destruct (IH ltac:(intros r' Hr'; apply Hall; by right) acc Hacc) as (m & Hm & H1 & H2 & H3).
    exists m. split_and!; [done..|]. intros r' [->|Hr']%elem_of_cons Hb; [done | by apply H3].
  - destruct (Hall r ltac:(by left) Hz) as [sn Hsn]. rewrite Hsn.
    cbn [mret res_ret mbind res_bind].
    destruct (IH ltac:(intros r' Hr'; apply Hall; by right) (<[AB_SlotId r := sn]> acc))
      as (m & Hm & H1 & H2 & H3).
    { intros id sn' [[<- <-]|[_ Hn]]%lookup_insert_Some; [done | by apply Hacc]. }
    exists m. split_and!; [done..| |].
    + intros id [x Hx]. apply H2. destruct (decide (id = AB_SlotId r)) as [->|Hne];
        [rewrite lookup_insert_eq | rewrite lookup_insert_ne by done]; eauto.
    + intros r' [->|Hr']%elem_of_cons Hb; [|by apply H3].
      apply H2. rewrite lookup_insert_eq. eauto.
Qed.

Lemma snapshot_payout id sn :
  GetSlotRewardSnapshot econ cs id = Ok sn →
  ∃ text, Validate econ text = Ok (SRS_PayoutAddress sn).
Proof.
  unfold GetSlotRewardSnapshot, slotRewardSnapshot. intros H. minv. simpl. eauto.
Qed.

(** Clearing the rows of an epoch. *)
Lemma DeleteActiveBlocks_spec e (s : Store) :
  ∃ m, DeleteActiveBlocksForEpoch e s = (put_ActiveBlocks m s, Ok tt) ∧
    ∀ k, m !! k = if decide (fst k = e) then None else Rs_ActiveBlocks s !! k.
Proof.
  unfold DeleteActiveBlocksForEpoch. rewrite (M_bind_run _ _ s s (fst <$> prefix_entries e (Rs_ActiveBlocks s))) by done.
  assert (∀ (l : list (Z * Z)) (s : Store), ∃ m,
    for_each (λ key, modify (λ s, put_ActiveBlocks (delete key (Rs_ActiveBlocks s)) s)) l s =
      (put_ActiveBlocks m s, Ok tt) ∧
    ∀ k, m !! k = if decide (k ∈ l) then None else Rs_ActiveBlocks s !! k) as Hdel.
  { induction l as [|k0 l IH]; intros t.
    - exists (Rs_ActiveBlocks t). split; [by destruct t|]. intros k. rewrite decide_False; [done|].
      by intros ?%not_elem_of_nil.
    - destruct (IH (put_ActiveBlocks (delete k0 (Rs_ActiveBlocks t)) t)) as (m & Hm & Hk).
      exists m. split; [exact Hm|]. intros k. rewrite Hk. simpl.
      destruct (decide (k = k0)) as [->|Hne].
      + rewrite (decide_True (P := k0 ∈ k0 :: l)) by (by left). case_decide; [done|].
        apply lookup_delete_eq.
      + rewrite lookup_delete_ne by done. do 2 case_decide; try done; set_solver. }
  destruct (Hdel (fst <$> prefix_entries e (Rs_ActiveBlocks s)) s) as (m & Hm & Hk).
  exists m. split; [exact Hm|]. intros k. rewrite Hk. repeat case_decide; try done.
  - match goal with H : k ∈ _ |- _ => apply list_elem_of_fmap in H as ([k' x] & -> & Hin) end.
    by apply elem_of_prefix_entries in Hin as [_ ?].
  - destruct (Rs_ActiveBlocks s !! k) as [b|] eqn:E; [|done].
    match goal with H : k ∉ _ |- _ => destruct H end. apply list_elem_of_fmap.
    exists (k, b). split; [done|]. by apply elem_of_prefix_entries.
Qed.
End participation.

(** Closing the books of the epoch. *)
Section closing.
Context {SI : SdkInt} {BE : Bech32} {BK : BankKeeper} {CK : CoreSlotKeeper}.
Context (econ : Validator) (module_addr : AccAddress) (Henv : environment econ module_addr).

Lemma activatePending_spec (s : Store) p :
  Rs_Params s = Some p → params_ok econ p →
  (∀ q, Rs_PendingParams s = Some q → params_ok econ q ∧ P_MaxSupply q = P_MaxSupply p) →
  ∃ p', activatePending econ p s = (put_PendingParams None (put_Params (Some p') s), Ok p') ∧
    params_ok econ p' ∧ P_MaxSupply p' = P_MaxSupply p.
Proof.
  intros Hp Hok Hq. unfold activatePending, GetPendingParams.
  rewrite (M_bind_run _ _ s s (Rs_PendingParams s)) by done.
  destruct (Rs_PendingParams s) as [q|] eqn:E.
  - destruct (Hq q eq_refl) as [[Hq1 Hq2] Hmax]. exists (with_flags_of p q).
    split_and!; [|by split|done].
    erewrite M_bind_run; [|unfold SetParams].
    2:{ rewrite (M_bind_run _ _ s s tt).
        2:{ unfold lift. f_equal. exact Hq1. }
        rewrite (M_bind_run _ _ s s tt); [reflexivity|]. unfold lift. f_equal. exact Hq2. }
    by erewrite M_bind_run.
  - exists p. split_and!; [|apply Hok|done]. destruct s; simpl in *. by subst.
Qed.

(** The configuration snapshot of the next epoch. *)
Lemma nextConfig_spec (s : Store) p st :
  params_ok econ p → Rs_State s = Some st → history_wf (EpochConfigVersions (Rs_Geometry s)) →
  1 ≤ CurrentEpoch st →
  ∃ cfg, buildEpochConfigSnapshot p s = Ok cfg ∧ Snapshot_Validate cfg = Ok tt ∧
    validateSnapshotTreasury econ cfg = Ok tt ∧
    Snap_EpochLengthBlocks cfg = length_of (EpochConfigVersions (Rs_Geometry s)) (CurrentEpoch st).
Proof.
  intros [Hp Ht] Hst Hwf He.
  destruct (EpochLengthForEpoch_spec (Rs_Geometry s) Hwf _ He) as [Hlen Hb].
  set (len := length_of _ _) in *.
  assert (Snapshot_Validate (DefaultEpochConfigSnapshot p) = Ok tt) as Hdef.
  { apply (snapshot_of_params_valid p (P_EpochLengthBlocks p)); [done|].
    by apply Params_Validate_facts. }
  assert (Snapshot_Validate (with_epoch_length len (DefaultEpochConfigSnapshot p)) = Ok tt) as Hval
    by (apply snapshot_of_params_valid; [done | lia]).
  exists (with_epoch_length len (DefaultEpochConfigSnapshot p)). split_and!; [|done|exact Ht|done].
  unfold buildEpochConfigSnapshot, BuildEpochConfigSnapshot, GetState, coll_get.
  rewrite Hp. cbn [mbind res_bind]. rewrite Hdef. cbn [mbind res_bind mret res_ret].
  rewrite Hst. cbn [mbind res_bind mret res_ret]. rewrite Hlen.
  cbn [mbind res_bind mret res_ret]. by rewrite Hval.
Qed.

Lemma SetState_run (s : Store) st p max cum carry :
  CurrentEpoch st ≠ 0 → CurrentEpochStartHeight st ≠ 0 →
  ParseAmountString (CumulativeEmitted st) = Ok cum →
  ParseAmountString (CarryForwardRemainder st) = Ok carry →
  Rs_Params s = Some p → ParseAmountString (P_MaxSupply p) = Ok max → cum ≤ max →
  SetState st s = (put_State (Some st) s, Ok tt).
Proof.
  intros H1 H2 Hcum Hcarry Hp Hmax Hle. unfold SetState.
  destruct (Z.eqb_spec (CurrentEpoch st) 0), (Z.eqb_spec (CurrentEpochStartHeight st) 0); try done.
  rewrite (M_bind_run _ _ s s tt) by done.
  rewrite (M_bind_run _ _ s s cum) by (unfold lift; by rewrite Hcum).
  rewrite (M_bind_run _ _ s s carry) by (unfold lift; by rewrite Hcarry).
  rewrite (M_bind_run _ _ s s p) by (unfold reads, GetParams; by rewrite Hp).
  rewrite (M_bind_run _ _ s s max).
  2:{ unfold lift. by rewrite (ParseAmountString_NewInt _ _ Hmax). }
  rewrite Z.gtb_ltb. by destruct (Z.ltb_spec max cum); [lia|].
Qed.

Lemma assertEscrowSolvency_Ok (s : Store) carry :
  ent_wf (Rs_Entitlements s) → 0 ≤ carry →
  GetBalance (Rs_Bank s) module_addr NativeBaseDenom =
    map_sum owed (SlotEntitlements (Rs_Entitlements s)) + carry →
  map_sum owed (SlotEntitlements (Rs_Entitlements s)) + carry < 2 ^ 256 →
  assertEscrowSolvency NativeBaseDenom carry s = Ok tt.
Proof using Henv.
  intros Hwf Hc Hb Hlt. pose proof (liability_bounds _ Hwf) as [Hl _].
  unfold assertEscrowSolvency. rewrite (env_module _ _ Henv), (ent_liability _ Hwf).
  cbn [mbind res_bind]. set (owes := map_sum owed _) in *.
  assert (or_err RwInvalidState (Int_SafeAdd owes carry) = Ok (owes + carry)) as ->
    by (apply SafeAdd_Ok; split; [done | int_solve]).
  cbn [mbind res_bind]. by rewrite Hb, Z.eqb_refl.
Qed.

Lemma SetFinalizedEpoch_run (s : Store) r :
  EpochNumber r ≠ 0 → Rs_FinalizedEpochs s !! EpochNumber r = None → Rewards r = [] →
  (∀ cfg, Config r = Some cfg → validateSnapshotTreasury econ cfg = Ok tt) →
  SetFinalizedEpoch econ r s =
    (put_FinalizedEpochs (<[EpochNumber r := r]> (Rs_FinalizedEpochs s)) s, Ok tt).
Proof.
  intros H0 Hnone Hrw Hcfg. unfold SetFinalizedEpoch.
  destruct (Z.eqb_spec (EpochNumber r) 0); [done|]. rewrite (M_bind_run _ _ s s tt) by done.
  rewrite (M_bind_run _ _ s s false).
  2:{ unfold gets. rewrite bool_decide_eq_false_2; [done|]. rewrite Hnone. by intros [? ?]. }
  rewrite (M_bind_run _ _ s s tt) by done.
  rewrite (M_bind_run _ _ s s tt); [done|]. unfold lift, validateFinalizedEpochAddresses.
  rewrite Hrw. destruct (Config r) as [cfg|]; [|done]. by rewrite (Hcfg cfg).
Qed.
(** The accounting state after the close. *)
Definition next_state (st : RewardsState) (cum carry : Z) : RewardsState := {|
  CurrentEpoch := CurrentEpoch st;
  CurrentEpochStartHeight := CurrentEpochStartHeight st;
  CumulativeEmitted := Int_String cum;
  CarryForwardRemainder := Int_String carry |}.

Lemma closeEpoch_spec (s : Store) p st cfg max fin enabled e c' t cin pool alloc cout :
  Rs_Params s = Some p → params_ok econ p →
  (∀ q, Rs_PendingParams s = Some q → params_ok econ q ∧ P_MaxSupply q = P_MaxSupply p) →
  ParseAmountString (P_MaxSupply p) = Ok max → 0 ≤ c' ≤ max → max < 2 ^ 128 →
  Rs_State s = Some st → 1 ≤ CurrentEpoch st → CurrentEpochStartHeight st ≠ 0 →
  history_wf (EpochConfigVersions (Rs_Geometry s)) →
  Rs_FinalizedEpochs s !! CurrentEpoch st = None →
  validateSnapshotTreasury econ cfg = Ok tt →
  ent_wf (Rs_Entitlements s) → 0 ≤ cout →
  GetBalance (Rs_Bank s) module_addr NativeBaseDenom =
    map_sum owed (SlotEntitlements (Rs_Entitlements s)) + cout →
  map_sum owed (SlotEntitlements (Rs_Entitlements s)) + cout < 2 ^ 256 →
  ∃ m p' cfg' r,
    closeEpoch econ p st cfg fin enabled e c' t cin pool alloc cout s =
      (put_State (Some (next_state st c' cout))
         (put_CurrentEpochConfig (Some cfg')
           (put_PendingParams None (put_Params (Some p')
             (put_ActiveBlocks m
               (put_FinalizedEpochs (<[CurrentEpoch st := r]> (Rs_FinalizedEpochs s)) s))))),
       Ok tt) ∧
    (∀ k, m !! k = if decide (fst k = CurrentEpoch st) then None else Rs_ActiveBlocks s !! k) ∧
    params_ok econ p' ∧ P_MaxSupply p' = P_MaxSupply p ∧
    Snapshot_Validate cfg' = Ok tt ∧ validateSnapshotTreasury econ cfg' = Ok tt ∧
    EpochNumber r = CurrentEpoch st ∧ Rewards r = [] ∧ MintedEmission r = Int_String e ∧
    AllocatedAmount r = Int_String alloc ∧ CarryOut r = Int_String cout ∧
    TreasuryAmount r = Int_String t ∧ EndHeight r = fin.
Proof using Henv.
  intros Hp Hok Hq Hmax Hc Hmb Hst He Hs0 Hwf Hnone Hcfg Hbooks Hco Hbal Hov.
  destruct (Params_Validate_facts p (proj1 Hok)) as (Hden & _).
  pose proof (liability_bounds _ Hbooks) as [Hl _].
  set (r := {| EpochNumber := CurrentEpoch st; StartHeight := CurrentEpochStartHeight st;
    EndHeight := fin; MintedEmission := Int_String e; CarryIn := Int_String cin;
    DistributableFees := "0"%string; TreasuryAmount := Int_String t;
    RewardPool := Int_String pool; AllocatedAmount := Int_String alloc;
    CarryOut := Int_String cout; ER_DistributionMethod := Snap_DistributionMethod cfg;
    ER_RemainderPolicy := Snap_RemainderPolicy cfg; Rewards := [];
    CumulativeEmittedAfterEpoch := Int_String c'; Config := Some cfg;
    RewardEnabledBlocks := enabled |}).
  set (s1 := put_FinalizedEpochs (<[CurrentEpoch st := r]> (Rs_FinalizedEpochs s)) s).
  destruct (DeleteActiveBlocks_spec (CurrentEpoch st) s1) as (m & Hdel & Hm).
  set (s2 := put_ActiveBlocks m s1) in *.
  destruct (activatePending_spec s2 p Hp Hok Hq) as (p' & Hact & Hok' & Hmax').
  set (s3 := put_PendingParams None (put_Params (Some p') s2)) in *.
  destruct (nextConfig_spec s3 p' st Hok' Hst Hwf He) as (cfg' & Hnext & Hcv & Hct & _).
  set (s4 := put_CurrentEpochConfig (Some cfg') s3).
  assert (ParseAmountString (Int_String c') = Ok c') as Hpc
    by (apply ParseAmountString_String; [lia | int_solve]).
  assert (ParseAmountString (Int_String cout) = Ok cout) as Hpo
    by (apply ParseAmountString_String; [lia | int_solve]).
  exists m, p', cfg', r. split_and!; try done; try apply Hok'.
  unfold closeEpoch. fold r.
  rewrite (M_bind_run _ _ s s1 tt).
  2:{ apply SetFinalizedEpoch_run; simpl; [lia | done | done |]. by intros ? [= <-]. }
  rewrite (M_bind_run _ _ s1 s2 tt) by exact Hdel.
  rewrite (M_bind_run _ _ s2 s3 p') by exact Hact.
  rewrite (M_bind_run _ _ s3 s3 cfg') by (unfold reads; by rewrite Hnext).
  rewrite (M_bind_run _ _ s3 s4 tt).
  2:{ unfold SetCurrentEpochConfig.
      rewrite (M_bind_run _ _ s3 s3 tt) by (unfold lift; by rewrite Hcv).
      by rewrite (M_bind_run _ _ s3 s3 tt) by (unfold lift; by rewrite Hct). }
  fold (next_state st c' cout). rewrite (M_bind_run _ _ s4 (put_State (Some (next_state st c' cout)) s4) tt).
  2:{ apply (SetState_run s4 (next_state st c' cout) p' max c' cout); try done; simpl; try lia.
      by rewrite Hmax'. }
  unfold reads. f_equal. rewrite Hden. by apply assertEscrowSolvency_Ok.
Qed.
End closing.

(** ** The whole transition *)
Section transition.
Context {SI : SdkInt} {BE : Bech32} {BK : BankKeeper} {CK : CoreSlotKeeper}.
Context (econ : Validator) (module_addr : AccAddress) (Henv : environment econ module_addr).
Context (cs : CoreSlotStore) (height : Z) (Hheight : 0 < height ≤ MaxInt64).

(** Every row with participation has a CoreSlot the module can pay. *)
Definition payable_rows (s : Store) : Prop :=
  ∀ e slot b, Rs_ActiveBlocks s !! (e, slot) = Some b → b ≠ 0 →
    ∃ sn, GetSlotRewardSnapshot econ cs slot = Ok sn.

(** The governing configuration of the open epoch. *)
Lemma governing_config base closed s v :
  ledger_inv econ module_addr base closed s v →
  ∃ gov init, RewardConfigForTarget econ (Rs_RewardConfig s) (CurrentEpoch (V_state v)) = Ok gov ∧
    ParseCanonicalAmount (RCV_InitialBlockSubsidy gov) = Ok init ∧ 0 < init ∧
    version_ok econ (RCV_EffectiveEpoch gov) gov ∧
    RCV_EffectiveEpoch gov ≤ CurrentEpoch (V_state v) ∧ RCV_Version gov ≠ 0 ∧
    0 ≤ RCV_EmissionTreasuryShareBps gov ≤ 5000.
Proof.
  intros Hi. pose proof (i_epoch _ _ _ _ _ _ Hi) as He.
  pose proof (i_reward _ _ _ _ _ _ Hi) as Hwf.
  destruct (RewardConfigForTarget_spec econ _ Hwf (CurrentEpoch (V_state v))) as (gov & Hg & Hrun);
    [lia|]. unfold governing in Hg.
  destruct (reward_seek econ _ Hwf (Z.max 1 (CurrentEpoch (V_state v) - 2)))
    as (k & x & Hs & Hk & Hle); [lia|].
  rewrite Hs in Hg. simpl in Hg. injection Hg as ->.
  pose proof (rw_ok econ _ Hwf k gov Hk) as Hv.
  destruct (version_facts econ k gov Hv) as (Hek & _ & Hgv & _ & (init & Hin & Hin0) & Hsh).
  pose proof (i_reward_shares _ _ _ _ _ _ Hi k gov Hk) as Hs0.
  unfold HardMaxEmissionTreasuryShareBps in Hsh. exists gov, init. rewrite Hek.
  split_and!; done || lia.
Qed.

(** The reads that open the transition. *)
Lemma finalize_reads base s v :
  ledger_inv econ module_addr base (CurrentEpoch (V_state v) - 1) s v → payable_rows s →
  let st := V_state v in
  let rows := IterateActiveBlocksForEpoch s (CurrentEpoch st) in
  ∃ cfg snapshots gov fin,
    Rs_CurrentEpochConfig s = Some cfg ∧ validateSnapshotTreasury econ cfg = Ok tt ∧
    RewardConfigForTarget econ (Rs_RewardConfig s) (CurrentEpoch st) = Ok gov ∧
    (∀ r, r ∈ rows → 0 < AB_BlocksActive r → ∃ sn, snapshots !! AB_SlotId r = Some sn ∧
       ∃ text, Validate econ text = Ok (SRS_PayoutAddress sn)) ∧
    EpochEndHeight (Rs_Geometry s) (CurrentEpoch st) = Ok fin ∧
    finalizeEpoch econ cs height s =
      (('(emission, cumulativeAfter, treasuryAmount, carryIn, pool) ←
          mintEpoch econ (V_params v) st (V_enabled v) gov;
        '(allocated, carryOut) ← distributeEpoch econ height st rows snapshots gov pool;
        closeEpoch econ (V_params v) st cfg fin (V_enabled v) emission cumulativeAfter
          treasuryAmount carryIn pool allocated carryOut) : M Store unit) s.
Proof using Henv.
  intros Hi Hpay st rows.
  pose proof (i_epoch _ _ _ _ _ _ Hi) as He. fold st in He.
  pose proof (i_geometry _ _ _ _ _ _ Hi) as Hwf.
  destruct (i_cfg _ _ _ _ _ _ Hi) as (cfg & Hcfg & Hcv & Hct).
  destruct (Snapshot_Validate_facts cfg Hcv) as (Hw & Hd & Hf1 & Hf2 & Hf3).
  destruct (governing_config _ _ _ _ Hi) as (gov & init & Hgov & _). fold st in Hgov.
  destruct (EpochLengthForEpoch_spec (Rs_Geometry s) Hwf (CurrentEpoch st)) as [_ Hlb]; [lia|].
  pose proof (i_enabled_bound _ _ _ _ _ _ Hi) as Heb. fold st in Heb.
  destruct (rows_bounds s (CurrentEpoch st) (V_enabled v)) as (_ & _ & _ & Hr); [lia| |].
  { intros id b Hb. apply (i_rows _ _ _ _ _ _ Hi) in Hb. lia. }
  fold rows in Hr.
  destruct (collectSnapshots_Ok econ cs rows) as (snapshots & Hsnap & Hsn).
  { intros r Hin Hb. apply elem_of_rows in Hin. by apply (Hpay _ _ _ Hin). }
  pose proof (inv_end _ _ _ _ _ _ Hi) as Hend. fold st in Hend.
  eexists cfg, snapshots, gov, _. split_and!; [done..| |exact Hend|].
  { intros r Hin Hb. destruct (Hsn r Hin) as (sn & Hg & Hl); [lia|].
    exists sn. split; [done|]. by apply (snapshot_payout econ cs (AB_SlotId r)). }
  unfold finalizeEpoch.
  rewrite (M_bind_run _ _ s s _ (f_equal (pair s) (inv_MonetaryParams _ _ _ _ _ _ Hi))).
  rewrite (M_bind_run _ _ s s _ (f_equal (pair s) (inv_GetState _ _ _ _ _ _ Hi))).
  rewrite (M_bind_run _ _ s s _ (f_equal (pair s) (inv_anchor_ok _ _ _ _ _ _ Hi))).
  fold st.
  rewrite (M_bind_run _ _ s s cfg) by (unfold reads, GetCurrentEpochConfig; by rewrite Hcfg).
  rewrite Hw, Hd, Hf1, Hf2, Hf3. rewrite !bool_decide_eq_false_2 by (by intros []).
  rewrite (M_bind_run _ _ s s tt) by done. rewrite (M_bind_run _ _ s s tt) by done.
  rewrite (M_bind_run _ _ s s _ (f_equal (pair s) Hend)).
  rewrite (M_bind_run _ _ s s (V_enabled v)).
  2:{ unfold reads, GetOpenRewardEnabledBlocks. by rewrite (i_enabled _ _ _ _ _ _ Hi). }
  rewrite (M_bind_run _ _ s s rows) by done.
  rewrite (M_bind_run _ _ s s tt).
  2:{ unfold reads. rewrite validateEpochParticipation_Ok; [done | done | lia | lia | intros r Hin; specialize (Hr r Hin); lia]. }
  rewrite (M_bind_run _ _ s s gov) by (unfold reads; by rewrite Hgov).
  by rewrite (M_bind_run _ _ s s snapshots) by (unfold lift; by rewrite Hsnap).
Qed.

Definition closed_state (s : Store) b books m p' cfg' st' r : Store :=
  put_State (Some st') (put_CurrentEpochConfig (Some cfg')
    (put_PendingParams None (put_Params (Some p') (put_ActiveBlocks m
      (put_FinalizedEpochs (<[EpochNumber r := r]> (Rs_FinalizedEpochs s))
        (put_Entitlements books (put_Bank b s))))))).

(** What a close does to the store. *)
Record closes (s s' : Store) (v v' : View) (emission treasury : Z) : Prop := {
  cl_max : V_max v' = V_max v;
  cl_enabled : V_enabled v' = V_enabled v;
  cl_cumulative : V_cumulative v' = V_cumulative v + emission;
  cl_epoch : CurrentEpoch (V_state v') = CurrentEpoch (V_state v);
  cl_start : CurrentEpochStartHeight (V_state v') = CurrentEpochStartHeight (V_state v);
  cl_geometry : Rs_Geometry s' = Rs_Geometry s;
  cl_reward : Rs_RewardConfig s' = Rs_RewardConfig s;
  cl_pause : Rs_PauseState s' = Rs_PauseState s;
  cl_pending : Rs_PendingParams s' = None;
  cl_rows : ∀ k, Rs_ActiveBlocks s' !! k = None;
  cl_old : ∀ k x, SlotEntitlements (Rs_Entitlements s) !! k = Some x →
    SlotEntitlements (Rs_Entitlements s') !! k = Some x;
  cl_new : ∀ k x, SlotEntitlements (Rs_Entitlements s') !! k = Some x →
    SlotEntitlements (Rs_Entitlements s) !! k = Some x ∨
    fst k = CurrentEpoch (V_state v) ∧ unpaid econ x;
  cl_obligations :
    map_sum owed (SlotEntitlements (Rs_Entitlements s')) + V_carry v' + treasury =
    map_sum owed (SlotEntitlements (Rs_Entitlements s)) + V_carry v + emission;
  cl_balances : ∃ recipient, ∀ x d, x ≠ module_addr →
    GetBalance (Rs_Bank s') x d = GetBalance (Rs_Bank s) x d +
      if decide (treasury ≠ 0 ∧ x = recipient ∧ d = NativeBaseDenom) then treasury else 0;
  cl_record : ∃ r, Rs_FinalizedEpochs s' =
      <[CurrentEpoch (V_state v) := r]> (Rs_FinalizedEpochs s) ∧
    EpochNumber r = CurrentEpoch (V_state v) ∧ MintedEmission r = Int_String emission ∧
    TreasuryAmount r = Int_String treasury ∧ CarryOut r = Int_String (V_carry v')
}.

Lemma finalizeEpoch_spec base s v gov init :
  ledger_inv econ module_addr base (CurrentEpoch (V_state v) - 1) s v → payable_rows s →
  RewardConfigForTarget econ (Rs_RewardConfig s) (CurrentEpoch (V_state v)) = Ok gov →
  ParseCanonicalAmount (RCV_InitialBlockSubsidy gov) = Ok init →
  let emission :=
    emit (V_max v) init (Z.to_nat (V_enabled v)) (V_cumulative v) - V_cumulative v in
  let treasury := emission * RCV_EmissionTreasuryShareBps gov / MaxBasisPoints in
  0 ≤ treasury ≤ emission ∧
  ∃ s' v',
    finalizeEpoch econ cs height s = (s', Ok tt) ∧
    ledger_inv econ module_addr base (CurrentEpoch (V_state v)) s' v' ∧
    closes s s' v v' emission treasury.
Proof using Henv Hheight.
  intros Hi Hpay Hgov Hinit emission treasury. set (st := V_state v) in *.
  destruct (governing_config _ _ _ _ Hi) as (gov' & init' & Hg & Hin & Hin0 & Hver & Hge & Hgv & Hsh).
  fold st in Hg, Hge. rewrite Hgov in Hg. injection Hg as <-.
  rewrite Hinit in Hin. injection Hin as <-.
  apply ParseCanonicalAmount_Amount in Hinit.
  destruct (finalize_reads _ _ _ Hi Hpay)
    as (cfg & snapshots & gov' & fin & Hcfg & Hct & Hg & Hsn & Hend & Hrun).
  fold st in Hg, Hsn, Hend, Hrun. rewrite Hgov in Hg. injection Hg as <-.
  destruct (inv_amounts _ _ _ _ _ _ Hi)
    as (Hden & Hmode & Hmax0 & Hc0 & Hk0 & Hbase & Hl0 & Howed & Hsolv & Hsup).
  pose proof (i_cum _ _ _ _ _ _ Hi) as Hcum. pose proof (i_carry _ _ _ _ _ _ Hi) as Hcarry.
  pose proof (i_max _ _ _ _ _ _ Hi) as Hmax. pose proof (i_params_ok _ _ _ _ _ _ Hi) as Hpok.
  pose proof (i_books _ _ _ _ _ _ Hi) as Hbooks. pose proof (i_epoch _ _ _ _ _ _ Hi) as He.
  fold st in He, Hcum, Hcarry. pose proof (inv_enabled_bound _ _ _ _ _ _ Hi) as Heb.
  destruct (inv_start_bounds _ _ _ _ _ _ Hi) as (Hst1 & _). fold st in Hst1.
  destruct (mintEpoch_spec econ module_addr Henv s (V_params v) st gov (V_max v) (V_cumulative v)
    (V_carry v) init (V_enabled v)) as (Hce & Ht & b & recipient & Hmint & Hbal & Hbsup & _ & Hoth);
    try done; try lia.
  { rewrite Hden, Hsup. lia. }
  fold emission in Hmint, Hbal, Hbsup, Ht, Hoth. fold treasury in Hmint, Hbal, Ht, Hoth.
  rewrite Hden in Hbal, Hbsup, Hoth. split; [lia|].
  set (s1 := put_Bank b s) in *. set (pool := emission - treasury + V_carry v) in *.
  set (c' := emit (V_max v) init (Z.to_nat (V_enabled v)) (V_cumulative v)) in *.
  assert (0 ≤ pool < 2 ^ 140) as Hpool by (unfold pool, emission; lia).
  assert (∀ slot, SlotEntitlements (Rs_Entitlements s) !! (CurrentEpoch st, slot) = None) as Hnone.
  { intros slot. destruct (SlotEntitlements (Rs_Entitlements s) !! _) as [x|] eqn:E; [|done].
    apply (i_books_epochs _ _ _ _ _ _ Hi) in E. fold st in E. lia. }
  destruct (rows_bounds s (CurrentEpoch st) (V_enabled v)) as (Hr1 & Hr2 & Hr3 & Hr4); [lia| |].
  { intros id x Hx. apply (i_rows _ _ _ _ _ _ Hi) in Hx. lia. }
  destruct (distributeEpoch_spec econ module_addr Henv height s1 st
    (IterateActiveBlocksForEpoch s (CurrentEpoch st)) snapshots gov pool)
    as (books & allocated & carry' & Hdist & Hsum & Ha0 & Hc0' & Hbooks' & Howed' & Hold & Hnew);
    try done; try lia.
  { apply rows_NoDup. }
  { intros r Hr. specialize (Hr4 r Hr). lia. }
  { simpl. unfold pool, emission. lia. }
  simpl in Howed', Hold, Hnew.
  set (s2 := put_Entitlements books s1) in *.
  destruct (closeEpoch_spec econ module_addr Henv s2 (V_params v) st cfg (V_max v) fin (V_enabled v)
    emission c' treasury (V_carry v) pool allocated carry')
    as (m & p' & cfg' & r & Hclose & Hm & Hpok' & Hmax' & Hcv' & Hct' & Hre & Hrr & Hrm & _ & Hrc &
        Hrt & _); try done; try lia; try apply Hi.
  { destruct (Rs_FinalizedEpochs s2 !! CurrentEpoch st) as [x|] eqn:E; [|done].
    apply (i_finalized _ _ _ _ _ _ Hi) in E. fold st in E. lia. }
  { simpl. rewrite Hbal, Hsolv, Howed'. unfold pool in Hsum. lia. }
  { simpl. rewrite Howed'. unfold pool, emission in Hsum. lia. }
  assert (∀ k, m !! k = None) as Hrows.
  { intros [e slot]. rewrite Hm. simpl. destruct (decide (e = CurrentEpoch st)) as [|Hk]; [done|].
    destruct (Rs_ActiveBlocks s !! (e, slot)) as [x|] eqn:E; [|done].
    apply (i_rows _ _ _ _ _ _ Hi) in E as [E _]. by destruct Hk. }
  assert (ParseAmountString (Int_String c') = Ok c') as Hpc
    by (apply ParseAmountString_String; [lia | int_solve]).
  assert (ParseAmountString (Int_String carry') = Ok carry') as Hpo
    by (apply ParseAmountString_String; [lia | int_solve]).
  rewrite <- Hre in Hclose at 1. set (st' := next_state st c' carry') in *.
  exists (closed_state s b books m p' cfg' st' r),
    {| V_params := p'; V_state := st'; V_max := V_max v; V_cumulative := c'; V_carry := carry';
       V_enabled := V_enabled v |}.
  split_and!.
  - rewrite Hrun. rewrite (M_bind_run _ _ _ _ _ Hmint). cbv beta iota.
    rewrite (M_bind_run _ _ _ _ _ Hdist). cbv beta iota. exact Hclose.
  - pose proof (i_books_epochs _ _ _ _ _ _ Hi) as Hbe.
    pose proof (i_finalized _ _ _ _ _ _ Hi) as Hfe. pose proof (i_records _ _ _ _ _ _ Hi) as Hrec.
    pose proof (i_payout _ _ _ _ _ _ Hi) as Hpo'. pose proof (i_governed _ _ _ _ _ _ Hi) as Hgd.
    pose proof (i_reward _ _ _ _ _ _ Hi) as Hrwf.
    pose proof (i_slots _ _ _ _ _ _ Hi) as Hsl. destruct Hi. split; simpl; try done; try lia.
    + by rewrite Hmax'.
    + by exists cfg'.
    + intros e slot x Hx. apply Hnew in Hx as [Hx|[Hx _]]; [|simpl in Hx; lia].
      pose proof (Hbe e slot x Hx). lia.
    + intros k x Hx. apply Hnew in Hx as [Hx|[_ [[_ Hx] _]]]; [by eapply Hpo' | done].
    + intros k x Hx. apply Hnew in Hx as [Hx|(Hk & _ & Hx & _)]; [by eapply Hgd|].
      destruct (RewardConfigForTarget_spec econ _ Hrwf (CurrentEpoch st)) as (w & Hw & Hrw);
        [widths; lia|]. exists w. simpl in Hk. rewrite Hk. split; [exact Hw|]. congruence.
    + intros k x Hx. apply Hnew in Hx as [Hx|(_ & _ & _ & Hx)]; [by eapply Hsl|].
      apply list_elem_of_fmap in Hx as (row & -> & Hrow). specialize (Hr4 row Hrow). widths. lia.
    + intros e x [[<- <-]|[_ Hx]]%lookup_insert_Some; [split; [lia | done]|].
      destruct (Hfe e x Hx). split; [lia | done].
    + intros e Hle. destruct (decide (e = EpochNumber r)) as [->|];
        [rewrite lookup_insert_eq; by exists r|].
      rewrite lookup_insert_ne by done. apply Hrec. lia.
    + intros e slot x. by rewrite Hrows.
  - split; simpl; try done; try lia.
    + intros k x Hx. apply Hnew in Hx as [Hx|(Hk & Hu & _)]; [by left | by right].
    + exists recipient. exact Hoth.
    + exists r. fold st. by rewrite <- Hre at 1.
Qed.
End transition.

(** ** An epoch closes at most once *)
Section once.
Context {SI : SdkInt} {BE : Bech32} {BK : BankKeeper} {CK : CoreSlotKeeper}.
Context (econ : Validator) (cs : CoreSlotStore) (height : Z).

Lemma on_bank_finalized {A} (m : M Bank A) (s s' : Store) a :
  on_bank m s = (s', Ok a) → Rs_FinalizedEpochs s' = Rs_FinalizedEpochs s.
Proof. unfold on_bank. by intros (b & _ & ->)%zoom_Ok. Qed.

Lemma mintEpoch_finalized p st enabled gov (s s' : Store) x :
  mintEpoch econ p st enabled gov s = (s', Ok x) → Rs_FinalizedEpochs s' = Rs_FinalizedEpochs s.
Proof.
  unfold mintEpoch, PayTreasury. intros H.
  repeat match goal with
  | H : (let '(_, _) := ?y in _) _ = _ |- _ => destruct y
  | _ => minv_step; subst
  end.
  repeat match goal with
  | H : (if ?b then _ else _) _ = (_, Ok _) |- _ => destruct b; minv
  | H : on_bank _ _ = _ |- _ => apply on_bank_finalized in H
  end; simpl in *; congruence.
Qed.

Lemma distributeEpoch_finalized st rows snapshots gov pool (s s' : Store) x :
  distributeEpoch econ height st rows snapshots gov pool s = (s', Ok x) →
  Rs_FinalizedEpochs s' = Rs_FinalizedEpochs s.
Proof.
  unfold distributeEpoch. intros H.
  apply M_bind_Ok in H as (h & s1 & H1 & H). apply lift_Ok in H1 as [-> _].
  apply M_bind_Ok in H as ([[[ents ?] ?] ?] & s1 & H1 & H). apply lift_Ok in H1 as [-> _].
  apply M_bind_Ok in H as ([] & s1 & H1 & H). apply lift_Ok in H1 as [-> _].
  apply M_bind_Ok in H as ([] & s1 & Hc & H). apply M_ret_Ok in H as [-> _].
  revert s Hc. induction ents as [|e ents IH]; intros s Hc; simpl in Hc; minv; [done|].
  match goal with H : for_each _ _ _ = _ |- _ => apply IH in H; rewrite H end.
  unfold on_entitlements in *. by minv.
Qed.

Lemma finalized_refused (s : Store) st r :
  Rs_State s = Some st → Rs_FinalizedEpochs s !! CurrentEpoch st = Some r →
  ∃ e, FinalizeEpoch econ cs height s = (s, Err e).
Proof.
  intros Hst Hr. unfold FinalizeEpoch, cached.
  destruct (finalizeEpoch econ cs height s) as [s' [[]|e]] eqn:E; [|by exists e].
  exfalso. unfold finalizeEpoch in E.
  repeat match goal with
  | H : (let '(_, _) := ?y in _) _ = _ |- _ => destruct y
  | _ => minv_step; subst
  end.
  repeat match goal with
  | H : mintEpoch _ _ _ _ _ _ = _ |- _ => apply mintEpoch_finalized in H
  | H : distributeEpoch _ _ _ _ _ _ _ _ = _ |- _ => apply distributeEpoch_finalized in H
  end.
  match goal with H : closeEpoch _ _ _ _ _ _ _ _ _ _ _ _ _ _ = _ |- _ =>
    unfold closeEpoch, SetFinalizedEpoch in H end.
  minv.
  match goal with H : GetState s = Ok _ |- _ =>
    unfold GetState in H; rewrite Hst in H; injection H as <- end. simpl in *.
  match goal with H : bool_decide _ = false |- _ => apply bool_decide_eq_false_1 in H end.
  match goal with H : ¬ is_Some _ |- _ => apply H end. 
  repeat match goal with H : Rs_FinalizedEpochs _ = _ |- _ => rewrite H end. by exists r.
Qed.
End once.

(** ** Properties *)

(** C5: in a state of the ledger invariant, with a payable CoreSlot behind every
    row with participation, closing the open epoch cannot fail, and it closes the
    books exactly: the emission of the epoch's reward-enabled blocks is added to
    the cumulative amount and to the supply, the treasury receives the floor of
    its governing share and no other account but the escrow changes, obligations
    plus carry grow by emission less treasury, earlier entitlements are
    untouched, new ones belong to the closed epoch, unreleased and with a payout
    address that can be paid, its participation is cleared,
    its record is stored, and the invariant, solvency included, holds again. *)
Theorem epoch_close_succeeds {SI : SdkInt} {BE : Bech32} {BK : BankKeeper} {CK : CoreSlotKeeper}
    (econ : Validator) (module_addr : AccAddress) (cs : CoreSlotStore) (height base : Z)
    (s : Store) (v : View) (gov : RewardConfigVersion) (init : Z) :
  environment econ module_addr → 0 < height ≤ MaxInt64 →
  ledger_inv econ module_addr base (CurrentEpoch (V_state v) - 1) s v →
  payable_rows econ cs s →
  RewardConfigForTarget econ (Rs_RewardConfig s) (CurrentEpoch (V_state v)) = Ok gov →
  ParseCanonicalAmount (RCV_InitialBlockSubsidy gov) = Ok init →
  let emission :=
    emit (V_max v) init (Z.to_nat (V_enabled v)) (V_cumulative v) - V_cumulative v in
  let treasury := emission * RCV_EmissionTreasuryShareBps gov / MaxBasisPoints in
  0 ≤ treasury ≤ emission ∧
  ∃ s' v',
    FinalizeEpoch econ cs height s = (s', Ok tt) ∧
    ledger_inv econ module_addr base (CurrentEpoch (V_state v)) s' v' ∧
    closes econ module_addr s s' v v' emission treasury.
Proof.
  intros Henv Hh Hi Hpay Hgov Hinit emission treasury.
  destruct (finalizeEpoch_spec econ module_addr Henv cs height Hh base s v gov init Hi Hpay Hgov Hinit)
    as (Ht & s' & v' & Hrun & H). split; [exact Ht|]. exists s', v'.
  split; [|exact H]. unfold FinalizeEpoch. by apply cached_Ok.
Qed.

Lemma sample_payable : @payable_rows ledger_bank list_coreslots sample_validator
  sample_coreslots sample_store.
Proof.
  intros e slot b Hk _. simpl in Hk. apply lookup_singleton_Some in Hk as [[= <- <-] <-].
  eexists. vm_compute. reflexivity.
Qed.

Lemma epoch_close_succeeds_witness :
  ∃ s', @FinalizeEpoch sdkint_256 bech32_id ledger_bank list_coreslots sample_validator
    sample_coreslots 720 sample_store = (s', Ok tt).
Proof.
  destruct (@epoch_close_succeeds sdkint_256 bech32_id ledger_bank list_coreslots sample_validator
    "rewards"%string sample_coreslots 720 0 sample_store sample_view sample_reward_version 416190)
    as (_ & s' & v' & H & _).
  - exact sample_environment.
  - ground.
  - exact sample_ledger_inv.
  - exact sample_payable.
  - vm_compute. reflexivity.
  - vm_compute. reflexivity.
  - exists s'. exact H.
Defined.

(** An epoch closes at most once: once the current epoch has a finalized
    record, a further [FinalizeEpoch] fails and changes nothing, whatever else
    the store holds. *)
Theorem epoch_closes_once {SI : SdkInt} {BE : Bech32} {BK : BankKeeper} {CK : CoreSlotKeeper}
    (econ : Validator) (cs : CoreSlotStore) (height : Z) (s : Store) (st : RewardsState)
    (r : EpochReward) :
  Rs_State s = Some st → Rs_FinalizedEpochs s !! CurrentEpoch st = Some r →
  ∃ e, FinalizeEpoch econ cs height s = (s, Err e).
Proof. apply finalized_refused. Qed.

Definition sample_finalized : @Store ledger_bank :=
  put_FinalizedEpochs {[2 := sample_record 2]} sample_store.

Lemma epoch_closes_once_witness :
  ∃ e, @FinalizeEpoch sdkint_256 bech32_id ledger_bank list_coreslots sample_validator
    sample_coreslots 720 sample_finalized = (sample_finalized, Err e).
Proof. eapply epoch_closes_once; reflexivity. Defined.
