(* ===== verification/Lifecycle.v ===== *)
(** * x/rewards/keeper: the block hooks, the messages and the invariants

    [beginblock.go], [endblock.go], [msg_server.go], [invariants.go] and the
    standalone [CreateSlotEntitlement], with the whole module as a transition
    system over blocks.  The theorems: the block hooks never halt the chain in a
    reachable state, every reachable state satisfies the module invariant, and
    the registered invariants report it. *)
From S2P Require Import Prelude Checked SdkMath Bounds EconomicAddress RewardsTypes.
From S2P Require Import Collections Emission Allocation EpochHistory RewardConfig Bank.
From S2P Require Import CoreSlotTypes Pause Entitlement RewardsKeeper RewardsInvariant Release.
From S2P Require Import Finalize.
From Stdlib Require Import String Ascii.
Local Open Scope Z_scope.

(** ** Messages *)
Record MsgUpdateRewardsParams := { URP_Authority : string; URP_Params : option Params }.
Record MsgPauseRewards := { PR_EmergencyAuthority : string }.
Record MsgResumeRewards := { RR_EmergencyAuthority : string }.

Section lifecycle.
Context {SI : SdkInt} {BE : Bech32} {BK : BankKeeper} {CK : CoreSlotKeeper}.
Context (economicAddresses : Validator).
Abbreviation KM := (M Store).

(** *** Begin block *)

Definition syncEpochConfigMirror (epoch : Z) : KM unit :=
  length ← reads (λ s, EpochLengthForEpoch (Rs_Geometry s) epoch);
  cfg ← reads GetCurrentEpochConfig;
  if Snap_EpochLengthBlocks cfg =? length then mret tt
  else SetCurrentEpochConfig economicAddresses (with_epoch_length length cfg).

Definition advanceEpochIfDue (height : Z) : KM unit :=
  state ← reads GetState;
  reads (λ s, verifyCurrentEpochAnchor (Rs_Geometry s) state) ;;
  nextEpoch ← lift (wrap RwInvalidState (AddUint64 (CurrentEpoch state) 1));
  nextStart ← reads (λ s, EpochStartHeight (Rs_Geometry s) nextEpoch);
  if height <? nextStart then mret tt
  else if height >? nextStart then mthrow RwInvalidState
  else
    consumed ← on_geometry (consumeScheduledEpochConfig nextEpoch height);
    (if consumed : bool then syncEpochConfigMirror nextEpoch else mret tt) ;;
    SetState {|
      CurrentEpoch := nextEpoch;
      CurrentEpochStartHeight := nextStart;
      CumulativeEmitted := CumulativeEmitted state;
      CarryForwardRemainder := CarryForwardRemainder state |} ;;
    SetOpenRewardEnabledBlocks 0.

(** [sort.Slice] by slot id. *)
Definition slot_id_le (a b : CoreSlot) : Prop := SlotId a ≤ SlotId b.
#[export] Instance slot_id_le_dec : RelDecision slot_id_le.
Proof. intros a b. unfold slot_id_le. apply _. Defined.

Definition validateActiveSlots (slots : list CoreSlot) : res unit :=
  for_each (λ slot,
    fail_if (SlotId slot =? 0) RwInvalidState ;;
    fail_if (bool_decide (Status slot ≠ SLOT_STATUS_ACTIVE)) RwInvalidState) slots.

Definition beginBlock (cs : CoreSlotStore) (blockHeight : Z) : KM unit :=
  height ← lift (wrap RwInvalidState (Uint64FromInt64 blockHeight));
  advanceEpochIfDue height ;;
  on_pause (applyPendingPauseTransition height) ;;
  state ← reads GetState;
  paused ← reads (λ s, RewardsPaused (Rs_PauseState s));
  slots ← lift (GetActiveSlots cs);
  let slots := merge_sort slot_id_le slots in
  lift (validateActiveSlots slots) ;;
  if (paused : bool) then mret tt
  else
    enabled ← reads GetOpenRewardEnabledBlocks;
    next ← lift (wrap RwInvalidState (AddUint64 enabled 1));
    SetOpenRewardEnabledBlocks next ;;
    for_each (λ slot, IncrementActiveBlocks (CurrentEpoch state) (SlotId slot)) slots.

Definition BeginBlock (cs : CoreSlotStore) (blockHeight : Z) : KM unit :=
  cached (beginBlock cs blockHeight).

(** *** End block *)
Definition endBlock (cs : CoreSlotStore) (blockHeight : Z) : KM unit :=
  height ← lift (wrap RwInvalidState (Uint64FromInt64 blockHeight));
  ready ← reads (ShouldFinalizeAtHeight height);
  if negb ready then mret tt
  else
    state ← reads GetState;
    finalizeEpoch economicAddresses cs blockHeight ;;
    on_reward_config (promoteScheduledRewardConfig economicAddresses (CurrentEpoch state)).

Definition EndBlock (cs : CoreSlotStore) (blockHeight : Z) : KM unit :=
  cached (endBlock cs blockHeight).

(** *** The message server *)
Definition UpdateRewardsParams (cs : CoreSlotStore) (msg : option MsgUpdateRewardsParams)
    : KM unit :=
  match msg with
  | Some {| URP_Authority := signer; URP_Params := Some next |} =>
      authority ← lift (GetAuthority cs);
      fail_if (bool_decide (signer ≠ authority)) RwInvalidParams ;;
      current ← reads GetParams;
      fail_if (negb (Bool.eqb (P_EmissionsEnabled next) (P_EmissionsEnabled current)) ||
               negb (Bool.eqb (P_EpochSettlementEnabled next) (P_EpochSettlementEnabled current)) ||
               negb (Bool.eqb (P_ClaimsEnabled next) (P_ClaimsEnabled current)))
        RwInvalidParams ;;
      SetPendingParams economicAddresses next
  | _ => mthrow RwInvalidParams
  end.

Definition schedulePause (cs : CoreSlotStore) (blockHeight : Z) (signer : string) (paused : bool)
    : KM unit :=
  authority ← lift (GetEmergencyAuthority cs);
  fail_if (bool_decide (signer ≠ authority)) RwInvalidParams ;;
  on_pause (SchedulePauseTransition blockHeight paused).

Definition PauseRewards (cs : CoreSlotStore) (blockHeight : Z) (msg : option MsgPauseRewards)
    : KM unit :=
  match msg with
  | None => mthrow RwInvalidParams
  | Some msg => schedulePause cs blockHeight (PR_EmergencyAuthority msg) true
  end.

Definition ResumeRewards (cs : CoreSlotStore) (blockHeight : Z) (msg : option MsgResumeRewards)
    : KM unit :=
  match msg with
  | None => mthrow RwInvalidParams
  | Some msg => schedulePause cs blockHeight (RR_EmergencyAuthority msg) false
  end.

(** *** [entitlement.go]: the standalone creation *)
Definition CreateSlotEntitlement (entitlement : SlotEntitlement) : KM unit :=
  governing ← reads (λ s, RewardConfigForTarget economicAddresses (Rs_RewardConfig s)
    (Ent_Epoch entitlement));
  cached (on_entitlements (createSlotEntitlement economicAddresses entitlement governing)).

(** *** The registered invariants: [true] when broken *)
Definition invariant (m : res bool) : bool := match m with Ok b => b | Err _ => true end.

Definition SupplyCapInvariant (s : Store) : bool := invariant (
  params ← GetParams s;
  maxSupply ← ParseAmountString (P_MaxSupply params);
  mret (GetSupply (Rs_Bank s) (P_NativeDenom params) >? maxSupply)).

Definition CumulativeEmittedInvariant (s : Store) : bool := invariant (
  params ← GetParams s;
  state ← GetState s;
  maxSupply ← ParseAmountString (P_MaxSupply params);
  cumulative ← ParseAmountString (CumulativeEmitted state);
  mret (cumulative >? maxSupply)).

Definition ModuleBalanceCoverageInvariant (s : Store) : bool := invariant (
  params ← GetParams s;
  state ← GetState s;
  carry ← ParseAmountString (CarryForwardRemainder state);
  liability ← GetOutstandingEntitlementLiability (Rs_Entitlements s);
  required ← or_err ErrExternal (Int_SafeAdd liability carry);
  match GetModuleAddress ModuleName with
  | None => mret true
  | Some address => mret (GetBalance (Rs_Bank s) address (P_NativeDenom params) <? required)
  end).

Definition EntitlementLiabilityInvariant (s : Store) : bool := invariant (
  stored ← GetOutstandingEntitlementLiability (Rs_Entitlements s);
  summed ← SumOutstandingEntitlementLiability (Rs_Entitlements s);
  mret (negb (stored =? summed))).

(** [strings.ContainsAny] with the ASCII letters. *)
Definition is_letter (c : ascii) : bool :=
  let n := nat_of_ascii c in
  ((65 <=? n) && (n <=? 90))%nat || ((97 <=? n) && (n <=? 122))%nat.
Fixpoint contains_letter (s : string) : bool :=
  match s with
  | EmptyString => false
  | String c s => is_letter c || contains_letter s
  end.

Definition DenomCorrectnessInvariant (s : Store) : bool := invariant (
  params ← GetParams s;
  ValidateDenom (P_NativeDenom params) ;;
  ValidateDenom (P_FeeDenom params) ;;
  mret (contains_letter (P_MaxSupply params) || contains_letter (P_InitialBlockSubsidy params))).

Definition ClosedEpochImmutabilityInvariant (s : Store) : bool := invariant (
  for_each (λ kv, fail_if (bool_decide (Rewards (snd kv) ≠ [])) ErrPlain)
    (entries (Rs_FinalizedEpochs s)) ;;
  for_each (λ kv, validateEntitlementRecord (fst kv) (snd kv))
    (pair_entries (SlotEntitlements (Rs_Entitlements s))) ;;
  mret false).
End lifecycle.

(** ** Opening an epoch *)
Section opening.
Context {SI : SdkInt} {BE : Bech32} {BK : BankKeeper}.
Context (econ : Validator) (module_addr : AccAddress).

(** Consuming what is due at the boundary, scheduled or not. *)
Lemma consume_boundary g e :
  history_wf (EpochConfigVersions g) → schedule_ok g → 1 ≤ e → e + 1 < MaxUint64 →
  (∀ k x, EpochConfigVersions g !! k = Some x → k ≤ e ∧ ECV_Version x ≤ k) →
  (∀ k x, ScheduledEpochConfigs g !! k = Some x → e < k) →
  is_u64 (start_of (EpochConfigVersions g) (e + 1)) →
  ∃ g' c,
    consumeScheduledEpochConfig (e + 1) (start_of (EpochConfigVersions g) (e + 1)) g = (g', Ok c) ∧
    (c = false → g' = g) ∧
    history_wf (EpochConfigVersions g') ∧ schedule_ok g' ∧
    (∀ k x, EpochConfigVersions g' !! k = Some x → k ≤ e + 1 ∧ ECV_Version x ≤ k) ∧
    (∀ k x, ScheduledEpochConfigs g' !! k = Some x → e + 1 < k) ∧
    start_of (EpochConfigVersions g') (e + 1) = start_of (EpochConfigVersions g) (e + 1) ∧
    (∀ j, j ≤ e → length_of (EpochConfigVersions g') j = length_of (EpochConfigVersions g) j).
Proof.
  intros Hwf Hsch He Hem Hver Hfut Hu.
  destruct (ScheduledEpochConfigs g !! (e + 1)) as [sc|] eqn:E.
  - destruct (latest_spec g Hwf) as (k & lat & Hmax & Hr & _).
    apply seek_max_Some in Hmax as HM. destruct HM as [Hk Hall].
    destruct (Hver k lat Hk) as [Hke Hvk].
    destruct (start_after_last g k lat (e + 1) Hwf Hmax) as [_ Hst]; [widths; lia|].
    rewrite Hst in *.
    assert (ECV_Version lat < MaxUint64) as Hvm by lia.
    destruct (consumed_wf g (e + 1) sc k lat Hwf Hsch Hmax E Hvm Hu) as (H1 & H2 & _).
    exists (consumed (e + 1) (start_from lat (e + 1)) sc (ECV_Version lat + 1) g), true.
    split_and!; try done.
    + by apply (consume_spec g (e + 1) sc k lat).
    + apply consumed_schedule_ok; [done|]. intros j x Hj. specialize (Hfut j x Hj). lia.
    + intros j x Hj. simpl in Hj. apply lookup_insert_Some in Hj as [[<- <-]|[_ Hj]]; simpl; [lia|].
      specialize (Hver j x Hj). lia.
    + intros j x Hj. simpl in Hj. apply lookup_delete_Some in Hj as [? Hj].
      specialize (Hfut j x Hj). lia.
    + rewrite H2 by lia. exact Hst.
    + intros j Hj. unfold length_of. simpl. by rewrite seek_le_insert_gt by lia.
  - exists g, false. split_and!; try done.
    + unfold consumeScheduledEpochConfig.
      by rewrite (M_bind_run _ _ g g None) by (unfold gets; by rewrite E).
    + intros k x Hk. specialize (Hver k x Hk). lia.
    + intros k x Hk. specialize (Hfut k x Hk).
      destruct (decide (k = e + 1)) as [->|]; [congruence | lia].
Qed.

Lemma snapshot_with_length cfg length :
  Snapshot_Validate cfg = Ok tt → length ≠ 0 →
  Snapshot_Validate (with_epoch_length length cfg) = Ok tt.
Proof.
  unfold Snapshot_Validate. intros H Hl. minv. zify_bool. simpl.
  destruct (Z.eqb_spec (Snap_SnapshotVersion cfg) 0), (Z.eqb_spec length 0); try done. simpl.
  match goal with H : ParseAmountString _ = Ok _ |- _ => rewrite H end. simpl.
  match goal with H : Params_Validate _ = Ok _ |- _ => apply Params_Validate_iff in H; simpl in H end.
  apply wrap_Ok, Params_Validate_iff. simpl. destruct_and?. split_and!; done.
Qed.

Lemma sync_mirror_spec (s : Store) e cfg :
  history_wf (EpochConfigVersions (Rs_Geometry s)) → 1 ≤ e →
  Rs_CurrentEpochConfig s = Some cfg → Snapshot_Validate cfg = Ok tt →
  validateSnapshotTreasury econ cfg = Ok tt →
  ∃ cfg', syncEpochConfigMirror econ e s = (put_CurrentEpochConfig (Some cfg') s, Ok tt) ∧
    Snapshot_Validate cfg' = Ok tt ∧ validateSnapshotTreasury econ cfg' = Ok tt ∧
    Snap_EpochLengthBlocks cfg' = length_of (EpochConfigVersions (Rs_Geometry s)) e.
Proof.
  intros Hwf He Hcfg Hv Ht. destruct (EpochLengthForEpoch_spec (Rs_Geometry s) Hwf e He) as [Hlen Hb].
  set (len := length_of _ _) in *. unfold syncEpochConfigMirror.
  setoid_rewrite (M_bind_run _ _ s s len); [|unfold reads; by rewrite Hlen].
  setoid_rewrite (M_bind_run _ _ s s cfg);
    [|unfold reads, GetCurrentEpochConfig; by rewrite Hcfg].
  destruct (Z.eqb_spec (Snap_EpochLengthBlocks cfg) len) as [Heq|Hne].
  - exists cfg. split_and!; [|done..]. destruct s; simpl in *. by subst.
  - exists (with_epoch_length len cfg).
    assert (Snapshot_Validate (with_epoch_length len cfg) = Ok tt) as Hv'
      by (apply snapshot_with_length; [done | lia]).
    split_and!; [|done..]. unfold SetCurrentEpochConfig.
    rewrite (M_bind_run _ _ s s tt) by (unfold lift; by rewrite Hv').
    rewrite (M_bind_run _ _ s s tt); [done|]. unfold lift. f_equal. exact Ht.
Qed.

Lemma advance_stay base closed (s : Store) v h :
  ledger_inv econ module_addr base closed s v →
  h < CurrentEpochStartHeight (V_state v) +
    length_of (EpochConfigVersions (Rs_Geometry s)) (CurrentEpoch (V_state v)) →
  advanceEpochIfDue econ h s = (s, Ok tt).
Proof.
  intros Hi Hh. set (st := V_state v) in *.
  destruct (inv_start_bounds _ _ _ _ _ _ Hi) as (H1 & H2 & H3 & H4 & H5). fold st in H1, H2, H3, H4, H5.
  pose proof (i_epoch _ _ _ _ _ _ Hi) as He. fold st in He.
  unfold advanceEpochIfDue.
  rewrite (M_bind_run _ _ s s _ (f_equal (pair s) (inv_GetState _ _ _ _ _ _ Hi))).
  rewrite (M_bind_run _ _ s s _ (f_equal (pair s) (inv_anchor_ok _ _ _ _ _ _ Hi))). fold st.
  rewrite (M_bind_run _ _ s s (CurrentEpoch st + 1)).
  2:{ unfold lift. f_equal. apply wrap_Ok, AddUint64_Ok; widths; lia. }
  rewrite (M_bind_run _ _ s s (start_of (EpochConfigVersions (Rs_Geometry s)) (CurrentEpoch st + 1))).
  2:{ unfold reads. rewrite EpochStartHeight_spec; [|apply Hi|lia].
      unfold representable. rewrite decide_True by (widths; lia). done. }
  rewrite H3. by destruct (Z.ltb_spec h (CurrentEpochStartHeight st +
    length_of (EpochConfigVersions (Rs_Geometry s)) (CurrentEpoch st))); [|lia].
Qed.

(** What opening an epoch changes. *)
Record opens (s s' : Store) (v v' : View) : Prop := {
  op_view : v' = {|
    V_params := V_params v;
    V_state := {| CurrentEpoch := CurrentEpoch (V_state v) + 1;
      CurrentEpochStartHeight := CurrentEpochStartHeight (V_state v) +
        length_of (EpochConfigVersions (Rs_Geometry s)) (CurrentEpoch (V_state v));
      CumulativeEmitted := CumulativeEmitted (V_state v);
      CarryForwardRemainder := CarryForwardRemainder (V_state v) |};
    V_max := V_max v; V_cumulative := V_cumulative v; V_carry := V_carry v; V_enabled := 0 |};
  op_reward : Rs_RewardConfig s' = Rs_RewardConfig s;
  op_pause : Rs_PauseState s' = Rs_PauseState s;
  op_bank : Rs_Bank s' = Rs_Bank s;
  op_books : Rs_Entitlements s' = Rs_Entitlements s;
  op_rows : Rs_ActiveBlocks s' = Rs_ActiveBlocks s;
  op_lengths : ∀ e, e ≤ CurrentEpoch (V_state v) →
    length_of (EpochConfigVersions (Rs_Geometry s')) e =
    length_of (EpochConfigVersions (Rs_Geometry s)) e
}.

Lemma advance_open base (s : Store) v h :
  ledger_inv econ module_addr base (CurrentEpoch (V_state v)) s v → h ≤ MaxInt64 →
  h = CurrentEpochStartHeight (V_state v) +
    length_of (EpochConfigVersions (Rs_Geometry s)) (CurrentEpoch (V_state v)) →
  ∃ s' v', advanceEpochIfDue econ h s = (s', Ok tt) ∧
    ledger_inv econ module_addr base (CurrentEpoch (V_state v)) s' v' ∧ opens s s' v v'.
Proof.
  intros Hi Hmx Hh. set (st := V_state v) in *.
  destruct (inv_start_bounds _ _ _ _ _ _ Hi) as (H1 & H2 & H3 & H4 & H5). fold st in H1, H2, H3, H4, H5.
  pose proof (i_epoch _ _ _ _ _ _ Hi) as He. fold st in He.
  pose proof (i_geometry _ _ _ _ _ _ Hi) as Hwf.
  pose proof (start_of_positive _ Hwf 1 ltac:(lia)) as Hp1.
  pose proof (start_of_growth _ Hwf 1 (CurrentEpoch st - 1) ltac:(lia) ltac:(lia)) as Hgr.
  replace (1 + (CurrentEpoch st - 1)) with (CurrentEpoch st) in Hgr by lia.
  assert (CurrentEpoch st + 2 < MaxUint64) as Hem by (widths; lia).
  rewrite <- H3 in Hh.
  destruct (consume_boundary (Rs_Geometry s) (CurrentEpoch st))
    as (g' & c & Hrun & Hsame & Hwf' & Hsch' & Hver' & Hfut' & Hst' & Hlens); try done; try lia; try apply Hi.
  { widths. lia. }
  destruct (EpochLengthForEpoch_spec g' Hwf' (CurrentEpoch st + 1)) as [_ Hlb']; [lia|].
  pose proof (start_of_succ g' Hwf' (CurrentEpoch st + 1) ltac:(lia)) as Hsucc'.
  set (st' := {| CurrentEpoch := CurrentEpoch st + 1; CurrentEpochStartHeight := h;
    CumulativeEmitted := CumulativeEmitted st;
    CarryForwardRemainder := CarryForwardRemainder st |}).
  destruct (i_cfg _ _ _ _ _ _ Hi) as (cfg & Hcfg & Hcv & Hct).
  set (s1 := put_Geometry g' s).
  assert (∃ cfg', (if c then syncEpochConfigMirror econ (CurrentEpoch st + 1) else mret tt) s1 =
      (put_CurrentEpochConfig (Some cfg') s1, Ok tt) ∧
    Snapshot_Validate cfg' = Ok tt ∧ validateSnapshotTreasury econ cfg' = Ok tt)
    as (cfg' & Hsync & Hcv' & Hct').
  { destruct c.
    - destruct (sync_mirror_spec s1 (CurrentEpoch st + 1) cfg Hwf') as (cfg' & ? & ? & ? & _);
        [lia | done..|]. by exists cfg'.
    - exists cfg. split_and!; [|done..]. unfold s1. destruct s; simpl in *. by subst. }
  set (s2 := put_CurrentEpochConfig (Some cfg') s1) in *.
  exists (put_OpenRewardEnabledBlocks (Some 0) (put_State (Some st') s2)),
    {| V_params := V_params v; V_state := st'; V_max := V_max v; V_cumulative := V_cumulative v;
       V_carry := V_carry v; V_enabled := 0 |}.
  split_and!.
  - unfold advanceEpochIfDue.
    rewrite (M_bind_run _ _ s s _ (f_equal (pair s) (inv_GetState _ _ _ _ _ _ Hi))).
    rewrite (M_bind_run _ _ s s _ (f_equal (pair s) (inv_anchor_ok _ _ _ _ _ _ Hi))). fold st.
    rewrite (M_bind_run _ _ s s (CurrentEpoch st + 1)).
    2:{ unfold lift. f_equal. apply wrap_Ok, AddUint64_Ok; widths; lia. }
    rewrite (M_bind_run _ _ s s h).
    2:{ unfold reads. rewrite EpochStartHeight_spec by (done || lia). rewrite <- Hh.
        unfold representable. rewrite decide_True by (widths; lia). done. }
    rewrite Z.ltb_irrefl, Z.gtb_ltb, Z.ltb_irrefl.
    rewrite (M_bind_run _ _ s s1 c).
    2:{ unfold on_geometry. rewrite Hh. by erewrite zoom_run by exact Hrun. }
    rewrite (M_bind_run _ _ s1 s2 tt) by exact Hsync.
    rewrite (M_bind_run _ _ s2 (put_State (Some st') s2) tt).
    2:{ apply (SetState_run s2 st' (V_params v) (V_max v) (V_cumulative v) (V_carry v));
          simpl; try apply Hi; lia. }
    done.
  - pose proof (i_rows _ _ _ _ _ _ Hi) as Hr. fold st in Hr. destruct Hi.
    split; simpl; try done; try lia.
    + by exists cfg'.
    + rewrite Hsucc', Hst'. widths. lia.
    + intros e slot b Hb. apply Hr in Hb. lia.
  - split; try done. simpl. unfold st'. by rewrite Hh, H3.
Qed.
End opening.

(** ** Crediting a block *)
Section crediting.
Context {SI : SdkInt} {BE : Bech32} {BK : BankKeeper}.

Definition credited (e : Z) (ids : list Z) (rows : gmap (Z * Z) Z) (k : Z * Z) : option Z :=
  if decide (fst k = e ∧ snd k ∈ ids) then Some (default 0 (rows !! k) + 1) else rows !! k.

Lemma increment_spec e id (s : Store) :
  e ≠ 0 → id ≠ 0 → 0 ≤ default 0 (Rs_ActiveBlocks s !! (e, id)) < MaxUint64 →
  IncrementActiveBlocks e id s =
    (put_ActiveBlocks (<[(e, id) := default 0 (Rs_ActiveBlocks s !! (e, id)) + 1]>
       (Rs_ActiveBlocks s)) s, Ok tt).
Proof.
  intros He Hid Hb. unfold IncrementActiveBlocks.
  rewrite (M_bind_run _ _ s s (default 0 (Rs_ActiveBlocks s !! (e, id)))) by done.
  rewrite (M_bind_run _ _ s s (default 0 (Rs_ActiveBlocks s !! (e, id)) + 1)).
  2:{ unfold lift. f_equal. apply wrap_Ok, AddUint64_Ok; widths; lia. }
  unfold SetActiveBlocks. by destruct (Z.eqb_spec e 0), (Z.eqb_spec id 0).
Qed.

Lemma credit_spec e (slots : list CoreSlot) (s : Store) :
  e ≠ 0 → NoDup (SlotId <$> slots) →
  (∀ id, id ∈ SlotId <$> slots →
     id ≠ 0 ∧ 0 ≤ default 0 (Rs_ActiveBlocks s !! (e, id)) < MaxUint64) →
  ∃ m, for_each (λ slot, IncrementActiveBlocks e (SlotId slot)) slots s =
      (put_ActiveBlocks m s, Ok tt) ∧
    ∀ k, m !! k = credited e (SlotId <$> slots) (Rs_ActiveBlocks s) k.
Proof.
  intros He. revert s. induction slots as [|slot slots IH]; intros s Hnd Hb.
  { exists (Rs_ActiveBlocks s). split; [by destruct s|]. intros k. unfold credited.
    rewrite decide_False; [done|]. by intros [_ ?%not_elem_of_nil]. }
  rewrite fmap_cons in Hnd, Hb |- *. apply NoDup_cons in Hnd as [Hnin Hnd].
  destruct (Hb (SlotId slot)) as [Hid Hn]; [by left|].
  pose proof (increment_spec e (SlotId slot) s He Hid Hn) as Hinc.
  set (n := default 0 (Rs_ActiveBlocks s !! (e, SlotId slot))) in *.
  simpl for_each. rewrite (M_bind_run _ _ _ _ _ Hinc).
  destruct (IH (put_ActiveBlocks (<[(e, SlotId slot) := n + 1]> (Rs_ActiveBlocks s)) s) Hnd)
    as (m & Hm & Hk).
  { intros id Hin. simpl. rewrite lookup_insert_ne by (intros [= <-]; done).
    apply Hb. by right. }
  exists m. split; [exact Hm|]. intros [e' id]. rewrite Hk. unfold credited. simpl.
  destruct (decide (e' = e)) as [->|Hne].
  2:{ rewrite !decide_False by naive_solver. rewrite lookup_insert_ne by congruence. done. }
  destruct (decide (id = SlotId slot)) as [->|Hne].
  - rewrite decide_False by naive_solver.
    rewrite decide_True by (split; [done | by left]). apply lookup_insert_eq.
  - rewrite lookup_insert_ne by congruence.
    destruct (decide (id ∈ SlotId <$> slots)).
    + rewrite !decide_True by (split; [done | by try right]). done.
    + rewrite !decide_False; [done| |naive_solver].
      intros [_ Hin]. apply elem_of_cons in Hin. naive_solver.
Qed.
End crediting.
