(* ===== verification/Chain.v ===== *)
(** * The rewards module over the life of a chain

    Blocks as a transition system: begin block, messages and the calls of other
    modules, end block.  [chain_inv] is the invariant of its states; every step
    keeps it, and in every state that has it the block hook that is due succeeds,
    so the module cannot halt the chain.  What CoreSlot must promise for that is
    [coreslot_contract]. *)
From S2P Require Import Prelude Checked SdkMath Bounds EconomicAddress RewardsTypes.
From S2P Require Import Collections Emission Allocation EpochHistory RewardConfig Bank.
From S2P Require Import CoreSlotTypes Pause Entitlement RewardsKeeper RewardsInvariant Release.
From S2P Require Import Finalize Lifecycle.
From stdpp Require Import relations.
Local Open Scope Z_scope.

Section chain.
Context {SI : SdkInt} {BE : Bech32} {BK : BankKeeper} {CK : CoreSlotKeeper}.
Context (econ : Validator) (module_addr : AccAddress).
Context (cs_inv : CoreSlotStore → Prop) (cs_step : relation CoreSlotStore).

(** What the rewards module relies on CoreSlot for, whatever CoreSlot does
    between two reads ([cs_step], keeping [cs_inv]): the active set can be read,
    an active slot can be paid, and a slot that could be paid still can, removed
    or not. *)
Record coreslot_contract : Prop := {
  ct_wf : ∀ a, cs_inv a → cs_wf a;
  ct_step : ∀ a b, cs_inv a → cs_step a b → cs_inv b;
  ct_active : ∀ a, cs_inv a → ∃ slots, GetActiveSlots a = Ok slots;
  ct_payable : ∀ a slots slot, cs_inv a → GetActiveSlots a = Ok slots → slot ∈ slots →
    ∃ sn, GetSlotRewardSnapshot econ a (SlotId slot) = Ok sn;
  ct_stable : ∀ a b id sn, cs_inv a → cs_step a b → GetSlotRewardSnapshot econ a id = Ok sn →
    ∃ sn', GetSlotRewardSnapshot econ b id = Ok sn'
}.

Record Chain := {
  Ch_Height : Z;
  Ch_InBlock : bool;
  Ch_CoreSlots : CoreSlotStore;
  Ch_Rewards : Store
}.

(** The message server's entries, and the release calls of the mining module. *)
Inductive message :=
  | UpdateParams (msg : option MsgUpdateRewardsParams)
  | Pause (msg : option MsgPauseRewards)
  | Resume (msg : option MsgResumeRewards)
  | Pay (slotID epoch : Z) (payouts : list EntitlementPayout)
  | PayRemainder (slotID epoch : Z).

(** A message runs in a cache of its own: a failure leaves no trace. *)
Definition deliver (cs : CoreSlotStore) (height : Z) (m : message) : M Store unit := cached
  match m with
  | UpdateParams msg => UpdateRewardsParams econ cs msg
  | Pause msg => PauseRewards cs height msg
  | Resume msg => ResumeRewards cs height msg
  | Pay slotID epoch payouts => PayEntitlement econ slotID epoch payouts
  | PayRemainder slotID epoch => PayEntitlementRemainderToOperator econ slotID epoch
  end.

(** [step_bank]: transfers of other modules and accounts.  They do not mint the
    native coin, and the escrow is neither a sender nor an admissible recipient. *)
Inductive step : Chain → Chain → Prop :=
  | step_begin h cs s s' :
      h + 1 ≤ MaxInt64 → BeginBlock econ cs (h + 1) s = (s', Ok tt) →
      step {| Ch_Height := h; Ch_InBlock := false; Ch_CoreSlots := cs; Ch_Rewards := s |}
           {| Ch_Height := h + 1; Ch_InBlock := true; Ch_CoreSlots := cs; Ch_Rewards := s' |}
  | step_message h cs s m s' r :
      deliver cs h m s = (s', r) →
      step {| Ch_Height := h; Ch_InBlock := true; Ch_CoreSlots := cs; Ch_Rewards := s |}
           {| Ch_Height := h; Ch_InBlock := true; Ch_CoreSlots := cs; Ch_Rewards := s' |}
  | step_coreslot h b cs cs' s :
      cs_step cs cs' →
      step {| Ch_Height := h; Ch_InBlock := b; Ch_CoreSlots := cs; Ch_Rewards := s |}
           {| Ch_Height := h; Ch_InBlock := b; Ch_CoreSlots := cs'; Ch_Rewards := s |}
  | step_bank h b cs s bank :
      GetBalance bank module_addr NativeBaseDenom =
        GetBalance (Rs_Bank s) module_addr NativeBaseDenom →
      GetSupply bank NativeBaseDenom = GetSupply (Rs_Bank s) NativeBaseDenom →
      step {| Ch_Height := h; Ch_InBlock := b; Ch_CoreSlots := cs; Ch_Rewards := s |}
           {| Ch_Height := h; Ch_InBlock := b; Ch_CoreSlots := cs;
              Ch_Rewards := put_Bank bank s |}
  | step_end h cs s s' :
      EndBlock econ cs h s = (s', Ok tt) →
      step {| Ch_Height := h; Ch_InBlock := true; Ch_CoreSlots := cs; Ch_Rewards := s |}
           {| Ch_Height := h; Ch_InBlock := false; Ch_CoreSlots := cs; Ch_Rewards := s' |}.

(** The first block after the open epoch. *)
Definition boundary (s : Store) (v : View) : Z :=
  CurrentEpochStartHeight (V_state v) +
  length_of (EpochConfigVersions (Rs_Geometry s)) (CurrentEpoch (V_state v)).

(** Inside a block the epoch the block belongs to is open; between blocks either
    an epoch is open with blocks to come, or the block just ended closed it. *)
Definition position (inBlock : bool) (h closed : Z) (s : Store) (v : View) : Prop :=
  let start := CurrentEpochStartHeight (V_state v) in
  let cur := CurrentEpoch (V_state v) in
  if inBlock then closed = cur - 1 ∧ start ≤ h < boundary s v
  else (closed = cur - 1 ∧ start - 1 ≤ h ∧ h + 1 < boundary s v) ∨
       (closed = cur ∧ h + 1 = boundary s v).

Record chain_view (base closed : Z) (c : Chain) (v : View) : Prop := {
  c_rewards : rewards_inv econ module_addr base closed (Ch_Rewards c) v;
  c_pause : pause_ok (Ch_Height c) (Rs_PauseState (Ch_Rewards c));
  c_coreslots : cs_inv (Ch_CoreSlots c);
  c_payable : payable_rows econ (Ch_CoreSlots c) (Ch_Rewards c);
  c_height : 0 ≤ Ch_Height c ≤ MaxInt64;
  c_enabled : V_enabled v ≤ Ch_Height c - CurrentEpochStartHeight (V_state v) + 1;
  c_position : position (Ch_InBlock c) (Ch_Height c) closed (Ch_Rewards c) v
}.

(** What no step ever undoes. *)
Record advances (closed closed' : Z) (v v' : View) : Prop := {
  ad_max : V_max v' = V_max v;
  ad_cumulative : V_cumulative v ≤ V_cumulative v';
  ad_epoch : CurrentEpoch (V_state v) ≤ CurrentEpoch (V_state v');
  ad_closed : closed ≤ closed' ≤ closed + 1
}.

Definition chain_inv (base : Z) (c : Chain) : Prop := ∃ closed v, chain_view base closed c v.
End chain.
Arguments Chain {_ _}.
Arguments message : clear implicits.

(** ** Begin block *)
Section begin_block.
Context {SI : SdkInt} {BE : Bech32} {BK : BankKeeper} {CK : CoreSlotKeeper}.
Context (econ : Validator) (module_addr : AccAddress) (cs_inv : CoreSlotStore → Prop).
Context (cs_step : relation CoreSlotStore) (Hct : coreslot_contract econ cs_inv cs_step).

Lemma apply_pause_run h st :
  pause_ok h (Some st) → 0 ≤ h →
  ∃ st', applyPendingPauseTransition (h + 1) (Some st) = (Some st', Ok tt) ∧
    pause_ok (h + 1) (Some st') ∧ GetPauseState (Some st') = Ok st' ∧
    CurrentPaused st' = if HasPending st then PendingValue st else CurrentPaused st.
Proof.
  intros Hp Hh. pose proof (GetPauseState_ok h st Hp) as Hg.
  destruct Hp as (x & [= <-] & Hv & Hpend). unfold applyPendingPauseTransition.
  rewrite (M_bind_run _ _ (Some st) (Some st) st) by (unfold reads; by rewrite Hg).
  destruct (HasPending st) eqn:E; simpl.
  - rewrite (Hpend eq_refl), Z.gtb_ltb, Z.ltb_irrefl.
    eexists. split; [reflexivity|]. split_and!; [|done..]. eexists. split_and!; done.
  - exists st. split_and!; try done. exists st. split_and!; try done. by rewrite E.
Qed.

Lemma sorted_slots_facts a slots :
  cs_wf a → GetActiveSlots a = Ok slots →
  let sorted := merge_sort slot_id_le slots in
  validateActiveSlots sorted = Ok tt ∧ NoDup (SlotId <$> sorted) ∧
  (∀ id, id ∈ SlotId <$> sorted → 0 < id ≤ MaxUint64 ∧
     ∃ slot, slot ∈ slots ∧ SlotId slot = id).
Proof.
  intros Hwf Ha sorted. destruct (GetActiveSlots_wf a slots Hwf Ha) as [Hnd Hall].
  assert (sorted ≡ₚ slots) as Hperm by apply merge_sort_Permutation.
  assert (Forall (λ slot, is_u64 (SlotId slot) ∧ 0 < SlotId slot ∧
    Status slot = SLOT_STATUS_ACTIVE) sorted) as Hall' by (by rewrite Hperm).
  split_and!; [|by rewrite Hperm|].
  - clear Hperm. unfold validateActiveSlots. induction Hall' as [|x l (Hu & H0 & Hs) _ IH]; [done|].
    simpl. destruct (Z.eqb_spec (SlotId x) 0); [lia|].
    rewrite Hs, bool_decide_eq_false_2 by (by intros []). exact IH.
  - intros id Hin. apply list_elem_of_fmap in Hin as (x & -> & Hin). rewrite Forall_forall in Hall'.
    destruct (Hall' x Hin) as (Hu & H0 & _). split; [widths; lia|].
    exists x. split; [by rewrite <- Hperm | done].
Qed.

(** Crediting a block keeps the ledger invariant. *)
Lemma credit_inv base closed (s : Store) v ids m :
  ledger_inv econ module_addr base closed s v → closed = CurrentEpoch (V_state v) - 1 →
  V_enabled v + 1 ≤ length_of (EpochConfigVersions (Rs_Geometry s)) (CurrentEpoch (V_state v)) →
  (∀ id, id ∈ ids → 0 < id ≤ MaxUint64) →
  (∀ k, m !! k = credited (CurrentEpoch (V_state v)) ids (Rs_ActiveBlocks s) k) →
  ledger_inv econ module_addr base closed
    (put_ActiveBlocks m (put_OpenRewardEnabledBlocks (Some (V_enabled v + 1)) s))
    {| V_params := V_params v; V_state := V_state v; V_max := V_max v;
       V_cumulative := V_cumulative v; V_carry := V_carry v; V_enabled := V_enabled v + 1 |}.
Proof.
  intros Hi Hcl Hen Hids Hm. pose proof (i_rows _ _ _ _ _ _ Hi) as Hr.
  pose proof (i_enabled_bound _ _ _ _ _ _ Hi) as Hb.
  destruct Hi. split; simpl; try done; try lia.
  intros e slot b Hk. rewrite Hm in Hk. unfold credited in Hk. simpl in Hk.
  destruct (decide (e = CurrentEpoch (V_state v) ∧ slot ∈ ids)) as [[-> Hin]|].
  - injection Hk as <-. specialize (Hids slot Hin).
    destruct (Rs_ActiveBlocks s !! (CurrentEpoch (V_state v), slot)) as [x|] eqn:E; simpl; [|lia].
    specialize (Hr _ _ _ E). lia.
  - specialize (Hr _ _ _ Hk). lia.
Qed.

(** What a begin block credits: nothing while paused, otherwise one block to the
    epoch and one to every active slot. *)
Definition credits (paused : bool) (slots : list CoreSlot) (e : Z) (s s' : Store) (n n' : Z)
    : Prop :=
  (∀ k, Rs_ActiveBlocks s' !! k =
     if paused then Rs_ActiveBlocks s !! k
     else credited e (SlotId <$> slots) (Rs_ActiveBlocks s) k) ∧
  n' = n + if paused then 0 else 1.

Lemma credited_Permutation e l l' rows k :
  l ≡ₚ l' → credited e l rows k = credited e l' rows k.
Proof.
  intros Hl. unfold credited. destruct (decide (fst k = e ∧ snd k ∈ l)) as [[H1 H2]|Hn].
  - rewrite decide_True; [done|]. split; [done|]. by rewrite <- Hl.
  - rewrite decide_False; [done|]. intros [H1 H2]. apply Hn. split; [done|]. by rewrite Hl.
Qed.

(** The sampling half of a begin block, once the epoch is settled. *)
Lemma sample_spec base closed (s : Store) v h cs :
  rewards_inv econ module_addr base closed s v → closed = CurrentEpoch (V_state v) - 1 →
  pause_ok (h + 1) (Rs_PauseState s) → cs_inv cs → payable_rows econ cs s →
  V_enabled v + 1 ≤ length_of (EpochConfigVersions (Rs_Geometry s)) (CurrentEpoch (V_state v)) →
  ∃ s' v', ((state ← reads GetState;
      paused ← reads (λ s, RewardsPaused (Rs_PauseState s));
      slots ← lift (GetActiveSlots cs);
      let slots := merge_sort slot_id_le slots in
      lift (validateActiveSlots slots) ;;
      if (paused : bool) then mret tt
      else
        enabled ← reads GetOpenRewardEnabledBlocks;
        next ← lift (wrap RwInvalidState (AddUint64 enabled 1));
        SetOpenRewardEnabledBlocks next ;;
        for_each (λ slot, IncrementActiveBlocks (CurrentEpoch state) (SlotId slot)) slots)
      : M Store unit) s = (s', Ok tt) ∧
    rewards_inv econ module_addr base closed s' v' ∧ payable_rows econ cs s' ∧
    Rs_PauseState s' = Rs_PauseState s ∧ Rs_Geometry s' = Rs_Geometry s ∧
    V_state v' = V_state v ∧ V_enabled v' ≤ V_enabled v + 1 ∧
    V_max v' = V_max v ∧ V_cumulative v' = V_cumulative v ∧
    Rs_Entitlements s' = Rs_Entitlements s ∧
    ∃ paused slots, RewardsPaused (Rs_PauseState s) = Ok paused ∧ GetActiveSlots cs = Ok slots ∧
      credits paused slots (CurrentEpoch (V_state v)) s s' (V_enabled v) (V_enabled v').
Proof using Hct.
  intros [Hi Hc] Hcl (st & Hp & Hpv & _) Hcs Hpay Hen.
  pose proof (i_epoch _ _ _ _ _ _ Hi) as He. pose proof (i_rows _ _ _ _ _ _ Hi) as Hr.
  pose proof (inv_enabled_bound _ _ _ _ _ _ Hi) as Hb.
  destruct (ct_active _ _ _ Hct cs Hcs) as [slots Hslots].
  destruct (sorted_slots_facts cs slots (ct_wf _ _ _ Hct cs Hcs) Hslots) as (Hval & Hnd & Hids).
  rewrite (M_bind_run _ _ s s _ (f_equal (pair s) (inv_GetState _ _ _ _ _ _ Hi))).
  assert (RewardsPaused (Rs_PauseState s) = Ok (CurrentPaused st)) as Hpaused
    by (unfold RewardsPaused, GetPauseState; by rewrite Hp, Hpv).
  setoid_rewrite (M_bind_run _ _ s s (CurrentPaused st)); [|unfold reads; by rewrite Hpaused].
  setoid_rewrite (M_bind_run _ _ s s slots); [|unfold lift; by rewrite Hslots].
  set (sorted := merge_sort slot_id_le slots) in *. cbv zeta.
  setoid_rewrite (M_bind_run _ _ s s tt); [|unfold lift; by rewrite Hval].
  destruct (CurrentPaused st) eqn:Epaused.
  { exists s, v. split_and!; try done; [lia|]. exists true, slots. split_and!; [done|done|]. split; [done|]. simpl. lia. }
  setoid_rewrite (M_bind_run _ _ s s (V_enabled v)).
  2:{ unfold reads, GetOpenRewardEnabledBlocks. by rewrite (i_enabled _ _ _ _ _ _ Hi). }
  setoid_rewrite (M_bind_run _ _ s s (V_enabled v + 1)).
  2:{ unfold lift. f_equal. apply wrap_Ok, AddUint64_Ok; widths; lia. }
  set (s1 := put_OpenRewardEnabledBlocks (Some (V_enabled v + 1)) s).
  setoid_rewrite (M_bind_run _ _ s s1 tt); [|done].
  destruct (credit_spec (CurrentEpoch (V_state v)) sorted s1) as (m & Hrun & Hm).
  { lia. } { done. }
  { intros id Hin. split; [specialize (Hids id Hin); lia|]. simpl.
    destruct (Rs_ActiveBlocks s !! _) as [x|] eqn:E; simpl; [|widths; lia].
    specialize (Hr _ _ _ E). widths. lia. }
  eexists _, _. split; [exact Hrun|]. split_and!.
  - split; [|exact Hc]. apply (credit_inv base closed s v (SlotId <$> sorted) m); try done.
    intros id Hin. by apply Hids.
  - intros e slot b Hk Hb0. simpl in Hk. rewrite Hm in Hk. unfold credited in Hk.
    destruct (decide _) as [[_ Hin]|] in Hk; [|by eapply Hpay].
    destruct (Hids _ Hin) as (_ & x & Hx & Hxid). simpl in Hxid. rewrite <- Hxid.
    by apply (ct_payable _ _ _ Hct cs slots).
  - done.
  - done.
  - done.
  - simpl. lia.
  - done.
  - done.
  - done.
  - exists false, slots. split; [done|]. split; [done|]. split; [|done].
    intros k. simpl. rewrite Hm.
    apply credited_Permutation. unfold sorted. by rewrite merge_sort_Permutation.
Qed.

(** What a begin block leaves alone: the entitlements, and the length of every
    epoch up to the one that was open. *)
Definition begun (v : View) (s s' : Store) : Prop :=
  Rs_Entitlements s' = Rs_Entitlements s ∧
  ∀ e, e ≤ CurrentEpoch (V_state v) →
    length_of (EpochConfigVersions (Rs_Geometry s')) e =
    length_of (EpochConfigVersions (Rs_Geometry s)) e.

(** The epoch is settled: open, with this block in it. *)
Lemma settle_spec base closed (s : Store) v h cs :
  rewards_inv econ module_addr base closed s v → position false h closed s v →
  0 ≤ h → h + 1 ≤ MaxInt64 → payable_rows econ cs s →
  V_enabled v ≤ h - CurrentEpochStartHeight (V_state v) + 1 →
  ∃ s' v', advanceEpochIfDue econ (h + 1) s = (s', Ok tt) ∧
    rewards_inv econ module_addr base closed s' v' ∧ payable_rows econ cs s' ∧
    Rs_PauseState s' = Rs_PauseState s ∧ position true (h + 1) closed s' v' ∧
    V_enabled v' ≤ h + 1 - CurrentEpochStartHeight (V_state v') ∧
    V_max v' = V_max v ∧ V_cumulative v' = V_cumulative v ∧
    CurrentEpoch (V_state v') = CurrentEpoch (V_state v) +
      (if decide (closed = CurrentEpoch (V_state v)) then 1 else 0) ∧
    Rs_ActiveBlocks s' = Rs_ActiveBlocks s ∧
    V_enabled v' = (if decide (closed = CurrentEpoch (V_state v)) then 0 else V_enabled v) ∧
    begun v s s'.
Proof.
  intros [Hi Hc] Hpos Hh0 Hh Hpay Hen.
  destruct Hpos as [(Hcl & Hlo & Hhi)|[Hcl Hhi]]; unfold boundary in Hhi.
  - exists s, v. split_and!; try done;
      [|split; [done|]; unfold boundary; lia|lia|rewrite decide_False; lia|by rewrite decide_False by lia].
    by apply (advance_stay econ module_addr base closed s v).
  - rewrite Hcl in Hi.
    destruct (advance_open econ module_addr base s v (h + 1) Hi Hh Hhi)
      as (s' & v' & Hrun & Hi' & Hop). rewrite <- Hcl in Hi'.
    destruct Hop as [-> Hrc Hps _ Hbk Hrows Hlens].
    match type of Hi' with ledger_inv _ _ _ _ _ ?w => exists s', w end.
    split_and!; [exact Hrun | |exact (λ e slot b Hk, Hpay e slot b ltac:(by rewrite <- Hrows)) | done | | |done|done|by rewrite decide_True|done|by rewrite decide_True|by split].
    + split; [exact Hi' | by rewrite Hrc].
    + destruct (inv_start_bounds _ _ _ _ _ _ Hi') as (_ & _ & _ & Hlen & _).
      unfold position, boundary in *. simpl in *. lia.
    + simpl. lia.
Qed.

Lemma begin_spec base closed h cs (s : Store) v :
  chain_view econ module_addr cs_inv base closed
    {| Ch_Height := h; Ch_InBlock := false; Ch_CoreSlots := cs; Ch_Rewards := s |} v →
  h + 1 ≤ MaxInt64 →
  ∃ s' v', BeginBlock econ cs (h + 1) s = (s', Ok tt) ∧
    chain_view econ module_addr cs_inv base closed
      {| Ch_Height := h + 1; Ch_InBlock := true; Ch_CoreSlots := cs; Ch_Rewards := s' |} v' ∧
    advances closed closed v v' ∧ V_cumulative v' = V_cumulative v ∧
    CurrentEpoch (V_state v') = CurrentEpoch (V_state v) +
      (if decide (closed = CurrentEpoch (V_state v)) then 1 else 0) ∧
    ∃ st slots, Rs_PauseState s = Some st ∧ GetActiveSlots cs = Ok slots ∧
      credits (if HasPending st then PendingValue st else CurrentPaused st) slots
        (CurrentEpoch (V_state v')) s s'
        (if decide (closed = CurrentEpoch (V_state v)) then 0 else V_enabled v) (V_enabled v') ∧
      begun v s s'.
Proof using Hct.
  intros [Hi Hpause Hcs Hpay Hh Hen Hpos] Hmax. simpl in *.
  destruct (settle_spec base closed s v h cs Hi Hpos ltac:(lia) Hmax Hpay Hen)
    as (s1 & v1 & Hadv & Hi1 & Hpay1 & Hps1 & Hpos1 & Hen1 & Hm1 & Hk1 & He1 & Hrows1 & Hn1 & Hbk1 & Hlens1).
  destruct (Rs_PauseState s) as [st|] eqn:Est; [|by destruct Hpause as (? & ? & _)].
  destruct (apply_pause_run h st Hpause ltac:(lia)) as (st' & Happ & Hp' & Hg' & Hcp).
  set (s2 := put_PauseState (Some st') s1).
  assert (rewards_inv econ module_addr base closed s2 v1) as Hi2
    by (destruct Hi1 as [Hl Hc]; split; [destruct Hl; by split | exact Hc]).
  destruct (inv_start_bounds _ _ _ _ _ _ (proj1 Hi2)) as (_ & _ & _ & Hlen & _).
  destruct Hpos1 as [Hcl1 Hin1]. unfold boundary in Hin1.
  destruct (sample_spec base closed s2 v1 h cs Hi2 Hcl1 Hp' Hcs Hpay1)
    as (s3 & v3 & Hrun & Hi3 & Hpay3 & Hps3 & Hg3 & Hv3 & Hen3 & Hm3 & Hk3 & Hbk3 &
        paused & slots & Hpaused & Hslots & Hcredit).
  { simpl. lia. }
  exists s3, v3. split_and!.
  - apply cached_Ok. unfold beginBlock.
    rewrite (M_bind_run _ _ s s (h + 1)).
    2:{ unfold lift. f_equal. apply wrap_Ok, Uint64FromInt64_Ok; widths; lia. }
    rewrite (M_bind_run _ _ s s1 tt) by exact Hadv.
    rewrite (M_bind_run _ _ s1 s2 tt).
    2:{ unfold on_pause. erewrite zoom_run; [reflexivity|]. rewrite Hps1. exact Happ. }
    exact Hrun.
  - split; simpl; try done.
    + by rewrite Hps3.
    + lia.
    + rewrite Hv3. lia.
    + unfold boundary. rewrite Hv3, Hg3. split; [done|]. simpl. lia.
  - split; rewrite ?Hv3, ?He1; repeat case_decide; lia.
  - lia.
  - by rewrite Hv3.
  - exists st, slots. split; [done|]. split; [done|]. split.
    2:{ split; [by rewrite Hbk3|]. intros e He. rewrite Hg3. by apply Hlens1. }
    change (Rs_PauseState s2) with (Some st') in Hpaused. unfold RewardsPaused in Hpaused.
    rewrite Hg' in Hpaused.
    cbn [mbind res_bind mret res_ret] in Hpaused. injection Hpaused as <-.
    rewrite <- Hcp, Hv3, <- Hn1. destruct Hcredit as [Hr3 Hn3]. split; [|exact Hn3].
    intros k. rewrite Hr3. simpl. by rewrite Hrows1.
Qed.
End begin_block.

(** ** End block *)
Section end_block.
Context {SI : SdkInt} {BE : Bech32} {BK : BankKeeper} {CK : CoreSlotKeeper}.
Context (econ : Validator) (module_addr : AccAddress) (Henv : environment econ module_addr).
Context (cs_inv : CoreSlotStore → Prop).

(** The promotion that ends an epoch keeps the configuration invariant. *)
Lemma promote_inv closed (rc : RewardConfigStore) :
  reward_wf econ rc → config_inv econ closed rc → 0 ≤ closed → closed + 2 < MaxUint64 →
  (∀ k x, RewardConfigVersions rc !! k = Some x → 0 ≤ RCV_EmissionTreasuryShareBps x) →
  ∃ rc', promoteScheduledRewardConfig econ (closed + 1) rc = (rc', Ok tt) ∧
    reward_wf econ rc' ∧ config_inv econ (closed + 1) rc' ∧
    (∀ k x, RewardConfigVersions rc' !! k = Some x → 0 ≤ RCV_EmissionTreasuryShareBps x) ∧
    (∀ e, e ≤ closed + 1 →
       governing (RewardConfigVersions rc') e = governing (RewardConfigVersions rc) e).
Proof.
  intros Hwf [Hver Hsch] Hc Hm Hsh.
  assert (closed + 1 + 1 = closed + 2) as Heq by lia.
  destruct (promote_total econ rc (closed + 1) Hwf) as [rc' Hrun].
  { lia. }
  { intros k x Hk. rewrite Heq. by destruct (Hsch k x Hk) as (? & ? & ? & _). }
  { intros k x Hk. specialize (Hver k x Hk). lia. }
  exists rc'. split; [done|].
  destruct (promote_Ok econ rc rc' (closed + 1) Hwf ltac:(widths; lia) Hrun)
    as [[Hn ->]|(sched & k & lat & Hs & Hmax & Hkc & Hok & ->)].
  - split_and!; try done. split.
    + intros k x Hk. specialize (Hver k x Hk). lia.
    + intros k x Hk. destruct (Hsch k x Hk) as (-> & _). rewrite Heq in Hn. congruence.
  - apply seek_max_Some in Hmax as HM. destruct HM as [Hk _].
    assert (reward_wf econ (with_version (promoted_version (closed + 1) lat sched) rc)) as Hwf'
      by (eapply with_version_wf; [done | done | simpl; lia | done | done]).
    split_and!.
    + destruct Hwf'; split; done.
    + split; simpl.
      * intros j x Hj. apply lookup_insert_Some in Hj as [[<- <-]|[_ Hj]]; simpl.
        -- specialize (Hver k lat Hk). lia.
        -- specialize (Hver j x Hj). lia.
      * intros j x Hj. apply lookup_delete_Some in Hj as [Hne Hj].
        destruct (Hsch j x Hj) as (-> & _). lia.
    + intros j x Hj. simpl in Hj. apply lookup_insert_Some in Hj as [[<- <-]|[_ Hj]]; simpl; [|eauto].
      rewrite Heq in Hs. by destruct (Hsch _ _ Hs) as (_ & _ & _ & ?).
    + intros e He. apply (governing_insert _ (promoted_version (closed + 1) lat sched)); simpl; lia.
Qed.

Lemma should_finalize base closed (s : Store) v h :
  ledger_inv econ module_addr base closed s v → h < boundary s v →
  ShouldFinalizeAtHeight h s = Ok (h + 1 =? boundary s v).
Proof.
  intros Hi Hh. unfold ShouldFinalizeAtHeight.
  rewrite (inv_GetState _ _ _ _ _ _ Hi). cbn [mbind res_bind].
  rewrite (inv_anchor_ok _ _ _ _ _ _ Hi). cbn [mbind res_bind].
  rewrite (inv_end _ _ _ _ _ _ Hi). cbn [mbind res_bind]. fold (boundary s v) in *.
  destruct (Z.ltb_spec h (boundary s v - 1)), (Z.eqb_spec h (boundary s v - 1)),
    (Z.eqb_spec (h + 1) (boundary s v)); done || lia.
Qed.

(** Closing the epoch and promoting, in the same block. *)
Lemma close_and_promote base (s : Store) v h cs :
  rewards_inv econ module_addr base (CurrentEpoch (V_state v) - 1) s v → 0 < h ≤ MaxInt64 →
  payable_rows econ cs s → CurrentEpoch (V_state v) + 1 < MaxUint64 →
  ∃ s' v' emission treasury, 0 ≤ emission ∧
    ((finalizeEpoch econ cs h ;;
      on_reward_config (promoteScheduledRewardConfig econ (CurrentEpoch (V_state v))))
      : M Store unit) s = (s', Ok tt) ∧
    rewards_inv econ module_addr base (CurrentEpoch (V_state v)) s' v' ∧
    (∃ s1, closes econ module_addr s s1 v v' emission treasury ∧
       s' = put_RewardConfig (Rs_RewardConfig s') s1).
Proof using Henv.
  intros [Hi Hc] Hh Hpay Hem. pose proof (i_epoch _ _ _ _ _ _ Hi) as He.
  destruct (governing_config econ module_addr _ _ _ _ Hi) as (gov & init & Hg & Hin & _).
  destruct (finalizeEpoch_spec econ module_addr Henv cs h Hh base s v gov init Hi Hpay Hg Hin)
    as (Htr & s1 & v1 & Hrun & Hi1 & Hcl).
  destruct (promote_inv (CurrentEpoch (V_state v) - 1) (Rs_RewardConfig s1))
    as (rc & Hpr & Hwf & Hc' & Hsh & Hgv); try lia.
  { apply Hi1. } { by rewrite (cl_reward _ _ _ _ _ _ _ _ Hcl). } { apply Hi1. }
  replace (CurrentEpoch (V_state v) - 1 + 1) with (CurrentEpoch (V_state v)) in * by lia.
  exists (put_RewardConfig rc s1), v1. do 2 eexists. split; [|split_and!; [| |exists s1; split; [exact Hcl | done]]].
  - lia.
  - rewrite (M_bind_run _ _ _ _ _ Hrun). unfold on_reward_config.
    by erewrite zoom_run by exact Hpr.
  - split; [|exact Hc']. apply ledger_inv_reward_config; [done..|]. intros e He2. by apply Hgv.
Qed.

(** An end block changes nothing, or closes the open epoch. *)
Definition ended (closed closed' : Z) (s s' : Store) (v v' : View) : Prop :=
  (s' = s ∧ closed' = closed) ∨
  (closed' = closed + 1 ∧ closed' = CurrentEpoch (V_state v) ∧ ∃ rc s1 emission treasury,
     s' = put_RewardConfig rc s1 ∧ closes econ module_addr s s1 v v' emission treasury).

Lemma end_spec base closed h cs (s : Store) v :
  chain_view econ module_addr cs_inv base closed
    {| Ch_Height := h; Ch_InBlock := true; Ch_CoreSlots := cs; Ch_Rewards := s |} v →
  ∃ closed' s' v', EndBlock econ cs h s = (s', Ok tt) ∧
    chain_view econ module_addr cs_inv base closed'
      {| Ch_Height := h; Ch_InBlock := false; Ch_CoreSlots := cs; Ch_Rewards := s' |} v' ∧
    advances closed closed' v v' ∧
    (V_cumulative v' ≠ V_cumulative v → h + 1 = boundary s v) ∧ ended closed closed' s s' v v'.
Proof using Henv.
  intros [Hi Hpause Hcs Hpay Hh Hen [Hcl Hpos]]. simpl in *.
  destruct (inv_start_bounds _ _ _ _ _ _ (proj1 Hi)) as (H1 & H2 & H3 & H4 & H5).
  pose proof (i_epoch _ _ _ _ _ _ (proj1 Hi)) as He.
  pose proof (i_geometry _ _ _ _ _ _ (proj1 Hi)) as Hwf.
  pose proof (start_of_positive _ Hwf 1 ltac:(lia)) as Hp1.
  pose proof (start_of_growth _ Hwf 1 (CurrentEpoch (V_state v) - 1) ltac:(lia) ltac:(lia)) as Hgr.
  replace (1 + (CurrentEpoch (V_state v) - 1)) with (CurrentEpoch (V_state v)) in Hgr by lia.
  pose proof (should_finalize base closed s v h (proj1 Hi) ltac:(lia)) as Hready.
  assert (∀ A (k : Z → M Store A),
    ((height ← lift (wrap RwInvalidState (Uint64FromInt64 h)); k height) : M Store A) s = k h s)
    as Hheight.
  { intros A k. rewrite (M_bind_run _ _ s s h); [done|].
    unfold lift. f_equal. apply wrap_Ok, Uint64FromInt64_Ok; widths; lia. }
  destruct (Z.eqb_spec (h + 1) (boundary s v)) as [Heq|Hne].
  - rewrite Hcl in Hi.
    destruct (close_and_promote base s v h cs Hi) as (s' & v' & em & tr & Hem & Hrun & Hi' & s1 & Hc1 & Hs');
      [lia | done | widths; lia |].
    exists (CurrentEpoch (V_state v)), s', v'. split_and!.
    + apply cached_Ok. unfold endBlock. rewrite Hheight.
      rewrite (M_bind_run _ _ s s true) by (unfold reads; by rewrite Hready).
      cbn [negb].
      rewrite (M_bind_run _ _ s s _ (f_equal (pair s) (inv_GetState _ _ _ _ _ _ (proj1 Hi)))).
      exact Hrun.
    + assert (boundary s' v' = boundary s v) as Hb'.
      { unfold boundary. rewrite Hs'. simpl.
        by rewrite (cl_geometry _ _ _ _ _ _ _ _ Hc1), (cl_start _ _ _ _ _ _ _ _ Hc1),
          (cl_epoch _ _ _ _ _ _ _ _ Hc1). }
      split; simpl; try done.
      * rewrite Hs'. simpl. by rewrite (cl_pause _ _ _ _ _ _ _ _ Hc1).
      * intros e slot b Hk. rewrite Hs' in Hk. simpl in Hk.
        by rewrite (cl_rows _ _ _ _ _ _ _ _ Hc1) in Hk.
      * by rewrite (cl_enabled _ _ _ _ _ _ _ _ Hc1), (cl_start _ _ _ _ _ _ _ _ Hc1).
      * right. rewrite (cl_epoch _ _ _ _ _ _ _ _ Hc1), Hb'. done.
    + destruct Hc1. split; lia.
    + done.
    + right. split; [lia|]. split; [done|]. by exists (Rs_RewardConfig s'), s1, em, tr.
  - exists closed, s, v. split_and!.
    + apply cached_Ok. unfold endBlock. rewrite Hheight.
      by rewrite (M_bind_run _ _ s s false) by (unfold reads; by rewrite Hready).
    + split; simpl; try done. left. lia.
    + split; lia.
    + done.
    + by left.
Qed.
End end_block.

(** ** Messages *)
Section messages.
Context {SI : SdkInt} {BE : Bech32} {BK : BankKeeper} {CK : CoreSlotKeeper}.
Context (econ : Validator) (module_addr : AccAddress) (Henv : environment econ module_addr).
Context (cs_inv : CoreSlotStore → Prop).

(** A payment keeps the escrow equal to what is owed. *)
Lemma payment_inv base closed (s s' : Store) v to total :
  ledger_inv econ module_addr base closed s v →
  with_bank_and_books s s' → ent_wf (Rs_Entitlements s') → 0 ≤ total →
  (∀ k x, SlotEntitlements (Rs_Entitlements s') !! k = Some x →
     ∃ y, SlotEntitlements (Rs_Entitlements s) !! k = Some y ∧
       Ent_PayoutAddress x = Ent_PayoutAddress y ∧
       Ent_RewardConfigVersion x = Ent_RewardConfigVersion y) →
  map_sum owed (SlotEntitlements (Rs_Entitlements s')) =
    map_sum owed (SlotEntitlements (Rs_Entitlements s)) - total →
  moved module_addr NativeBaseDenom to total (Rs_Bank s) (Rs_Bank s') → to module_addr = 0 →
  ledger_inv econ module_addr base closed s' v.
Proof.
  intros Hi -> Hwf Ht Hold Hsum [Hb Hsup] Hto. simpl in *.
  pose proof (i_books_epochs _ _ _ _ _ _ Hi) as Hbe. pose proof (i_payout _ _ _ _ _ _ Hi) as Hpo.
  pose proof (i_governed _ _ _ _ _ _ Hi) as Hgd. pose proof (i_slots _ _ _ _ _ _ Hi) as Hsl.
  destruct Hi. split; simpl; try done; try lia.
  - intros e slot x Hk. destruct (Hold _ _ Hk) as (y & Hy & _). eauto.
  - intros k x Hk. destruct (Hold _ _ Hk) as (y & Hy & -> & _). eauto.
  - intros k x Hk. destruct (Hold _ _ Hk) as (y & Hy & _ & Hv).
    destruct (Hgd _ _ Hy) as (w & Hw & Hwv). exists w. split; [done | congruence].
  - intros k x Hk. destruct (Hold _ _ Hk) as (y & Hy & _). by eapply Hsl.
  - rewrite Hb, !decide_True by done. lia.
  - by rewrite Hsup.
Qed.

Lemma line_for_module payouts : sum_of (line_for econ module_addr) payouts = 0.
Proof using Henv.
  induction payouts as [|p payouts IH]; [done|]. rewrite sum_of_cons, IH. unfold line_for.
  destruct (Validate econ (Payout_Recipient p)) as [a|] eqn:E; [|done].
  apply Validate_Ok in E as (_ & _ & Hm & _). rewrite decide_False; [done|].
  intros ->. apply Hm, (env_refused _ _ Henv).
Qed.

Lemma pay_inv base closed (s s' : Store) v slotID epoch payouts r :
  ledger_inv econ module_addr base closed s v →
  PayEntitlement econ slotID epoch payouts s = (s', r) →
  ledger_inv econ module_addr base closed s' v ∧
  s' = put_Entitlements (Rs_Entitlements s') (put_Bank (Rs_Bank s') s).
Proof using Henv.
  intros Hi H. pose proof (PayEntitlement_spec econ module_addr slotID epoch payouts s s' r
    (env_module _ _ Henv) (i_books _ _ _ _ _ _ Hi) H) as Hspec.
  destruct r as [[]|e]; [|by subst; split; [|destruct s]].
  destruct Hspec as (p & e & a & rel & Hp & _ & _ & Hall & Hk & _ & _ & _ & Hs & Hwf & Hm & Hsum & Hmv).
  unfold GetParams in Hp. rewrite (i_params _ _ _ _ _ _ Hi) in Hp. injection Hp as <-.
  rewrite (proj1 (Params_Validate_facts _ (proj1 (i_params_ok _ _ _ _ _ _ Hi)))) in Hmv.
  split; [|exact Hs].
  apply (payment_inv base closed s s' v (λ x, sum_of (line_for econ x) payouts)
    (sum_of line_amount payouts)); try done.
  - apply sum_of_nonneg. eapply Forall_impl; [exact Hall|]. simpl. lia.
  - intros k x Hx. rewrite Hm in Hx. apply lookup_insert_Some in Hx as [[<- <-]|[_ Hx]]; eauto.
  - apply line_for_module.
Qed.

Lemma pay_remainder_inv base closed (s s' : Store) v slotID epoch r :
  ledger_inv econ module_addr base closed s v →
  PayEntitlementRemainderToOperator econ slotID epoch s = (s', r) →
  ledger_inv econ module_addr base closed s' v ∧
  s' = put_Entitlements (Rs_Entitlements s') (put_Bank (Rs_Bank s') s).
Proof using Henv.
  intros Hi H. pose proof (PayRemainder_spec econ module_addr slotID epoch s s' r
    (env_module _ _ Henv) (i_books _ _ _ _ _ _ Hi) H) as Hspec.
  destruct r as [[]|err]; [|by subst; split; [|destruct s]].
  destruct Hspec as (e & Hk & Hwf & Hs & Hsum & (e' & a & Hk' & _ & _ & _ & _ & Haddr & Hver) & Hold & Hz & Hpay & _).
  split; [|exact Hs].
  pose proof (records_owed_nonneg _ (ent_records _ (i_books _ _ _ _ _ _ Hi)) _ _ Hk) as Hnn.
  destruct (decide (owed e = 0)) as [Hzero|Hpos]; [by rewrite (Hz Hzero)|].
  destruct Hpay as (p & recipient & Hp & Hval & Hmv); [lia|].
  unfold GetParams in Hp. rewrite (i_params _ _ _ _ _ _ Hi) in Hp. injection Hp as <-.
  rewrite (proj1 (Params_Validate_facts _ (proj1 (i_params_ok _ _ _ _ _ _ Hi)))) in Hmv.
  apply (payment_inv base closed s s' v (λ x, if decide (recipient = x) then owed e else 0)
    (owed e)); try done.
  - intros k x Hx. destruct (decide (k = (epoch, slotID))) as [->|Hne].
    + exists e. split_and!; [done | congruence..].
    + rewrite Hold in Hx by done. eauto.
  - rewrite decide_False; [done|]. intros ->.
    apply Validate_Ok in Hval as (_ & _ & Hm & _). apply Hm, (env_refused _ _ Henv).
Qed.

Lemma schedule_pause_Ok h b p p' :
  0 ≤ h ≤ MaxInt64 → SchedulePauseTransition h b p = (p', Ok tt) → pause_ok h p'.
Proof.
  intros Hh H. unfold SchedulePauseTransition, SetPauseState in H. minv.
  match goal with H : Uint64FromInt64 _ = Ok _ |- _ =>
    apply Uint64FromInt64_Ok in H as [-> _]; [|widths; lia] end.
  match goal with H : AddUint64 _ _ = Ok _ |- _ =>
    apply AddUint64_Ok in H as [-> _]; [|widths; lia..] end.
  eexists. split_and!; done.
Qed.

Lemma schedulePause_Ok cs h signer b (s s' : Store) :
  0 ≤ h ≤ MaxInt64 → schedulePause cs h signer b s = (s', Ok tt) →
  ∃ p, s' = put_PauseState p s ∧ pause_ok h p.
Proof.
  intros Hh H. unfold schedulePause, on_pause in H. minv.
  match goal with H : SchedulePauseTransition _ _ _ = _ |- _ =>
    apply schedule_pause_Ok in H; [|done] end. eauto.
Qed.

Lemma update_params_Ok cs msg (s s' : Store) p :
  Rs_Params s = Some p → UpdateRewardsParams econ cs msg s = (s', Ok tt) →
  ∃ q, s' = put_PendingParams (Some q) s ∧ params_ok econ q ∧ P_MaxSupply q = P_MaxSupply p.
Proof.
  intros Hp H. unfold UpdateRewardsParams in H. destruct msg as [[signer [q|]]|]; minv.
  unfold SetPendingParams in *. minv. unfold GetParams in *. rewrite Hp in *. simplify_eq/=.
  match goal with H : ValidateUpdate _ _ = Ok _ |- _ => unfold ValidateUpdate in H end. minv.
  repeat match goal with H : bool_decide _ = false |- _ =>
    apply bool_decide_eq_false_1, dec_stable in H end.
  exists q. by split_and!.
Qed.

(** A message that is no payment leaves the entitlements and the epochs alone. *)
Definition is_payment (m : message) : bool :=
  match m with Pay _ _ _ | PayRemainder _ _ => true | _ => false end.

Lemma message_keeps h cs (s s' : Store) p m r :
  is_payment m = false → Rs_Params s = Some p → 0 ≤ h ≤ MaxInt64 →
  deliver econ cs h m s = (s', r) →
  Rs_Entitlements s' = Rs_Entitlements s ∧ Rs_Geometry s' = Rs_Geometry s.
Proof.
  intros Hm Hp Hh H. destruct r as [[]|err]; [|by apply cached_Err in H as ->].
  apply (proj1 (cached_Ok _ _ _ _)) in H. destruct m as [msg|[msg|]|[msg|]| |]; try done.
  - by apply (update_params_Ok cs msg s s' p) in H as (q & -> & _).
  - by apply schedulePause_Ok in H as (q & -> & _).
  - by apply schedulePause_Ok in H as (q & -> & _).
Qed.

(** Whatever a message does, delivered or refused. *)
Lemma message_spec base closed h cs (s s' : Store) v m r :
  chain_view econ module_addr cs_inv base closed
    {| Ch_Height := h; Ch_InBlock := true; Ch_CoreSlots := cs; Ch_Rewards := s |} v →
  deliver econ cs h m s = (s', r) →
  chain_view econ module_addr cs_inv base closed
    {| Ch_Height := h; Ch_InBlock := true; Ch_CoreSlots := cs; Ch_Rewards := s' |} v.
Proof using Henv.
  intros Hv H. destruct r as [[]|err]; [|by apply cached_Err in H as ->].
  apply (proj1 (cached_Ok _ _ _ _)) in H. destruct Hv as [[Hl Hc] Hp Hcs Hpay Hh Hen Hpos].
  simpl in *. destruct m as [msg|msg|msg|slotID epoch payouts|slotID epoch].
  - apply (update_params_Ok cs msg s s' (V_params v)) in H as (q & -> & Hq); [|apply Hl].
    split; simpl; try done. split; [|done]. destruct Hl. split; simpl; try done.
    by intros ? [= <-].
  - unfold PauseRewards in H. destruct msg as [msg|]; [|done].
    apply schedulePause_Ok in H as (p & -> & Hp'); [|done].
    split; simpl; try done. split; [|done]. destruct Hl. by split.
  - unfold ResumeRewards in H. destruct msg as [msg|]; [|done].
    apply schedulePause_Ok in H as (p & -> & Hp'); [|done].
    split; simpl; try done. split; [|done]. destruct Hl. by split.
  - destruct (pay_inv base closed s s' v slotID epoch payouts (Ok tt) Hl H) as [Hl' Hs].
    rewrite Hs in Hl' |- *. by split.
  - destruct (pay_remainder_inv base closed s s' v slotID epoch (Ok tt) Hl H) as [Hl' Hs].
    rewrite Hs in Hl' |- *. by split.
Qed.
End messages.

(** ** Every step *)
Section steps.
Context {SI : SdkInt} {BE : Bech32} {BK : BankKeeper} {CK : CoreSlotKeeper}.
Context (econ : Validator) (module_addr : AccAddress) (cs_inv : CoreSlotStore → Prop).
Context (cs_step : relation CoreSlotStore).
Context (Henv : environment econ module_addr) (Hct : coreslot_contract econ cs_inv cs_step).
Abbreviation chain_step := (step econ module_addr cs_step).

Lemma advances_refl closed v : advances closed closed v v.
Proof. split; lia. Qed.

(** What CoreSlot and the rest of the chain do in between. *)
Lemma coreslot_view base closed h b cs cs' (s : Store) v :
  chain_view econ module_addr cs_inv base closed
    {| Ch_Height := h; Ch_InBlock := b; Ch_CoreSlots := cs; Ch_Rewards := s |} v →
  cs_step cs cs' →
  chain_view econ module_addr cs_inv base closed
    {| Ch_Height := h; Ch_InBlock := b; Ch_CoreSlots := cs'; Ch_Rewards := s |} v.
Proof using Hct.
  intros [Hr Hp Hwf Hpay Hh Hen Hpos] Hcs. split; simpl in *; try done.
  - by eapply (ct_step _ _ _ Hct).
  - intros e slot n Hk Hn. destruct (Hpay e slot n Hk Hn) as [sn Hsn].
    by eapply (ct_stable _ _ _ Hct).
Qed.

Lemma bank_view base closed h b cs (s : Store) v bank :
  chain_view econ module_addr cs_inv base closed
    {| Ch_Height := h; Ch_InBlock := b; Ch_CoreSlots := cs; Ch_Rewards := s |} v →
  GetBalance bank module_addr NativeBaseDenom =
    GetBalance (Rs_Bank s) module_addr NativeBaseDenom →
  GetSupply bank NativeBaseDenom = GetSupply (Rs_Bank s) NativeBaseDenom →
  chain_view econ module_addr cs_inv base closed
    {| Ch_Height := h; Ch_InBlock := b; Ch_CoreSlots := cs; Ch_Rewards := put_Bank bank s |} v.
Proof.
  intros [[Hl Hc] Hp Hwf Hpay Hh Hen Hpos] Hbal Hsup. split; simpl in *; try done.
  split; [|exact Hc]. destruct Hl. split; simpl; try done; lia.
Qed.

(** [ends_epoch c c']: the step is the end block of an epoch's last block. *)
Definition ends_epoch (c c' : Chain) (v : View) : Prop :=
  Ch_InBlock c = true ∧ Ch_InBlock c' = false ∧
  Ch_Height c + 1 = boundary (Ch_Rewards c) v.

Lemma step_spec base closed c c' v :
  chain_view econ module_addr cs_inv base closed c v → chain_step c c' →
  ∃ closed' v', chain_view econ module_addr cs_inv base closed' c' v' ∧ advances closed closed' v v' ∧
    (V_cumulative v' ≠ V_cumulative v → ends_epoch c c' v).
Proof using Henv Hct.
  intros Hv Hstep. destruct Hstep as [h cs s s' Hmax Hrun|h cs s m s' r Hrun|h b cs cs' s Hcs
    |h b cs s bank Hbal Hsup|h cs s s' Hrun].
  - destruct (begin_spec econ module_addr cs_inv cs_step Hct base closed h cs s v Hv Hmax)
      as (s1 & v1 & Hrun1 & Hv1 & Had & Hk & _). rewrite Hrun in Hrun1. injection Hrun1 as <-.
    by exists closed, v1.
  - exists closed, v. split_and!; [|apply advances_refl|done].
    by eapply message_spec.
  - exists closed, v. split_and!; [|apply advances_refl|done]. by eapply coreslot_view.
  - exists closed, v. split_and!; [|apply advances_refl|done]. by eapply bank_view.
  - destruct (end_spec econ module_addr Henv cs_inv base closed h cs s v Hv)
      as (closed1 & s1 & v1 & Hrun1 & Hv1 & Had & Hk & _). rewrite Hrun in Hrun1. injection Hrun1 as <-.
    exists closed1, v1. split_and!; [done..|]. intros Hne. split_and!; [done|done|]. by apply Hk.
Qed.

Lemma steps_spec base closed c c' v :
  chain_view econ module_addr cs_inv base closed c v → rtc chain_step c c' →
  ∃ closed' v', chain_view econ module_addr cs_inv base closed' c' v' ∧ V_max v' = V_max v ∧
    V_cumulative v ≤ V_cumulative v' ∧ CurrentEpoch (V_state v) ≤ CurrentEpoch (V_state v').
Proof using Henv Hct.
  intros Hv Hsteps. revert closed v Hv. induction Hsteps as [c|c c1 c2 Hstep _ IH]; intros closed v Hv.
  { exists closed, v. split_and!; done || lia. }
  destruct (step_spec base closed c c1 v Hv Hstep) as (closed1 & v1 & Hv1 & [Hm Hk He _] & _).
  destruct (IH closed1 v1 Hv1) as (closed2 & v2 & Hv2 & Hm2 & Hk2 & He2).
  exists closed2, v2. split_and!; [done | congruence | lia | lia].
Qed.

Lemma hooks_run base closed c v :
  chain_view econ module_addr cs_inv base closed c v →
  if Ch_InBlock c
  then ∃ s', EndBlock econ (Ch_CoreSlots c) (Ch_Height c) (Ch_Rewards c) = (s', Ok tt)
  else Ch_Height c < MaxInt64 →
    ∃ s', BeginBlock econ (Ch_CoreSlots c) (Ch_Height c + 1) (Ch_Rewards c) = (s', Ok tt).
Proof using Henv Hct.
  destruct c as [h [|] cs s]; simpl; intros Hv.
  - destruct (end_spec econ module_addr Henv cs_inv base closed h cs s v Hv) as (? & s' & ? & Hrun & _).
    by exists s'.
  - intros Hmax. destruct (begin_spec econ module_addr cs_inv cs_step Hct base closed h cs s v Hv ltac:(lia))
      as (s' & ? & Hrun & _). by exists s'.
Qed.

(** What the registered invariants say of a state of the module invariant. *)
Lemma registered_invariants base closed (s : Store) v :
  ledger_inv econ module_addr base closed s v →
  CumulativeEmittedInvariant s = false ∧ ModuleBalanceCoverageInvariant s = false ∧
  EntitlementLiabilityInvariant s = false ∧ ClosedEpochImmutabilityInvariant s = false ∧
  SupplyCapInvariant s = (base + V_cumulative v >? V_max v).
Proof using Henv.
  intros Hi. destruct (inv_amounts _ _ _ _ _ _ Hi)
    as (Hden & _ & Hmax & Hcum & Hcarry & Hbase & Hl & Howed & Hsolv & Hsup).
  pose proof (i_books _ _ _ _ _ _ Hi) as Hbooks.
  assert (GetParams s = Ok (V_params v)) as Hp
    by (unfold GetParams; by rewrite (i_params _ _ _ _ _ _ Hi)).
  split_and!.
  - unfold CumulativeEmittedInvariant.
    rewrite Hp, (inv_GetState _ _ _ _ _ _ Hi). cbn [mbind res_bind].
    rewrite (i_max _ _ _ _ _ _ Hi), (i_cum _ _ _ _ _ _ Hi). cbn [mbind res_bind].
    unfold invariant. cbn. rewrite Z.gtb_ltb. apply Z.ltb_ge. lia.
  - unfold ModuleBalanceCoverageInvariant.
    rewrite Hp, (inv_GetState _ _ _ _ _ _ Hi). cbn [mbind res_bind].
    rewrite (i_carry _ _ _ _ _ _ Hi), (ent_liability _ Hbooks). cbn [mbind res_bind].
    assert (or_err ErrExternal (Int_SafeAdd (map_sum owed (SlotEntitlements (Rs_Entitlements s)))
      (V_carry v)) = Ok (map_sum owed (SlotEntitlements (Rs_Entitlements s)) + V_carry v)) as ->
      by (apply SafeAdd_Ok; split; [done | int_solve]).
    cbn [mbind res_bind]. rewrite (env_module _ _ Henv), Hden, Hsolv. unfold invariant. cbn.
    apply Z.ltb_irrefl.
  - unfold EntitlementLiabilityInvariant.
    rewrite (ent_liability _ Hbooks), (SumOutstanding_spec _ Hbooks). cbn [mbind res_bind].
    unfold invariant. cbn. by rewrite Z.eqb_refl.
  - unfold ClosedEpochImmutabilityInvariant.
    assert (∀ l : list (Z * EpochReward), (∀ k x, (k, x) ∈ l → Rewards x = []) →
      for_each (λ kv, fail_if (bool_decide (Rewards (snd kv) ≠ [])) ErrPlain) l = Ok tt) as Hfe.
    { induction l as [|[k x] l IH]; intros Hl'; [done|]. simpl.
      rewrite bool_decide_eq_false_2; [apply IH; intros; eapply Hl'; by right|].
      rewrite (Hl' k x) by (by left). by intros []. }
    rewrite Hfe. 2:{ intros k x Hk%elem_of_entries. by apply (i_finalized _ _ _ _ _ _ Hi) in Hk as [_ ?]. }
    assert (∀ l : list ((Z * Z) * SlotEntitlement),
      (∀ k x, (k, x) ∈ l → validateEntitlementRecord k x = Ok tt) →
      for_each (λ kv, validateEntitlementRecord (fst kv) (snd kv)) l = Ok tt) as Hbe.
    { induction l as [|[k x] l IH]; intros Hl'; [done|]. simpl.
      rewrite (Hl' k x) by (by left). apply IH. intros. apply Hl'. by right. }
    cbn [mbind res_bind]. rewrite Hbe; [done|]. intros k x Hk%elem_of_pair_entries.
    by apply (ent_records _ Hbooks).
  - unfold SupplyCapInvariant. rewrite Hp. cbn [mbind res_bind].
    rewrite (i_max _ _ _ _ _ _ Hi). unfold invariant. cbn. by rewrite Hden, Hsup.
Qed.
End steps.

(** ** A sample chain *)
Section sample.
#[local] Existing Instances sdkint_256 bech32_id ledger_bank list_coreslots.

(** Every stored slot can be paid; slots are changed, never deleted. *)
Definition sample_cs_inv (a : list CoreSlot) : Prop :=
  list_coreslot_wf a ∧
  Forall (λ slot, ∃ sn, slotRewardSnapshot sample_validator slot = Ok sn) a.
Definition sample_cs_step (a b : list CoreSlot) : Prop :=
  sample_cs_inv b ∧ ∀ id, is_ok (list_get a id) = true → is_ok (list_get b id) = true.

Lemma sample_snapshot_ok a id slot :
  sample_cs_inv a → list_get a id = Ok slot →
  ∃ sn, GetSlotRewardSnapshot sample_validator (a : CoreSlotStore) id = Ok sn.
Proof.
  intros [_ Hall] Hget. pose proof (list_get_id a id slot Hget) as Hid.
  unfold GetSlotRewardSnapshot. simpl. rewrite Hget. cbn [mbind res_bind].
  rewrite Hid, Z.eqb_refl. cbn [negb fail_if mret res_ret mbind res_bind].
  rewrite Forall_forall in Hall. apply Hall. unfold list_get in Hget.
  destruct (List.find _ a) as [x|] eqn:E; [|done]. injection Hget as ->.
  apply List.find_some in E as [Hin _]. by apply list_elem_of_In.
Qed.

Lemma list_get_elem a slot :
  slot ∈ a → ∃ slot', list_get a (SlotId slot) = Ok slot'.
Proof.
  intros Hin. unfold list_get. destruct (List.find _ a) as [x|] eqn:E; [eauto|].
  apply list_elem_of_In in Hin. pose proof (List.find_none _ _ E slot Hin) as Hn.
  simpl in Hn. by rewrite Z.eqb_refl in Hn.
Qed.

Lemma sample_contract :
  @coreslot_contract list_coreslots sample_validator sample_cs_inv sample_cs_step.
Proof.
  split.
  - intros a [H _]. exact H.
  - intros a b _ [H _]. exact H.
  - intros a _. by exists (list_active a).
  - intros a slots slot Ha [= <-] Hin. unfold list_active in Hin.
    apply list_elem_of_filter in Hin as [_ Hin].
    destruct (list_get_elem a slot Hin) as [slot' Hget]. by eapply sample_snapshot_ok.
  - intros a b id sn _ [Hb Hstep] Hsn. unfold GetSlotRewardSnapshot in Hsn. simpl in Hsn.
    destruct (list_get a id) as [x|] eqn:E; [|done].
    specialize (Hstep id). rewrite E in Hstep. specialize (Hstep eq_refl).
    destruct (list_get b id) as [y|] eqn:E'; [|done]. by eapply sample_snapshot_ok.
Qed.

Definition sample_chain_store : Store := put_RewardConfig {|
  RewardConfigVersions := RewardConfigVersions sample_reward_store;
  RewardConfigVersionIndex := RewardConfigVersionIndex sample_reward_store;
  ScheduledRewardConfigs := {[3 := {| SRC_EffectiveEpoch := 3;
    SRC_InitialBlockSubsidy := "1000"%string; SRC_EmissionTreasuryShareBps := 0;
    SRC_TreasuryAddress := EmptyString |}]} |} sample_store.

Definition sample_chain : Chain := {|
  Ch_Height := 500; Ch_InBlock := false; Ch_CoreSlots := (sample_coreslots : CoreSlotStore);
  Ch_Rewards := sample_chain_store |}.

Lemma sample_ledger_inv' :
  ledger_inv sample_validator "rewards"%string 0 1 sample_chain_store sample_view.
Proof.
  apply ledger_inv_reward_config; [exact sample_ledger_inv| |exact (i_reward_shares _ _ _ _ _ _ sample_ledger_inv) | done].
  destruct sample_reward_wf. by split.
Qed.

Lemma sample_chain_view :
  chain_view sample_validator "rewards"%string sample_cs_inv 0 1 sample_chain sample_view.
Proof.
  split.
  - split; [exact sample_ledger_inv'|]. split; simpl; intros k x Hk;
      apply lookup_singleton_Some in Hk as [<- <-].
    + vm_compute. split; discriminate.
    + split; [done|]. split_and!; vm_compute; done.
  - simpl. eexists. split_and!; [reflexivity | reflexivity | done].
  - split.
    + split; [change (NoDup [7; 9]); apply NoDup_cons; split; [set_solver | apply NoDup_singleton]|].
      repeat constructor; vm_compute; discriminate.
    + apply Forall_cons. split; [|apply Forall_singleton]; eexists; vm_compute; reflexivity.
  - intros e slot b Hk _. simpl in Hk. apply lookup_singleton_Some in Hk as [[= <- <-] <-].
    eexists. vm_compute. reflexivity.
  - vm_compute. split; discriminate.
  - vm_compute. discriminate.
  - left. vm_compute. repeat split; discriminate.
Qed.

(** The chain after the next begin block. *)
Definition sample_next_store : Store :=
  Eval vm_compute in
    fst (BeginBlock sample_validator (sample_coreslots : CoreSlotStore) 501 sample_chain_store).
Definition sample_next : Chain := {|
  Ch_Height := 501; Ch_InBlock := true; Ch_CoreSlots := (sample_coreslots : CoreSlotStore);
  Ch_Rewards := sample_next_store |}.

Lemma sample_begins :
  BeginBlock sample_validator (sample_coreslots : CoreSlotStore) (500 + 1) sample_chain_store =
    (Ch_Rewards sample_next, Ok tt).
Proof. vm_eq. Qed.

Lemma sample_step : step sample_validator "rewards"%string sample_cs_step sample_chain sample_next.
Proof. apply (step_begin _ _ _ 500); [vm_compute; discriminate | exact sample_begins]. Qed.
End sample.

(** ** Properties *)

(** The rewards module never halts the chain: from any state of the chain
    invariant, through any sequence of blocks, messages, CoreSlot changes and
    foreign transfers, the hook that is due next succeeds: inside a block the end
    block, between blocks (heights permitting) the begin block of the next. *)
Theorem chain_never_halts {SI : SdkInt} {BE : Bech32} {BK : BankKeeper} {CK : CoreSlotKeeper}
    (econ : Validator) (module_addr : AccAddress) (cs_inv : CoreSlotStore → Prop)
    (cs_step : relation CoreSlotStore) (base : Z) (c c' : Chain) :
  environment econ module_addr → coreslot_contract econ cs_inv cs_step →
  chain_inv econ module_addr cs_inv base c → rtc (step econ module_addr cs_step) c c' →
  if Ch_InBlock c'
  then ∃ s', EndBlock econ (Ch_CoreSlots c') (Ch_Height c') (Ch_Rewards c') = (s', Ok tt)
  else Ch_Height c' < MaxInt64 →
    ∃ s', BeginBlock econ (Ch_CoreSlots c') (Ch_Height c' + 1) (Ch_Rewards c') = (s', Ok tt).
Proof.
  intros Henv Hct (closed & v & Hv) Hsteps.
  destruct (steps_spec econ module_addr cs_inv cs_step Henv Hct base closed c c' v Hv Hsteps)
    as (closed' & v' & Hv' & _).
  by eapply hooks_run.
Qed.

Lemma chain_never_halts_witness :
  ∃ s', @EndBlock sdkint_256 bech32_id ledger_bank list_coreslots sample_validator
    sample_coreslots 501 sample_next_store = (s', Ok tt).
Proof.
  apply (@chain_never_halts sdkint_256 bech32_id ledger_bank list_coreslots sample_validator
    "rewards"%string sample_cs_inv sample_cs_step 0 sample_chain sample_next).
  - exact sample_environment.
  - exact sample_contract.
  - exists 1, sample_view. exact sample_chain_view.
  - apply rtc_once. exact sample_step.
Defined.

(** C2: every state reachable from a state of the chain invariant satisfies it:
    the escrow holds exactly the outstanding liability plus the carry, the
    liability is what the entitlements owe, the supply is the pre-existing one
    plus the cumulative emission, which only grows and never passes the fixed
    maximum, no more blocks are reward-enabled than the epoch has had, no slot
    is credited more than that, and the epoch number never falls. *)
Theorem chain_invariant_preserved {SI : SdkInt} {BE : Bech32} {BK : BankKeeper} {CK : CoreSlotKeeper}
    (econ : Validator) (module_addr : AccAddress) (cs_inv : CoreSlotStore → Prop)
    (cs_step : relation CoreSlotStore) (base closed : Z) (c c' : Chain) (v : View) :
  environment econ module_addr → coreslot_contract econ cs_inv cs_step →
  chain_view econ module_addr cs_inv base closed c v →
  rtc (step econ module_addr cs_step) c c' →
  ∃ closed' v',
    chain_view econ module_addr cs_inv base closed' c' v' ∧
    GetBalance (Rs_Bank (Ch_Rewards c')) module_addr NativeBaseDenom =
      map_sum owed (SlotEntitlements (Rs_Entitlements (Ch_Rewards c'))) + V_carry v' ∧
    GetSupply (Rs_Bank (Ch_Rewards c')) NativeBaseDenom = base + V_cumulative v' ∧
    V_cumulative v ≤ V_cumulative v' ≤ V_max v ∧
    (∀ e slot b, Rs_ActiveBlocks (Ch_Rewards c') !! (e, slot) = Some b →
       e = CurrentEpoch (V_state v') ∧ 0 ≤ b ≤ V_enabled v' ∧
       V_enabled v' ≤ Ch_Height c' - CurrentEpochStartHeight (V_state v') + 1) ∧
    CurrentEpoch (V_state v) ≤ CurrentEpoch (V_state v').
Proof.
  intros Henv Hct Hv Hsteps.
  destruct (steps_spec econ module_addr cs_inv cs_step Henv Hct base closed c c' v Hv Hsteps)
    as (closed' & v' & Hv' & Hm & Hc & He).
  exists closed', v'. pose proof (proj1 (c_rewards _ _ _ _ _ _ _ Hv')) as Hi.
  destruct (inv_amounts _ _ _ _ _ _ Hi) as (_ & _ & _ & Hcum & _ & _ & _ & _ & Hs & Hsup).
  split_and!; [done | done | done | lia | lia | | lia].
  intros e slot b Hk. pose proof (i_rows _ _ _ _ _ _ Hi e slot b Hk).
  pose proof (c_enabled _ _ _ _ _ _ _ Hv'). split_and!; lia.
Qed.

Lemma chain_invariant_preserved_witness :
  ∃ v', 105 ≤ V_cumulative v' ≤ 21000000000000 ∧
    @GetSupply ledger_bank (Rs_Bank sample_next_store) NativeBaseDenom = 0 + V_cumulative v'.
Proof.
  destruct (@chain_invariant_preserved sdkint_256 bech32_id ledger_bank list_coreslots
    sample_validator "rewards"%string sample_cs_inv sample_cs_step 0 1 sample_chain sample_next
    sample_view) as (closed' & v' & _ & _ & Hs & Hc & _).
  - exact sample_environment.
  - exact sample_contract.
  - exact sample_chain_view.
  - apply rtc_once. exact sample_step.
  - exists v'. split; [exact Hc | exact Hs].
Defined.

(** Coins are minted at epoch closes and nowhere else: a step changes the
    cumulative emission, hence the supply, only if it is the end block of the
    last block of the open epoch. *)
Theorem emission_only_at_epoch_close {SI : SdkInt} {BE : Bech32} {BK : BankKeeper}
    {CK : CoreSlotKeeper} (econ : Validator) (module_addr : AccAddress)
    (cs_inv : CoreSlotStore → Prop) (cs_step : relation CoreSlotStore) (base closed : Z)
    (c c' : Chain) (v : View) :
  environment econ module_addr → coreslot_contract econ cs_inv cs_step →
  chain_view econ module_addr cs_inv base closed c v → step econ module_addr cs_step c c' →
  GetSupply (Rs_Bank (Ch_Rewards c)) NativeBaseDenom ≤
    GetSupply (Rs_Bank (Ch_Rewards c')) NativeBaseDenom ∧
  (GetSupply (Rs_Bank (Ch_Rewards c')) NativeBaseDenom ≠
     GetSupply (Rs_Bank (Ch_Rewards c)) NativeBaseDenom →
   ends_epoch c c' v).
Proof.
  intros Henv Hct Hv Hstep.
  destruct (step_spec econ module_addr cs_inv cs_step Henv Hct base closed c c' v Hv Hstep)
    as (closed' & v' & Hv' & [_ Hc _ _] & Hne).
  rewrite (i_supply _ _ _ _ _ _ (proj1 (c_rewards _ _ _ _ _ _ _ Hv))),
    (i_supply _ _ _ _ _ _ (proj1 (c_rewards _ _ _ _ _ _ _ Hv'))).
  split; [lia|]. intros Hd. apply Hne. lia.
Qed.

Lemma emission_only_at_epoch_close_witness :
  @GetSupply ledger_bank (Rs_Bank sample_chain_store) NativeBaseDenom ≤
    @GetSupply ledger_bank (Rs_Bank sample_next_store) NativeBaseDenom.
Proof.
  apply (@emission_only_at_epoch_close sdkint_256 bech32_id ledger_bank list_coreslots
    sample_validator "rewards"%string sample_cs_inv sample_cs_step 0 1 sample_chain sample_next
    sample_view).
  - exact sample_environment.
  - exact sample_contract.
  - exact sample_chain_view.
  - exact sample_step.
Defined.

(** A begin block credits exactly what the rules say: with the pause value
    due at this block off, one block to the epoch the block belongs to (counted
    from zero when the block opens it) and one to each slot active at its start;
    with it on, nothing; and every other participation row is unchanged. *)
Theorem begin_block_credits {SI : SdkInt} {BE : Bech32} {BK : BankKeeper} {CK : CoreSlotKeeper}
    (econ : Validator) (module_addr : AccAddress) (cs_inv : CoreSlotStore → Prop)
    (cs_step : relation CoreSlotStore) (base closed h : Z) (cs : CoreSlotStore) (s : Store)
    (v : View) :
  coreslot_contract econ cs_inv cs_step →
  chain_view econ module_addr cs_inv base closed
    {| Ch_Height := h; Ch_InBlock := false; Ch_CoreSlots := cs; Ch_Rewards := s |} v →
  h + 1 ≤ MaxInt64 →
  ∃ s' v' pause slots,
    BeginBlock econ cs (h + 1) s = (s', Ok tt) ∧
    Rs_PauseState s = Some pause ∧ GetActiveSlots cs = Ok slots ∧
    Rs_OpenRewardEnabledBlocks s' = Some (V_enabled v') ∧
    (if decide (closed = CurrentEpoch (V_state v))
     then h + 1 = boundary s v ∧ CurrentEpoch (V_state v') = CurrentEpoch (V_state v) + 1
     else h + 1 < boundary s v ∧ CurrentEpoch (V_state v') = CurrentEpoch (V_state v)) ∧
    credits (if HasPending pause then PendingValue pause else CurrentPaused pause) slots
      (CurrentEpoch (V_state v')) s s'
      (if decide (closed = CurrentEpoch (V_state v)) then 0 else V_enabled v) (V_enabled v').
Proof.
  intros Hct Hv Hmax.
  destruct (begin_spec econ module_addr cs_inv cs_step Hct base closed h cs s v Hv Hmax)
    as (s' & v' & Hrun & Hv' & _ & _ & He & pause & slots & Hp & Hs & Hcr & _).
  exists s', v', pause, slots. split_and!; try done.
  - exact (i_enabled _ _ _ _ _ _ (proj1 (c_rewards _ _ _ _ _ _ _ Hv'))).
  - pose proof (c_position _ _ _ _ _ _ _ Hv) as Hpos. unfold position in Hpos. simpl in Hpos.
    case_decide; lia.
Qed.

Lemma begin_block_credits_witness :
  ∃ s', @BeginBlock sdkint_256 bech32_id ledger_bank list_coreslots sample_validator
    sample_coreslots (500 + 1) sample_chain_store = (s', Ok tt).
Proof.
  destruct (@begin_block_credits sdkint_256 bech32_id ledger_bank list_coreslots sample_validator
    "rewards"%string sample_cs_inv sample_cs_step 0 1 500 sample_coreslots sample_chain_store
    sample_view) as (s' & _ & _ & _ & H & _).
  - exact sample_contract.
  - exact sample_chain_view.
  - vm_compute. discriminate.
  - exists s'. exact H.
Defined.

(** The registered invariants agree with the ledger invariant: in every state
    that satisfies it, cumulative emission, module balance coverage, entitlement
    liability and closed-epoch immutability report nothing, and the supply cap is
    reported exactly when coins that existed outside the module's emission take
    the supply past the maximum. *)
Theorem registered_invariants_silent {SI : SdkInt} {BE : Bech32} {BK : BankKeeper}
    (econ : Validator) (module_addr : AccAddress) (base closed : Z) (s : Store) (v : View) :
  environment econ module_addr → ledger_inv econ module_addr base closed s v →
  CumulativeEmittedInvariant s = false ∧ ModuleBalanceCoverageInvariant s = false ∧
  EntitlementLiabilityInvariant s = false ∧ ClosedEpochImmutabilityInvariant s = false ∧
  SupplyCapInvariant s = (base + V_cumulative v >? V_max v).
Proof. intros Henv. by apply registered_invariants. Qed.

Lemma registered_invariants_silent_witness :
  @SupplyCapInvariant sdkint_256 ledger_bank sample_store = false.
Proof.
  apply (@registered_invariants_silent sdkint_256 bech32_id ledger_bank sample_validator
    "rewards"%string 0 1 sample_store sample_view).
  - exact sample_environment.
  - exact sample_ledger_inv.
Defined.
