(* ===== verification/RewardsGenesis.v ===== *)
(** * x/rewards: the genesis document

    [types/genesis.go], the record rules of [types/validation.go] it uses, and
    [keeper/genesis.go]: validation, import and export.
    [RewardsGenesisTheorems] runs the import of an admitted document and states
    what it establishes. *)
From S2P Require Import Prelude Checked SdkMath Bounds EconomicAddress RewardsTypes.
From S2P Require Import Collections EpochHistory RewardConfig Bank Pause Entitlement RewardsKeeper.
Local Open Scope Z_scope.

Record RewardsGenesis := {
  RG_Params : option Params;
  RG_State : option RewardsState;
  RG_FinalizedEpochs : list (option EpochReward);
  RG_CurrentEpochConfig : option EpochConfigSnapshot;
  RG_HasPendingParams : bool;
  RG_PendingParams : option Params;
  RG_EpochConfigVersions : list (option EpochConfigVersion);
  RG_ScheduledEpochConfigs : list (option ScheduledEpochConfig);
  RG_PauseState : option RewardsPauseState;
  RG_OpenRewardEnabledBlocks : Z;
  RG_RewardConfigVersions : list (option RewardConfigVersion);
  RG_ScheduledRewardConfigs : list (option ScheduledRewardConfig);
  RG_SlotEntitlements : list (option SlotEntitlement);
  RG_OutstandingEntitlementLiability : string
}.

Definition DefaultGenesis : RewardsGenesis := {|
  RG_Params := Some DefaultParams;
  RG_State := Some {| CurrentEpoch := 1; CurrentEpochStartHeight := 1;
    CumulativeEmitted := "0"%string; CarryForwardRemainder := "0"%string |};
  RG_FinalizedEpochs := [];
  RG_CurrentEpochConfig := Some (DefaultEpochConfigSnapshot DefaultParams);
  RG_HasPendingParams := false;
  RG_PendingParams := None;
  RG_EpochConfigVersions := [Some (DefaultEpochConfigVersion DefaultParams 1)];
  RG_ScheduledEpochConfigs := [];
  RG_PauseState := Some {| CurrentPaused := false; HasPending := false; PendingValue := false;
    PendingEffectiveHeight := 0 |};
  RG_OpenRewardEnabledBlocks := 0;
  RG_RewardConfigVersions := [Some (DefaultRewardConfigVersion DefaultParams)];
  RG_ScheduledRewardConfigs := [];
  RG_SlotEntitlements := [];
  RG_OutstandingEntitlementLiability := "0"%string |}.

(** ** types: what a document says of itself *)
Section validate.
Context {SI : SdkInt} {BE : Bech32} {DC : DecCodec}.
Implicit Types (g : RewardsGenesis).

Definition ValidateWeightString (value : string) : res unit :=
  fail_if (bool_decide (TrimSpace value = EmptyString)) RwInvalidGenesis ;;
  match LegacyNewDecFromStr value with
  | None => Err RwInvalidGenesis
  | Some weight => fail_if (weight <? 0) RwInvalidGenesis
  end.

Definition validateStateAmount (value : string) : res unit :=
  wrap RwInvalidGenesis (ParseAmountString value) ;;
  mret tt.

Definition validateAddress (address : string) : res unit :=
  match AccAddressFromBech32 address with
  | None => Err RwInvalidGenesis
  | Some _ => mret tt
  end.

Definition validateEligibleReward (reward : option EligibleSlotReward) : res unit :=
  match reward with
  | None => Err RwInvalidGenesis
  | Some reward =>
      fail_if ((ESR_SlotId reward =? 0) || (ESR_EpochNumber reward =? 0)) RwInvalidGenesis ;;
      validateAddress (ESR_OperatorAddress reward) ;;
      validateAddress (ESR_PayoutAddress reward) ;;
      ValidateWeightString (ESR_RewardWeight reward) ;;
      ValidateWeightString (ESR_EffectiveWeight reward) ;;
      validateStateAmount (ESR_Amount reward) ;;
      fail_if (negb (ESR_Claimed reward) && negb (ESR_ClaimedAtHeight reward =? 0))
        RwInvalidGenesis
  end.

(** The amounts are walked in the random order of a Go map; every failure is the
    same sentinel. *)
Definition validateEpochReward (epoch : option EpochReward) : res unit :=
  match epoch with
  | None => Err RwInvalidGenesis
  | Some epoch =>
      fail_if ((EpochNumber epoch =? 0) || (StartHeight epoch =? 0) ||
               (EndHeight epoch <? StartHeight epoch)) RwInvalidGenesis ;;
      for_each validateStateAmount
        [MintedEmission epoch; CarryIn epoch; DistributableFees epoch; TreasuryAmount epoch;
         RewardPool epoch; AllocatedAmount epoch; CarryOut epoch;
         CumulativeEmittedAfterEpoch epoch] ;;
      match Config epoch with
      | None => Err RwInvalidGenesis
      | Some config => Snapshot_Validate config
      end ;;
      for_each (λ reward,
        validateEligibleReward reward ;;
        reward ← deref_ptr reward;
        fail_if (negb (ESR_EpochNumber reward =? EpochNumber epoch)) RwInvalidGenesis)
        (Rewards epoch)
  end.

Definition validateFreshGenesisPauseState (state : RewardsPauseState) : res unit :=
  fail_if (HasPending state) RwInvalidGenesis ;;
  fail_if (PendingValue state || negb (PendingEffectiveHeight state =? 0)) RwInvalidGenesis.

Definition validateEpochTimeline g : res unit :=
  match RG_PauseState g with
  | None => Err RwInvalidGenesis
  | Some pause =>
      wrap RwInvalidGenesis (Pause_Validate pause) ;;
      validateFreshGenesisPauseState pause
  end ;;
  fail_if (bool_decide (RG_ScheduledEpochConfigs g ≠ [])) RwInvalidGenesis ;;
  fail_if (negb (RG_OpenRewardEnabledBlocks g =? 0)) RwInvalidGenesis ;;
  match RG_EpochConfigVersions g with
  | [anchor] =>
      match anchor with
      | None => Err RwInvalidGenesis
      | Some anchor =>
          wrap RwInvalidGenesis (ECV_Validate anchor) ;;
          wrap RwInvalidGenesis (ValidateEpochLengthBlocks (ECV_EpochLengthBlocks anchor)) ;;
          fail_if (negb (ECV_Version anchor =? 1) || negb (ECV_EffectiveEpoch anchor =? 1))
            RwInvalidGenesis ;;
          state ← deref_ptr (RG_State g);
          fail_if (negb (CurrentEpoch state =? 1)) RwInvalidGenesis ;;
          fail_if (negb (CurrentEpochStartHeight state =? ECV_EffectiveStartHeight anchor))
            RwInvalidGenesis ;;
          config ← deref_ptr (RG_CurrentEpochConfig g);
          fail_if (negb (Snap_EpochLengthBlocks config =? ECV_EpochLengthBlocks anchor))
            RwInvalidGenesis ;;
          params ← deref_ptr (RG_Params g);
          fail_if (negb (P_EpochLengthBlocks params =? ECV_EpochLengthBlocks anchor))
            RwInvalidGenesis
      end
  | _ => Err RwInvalidGenesis
  end.

Definition validateRewardConfigMirrors g (anchor : RewardConfigVersion) : res unit :=
  params ← deref_ptr (RG_Params g);
  config ← deref_ptr (RG_CurrentEpochConfig g);
  for_each (λ '(subsidy, shareBps, treasury),
    fail_if (bool_decide (subsidy ≠ RCV_InitialBlockSubsidy anchor)) RwInvalidGenesis ;;
    fail_if (negb (shareBps =? RCV_EmissionTreasuryShareBps anchor)) RwInvalidGenesis ;;
    fail_if (bool_decide (treasury ≠ RCV_TreasuryAddress anchor)) RwInvalidGenesis)
    [(P_InitialBlockSubsidy params, P_EmissionTreasuryShareBps params, P_TreasuryAddress params);
     (Snap_InitialBlockSubsidy config, Snap_EmissionTreasuryShareBps config,
      Snap_TreasuryAddress config)].

Definition validateRewardConfigTimeline g : res unit :=
  fail_if (bool_decide (RG_ScheduledRewardConfigs g ≠ [])) RwInvalidGenesis ;;
  match RG_RewardConfigVersions g with
  | [anchor] =>
      match anchor with
      | None => Err RwInvalidGenesis
      | Some anchor =>
          wrap RwInvalidGenesis (RCV_Validate anchor) ;;
          fail_if (negb (RCV_Version anchor =? 1) || negb (RCV_EffectiveEpoch anchor =? 1))
            RwInvalidGenesis ;;
          validateRewardConfigMirrors g anchor
      end
  | _ => Err RwInvalidGenesis
  end.

Definition validateFreshLedgerState g : res unit :=
  fail_if (bool_decide (RG_FinalizedEpochs g ≠ [])) RwInvalidGenesis ;;
  fail_if (bool_decide (RG_SlotEntitlements g ≠ [])) RwInvalidGenesis ;;
  fail_if (bool_decide (RG_OutstandingEntitlementLiability g ≠ "0"%string)) RwInvalidGenesis.

(** One finalized epoch against the ones before it. *)
Definition scanFinalizedEpoch (epochs : gset Z) (epoch : option EpochReward) : res (gset Z) :=
  validateEpochReward epoch ;;
  epoch ← deref_ptr epoch;
  fail_if (bool_decide (EpochNumber epoch ∈ epochs)) RwInvalidGenesis ;;
  mret ({[EpochNumber epoch]} ∪ epochs).

(** [GenesisState.Validate] *)
Definition RewardsGenesis_Validate g : res unit :=
  match RG_Params g, RG_State g, RG_CurrentEpochConfig g with
  | Some params, Some state, Some config =>
      wrap RwInvalidGenesis (Params_Validate params) ;;
      fail_if ((CurrentEpoch state =? 0) || (CurrentEpochStartHeight state =? 0))
        RwInvalidGenesis ;;
      validateStateAmount (CumulativeEmitted state) ;;
      validateStateAmount (CarryForwardRemainder state) ;;
      cumulative ← deref (NewIntFromString (CumulativeEmitted state));
      maxSupply ← deref (NewIntFromString (P_MaxSupply params));
      fail_if (cumulative >? maxSupply) RwInvalidGenesis ;;
      Snapshot_Validate config ;;
      validateEpochTimeline g ;;
      validateRewardConfigTimeline g ;;
      validateFreshLedgerState g ;;
      (if RG_HasPendingParams g then
         match RG_PendingParams g with
         | None => Err RwInvalidGenesis
         | Some pending => wrap RwInvalidGenesis (ValidateUpdate params pending)
         end
       else fail_if (bool_decide (RG_PendingParams g ≠ None)) RwInvalidGenesis) ;;
      fold_m scanFinalizedEpoch (RG_FinalizedEpochs g) ∅ ;;
      mret tt
  | _, _, _ => Err RwInvalidGenesis
  end.

Definition ValidateFreshGenesisInitialHeight (genesis : option RewardsGenesis)
    (initialHeight : Z) : res unit :=
  match genesis with
  | None => Err RwInvalidGenesis
  | Some g =>
      fail_if (initialHeight <? 1) RwInvalidGenesis ;;
      let height := u64 initialHeight in
      match RG_EpochConfigVersions g with
      | [Some anchor] =>
          fail_if (negb (ECV_EffectiveStartHeight anchor =? height)) RwInvalidGenesis
      | _ => Err RwInvalidGenesis
      end ;;
      match RG_State g with
      | Some state => fail_if (negb (CurrentEpochStartHeight state =? height)) RwInvalidGenesis
      | None => mret tt
      end ;;
      match RG_PauseState g with
      | Some pause => validateFreshGenesisPauseState pause
      | None => mret tt
      end
  end.
End validate.

(** ** keeper *)
Section keeper.
Context {SI : SdkInt} {BE : Bech32} {BK : BankKeeper} {DC : DecCodec}.
Context (economicAddresses : Validator).
Implicit Types (g : RewardsGenesis).
Abbreviation KM := (M Store).

(** A check of the records present. *)
Definition for_present {A} (f : A → res unit) : list (option A) → res unit :=
  for_each (λ x, match x with Some x => f x | None => mret tt end).

Definition validateGenesisEconomicAddresses g : res unit :=
  for_present (validateParamsTreasury economicAddresses) [RG_Params g] ;;
  (if RG_HasPendingParams g
   then for_present (validateParamsTreasury economicAddresses) [RG_PendingParams g]
   else mret tt) ;;
  for_present (validateSnapshotTreasury economicAddresses) [RG_CurrentEpochConfig g] ;;
  for_present (validateRewardConfigTreasury economicAddresses) (RG_RewardConfigVersions g) ;;
  for_present (validateScheduledRewardConfigTreasury economicAddresses)
    (RG_ScheduledRewardConfigs g) ;;
  for_present (validateFinalizedEpochAddresses economicAddresses) (RG_FinalizedEpochs g) ;;
  for_present (λ entitlement,
    validatePayoutDestination economicAddresses (Ent_PayoutAddress entitlement))
    (RG_SlotEntitlements g).

Definition effectiveInitialHeight (height : Z) : res Z :=
  fail_if (height <? 0) RwInvalidGenesis ;;
  if height =? 0 then mret 1 else mret height.

Definition assertGenesisEscrowMatchesCarry (params : Params) (state : RewardsState) (s : Store)
    : res unit :=
  carry ← wrap RwInvalidGenesis (ParseAmountString (CarryForwardRemainder state));
  match GetModuleAddress ModuleName with
  | None => Err RwInvalidGenesis
  | Some address =>
      let balance := GetBalance (Rs_Bank s) address (P_NativeDenom params) in
      fail_if (negb (balance =? carry)) RwInvalidGenesis
  end.

(** [importGenesisCollection] on each of the collections routed through it. *)
Definition importEpochConfigVersion (version : option EpochConfigVersion) : M Geometry unit :=
  version ← lift (deref_ptr version);
  modify (set_version version).
Definition importScheduledEpochConfig (scheduled : option ScheduledEpochConfig)
    : M Geometry unit :=
  scheduled ← lift (deref_ptr scheduled);
  modify (λ s, {|
    EpochConfigVersions := EpochConfigVersions s;
    ScheduledEpochConfigs :=
      <[SEC_EffectiveEpoch scheduled := scheduled]> (ScheduledEpochConfigs s) |}).
Definition initEpochHistoryGenesis g : M Geometry unit :=
  for_each importEpochConfigVersion (RG_EpochConfigVersions g) ;;
  for_each importScheduledEpochConfig (RG_ScheduledEpochConfigs g).

(** One version number against the ones seen: nonzero, at most the length of the
    history, and new. *)
Definition scanVersionNumber (versions : list (option RewardConfigVersion)) (seen : gset Z)
    (version : option RewardConfigVersion) : res (gset Z) :=
  match version with
  | None => Err RwInvalidGenesis
  | Some version =>
      fail_if ((RCV_Version version =? 0) || (RCV_Version version >? Z.of_nat (length versions)))
        RwInvalidGenesis ;;
      fail_if (bool_decide (RCV_Version version ∈ seen)) RwInvalidGenesis ;;
      mret ({[RCV_Version version]} ∪ seen)
  end.
Definition indexVersion (version : option RewardConfigVersion) : M RewardConfigStore unit := λ s,
  match version with
  | None => (s, Err Panic)
  | Some version =>
      let '(s', r) := setRewardConfigVersionIndex version s in (s', wrap RwInvalidGenesis r)
  end.
Definition rebuildRewardConfigVersionIndex (versions : list (option RewardConfigVersion))
    : M RewardConfigStore unit :=
  _ ← lift (fold_m (scanVersionNumber versions) versions ∅);
  for_each indexVersion versions.

Definition importRewardConfigVersion (version : option RewardConfigVersion)
    : M RewardConfigStore unit :=
  version ← lift (deref_ptr version);
  modify (set_reward_version version).
Definition importScheduledRewardConfig (scheduled : option ScheduledRewardConfig)
    : M RewardConfigStore unit :=
  scheduled ← lift (deref_ptr scheduled);
  modify (λ s, {|
    RewardConfigVersions := RewardConfigVersions s;
    RewardConfigVersionIndex := RewardConfigVersionIndex s;
    ScheduledRewardConfigs :=
      <[SRC_EffectiveEpoch scheduled := scheduled]> (ScheduledRewardConfigs s) |}).
Definition initRewardConfigGenesis g : M RewardConfigStore unit :=
  for_each importRewardConfigVersion (RG_RewardConfigVersions g) ;;
  rebuildRewardConfigVersionIndex (RG_RewardConfigVersions g) ;;
  for_each importScheduledRewardConfig (RG_ScheduledRewardConfigs g).

Definition importSlotEntitlement (entitlement : option SlotEntitlement) : M EntitlementStore unit :=
  entitlement ← lift (deref_ptr entitlement);
  modify (set_entitlement
    (entitlementKey (Ent_Epoch entitlement) (Ent_SlotId entitlement)) entitlement).
Definition initEntitlementGenesis g : M EntitlementStore unit :=
  for_each importSlotEntitlement (RG_SlotEntitlements g) ;;
  liability ← lift (wrap RwInvalidGenesis
    (ParseAmountString (RG_OutstandingEntitlementLiability g)));
  SetOutstandingEntitlementLiability (Some liability).

(** The writes of [InitGenesis], after its preflight. *)
Definition importGenesis g (params : Params) (state : RewardsState) : KM unit :=
  SetParams economicAddresses params ;;
  SetState state ;;
  config ← lift (deref_ptr (RG_CurrentEpochConfig g));
  SetCurrentEpochConfig economicAddresses config ;;
  on_geometry (initEpochHistoryGenesis g) ;;
  on_reward_config (initRewardConfigGenesis g) ;;
  on_entitlements (initEntitlementGenesis g) ;;
  pause ← lift (deref_ptr (RG_PauseState g));
  on_pause (SetPauseState pause) ;;
  SetOpenRewardEnabledBlocks (RG_OpenRewardEnabledBlocks g) ;;
  (if RG_HasPendingParams g then
     pending ← lift (deref_ptr (RG_PendingParams g));
     SetPendingParams economicAddresses pending
   else mret tt) ;;
  for_each (λ epoch,
    epoch ← lift (deref_ptr epoch);
    SetFinalizedEpoch economicAddresses epoch) (RG_FinalizedEpochs g).

Definition InitGenesis (height : Z) g : KM unit :=
  lift (RewardsGenesis_Validate g) ;;
  lift (validateGenesisEconomicAddresses g) ;;
  initialHeight ← lift (effectiveInitialHeight height);
  lift (ValidateFreshGenesisInitialHeight (Some g) initialHeight) ;;
  params ← lift (deref_ptr (RG_Params g));
  state ← lift (deref_ptr (RG_State g));
  reads (assertGenesisEscrowMatchesCarry params state) ;;
  importGenesis g params state.

Definition ExportGenesis (s : Store) : res RewardsGenesis :=
  params ← GetParams s;
  state ← GetState s;
  config ← GetCurrentEpochConfig s;
  pauseState ← GetPauseState (Rs_PauseState s);
  openBlocks ← GetOpenRewardEnabledBlocks s;
  liability ← GetOutstandingEntitlementLiability (Rs_Entitlements s);
  let pending := GetPendingParams s in
  mret {|
    RG_Params := Some params;
    RG_State := Some state;
    RG_FinalizedEpochs := walk (Rs_FinalizedEpochs s);
    RG_CurrentEpochConfig := Some config;
    RG_HasPendingParams := bool_decide (is_Some pending);
    RG_PendingParams := pending;
    RG_EpochConfigVersions := walk (EpochConfigVersions (Rs_Geometry s));
    RG_ScheduledEpochConfigs := walk (ScheduledEpochConfigs (Rs_Geometry s));
    RG_PauseState := Some pauseState;
    RG_OpenRewardEnabledBlocks := openBlocks;
    RG_RewardConfigVersions := walk (RewardConfigVersions (Rs_RewardConfig s));
    RG_ScheduledRewardConfigs := walk (ScheduledRewardConfigs (Rs_RewardConfig s));
    RG_SlotEntitlements := walk_pairs (SlotEntitlements (Rs_Entitlements s));
    RG_OutstandingEntitlementLiability := Int_String liability |}.

(** The module before its genesis: every collection empty, the bank as its own
    genesis, run first, left it. *)
Definition emptyRewardsStore (bank : Bank) : Store := {|
  Rs_Params := None; Rs_PendingParams := None; Rs_State := None; Rs_CurrentEpochConfig := None;
  Rs_ActiveBlocks := ∅; Rs_FinalizedEpochs := ∅;
  Rs_Geometry := {| EpochConfigVersions := ∅; ScheduledEpochConfigs := ∅ |};
  Rs_RewardConfig := {| RewardConfigVersions := ∅; RewardConfigVersionIndex := ∅;
    ScheduledRewardConfigs := ∅ |};
  Rs_Entitlements := {| SlotEntitlements := ∅; OutstandingEntitlementLiability := None |};
  Rs_PauseState := None; Rs_OpenRewardEnabledBlocks := None; Rs_Bank := bank |}.
End keeper.
