(* ===== verification/RewardsGenesisTheorems.v ===== *)
(** * x/rewards genesis: what an accepted document establishes

    An accepted document has one shape ([fresh_document]); its import runs to one
    store ([imported]), which satisfies the invariant of the module at the block
    before the first.  A refused one writes nothing. *)
From S2P Require Import Prelude Checked SdkMath Bounds EconomicAddress RewardsTypes.
From S2P Require Import Collections Allocation EpochHistory RewardConfig Bank CoreSlotTypes Pause.
From S2P Require Import Entitlement RewardsKeeper RewardsInvariant Release Finalize Lifecycle Chain.
From S2P Require Import RewardsGenesis.
Local Open Scope Z_scope.

Section genesis.
Context {SI : SdkInt} {BE : Bech32} {BK : BankKeeper} {DC : DecCodec}.
Context (econ : Validator).

(** The parts of a document a fresh chain may choose. *)
Record Parts := {
  pt_params : Params;
  pt_state : RewardsState;
  pt_config : EpochConfigSnapshot;
  pt_version : EpochConfigVersion;
  pt_reward : RewardConfigVersion;
  pt_pause : RewardsPauseState;
  pt_pending : option Params
}.
Definition fresh_document (d : Parts) : RewardsGenesis := {|
  RG_Params := Some (pt_params d);
  RG_State := Some (pt_state d);
  RG_FinalizedEpochs := [];
  RG_CurrentEpochConfig := Some (pt_config d);
  RG_HasPendingParams := bool_decide (is_Some (pt_pending d));
  RG_PendingParams := pt_pending d;
  RG_EpochConfigVersions := [Some (pt_version d)];
  RG_ScheduledEpochConfigs := [];
  RG_PauseState := Some (pt_pause d);
  RG_OpenRewardEnabledBlocks := 0;
  RG_RewardConfigVersions := [Some (pt_reward d)];
  RG_ScheduledRewardConfigs := [];
  RG_SlotEntitlements := [];
  RG_OutstandingEntitlementLiability := "0"%string |}.

(** What the preflight has checked of them, for a chain whose first block is
    [h0]. *)
Record accepted (h0 : Z) (d : Parts) (maximum cumulative carry : Z) : Prop := {
  ac_height : 1 ≤ h0;
  ac_params : params_ok econ (pt_params d);
  ac_max : ParseAmountString (P_MaxSupply (pt_params d)) = Ok maximum;
  ac_cumulative : ParseAmountString (CumulativeEmitted (pt_state d)) = Ok cumulative;
  ac_carry : ParseAmountString (CarryForwardRemainder (pt_state d)) = Ok carry;
  ac_below : cumulative ≤ maximum;
  ac_epoch : CurrentEpoch (pt_state d) = 1;
  ac_start : CurrentEpochStartHeight (pt_state d) = u64 h0;
  ac_config : Snapshot_Validate (pt_config d) = Ok tt ∧
    validateSnapshotTreasury econ (pt_config d) = Ok tt;
  ac_version : ECV_Version (pt_version d) = 1;
  ac_effective : ECV_EffectiveEpoch (pt_version d) = 1;
  ac_anchor : ECV_EffectiveStartHeight (pt_version d) = u64 h0;
  ac_anchor_nonzero : u64 h0 ≠ 0;
  ac_length : ValidateEpochLengthBlocks (ECV_EpochLengthBlocks (pt_version d)) = Ok tt;
  ac_mirrors : P_InitialBlockSubsidy (pt_params d) = RCV_InitialBlockSubsidy (pt_reward d) ∧
    P_EmissionTreasuryShareBps (pt_params d) = RCV_EmissionTreasuryShareBps (pt_reward d) ∧
    P_TreasuryAddress (pt_params d) = RCV_TreasuryAddress (pt_reward d) ∧
    P_EpochLengthBlocks (pt_params d) = ECV_EpochLengthBlocks (pt_version d);
  ac_reward : RCV_Validate (pt_reward d) = Ok tt ∧
    validateRewardConfigTreasury econ (pt_reward d) = Ok tt;
  ac_reward_version : RCV_Version (pt_reward d) = 1;
  ac_reward_epoch : RCV_EffectiveEpoch (pt_reward d) = 1;
  ac_pause : HasPending (pt_pause d) = false;
  ac_pause_value : PendingValue (pt_pause d) = false;
  ac_pause_height : PendingEffectiveHeight (pt_pause d) = 0;
  ac_pending : ∀ q, pt_pending d = Some q → ValidateUpdate (pt_params d) q = Ok tt ∧
    validateParamsTreasury econ q = Ok tt
}.

(** Boolean guards of a check that passed. *)
Ltac guards := zify_bool; repeat match goal with
  | H : bool_decide _ = false |- _ => apply bool_decide_eq_false, dec_stable in H
  | H : Some _ = Some _ |- _ => injection H as H
  | H : (_ =? _) = true |- _ => apply Z.eqb_eq in H
  end; subst.

Lemma deref_Ok o z : deref o = Ok z → o = Some z.
Proof. destruct o; simpl; congruence. Qed.

(** A document the preflight admits. *)
Lemma preflight_accepted h0 g :
  RewardsGenesis_Validate g = Ok tt → validateGenesisEconomicAddresses econ g = Ok tt →
  ValidateFreshGenesisInitialHeight (Some g) h0 = Ok tt →
  ∃ d maximum cumulative carry, g = fresh_document d ∧ accepted h0 d maximum cumulative carry.
Proof.
  destruct g as [params state finalized config has pending versions sched pause open rewards
    rsched ents liability].
  unfold RewardsGenesis_Validate, validateEpochTimeline, validateRewardConfigTimeline,
    validateFreshLedgerState, validateGenesisEconomicAddresses, validateFreshGenesisPauseState,
    validateStateAmount. simpl.
  intros Hv Ha Hh.
  destruct params as [params|], state as [state|], config as [config|]; try done.
  destruct pause as [pause|]; [|minv].
  destruct versions as [|[version|] [|]]; try solve [minv].
  destruct rewards as [|[reward|] [|]]; try solve [minv].
  cbn [deref_ptr mbind res_bind] in Hv. minv. guards.
  destruct (ParseAmountString (P_MaxSupply params)) as [maximum|] eqn:Hmax.
  2:{ apply Params_Validate_iff in H10 as [(m & Hm & _) _]. congruence. }
  pose proof (ParseAmountString_NewInt _ _ Hmax) as Hmax'.
  match goal with H : ParseAmountString (CumulativeEmitted _) = _ |- _ =>
    pose proof (ParseAmountString_NewInt _ _ H) as Hcum' end.
  repeat match goal with H : deref _ = Ok _ |- _ => apply deref_Ok in H end.
  repeat match goal with H : for_present _ _ = Ok tt |- _ => unfold for_present in H; simpl in H end.
  repeat match goal with H : _ ≫= (λ _, mret ()) = Ok tt |- _ =>
    apply res_bind_Ok in H as ([] & ? & _) end.
  exists {| pt_params := params; pt_state := state; pt_config := config; pt_version := version;
    pt_reward := reward; pt_pause := pause; pt_pending := pending |}.
  do 3 eexists. split.
  - unfold fresh_document. simpl. f_equal.
    destruct has, pending; simpl in *; done.
  - split; simpl; try done; try congruence; try lia.
    + unfold validateRewardConfigMirrors in *. simpl in *. minv. guards. split_and!; congruence.
    + intros q ->. destruct has; [|done]. unfold for_present in *. simpl in *. minv. done.
Qed.

(** ** The import *)

(** What the writes leave. *)
Definition imported (d : Parts) (bank : Bank) : Store := {|
  Rs_Params := Some (pt_params d);
  Rs_PendingParams := pt_pending d;
  Rs_State := Some (pt_state d);
  Rs_CurrentEpochConfig := Some (pt_config d);
  Rs_ActiveBlocks := ∅;
  Rs_FinalizedEpochs := ∅;
  Rs_Geometry := {| EpochConfigVersions := {[1 := pt_version d]}; ScheduledEpochConfigs := ∅ |};
  Rs_RewardConfig := {| RewardConfigVersions := {[1 := pt_reward d]};
    RewardConfigVersionIndex := {[1 := 1]}; ScheduledRewardConfigs := ∅ |};
  Rs_Entitlements := {| SlotEntitlements := ∅;
    OutstandingEntitlementLiability := Some (Int_String 0) |};
  Rs_PauseState := Some (pt_pause d);
  Rs_OpenRewardEnabledBlocks := Some 0;
  Rs_Bank := bank |}.

Section import.
Context (h0 : Z) (d : Parts) (maximum cumulative carry : Z).
Context (Hd : accepted h0 d maximum cumulative carry).

Lemma import_params (s : Store) :
  SetParams econ (pt_params d) s = (put_Params (Some (pt_params d)) s, Ok tt).
Proof using Hd.
  destruct (ac_params _ _ _ _ _ Hd) as [Hv Ht]. unfold SetParams, lift.
  by rewrite !(M_bind_run _ _ s s tt) by by rewrite ?Hv, ?Ht.
Qed.

Lemma import_state (s : Store) :
  Rs_Params s = Some (pt_params d) →
  SetState (pt_state d) s = (put_State (Some (pt_state d)) s, Ok tt).
Proof using Hd.
  intros Hp. unfold SetState, reads, GetParams, coll_get, lift.
  rewrite (ac_cumulative _ _ _ _ _ Hd), (ac_carry _ _ _ _ _ Hd), (ac_epoch _ _ _ _ _ Hd),
    (ac_start _ _ _ _ _ Hd).
  pose proof (ac_anchor_nonzero _ _ _ _ _ Hd) as Hz. apply Z.eqb_neq in Hz. rewrite Hz.
  rewrite (M_bind_run _ _ s s tt) by done. simpl.
  rewrite (M_bind_run _ _ s s cumulative) by done. rewrite (M_bind_run _ _ s s carry) by done.
  rewrite (M_bind_run _ _ s s (pt_params d)) by by rewrite Hp.
  rewrite (M_bind_run _ _ s s maximum)
    by by rewrite (ParseAmountString_NewInt _ _ (ac_max _ _ _ _ _ Hd)).
  pose proof (ac_below _ _ _ _ _ Hd) as Hb. rewrite Z.gtb_ltb. apply Z.ltb_ge in Hb.
  by rewrite (M_bind_run _ _ s s tt) by by rewrite Hb.
Qed.

Lemma import_config (s : Store) :
  SetCurrentEpochConfig econ (pt_config d) s =
    (put_CurrentEpochConfig (Some (pt_config d)) s, Ok tt).
Proof using Hd.
  destruct (ac_config _ _ _ _ _ Hd) as [Hv Ht]. unfold SetCurrentEpochConfig, lift.
  by rewrite !(M_bind_run _ _ s s tt) by by rewrite ?Hv, ?Ht.
Qed.

Lemma import_pending q (s : Store) :
  pt_pending d = Some q → Rs_Params s = Some (pt_params d) →
  SetPendingParams econ q s = (put_PendingParams (Some q) s, Ok tt).
Proof using Hd.
  intros Hq Hp. destruct (ac_pending _ _ _ _ _ Hd q Hq) as [Hv Ht].
  unfold SetPendingParams, reads, GetParams, coll_get, lift.
  rewrite (M_bind_run _ _ s s (pt_params d)) by by rewrite Hp.
  by rewrite !(M_bind_run _ _ s s tt) by by rewrite ?Hv, ?Ht.
Qed.

Lemma import_pause p : SetPauseState (pt_pause d) p = (Some (pt_pause d), Ok tt).
Proof using Hd.
  unfold SetPauseState, lift, Pause_Validate.
  rewrite (ac_pause _ _ _ _ _ Hd), (ac_pause_value _ _ _ _ _ Hd), (ac_pause_height _ _ _ _ _ Hd).
  done.
Qed.

Lemma import_geometry :
  initEpochHistoryGenesis (fresh_document d)
    {| EpochConfigVersions := ∅; ScheduledEpochConfigs := ∅ |} =
  ({| EpochConfigVersions := {[1 := pt_version d]}; ScheduledEpochConfigs := ∅ |}, Ok tt).
Proof using Hd.
  unfold initEpochHistoryGenesis. simpl. unfold importEpochConfigVersion, set_version, lift, modify,
    mbind, M_bind, mret, M_ret. simpl. by rewrite (ac_effective _ _ _ _ _ Hd).
Qed.

Lemma import_rewards :
  initRewardConfigGenesis (fresh_document d)
    {| RewardConfigVersions := ∅; RewardConfigVersionIndex := ∅; ScheduledRewardConfigs := ∅ |} =
  ({| RewardConfigVersions := {[1 := pt_reward d]}; RewardConfigVersionIndex := {[1 := 1]};
      ScheduledRewardConfigs := ∅ |}, Ok tt).
Proof using Hd.
  unfold initRewardConfigGenesis, rebuildRewardConfigVersionIndex. simpl.
  rewrite (ac_reward_version _ _ _ _ _ Hd). simpl.
  unfold importRewardConfigVersion, set_reward_version, lift, modify, mbind, M_bind, mret, M_ret.
  simpl. unfold setRewardConfigVersionIndex, gets, set_index, modify, mbind, M_bind. simpl.
  by rewrite (ac_reward_version _ _ _ _ _ Hd), (ac_reward_epoch _ _ _ _ _ Hd), lookup_empty.
Qed.

Lemma import_entitlements s :
  initEntitlementGenesis (fresh_document d) s =
  ({| SlotEntitlements := SlotEntitlements s;
      OutstandingEntitlementLiability := Some (Int_String 0) |}, Ok tt).
Proof using Hd.
  unfold initEntitlementGenesis, lift. simpl. by rewrite ParseAmountString_zero.
Qed.

Lemma import_run bank :
  importGenesis econ (fresh_document d) (pt_params d) (pt_state d) (emptyRewardsStore bank) =
    (imported d bank, Ok tt).
Proof using Hd.
  unfold importGenesis.
  erewrite M_bind_run by apply import_params. erewrite M_bind_run by by apply import_state.
  erewrite M_bind_run by reflexivity. erewrite M_bind_run by apply import_config.
  erewrite M_bind_run by apply zoom_run, import_geometry.
  erewrite M_bind_run by apply zoom_run, import_rewards.
  erewrite M_bind_run by apply zoom_run, import_entitlements.
  erewrite M_bind_run by reflexivity. erewrite M_bind_run by apply zoom_run, import_pause.
  erewrite M_bind_run by reflexivity.
  simpl. destruct (pt_pending d) as [q|] eqn:Hq; simpl.
  - erewrite M_bind_run.
    2:{ erewrite M_bind_run by reflexivity. apply import_pending; [exact Hq | reflexivity]. }
    unfold imported. by rewrite Hq.
  - unfold imported. rewrite Hq. reflexivity.
Qed.
End import.

(** ** Acceptance *)

(** The import either refuses the document and writes nothing, or the document
    is fresh and the store is the one above. *)
Lemma init_spec height g (bank : Bank) s r :
  InitGenesis econ height g (emptyRewardsStore bank) = (s, r) →
  match r with
  | Err _ => s = emptyRewardsStore bank
  | Ok _ => ∃ h0 d maximum cumulative carry addr,
      effectiveInitialHeight height = Ok h0 ∧ g = fresh_document d ∧
      accepted h0 d maximum cumulative carry ∧ s = imported d bank ∧
      GetModuleAddress ModuleName = Some addr ∧ GetBalance bank addr NativeBaseDenom = carry
  end.
Proof.
  intros H. unfold InitGenesis, lift, reads in H. set (s0 := emptyRewardsStore bank) in *.
  destruct (RewardsGenesis_Validate g) as [[]|] eqn:Hv; [|by injection H as <- <-].
  rewrite (M_bind_run _ _ s0 s0 tt) in H by done.
  destruct (validateGenesisEconomicAddresses econ g) as [[]|] eqn:Ha; [|by injection H as <- <-].
  rewrite (M_bind_run _ _ s0 s0 tt) in H by done.
  destruct (effectiveInitialHeight height) as [h0|] eqn:Hh; [|by injection H as <- <-].
  rewrite (M_bind_run _ _ s0 s0 h0) in H by done.
  destruct (ValidateFreshGenesisInitialHeight (Some g) h0) as [[]|] eqn:Hf;
    [|by injection H as <- <-].
  rewrite (M_bind_run _ _ s0 s0 tt) in H by done.
  destruct (preflight_accepted h0 g Hv Ha Hf) as (d & mx & cum & carry & -> & Hd).
  rewrite (M_bind_run _ _ s0 s0 (pt_params d)), (M_bind_run _ _ s0 s0 (pt_state d)) in H by done.
  pose proof (ac_carry _ _ _ _ _ Hd) as Hc.
  assert (P_NativeDenom (pt_params d) = NativeBaseDenom) as Hden
    by (destruct (ac_params _ _ _ _ _ Hd) as [Hp _]; exact (proj1 (Params_Validate_facts _ Hp))).
  destruct (assertGenesisEscrowMatchesCarry (pt_params d) (pt_state d) s0) as [[]|e] eqn:He.
  2:{ rewrite (M_bind_run_err _ _ s0 s0 e) in H by by rewrite He. by injection H as <- <-. }
  rewrite (M_bind_run _ _ s0 s0 tt) in H by by rewrite He.
  subst s0. rewrite (import_run h0 d mx cum carry Hd bank) in H.
  injection H as <- <-. unfold assertGenesisEscrowMatchesCarry in He. rewrite Hc, Hden in He.
  simpl in He. destruct (GetModuleAddress ModuleName) as [addr|] eqn:Haddr; [|done]. minv. guards.
  eexists h0, d, mx, cum, _, addr. by split_and!.
Qed.

(** ** Export *)
Lemma Int_String_zero : Int_String 0 = "0"%string.
Proof. by rewrite Int_String_nonneg. Qed.

Lemma export_imported h0 d mx cum carry (bank : Bank) :
  accepted h0 d mx cum carry → ExportGenesis (imported d bank) = Ok (fresh_document d).
Proof.
  intros Hd. unfold ExportGenesis, GetPendingParams. simpl.
  unfold Pause_Validate. rewrite (ac_pause _ _ _ _ _ Hd), (ac_pause_value _ _ _ _ _ Hd),
    (ac_pause_height _ _ _ _ _ Hd). simpl.
  unfold GetOutstandingEntitlementLiability. simpl.
  rewrite Int_String_zero, ParseAmountString_zero. simpl.
  unfold fresh_document. by rewrite !walk_singleton, !walk_empty, walk_pairs_empty, Int_String_zero.
Qed.

(** ** The invariant *)
Section establishes.
Context {CK : CoreSlotKeeper} (module_addr : AccAddress).
Context (h0 : Z) (d : Parts) (maximum cumulative carry base : Z) (bank : Bank).
Context (Hd : accepted h0 d maximum cumulative carry) (Hh : h0 ≤ MaxInt64).
Context (Hmax : maximum < 2 ^ 128) (Hshare : 0 ≤ RCV_EmissionTreasuryShareBps (pt_reward d)).
Context (Hbase : 0 ≤ base < 2 ^ 128).
Context (Hsupply : GetSupply bank NativeBaseDenom = base + cumulative).
Context (Hescrow : GetBalance bank module_addr NativeBaseDenom = carry).
Context (Hcovered : carry ≤ base + cumulative).

Definition genesis_view : View := {|
  V_params := pt_params d; V_state := pt_state d; V_max := maximum;
  V_cumulative := cumulative; V_carry := carry; V_enabled := 0 |}.

Lemma genesis_start : CurrentEpochStartHeight (pt_state d) = h0 ∧
  ECV_EffectiveStartHeight (pt_version d) = h0.
Proof using Hd Hh.
  pose proof (ac_height _ _ _ _ _ Hd). rewrite (ac_start _ _ _ _ _ Hd), (ac_anchor _ _ _ _ _ Hd).
  rewrite u64_small; [done | widths; lia].
Qed.

Lemma genesis_length : 360 ≤ ECV_EpochLengthBlocks (pt_version d) ≤ 720.
Proof using Hd.
  pose proof (ac_length _ _ _ _ _ Hd) as H. apply ValidateEpochLengthBlocks_Ok in H.
  unfold HardMinEpochLengthBlocks, HardMaxEpochLengthBlocks in H. lia.
Qed.

Lemma seek_le_one {A} (x : A) e : 1 ≤ e → seek_le e {[1 := x]} = Some (1, x).
Proof.
  intros He. apply seek_le_Some. split_and!; [apply lookup_singleton_eq | done|].
  intros i y Hi _. apply lookup_singleton_Some in Hi as [<- _]. done.
Qed.

Lemma seek_lt_one {A} (x : A) k j p : seek_lt k {[1 := x]} = Some (j, p) → 1 < k.
Proof.
  intros (Hj & Hlt & _)%seek_lt_Some. apply lookup_singleton_Some in Hj as [<- _]. done.
Qed.

Lemma genesis_history : history_wf {[1 := pt_version d]}.
Proof using Hd Hh.
  pose proof genesis_start as [_ Hs]. pose proof genesis_length. pose proof (ac_height _ _ _ _ _ Hd).
  split_and!; [by rewrite lookup_singleton_eq | |].
  - intros k x Hk. apply lookup_singleton_Some in Hk as [<- <-].
    split; [done|]. rewrite Hs, (ac_version _ _ _ _ _ Hd).
    split; [done|]. split; [widths; lia|]. split; [widths; lia|].
    unfold validateEpochConfigRecord.
    rewrite Hs, (ac_version _ _ _ _ _ Hd), (ac_effective _ _ _ _ _ Hd), (ac_length _ _ _ _ _ Hd).
    simpl. by destruct (Z.eqb_spec h0 0); [lia|].
  - intros j p k x Hj Hk. apply seek_lt_one in Hj. apply lookup_singleton_Some in Hk as [<- _]. lia.
Qed.

Lemma genesis_rewards : reward_wf econ {| RewardConfigVersions := {[1 := pt_reward d]};
  RewardConfigVersionIndex := {[1 := 1]}; ScheduledRewardConfigs := ∅ |}.
Proof using Hd.
  pose proof (ac_reward_version _ _ _ _ _ Hd) as Hv. pose proof (ac_reward _ _ _ _ _ Hd) as [Hr Ht].
  split; simpl.
  - exists (pt_reward d). by rewrite lookup_singleton_eq.
  - intros k x Hk. apply lookup_singleton_Some in Hk as [<- <-]. split; [done|].
    rewrite Hv. split; [done|]. unfold validateResolvedRewardConfig, validateRewardConfigRecord.
    by rewrite (ac_reward_epoch _ _ _ _ _ Hd), Hr, Ht.
  - intros j p k x Hj Hk. apply seek_lt_one in Hj. apply lookup_singleton_Some in Hk as [<- _]. lia.
  - intros n k. rewrite lookup_singleton_Some. setoid_rewrite lookup_singleton_Some.
    split; [intros [<- <-]; by exists (pt_reward d) | intros (x & [<- <-] & <-); by rewrite Hv].
Qed.

Lemma genesis_books : ent_wf {| SlotEntitlements := ∅;
  OutstandingEntitlementLiability := Some (Int_String 0) |}.
Proof.
  split; [intros k e He; simpl in He; by rewrite lookup_empty in He|].
  unfold GetOutstandingEntitlementLiability. simpl.
  by rewrite Int_String_zero, ParseAmountString_zero.
Qed.

Lemma genesis_ledger : ledger_inv econ module_addr base 0 (imported d bank) genesis_view.
Proof using All.
  pose proof genesis_start as [Hs1 Hs2]. pose proof genesis_length as Hl.
  pose proof (ac_height _ _ _ _ _ Hd) as H1. pose proof (ac_epoch _ _ _ _ _ Hd) as He.
  assert (∀ e, 1 ≤ e → start_of {[1 := pt_version d]} e =
    h0 + (e - 1) * ECV_EpochLengthBlocks (pt_version d)) as Hstart.
  { intros e He1. unfold start_of, start_from.
    by rewrite seek_le_one, Hs2, (ac_effective _ _ _ _ _ Hd). }
  destruct (ac_params _ _ _ _ _ Hd) as [Hp Ht].
  split; cbn -[Params_Validate]; rewrite ?He.
  all: try done.
  - exact (ac_max _ _ _ _ _ Hd).
  - intros q Hq. destruct (ac_pending _ _ _ _ _ Hd q Hq) as [Hv Hq'].
    unfold ValidateUpdate in Hv. minv. guards. split; [by split | congruence].
  - exact (ac_cumulative _ _ _ _ _ Hd).
  - exact (ac_below _ _ _ _ _ Hd).
  - exact (ac_carry _ _ _ _ _ Hd).
  - exists (pt_config d). split; [done | exact (ac_config _ _ _ _ _ Hd)].
  - exact genesis_history.
  - intros k x Hk. apply lookup_singleton_Some in Hk as [<- <-].
    rewrite (ac_version _ _ _ _ _ Hd). lia.
  - rewrite Hstart by done. lia.
  - rewrite Hstart by done. widths. lia.
  - exact genesis_rewards.
  - intros k x Hk. by apply lookup_singleton_Some in Hk as [_ <-].
  - exact genesis_books.
  - intros e He1. lia.
  - unfold length_of. rewrite seek_le_one by done. lia.
Qed.

(** The chain before its first block. *)
Lemma genesis_chain_view (cs_inv : CoreSlotStore → Prop) (cs : CoreSlotStore) :
  cs_inv cs →
  chain_view econ module_addr cs_inv base 0 {| Ch_Height := h0 - 1; Ch_InBlock := false;
    Ch_CoreSlots := cs; Ch_Rewards := imported d bank |} genesis_view.
Proof using All.
  intros Hcs. pose proof genesis_start as [Hs1 Hs2]. pose proof (ac_height _ _ _ _ _ Hd) as H1.
  split; simpl.
  - split; [exact genesis_ledger|]. split; simpl; intros k x Hk; [|done].
    apply lookup_singleton_Some in Hk as [<- <-]. rewrite (ac_reward_version _ _ _ _ _ Hd). lia.
  - exists (pt_pause d). unfold Pause_Validate.
    rewrite (ac_pause _ _ _ _ _ Hd), (ac_pause_value _ _ _ _ _ Hd),
      (ac_pause_height _ _ _ _ _ Hd). by split_and!.
  - done.
  - by intros e slot b Hk.
  - lia.
  - lia.
  - left. unfold boundary. simpl. rewrite Hs1, (ac_epoch _ _ _ _ _ Hd). unfold length_of.
    rewrite seek_le_one by done. pose proof genesis_length. lia.
Qed.
End establishes.
End genesis.

(** ** Properties *)

(** What the documents of a genesis must be for the first epochs to fit the
    machine: a share is a uint64, the maximum supply and the supply that exists
    beside the declared cumulative emission ([base]) are below 2^128. *)
Record genesis_fits {SI : SdkInt} (g : RewardsGenesis) (base supply : Z) : Prop := {
  gf_share : ∀ version, Some version ∈ RG_RewardConfigVersions g →
    0 ≤ RCV_EmissionTreasuryShareBps version;
  gf_max : ∀ params maximum, RG_Params g = Some params →
    ParseAmountString (P_MaxSupply params) = Ok maximum → maximum < 2 ^ 128;
  gf_base : 0 ≤ base < 2 ^ 128;
  gf_supply : ∀ state cumulative, RG_State g = Some state →
    ParseAmountString (CumulativeEmitted state) = Ok cumulative → supply = base + cumulative
}.

Section properties.
Context {SI : SdkInt} {BE : Bech32} {BK : BankKeeper} {DC : DecCodec} {CK : CoreSlotKeeper}.
Context (econ : Validator) (module_addr : AccAddress).

(** C32: a genesis document is imported whole or not at all: a refusal leaves the
    store as it was, before any write, and an acceptance leaves a store whose
    export is exactly the document. *)
Theorem rewards_genesis_roundtrip (height : Z) (g : RewardsGenesis) (bank : Bank) :
  match InitGenesis econ height g (emptyRewardsStore bank) with
  | (s, Ok _) => ExportGenesis s = Ok g ∧ Rs_Bank s = bank
  | (s, Err _) => s = emptyRewardsStore bank
  end.
Proof.
  destruct (InitGenesis econ height g (emptyRewardsStore bank)) as [s r] eqn:H.
  apply init_spec in H. destruct r; [|done].
  destruct H as (h0 & d & mx & cum & carry & addr & _ & -> & Hd & -> & _).
  split; [by eapply export_imported | done].
Qed.

(** An accepted genesis and the chain it starts. *)
Lemma genesis_establishes (cs_inv : CoreSlotStore → Prop) (cs : CoreSlotStore)
    (height base : Z) (g : RewardsGenesis) (bank : Bank) (s : Store) :
  environment econ module_addr → cs_inv cs → height ≤ MaxInt64 →
  InitGenesis econ height g (emptyRewardsStore bank) = (s, Ok tt) →
  genesis_fits g base (GetSupply bank NativeBaseDenom) →
  GetBalance bank module_addr NativeBaseDenom ≤ GetSupply bank NativeBaseDenom →
  ∃ h0 v, effectiveInitialHeight height = Ok h0 ∧ 1 ≤ h0 ∧
    RG_Params g = Some (V_params v) ∧ RG_State g = Some (V_state v) ∧ V_enabled v = 0 ∧
    CurrentEpoch (V_state v) = 1 ∧ CurrentEpochStartHeight (V_state v) = h0 ∧
    chain_view econ module_addr cs_inv base 0 {| Ch_Height := h0 - 1; Ch_InBlock := false;
      Ch_CoreSlots := cs; Ch_Rewards := s |} v.
Proof.
  intros Henv Hcs Hheight Hrun [Hshare Hmax Hbase Hsupply] Hcov.
  apply init_spec in Hrun as (h0 & d & mx & cum & carry & addr & Hh0 & -> & Hd & -> & Ha & Hbal).
  rewrite (env_module _ _ Henv) in Ha. injection Ha as <-.
  assert (h0 ≤ MaxInt64) as Hh.
  { unfold effectiveInitialHeight in Hh0. minv. destruct (height =? 0); minv; widths; lia. }
  exists h0, (genesis_view d mx cum carry).
  pose proof (genesis_start econ h0 d mx cum carry Hd Hh) as [Hs _].
  split_and!; try done; [apply (ac_height _ _ _ _ _ _ Hd) | apply (ac_epoch _ _ _ _ _ _ Hd)|].
  apply genesis_chain_view; try done.
  - apply (Hmax (pt_params d)); [done | apply (ac_max _ _ _ _ _ _ Hd)].
  - apply Hshare. by left.
  - apply (Hsupply (pt_state d)); [done | apply (ac_cumulative _ _ _ _ _ _ Hd)].
  - rewrite <- Hbal, <- (Hsupply (pt_state d) cum); [done | done | apply (ac_cumulative _ _ _ _ _ _ Hd)].
Qed.

(** C31: an accepted genesis starts a sound chain: at the block before the first,
    the store satisfies the chain's invariant (so the escrow is exactly the
    declared carry), epoch 1 is open from the first block, nothing has been
    credited, and parameters and state are the document's. *)
Theorem rewards_genesis_establishes (cs_inv : CoreSlotStore → Prop) (cs : CoreSlotStore)
    (height base : Z) (g : RewardsGenesis) (bank : Bank) (s : Store) :
  environment econ module_addr → cs_inv cs → height ≤ MaxInt64 →
  InitGenesis econ height g (emptyRewardsStore bank) = (s, Ok tt) →
  genesis_fits g base (GetSupply bank NativeBaseDenom) →
  GetBalance bank module_addr NativeBaseDenom ≤ GetSupply bank NativeBaseDenom →
  ∃ h0 v, effectiveInitialHeight height = Ok h0 ∧ 1 ≤ h0 ∧
    RG_Params g = Some (V_params v) ∧ RG_State g = Some (V_state v) ∧ V_enabled v = 0 ∧
    CurrentEpoch (V_state v) = 1 ∧ CurrentEpochStartHeight (V_state v) = h0 ∧
    chain_view econ module_addr cs_inv base 0 {| Ch_Height := h0 - 1; Ch_InBlock := false;
      Ch_CoreSlots := cs; Ch_Rewards := s |} v.
Proof. apply genesis_establishes. Qed.
End properties.

(** The default document, over a bank that holds nothing. *)
Definition empty_ledger : ledger := {| balances := ∅; supply := ∅ |}.
Section sample.
#[local] Existing Instances sdkint_256 bech32_id ledger_bank list_coreslots.
#[local] Instance some_decimal : DecCodec := {| LegacyNewDecFromStr _ := Some 1 |}.

Lemma default_fits : genesis_fits DefaultGenesis 0
  (@GetSupply ledger_bank empty_ledger NativeBaseDenom).
Proof.
  split.
  - intros version Hv. apply list_elem_of_singleton in Hv. injection Hv as ->. done.
  - intros params maximum [= <-] [= <-]%(eq_trans (eq_sym DefaultMaxSupply_parses)). done.
  - done.
  - intros state cumulative [= <-] [= <-]%(eq_trans (eq_sym ParseAmountString_zero)). done.
Qed.

Definition default_store : Store :=
  fst (InitGenesis sample_validator 0 DefaultGenesis (emptyRewardsStore (empty_ledger : Bank))).

Lemma default_imports :
  InitGenesis sample_validator 0 DefaultGenesis (emptyRewardsStore (empty_ledger : Bank)) =
    (default_store, Ok tt).
Proof. vm_eq. Qed.

Lemma rewards_genesis_establishes_witness :
  ∃ v, chain_view sample_validator "rewards"%string (λ _, True) 0 0 {| Ch_Height := 0;
    Ch_InBlock := false; Ch_CoreSlots := (sample_coreslots : @CoreSlotStore list_coreslots);
    Ch_Rewards := default_store |} v ∧ CurrentEpochStartHeight (V_state v) = 1.
Proof.
  destruct (@rewards_genesis_establishes sdkint_256 bech32_id ledger_bank some_decimal
    list_coreslots sample_validator "rewards"%string (λ _, True) sample_coreslots 0 0
    DefaultGenesis empty_ledger default_store)
    as (h0 & v & Hh & _ & _ & _ & _ & _ & Hs & Hv).
  - exact sample_environment.
  - exact I.
  - vm_compute. discriminate.
  - exact default_imports.
  - exact default_fits.
  - vm_compute. discriminate.
  - injection Hh as <-. exists v. exact (conj Hv Hs).
Defined.
End sample.
