(* ===== verification/Selection.v ===== *)
(** * x/mining/types/selectionv1: which participants are selected

    The whole package: contexts and encodings ([encoding.go]), the five hash
    primitives ([primitives.go]), the beacon ([beacon.go]), the number of selected
    participants ([count.go]), tickets and ranking ([ranking.go]), the height rules
    ([timing.go]), the evaluation ([selection.go]) and the checks of a published
    result ([validation.go]).  Bytes are strings; a Go [[32]byte] is a string of
    length 32 ([is_hash]).  SHA-256 and HMAC are a parameter of which only the
    length of the digest is known. *)
From S2P Require Import Prelude Checked Bytes Bounds EconomicAddress RewardsTypes CoreSlotTypes.
From S2P Require Import CoreSlotState.
From Stdlib Require Import Ascii String.
Local Open Scope Z_scope.

(** ** encoding.go *)
Local Open Scope string_scope.
Definition DomainDrawID : string := "TWILIGHT/TOKENDROP/DRAW-ID/V1".
Definition DomainCandidateSet : string := "TWILIGHT/TOKENDROP/CANDIDATE-SET/V1".
Definition DomainBeacon : string := "TWILIGHT/TOKENDROP/BEACON/V1".
Definition DomainTicket : string := "TWILIGHT/TOKENDROP/TICKET/V1".
Definition DomainSelectedDrawIDs : string := "TWILIGHT/PARTICIPANT-SELECTION/SELECTED-DRAW-IDS/V1".
Local Close Scope string_scope.

Definition HashSize : Z := 32.
Definition Hash : Type := string.
Definition DrawID : Type := string.
Definition is_hash (h : string) : Prop := len h = HashSize.

Definition HashFromBytes (b : string) : res Hash :=
  fail_if (negb (len b =? HashSize)) SelInvalidLength ;;
  mret b.
Definition DrawIDFromBytes (b : string) : res DrawID :=
  fail_if (negb (len b =? HashSize)) SelInvalidLength ;;
  mret b.


Definition decodeHex32 (s : string) : res string :=
  fail_if (negb (len s =? 2 * HashSize)) SelInvalidLength ;;
  fail_if (bool_decide (s ≠ to_lower s)) SelNotCanonical ;;
  match hex_decode s with
  | None => Err SelMalformedHex
  | Some b => mret b
  end.
Definition HashFromHex (s : string) : res Hash := b ← decodeHex32 s; HashFromBytes b.
Definition DrawIDFromHex (s : string) : res DrawID := b ← decodeHex32 s; DrawIDFromBytes b.

Record SelectionContext := { SC_ChainID : string; SC_SlotID : Z; SC_TargetEpoch : Z }.


Definition appendTo (c : SelectionContext) (buf : string) : res string :=
  let name := SC_ChainID c in
  fail_if (len name >? 65535) SelChainIDTooLong ;;
  mret (buf +:+ be 2 (len name) +:+ name +:+ be 8 (SC_SlotID c) +:+ be 8 (SC_TargetEpoch c)).

Definition Context_Equal (c other : SelectionContext) : bool :=
  bool_decide (SC_ChainID c = SC_ChainID other) && (SC_SlotID c =? SC_SlotID other) &&
  (SC_TargetEpoch c =? SC_TargetEpoch other).

(** ** The hash functions *)
Class Sha256 := {
  Sum256 : string → string;
  HMAC : string → string → string;
  Sum256_length s : len (Sum256 s) = 32;
  HMAC_length key s : len (HMAC key s) = 32
}.

(** ** beacon.go: data *)
Record ObservedBlock := { OB_Height : Z; OB_ProposerSlotID : Z; OB_BlockHash : Hash }.
Record BeaconEntry := { BE_Height : Z; BE_ProposerSlotID : Z; BE_BlockHash : Hash }.
Record BeaconThresholds := {
  BT_MinExternalBeaconBlocks : Z;
  BT_MinDistinctExternalProposers : Z
}.
Record BeaconStats := { BS_UsableCount : Z; BS_DistinctExternalProposers : Z }.

Definition ValidateBeaconParams (beaconStartOffsetBlocks beaconWindowBlocks : Z)
    (thresholds : BeaconThresholds) : res unit :=
  fail_if (beaconStartOffsetBlocks =? 0) SelInvalidParams ;;
  fail_if (beaconWindowBlocks =? 0) SelInvalidParams ;;
  fail_if (BT_MinExternalBeaconBlocks thresholds =? 0) SelInvalidParams ;;
  fail_if (BT_MinExternalBeaconBlocks thresholds >? beaconWindowBlocks) SelInvalidParams ;;
  fail_if (BT_MinDistinctExternalProposers thresholds =? 0) SelInvalidParams ;;
  fail_if (BT_MinDistinctExternalProposers thresholds >? BT_MinExternalBeaconBlocks thresholds)
    SelInvalidParams.

Definition DeriveBeaconWindow (epochNMinus1StartHeight beaconStartOffsetBlocks
    beaconWindowBlocks : Z) : res (Z * Z) :=
  fail_if (beaconWindowBlocks =? 0) SelInvalidParams ;;
  startHeight ← wrap SelInvalidParams (AddUint64 epochNMinus1StartHeight beaconStartOffsetBlocks);
  endHeight ← wrap SelInvalidParams (AddUint64 startHeight (u64 (beaconWindowBlocks - 1)));
  mret (startHeight, endHeight).

Definition entry_of (block : ObservedBlock) : BeaconEntry := {|
  BE_Height := OB_Height block;
  BE_ProposerSlotID := OB_ProposerSlotID block;
  BE_BlockHash := OB_BlockHash block |}.

(** The loop of [FilterBeaconEntries]; [prev] is the height of the block before. *)
Fixpoint filter_loop (targetSlotID start end_ : Z) (prev : option Z)
    (observed : list ObservedBlock) : res (list BeaconEntry) :=
  match observed with
  | [] => mret []
  | block :: observed =>
      fail_if ((OB_Height block <? start) || (OB_Height block >? end_)) SelInvalidBeaconWindow ;;
      match prev with
      | Some h => fail_if (OB_Height block <=? h) SelInvalidBeaconWindow
      | None => mret tt
      end ;;
      rest ← filter_loop targetSlotID start end_ (Some (OB_Height block)) observed;
      mret (if OB_ProposerSlotID block =? targetSlotID then rest else entry_of block :: rest)
  end.

Definition FilterBeaconEntries (targetSlotID beaconStartHeight beaconEndHeight : Z)
    (observed : list ObservedBlock) : res (list BeaconEntry) :=
  fail_if (beaconStartHeight >? beaconEndHeight) SelInvalidBeaconWindow ;;
  filter_loop targetSlotID beaconStartHeight beaconEndHeight None observed.

Definition ComputeBeaconStats (entries : list BeaconEntry) : BeaconStats :=
  let seen : gset Z := list_to_set (BE_ProposerSlotID <$> entries) in {|
  BS_UsableCount := Z.of_nat (List.length entries);
  BS_DistinctExternalProposers := Z.of_nat (size seen) |}.

Definition Satisfied (t : BeaconThresholds) (stats : BeaconStats) : bool :=
  (BS_UsableCount stats >=? BT_MinExternalBeaconBlocks t) &&
  (BS_DistinctExternalProposers stats >=? BT_MinDistinctExternalProposers t).

Fixpoint validateEntryOrder (entries : list BeaconEntry) : res unit :=
  match entries with
  | a :: ((b :: _) as rest) =>
      fail_if (BE_Height b <=? BE_Height a) SelInvalidBeaconWindow ;;
      validateEntryOrder rest
  | _ => mret tt
  end.

(** ** primitives.go *)
Fixpoint concat_bytes (l : list string) : string :=
  match l with [] => EmptyString | x :: l => x +:+ concat_bytes l end.

Fixpoint ValidateCanonicalDrawIDs (drawIDs : list DrawID) : res unit :=
  match drawIDs with
  | a :: ((b :: _) as rest) =>
      match String.compare a b with
      | Lt => mret tt
      | _ => Err SelCandidateListNotCanonical
      end ;;
      ValidateCanonicalDrawIDs rest
  | _ => mret tt
  end.

(** The message of [ComputeDrawID], and the preimages of the four digests. *)
Definition drawIDMessage (sc : SelectionContext) : res string := appendTo sc DomainDrawID.
Definition candidateSetPreimage (sc : SelectionContext) (drawIDs : list DrawID) : res string :=
  ValidateCanonicalDrawIDs drawIDs ;;
  buf ← appendTo sc DomainCandidateSet;
  mret (buf +:+ be 8 (Z.of_nat (List.length drawIDs)) +:+ concat_bytes drawIDs).
Definition entry_bytes (e : BeaconEntry) : string :=
  be 8 (BE_Height e) +:+ be 8 (BE_ProposerSlotID e) +:+ BE_BlockHash e.
Definition beaconPreimage (sc : SelectionContext) (candidateSetHash : Hash)
    (beaconStartHeight beaconEndHeight : Z) (entries : list BeaconEntry) : res string :=
  validateEntryOrder entries ;;
  buf ← appendTo sc DomainBeacon;
  mret (buf +:+ candidateSetHash +:+ be 8 beaconStartHeight +:+ be 8 beaconEndHeight +:+
        be 8 (Z.of_nat (List.length entries)) +:+ concat_bytes (entry_bytes <$> entries)).
Definition ticketPreimage (sc : SelectionContext) (candidateSetHash beaconHash : Hash)
    (drawID : DrawID) : res string :=
  buf ← appendTo sc DomainTicket;
  mret (buf +:+ candidateSetHash +:+ beaconHash +:+ drawID).
Definition selectedPreimage (sc : SelectionContext) (selected : list DrawID) : res string :=
  buf ← appendTo sc DomainSelectedDrawIDs;
  mret (buf +:+ be 8 (Z.of_nat (List.length selected)) +:+ concat_bytes selected).

Section hashes.
Context {SH : Sha256}.

Definition ComputeDrawID (participationSecret : string) (sc : SelectionContext) : res DrawID :=
  msg ← drawIDMessage sc; mret (HMAC participationSecret msg).
Definition ComputeCandidateSetHash (sc : SelectionContext) (drawIDs : list DrawID) : res Hash :=
  buf ← candidateSetPreimage sc drawIDs; mret (Sum256 buf).
Definition ComputeBeaconHash (sc : SelectionContext) (candidateSetHash : Hash)
    (beaconStartHeight beaconEndHeight : Z) (entries : list BeaconEntry) : res Hash :=
  buf ← beaconPreimage sc candidateSetHash beaconStartHeight beaconEndHeight entries;
  mret (Sum256 buf).
Definition ComputeTicket (sc : SelectionContext) (candidateSetHash beaconHash : Hash)
    (drawID : DrawID) : res Hash :=
  buf ← ticketPreimage sc candidateSetHash beaconHash drawID; mret (Sum256 buf).
Definition ComputeSelectedDrawIDsHash (sc : SelectionContext) (selected : list DrawID) : res Hash :=
  buf ← selectedPreimage sc selected; mret (Sum256 buf).

(** ** count.go *)
Record CountLimits := {
  CL_SelectionRateBps : Z;
  CL_SlotMaxSelected : Z;
  CL_ProtocolMaxSelected : Z
}.

Definition limits_validate (l : CountLimits) : res unit :=
  fail_if ((CL_SelectionRateBps l =? 0) || (CL_SelectionRateBps l >? AbsoluteMaxSelectionRateBps))
    SelInvalidParams ;;
  fail_if (CL_SlotMaxSelected l =? 0) SelInvalidParams ;;
  fail_if (CL_ProtocolMaxSelected l =? 0) SelInvalidParams.

Definition SelectedCount (candidateCount : Z) (limits : CountLimits) : res Z :=
  limits_validate limits ;;
  if candidateCount =? 0 then mret 0
  else if candidateCount =? 1 then mret 1
  else
    let q := candidateCount `quot` BasisPointsDenominator in
    let rem := candidateCount `rem` BasisPointsDenominator in
    whole ← wrap SelInvalidParams (MulUint64 q (CL_SelectionRateBps limits));
    partial ← wrap SelInvalidParams (MulUint64 rem (CL_SelectionRateBps limits));
    rateK ← wrap SelInvalidParams (AddUint64 whole (partial `quot` BasisPointsDenominator));
    let k := if rateK <? 1 then 1 else rateK in
    mret (foldl (λ k limit, if limit <? k then limit else k) k
      [CL_SlotMaxSelected limits; CL_ProtocolMaxSelected limits; candidateCount `quot` 2]).

(** ** ranking.go *)
Record RankedCandidate := { RC_DrawID : DrawID; RC_Ticket : Hash }.

Definition ComputeTickets (sc : SelectionContext) (candidateSetHash beaconHash : Hash)
    (drawIDs : list DrawID) : res (list RankedCandidate) :=
  fold_m (λ candidates id,
    ticket ← ComputeTicket sc candidateSetHash beaconHash id;
    mret (candidates ++ [{| RC_DrawID := id; RC_Ticket := ticket |}])) drawIDs [].

Definition CompareCandidates (a b : RankedCandidate) : comparison :=
  match String.compare (RC_Ticket a) (RC_Ticket b) with
  | Eq => String.compare (RC_DrawID a) (RC_DrawID b)
  | c => c
  end.
Definition candidate_le (a b : RankedCandidate) : Prop := CompareCandidates a b ≠ Gt.
#[export] Instance candidate_le_dec : RelDecision candidate_le.
Proof. intros a b. unfold candidate_le. apply _. Defined.

(** [slices.SortStableFunc]: candidates that compare equal are the same. *)
Definition RankCandidates (candidates : list RankedCandidate) : list RankedCandidate :=
  merge_sort candidate_le candidates.

Definition SelectFirstK (ranked : list RankedCandidate) (k : Z) : list DrawID :=
  let k := if k >? Z.of_nat (List.length ranked) then Z.of_nat (List.length ranked) else k in
  RC_DrawID <$> take (Z.to_nat k) ranked.
End hashes.

(** ** timing.go *)
Definition ValidateCommitmentHeight (committedHeight epochNMinus1StartHeight beaconStartHeight : Z)
    : res unit :=
  fail_if (committedHeight <? epochNMinus1StartHeight) SelCommitmentWindow ;;
  fail_if (committedHeight >=? beaconStartHeight) SelCommitmentWindow.

Definition ValidateBeaconWindowFits (beaconEndHeight epochNStartHeight : Z) : res unit :=
  latestPermitted ← wrap SelBeaconWindowDoesNotFit (SubUint64 epochNStartHeight 2);
  fail_if (beaconEndHeight >? latestPermitted) SelBeaconWindowDoesNotFit.

Definition ValidateResultPublicationHeight (publishedHeight epochNMinus1StartHeight
    epochNStartHeight candidateCount beaconEndHeight : Z) : res unit :=
  fail_if (publishedHeight <? epochNMinus1StartHeight) SelResultBeforeEpochStart ;;
  fail_if (publishedHeight >=? epochNStartHeight) SelLateResult ;;
  if candidateCount <? 2 then mret tt
  else
    earliestPermitted ← wrap SelResultBeforeBeaconEnd (AddUint64 beaconEndHeight 1);
    fail_if (publishedHeight <? earliestPermitted) SelResultBeforeBeaconEnd.

(** ** selection.go *)
Inductive Outcome :=
  | OutcomeUnspecified | OutcomeSuccess | OutcomeNoCandidates | OutcomeNoValidBeacon.
#[export] Instance Outcome_eq_dec : EqDecision Outcome.
Proof. solve_decision. Defined.

Record EvaluationInput := {
  EI_Context : SelectionContext;
  EI_CandidateDrawIDs : list DrawID;
  EI_EpochNMinus1StartHeight : Z;
  EI_BeaconStartOffsetBlocks : Z;
  EI_BeaconWindowBlocks : Z;
  EI_ObservedWindow : list ObservedBlock;
  EI_Thresholds : BeaconThresholds;
  EI_Limits : CountLimits
}.

Record EvaluationResult := {
  ER_Outcome : Outcome;
  ER_CandidateSetHash : Hash;
  ER_BeaconHash : Hash;
  ER_BeaconHashDefined : bool;
  ER_BeaconStartHeight : Z;
  ER_BeaconEndHeight : Z;
  ER_IncludedEntries : list BeaconEntry;
  ER_Stats : BeaconStats;
  ER_Ranking : list RankedCandidate;
  ER_SelectedCount : Z;
  ER_SelectedDrawIDs : list DrawID
}.

(** The zero value of [[32]byte]. *)
Definition zero_hash : Hash := be 32 0.

Section evaluate.
Context {SH : Sha256}.

(** The part of [Evaluate] that needs a beacon: two candidates or more. *)
Definition evaluateWithBeacon (input : EvaluationInput) (candidateSetHash : Hash)
    : res EvaluationResult :=
  ValidateBeaconParams (EI_BeaconStartOffsetBlocks input) (EI_BeaconWindowBlocks input)
    (EI_Thresholds input) ;;
  '(startHeight, endHeight) ← DeriveBeaconWindow (EI_EpochNMinus1StartHeight input)
    (EI_BeaconStartOffsetBlocks input) (EI_BeaconWindowBlocks input);
  entries ← FilterBeaconEntries (SC_SlotID (EI_Context input)) startHeight endHeight
    (EI_ObservedWindow input);
  let stats := ComputeBeaconStats entries in
  if negb (Satisfied (EI_Thresholds input) stats) then mret {|
    ER_Outcome := OutcomeNoValidBeacon; ER_CandidateSetHash := candidateSetHash;
    ER_BeaconHash := zero_hash; ER_BeaconHashDefined := false;
    ER_BeaconStartHeight := startHeight; ER_BeaconEndHeight := endHeight;
    ER_IncludedEntries := entries; ER_Stats := stats;
    ER_Ranking := []; ER_SelectedCount := 0; ER_SelectedDrawIDs := [] |}
  else
    beaconHash ← ComputeBeaconHash (EI_Context input) candidateSetHash startHeight endHeight entries;
    candidates ← ComputeTickets (EI_Context input) candidateSetHash beaconHash
      (EI_CandidateDrawIDs input);
    let ranking := RankCandidates candidates in
    k ← SelectedCount (Z.of_nat (List.length (EI_CandidateDrawIDs input))) (EI_Limits input);
    let selected := SelectFirstK ranking k in
    mret {|
      ER_Outcome := OutcomeSuccess; ER_CandidateSetHash := candidateSetHash;
      ER_BeaconHash := beaconHash; ER_BeaconHashDefined := true;
      ER_BeaconStartHeight := startHeight; ER_BeaconEndHeight := endHeight;
      ER_IncludedEntries := entries; ER_Stats := stats;
      ER_Ranking := ranking; ER_SelectedCount := Z.of_nat (List.length selected);
      ER_SelectedDrawIDs := selected |}.

Definition Evaluate (input : EvaluationInput) : res EvaluationResult :=
  candidateSetHash ← ComputeCandidateSetHash (EI_Context input) (EI_CandidateDrawIDs input);
  let without_beacon outcome selected : EvaluationResult := {|
    ER_Outcome := outcome; ER_CandidateSetHash := candidateSetHash;
    ER_BeaconHash := zero_hash; ER_BeaconHashDefined := false;
    ER_BeaconStartHeight := 0; ER_BeaconEndHeight := 0; ER_IncludedEntries := [];
    ER_Stats := {| BS_UsableCount := 0; BS_DistinctExternalProposers := 0 |};
    ER_Ranking := []; ER_SelectedCount := Z.of_nat (List.length selected);
    ER_SelectedDrawIDs := selected |} in
  match EI_CandidateDrawIDs input with
  | [] => mret (without_beacon OutcomeNoCandidates [])
  | [id] => mret (without_beacon OutcomeSuccess [id])
  | _ => evaluateWithBeacon input candidateSetHash
  end.
End evaluate.

(** ** validation.go *)
Definition ValidateSelectionKey (commitment result : SelectionContext) : res unit :=
  fail_if (negb (Context_Equal commitment result)) SelSelectionKeyMismatch.

Definition ValidateCandidateCount (committedCount : Z) (drawIDs : list DrawID) : res unit :=
  fail_if (negb (committedCount =? Z.of_nat (List.length drawIDs))) SelCandidateCountMismatch.

Definition VerifyCandidateSetHash {SH : Sha256} (sc : SelectionContext) (committedHash : Hash)
    (drawIDs : list DrawID) : res unit :=
  computed ← ComputeCandidateSetHash sc drawIDs;
  fail_if (bool_decide (computed ≠ committedHash)) SelCandidateSetHashMismatch.

Definition VerifyBeaconHash (derived published : Hash) : res unit :=
  fail_if (bool_decide (derived ≠ published)) SelBeaconHashMismatch.

Definition ValidateSelectedList (declaredCount : Z) (selected : list DrawID) : res unit :=
  fail_if (negb (declaredCount =? Z.of_nat (List.length selected))) SelSelectedCountMismatch ;;
  fold_m (λ (seen : gset string) id,
    fail_if (bool_decide (id ∈ seen)) SelDuplicateSelectedID ;;
    mret ({[id]} ∪ seen)) selected ∅ ;;
  mret tt.

Fixpoint verify_positions (derived published : list DrawID) : res unit :=
  match derived, published with
  | a :: derived, b :: published =>
      fail_if (bool_decide (a ≠ b)) SelSelectedSetMismatch ;;
      verify_positions derived published
  | _, _ => mret tt
  end.
Definition VerifySelectedDrawIDs (derived published : list DrawID) : res unit :=
  fail_if (bool_decide (List.length derived ≠ List.length published)) SelSelectedSetMismatch ;;
  verify_positions derived published.
