(* ===== verification/SelectionTheorems.v ===== *)
(** * Selection: counts, encodings, the outcome and its timeline

    The lemmas on byte strings come first: big-endian numbers and concatenations
    of values of known length can be read back, so no two different inputs of the
    hash primitives share a preimage.  Then the count, the ranking, the
    evaluation and the height rules. *)
From S2P Require Import Prelude Checked Bytes Bounds EconomicAddress RewardsTypes CoreSlotTypes.
From S2P Require Import CoreSlotState Selection.
From Stdlib Require Import Ascii String.
Local Open Scope Z_scope.

(** Two concatenations, split after their first parts. *)
Ltac split_app H := apply app_inj in H as [? H]; [|rewrite ?be_len; done || congruence].

Lemma concat_inj (l l' : list string) n :
  Forall (λ x, len x = n) l → Forall (λ x, len x = n) l' → List.length l = List.length l' →
  concat_bytes l = concat_bytes l' → l = l'.
Proof.
  intros Hl. revert l'. induction Hl as [|x l Hx Hl IH]; intros [|y l'] Hl' Hn H; try done.
  simpl in H. apply Forall_cons in Hl' as [Hy Hl']. apply app_inj in H as [-> H]; [|congruence].
  injection Hn as Hn. f_equal. by apply IH.
Qed.

#[local] Arguments be : simpl never.

(** ** Contexts *)
Definition context_bytes (c : SelectionContext) : string :=
  be 2 (len (SC_ChainID c)) +:+ SC_ChainID c +:+ be 8 (SC_SlotID c) +:+ be 8 (SC_TargetEpoch c).
Definition context_typed (c : SelectionContext) : Prop :=
  is_u64 (SC_SlotID c) ∧ is_u64 (SC_TargetEpoch c).

Lemma appendTo_Ok c buf s :
  appendTo c buf = Ok s ↔ len (SC_ChainID c) ≤ 65535 ∧ s = buf +:+ context_bytes c.
Proof.
  unfold appendTo. split.
  - intros H. minv. zify_bool. auto.
  - intros [Hl ->]. rewrite Z.gtb_ltb. apply Z.ltb_ge in Hl. by rewrite Hl.
Qed.

Lemma context_ext c c' : SC_ChainID c = SC_ChainID c' → SC_SlotID c = SC_SlotID c' →
  SC_TargetEpoch c = SC_TargetEpoch c' → c = c'.
Proof. destruct c, c'. simpl. by intros -> -> ->. Qed.
Lemma entry_ext (e e' : BeaconEntry) : BE_Height e = BE_Height e' →
  BE_ProposerSlotID e = BE_ProposerSlotID e' → BE_BlockHash e = BE_BlockHash e' → e = e'.
Proof. destruct e, e'. simpl. by intros -> -> ->. Qed.

Lemma context_inj c c' r r' :
  context_typed c → context_typed c' →
  len (SC_ChainID c) ≤ 65535 → len (SC_ChainID c') ≤ 65535 →
  context_bytes c +:+ r = context_bytes c' +:+ r' → c = c' ∧ r = r'.
Proof.
  intros [Hs He] [Hs' He'] Hl Hl' H. unfold context_bytes in H.
  rewrite <- !app_assoc_str in H.
  apply app_inj in H as [Hn H]; [|by rewrite !be_len].
  apply be_inj in Hn;
    [|pose proof (len_nonneg (SC_ChainID c)); simpl; lia
     |pose proof (len_nonneg (SC_ChainID c')); simpl; lia].
  apply app_inj in H as [Hc H]; [|done].
  apply app_inj in H as [Ha H]; [|by rewrite !be_len]. apply be8_inj in Ha; [|done..].
  apply app_inj in H as [Hb H]; [|by rewrite !be_len]. apply be8_inj in Hb; [|done..].
  split; [by apply context_ext | done].
Qed.

(** ** Preimages *)

(** What the package hashes: the input of each of the five primitives. *)
Inductive hashed :=
  | HDrawID (sc : SelectionContext)
  | HCandidateSet (sc : SelectionContext) (drawIDs : list DrawID)
  | HBeacon (sc : SelectionContext) (candidateSetHash : Hash) (start end_ : Z)
      (entries : list BeaconEntry)
  | HTicket (sc : SelectionContext) (candidateSetHash beaconHash : Hash) (drawID : DrawID)
  | HSelected (sc : SelectionContext) (selected : list DrawID).

Definition preimage (p : hashed) : res string :=
  match p with
  | HDrawID sc => drawIDMessage sc
  | HCandidateSet sc drawIDs => candidateSetPreimage sc drawIDs
  | HBeacon sc h start end_ entries => beaconPreimage sc h start end_ entries
  | HTicket sc h b id => ticketPreimage sc h b id
  | HSelected sc selected => selectedPreimage sc selected
  end.

Definition entry_typed (e : BeaconEntry) : Prop :=
  is_u64 (BE_Height e) ∧ is_u64 (BE_ProposerSlotID e) ∧ is_hash (BE_BlockHash e).
Definition list_typed {A} (l : list A) : Prop := Z.of_nat (List.length l) ≤ MaxUint64.
(** The values have their Go types. *)
Definition hashed_typed (p : hashed) : Prop :=
  match p with
  | HDrawID sc => context_typed sc
  | HCandidateSet sc ids | HSelected sc ids => context_typed sc ∧ Forall is_hash ids ∧ list_typed ids
  | HBeacon sc h start end_ entries => context_typed sc ∧ is_hash h ∧ is_u64 start ∧ is_u64 end_ ∧
      Forall entry_typed entries ∧ list_typed entries
  | HTicket sc h b id => context_typed sc ∧ is_hash h ∧ is_hash b ∧ is_hash id
  end.

Definition domain_of (p : hashed) : string :=
  match p with
  | HDrawID _ => DomainDrawID | HCandidateSet _ _ => DomainCandidateSet
  | HBeacon _ _ _ _ _ => DomainBeacon | HTicket _ _ _ _ => DomainTicket
  | HSelected _ _ => DomainSelectedDrawIDs
  end.
Definition context_of (p : hashed) : SelectionContext :=
  match p with
  | HDrawID sc | HCandidateSet sc _ | HBeacon sc _ _ _ _ | HTicket sc _ _ _ | HSelected sc _ => sc
  end.
(** What follows the context. *)
Definition payload_of (p : hashed) : string :=
  match p with
  | HDrawID _ => EmptyString
  | HCandidateSet _ ids | HSelected _ ids => be 8 (Z.of_nat (List.length ids)) +:+ concat_bytes ids
  | HBeacon _ h start end_ entries => h +:+ be 8 start +:+ be 8 end_ +:+
      be 8 (Z.of_nat (List.length entries)) +:+ concat_bytes (entry_bytes <$> entries)
  | HTicket _ h b id => h +:+ b +:+ id
  end.

Lemma app_empty (s : string) : s +:+ EmptyString = s.
Proof. induction s as [|c s IH]; [done|]. exact (f_equal (String c) IH). Qed.

Lemma preimage_Ok p s : preimage p = Ok s →
  len (SC_ChainID (context_of p)) ≤ 65535 ∧
  s = domain_of p +:+ context_bytes (context_of p) +:+ payload_of p.
Proof.
  destruct p; simpl; intros H; unfold drawIDMessage, candidateSetPreimage, beaconPreimage,
    ticketPreimage, selectedPreimage in H; minv.
  all: match goal with H : appendTo _ _ = Ok _ |- _ => apply appendTo_Ok in H as [? ->] end.
  all: split; [done|]; rewrite <- ?app_assoc_str, ?app_empty; done.
Qed.

(** Different tags differ within the shorter of them. *)
Lemma domains_differ p q x y :
  domain_of p +:+ x = domain_of q +:+ y → domain_of p = domain_of q.
Proof. destruct p, q; simpl; intros H; first [reflexivity | discriminate H]. Qed.

Lemma context_of_typed p : hashed_typed p → context_typed (context_of p).
Proof. destruct p; simpl; tauto. Qed.

Lemma hash_list_inj ids ids' :
  Forall is_hash ids → Forall is_hash ids' → list_typed ids → list_typed ids' →
  be 8 (Z.of_nat (List.length ids)) +:+ concat_bytes ids =
    be 8 (Z.of_nat (List.length ids')) +:+ concat_bytes ids' → ids = ids'.
Proof.
  intros Hi Hi' Hl Hl' H. apply app_inj in H as [Hn H]; [|by rewrite !be_len].
  apply be8_inj in Hn; [|unfold list_typed in *; widths; lia..].
  apply (concat_inj _ _ 32); [done..|lia|done].
Qed.

Lemma entry_bytes_inj e e' : entry_typed e → entry_typed e' → entry_bytes e = entry_bytes e' → e = e'.
Proof.
  intros (Hh & Hp & Hb) (Hh' & Hp' & Hb') H. unfold entry_bytes in H.
  apply app_inj in H as [H1 H]; [|by rewrite !be_len]. apply be8_inj in H1; [|done..].
  apply app_inj in H as [H2 H]; [|by rewrite !be_len]. apply be8_inj in H2; [|done..].
  by apply entry_ext.
Qed.

Lemma entries_inj es es' :
  Forall entry_typed es → Forall entry_typed es' → List.length es = List.length es' →
  concat_bytes (entry_bytes <$> es) = concat_bytes (entry_bytes <$> es') → es = es'.
Proof.
  intros Hes. revert es'. induction Hes as [|e es He Hes IH]; intros [|e' es'] Hes' Hn H; try done.
  apply Forall_cons in Hes' as [He' Hes']. simpl in H.
  apply app_inj in H as [H1 H].
  - apply entry_bytes_inj in H1 as ->; [|done..]. injection Hn as Hn. f_equal. by apply IH.
  - unfold entry_bytes. destruct He as (_ & _ & Hb), He' as (_ & _ & Hb').
    unfold is_hash in *. rewrite !len_app, !be_len. lia.
Qed.

Lemma payload_inj p q :
  hashed_typed p → hashed_typed q → domain_of p = domain_of q → context_of p = context_of q →
  payload_of p = payload_of q → p = q.
Proof.
  destruct p, q; simpl; intros Hp Hq Hd -> H; try discriminate Hd; destruct_and?.
  - done.
  - f_equal. by apply hash_list_inj.
  - apply app_inj in H as [-> H]; [|unfold is_hash in *; congruence].
    apply app_inj in H as [Hn1 H]; [|by rewrite !be_len]. apply be8_inj in Hn1 as ->; [|done..].
    apply app_inj in H as [Hn2 H]; [|by rewrite !be_len]. apply be8_inj in Hn2 as ->; [|done..].
    apply app_inj in H as [Hn3 H]; [|by rewrite !be_len].
    apply be8_inj in Hn3; [|unfold list_typed in *; widths; lia..].
    f_equal. apply entries_inj; [done..|lia|done].
  - apply app_inj in H as [-> H]; [|unfold is_hash in *; congruence].
    apply app_inj in H as [-> ->]; [|unfold is_hash in *; congruence]. done.
  - f_equal. by apply hash_list_inj.
Qed.

(** ** The number selected *)

Definition limits_valid (l : CountLimits) : Prop :=
  0 < CL_SelectionRateBps l ≤ AbsoluteMaxSelectionRateBps ∧
  0 < CL_SlotMaxSelected l ∧ 0 < CL_ProtocolMaxSelected l.
#[export] Instance limits_valid_dec l : Decision (limits_valid l).
Proof. unfold limits_valid. apply _. Defined.

(** The number of participants, over unbounded integers. *)
Definition count_of (n : Z) (l : CountLimits) : Z :=
  if decide (n ≤ 1) then n
  else Z.min (Z.max 1 (n * CL_SelectionRateBps l / BasisPointsDenominator))
    (Z.min (CL_SlotMaxSelected l) (Z.min (CL_ProtocolMaxSelected l) (n / 2))).

Definition limits_typed (l : CountLimits) : Prop :=
  is_u64 (CL_SelectionRateBps l) ∧ is_u64 (CL_SlotMaxSelected l) ∧ is_u64 (CL_ProtocolMaxSelected l).

Lemma limits_validate_spec l : limits_typed l →
  limits_validate l = if decide (limits_valid l) then Ok tt else Err SelInvalidParams.
Proof.
  intros (Hr & Hs & Hp). unfold limits_validate. rewrite Z.gtb_ltb.
  destruct (Z.eqb_spec (CL_SelectionRateBps l) 0);
    destruct (Z.ltb_spec AbsoluteMaxSelectionRateBps (CL_SelectionRateBps l)); cbn;
    try (rewrite decide_False; [done | unfold limits_valid; lia]).
  destruct (Z.eqb_spec (CL_SlotMaxSelected l) 0); cbn;
    [rewrite decide_False; [done | unfold limits_valid; lia]|].
  destruct (Z.eqb_spec (CL_ProtocolMaxSelected l) 0); cbn;
    [rewrite decide_False; [done | unfold limits_valid; lia]|].
  rewrite decide_True; [done|]. unfold limits_valid. widths. lia.
Qed.

(** The product of the count and the rate, divided without being formed. *)
Lemma rate_decomposition n r d : 0 < d →
  (n * r) / d = n / d * r + n mod d * r / d.
Proof.
  intros Hd. rewrite (Z.div_mod n d) at 1 by lia.
  replace ((d * (n / d) + n mod d) * r) with (n mod d * r + (n / d * r) * d) by ring.
  rewrite Z.div_add by lia. ring.
Qed.

Lemma SelectedCount_spec n l :
  0 ≤ n ≤ MaxUint64 → limits_typed l →
  SelectedCount n l = if decide (limits_valid l) then Ok (count_of n l) else Err SelInvalidParams.
Proof.
  intros Hn Hl. unfold SelectedCount. rewrite (limits_validate_spec l Hl).
  destruct (decide (limits_valid l)) as [Hv|]; [|done]. cbn [mbind res_bind].
  unfold count_of. destruct (Z.eqb_spec n 0) as [->|H0]; [done|].
  destruct (Z.eqb_spec n 1) as [->|H1]; [done|]. rewrite decide_False by lia.
  destruct Hv as (Hr & Hs & Hp). destruct Hl as (Hr' & Hs' & Hp').
  set (r := CL_SelectionRateBps l) in *.
  unfold BasisPointsDenominator, AbsoluteMaxSelectionRateBps in *.
  rewrite !(Z.quot_div_nonneg n), Z.rem_mod_nonneg by lia.
  pose proof (Z.mod_pos_bound n 10000 ltac:(lia)) as Hm.
  assert (0 ≤ n / 10000 ≤ MaxUint64 / 10000) as Hq
    by (split; [apply Z.div_pos; lia | apply Z.div_le_mono; lia]).
  change (MaxUint64 / 10000) with 1844674407370955 in Hq.
  assert (0 ≤ n / 10000 * r ≤ 1844674407370955 * 5000) by nia.
  assert (0 ≤ n mod 10000 * r ≤ 10000 * 5000) by nia.
  assert (is_u64 (n / 10000)) by (widths; lia). assert (is_u64 (n mod 10000)) by (widths; lia).
  assert (∀ a b, is_u64 a → is_u64 b → a * b ≤ MaxUint64 → MulUint64 a b = Ok (a * b)) as Hmul
    by (intros a b Ha Hb Hab; by apply MulUint64_Ok).
  rewrite (Hmul (n / 10000) r), (Hmul (n mod 10000) r) by (done || (widths; lia)).
  cbn [wrap mbind res_bind].
  rewrite !Z.quot_div_nonneg by lia.
  assert (0 ≤ n mod 10000 * r / 10000 ≤ 5000)
    by (split; [apply Z.div_pos; lia | apply Z.div_le_upper_bound; lia]).
  assert (AddUint64 (n / 10000 * r) (n mod 10000 * r / 10000) =
    Ok (n / 10000 * r + n mod 10000 * r / 10000)) as ->
    by (apply AddUint64_Ok; [widths; lia | widths; lia | split; [done | widths; lia]]).
  cbn [wrap mbind res_bind foldl]. rewrite <- (rate_decomposition n r 10000) by lia.
  unfold mret, res_ret. f_equal.
  assert (∀ a b, (if b <? a then b else a) = Z.min a b) as Hmin
    by (intros a b; destruct (Z.ltb_spec b a); lia).
  assert (∀ a, (if a <? 1 then 1 else a) = Z.max 1 a) as Hmax
    by (intros a; destruct (Z.ltb_spec a 1); lia).
  rewrite !Hmin, Hmax. lia.
Qed.

Lemma count_of_bounds n l : limits_valid l → 2 ≤ n → 1 ≤ count_of n l ≤ n / 2.
Proof.
  intros (Hr & Hs & Hp) Hn. unfold count_of. rewrite decide_False by lia.
  assert (1 ≤ n / 2) by (apply Z.div_le_lower_bound; lia). lia.
Qed.

(** ** Canonical lists *)
Lemma canonical_sorted ids : ValidateCanonicalDrawIDs ids = Ok tt → StronglySorted str_lt ids.
Proof.
  intros H. apply Sorted_StronglySorted; [exact str_lt_trans|]. revert H.
  induction ids as [|a [|b ids] IH]; intros H; [constructor | repeat constructor|].
  cbn [ValidateCanonicalDrawIDs] in H. destruct (String.compare a b) eqn:E; try done.
  constructor; [by apply IH | by constructor].
Qed.

Lemma canonical_iff ids : ValidateCanonicalDrawIDs ids = Ok tt ↔ StronglySorted str_lt ids.
Proof.
  split; [apply canonical_sorted|].
  induction 1 as [|a ids Hs IH Ha]; [done|]. destruct ids as [|b ids]; [done|].
  apply Forall_cons in Ha as [Hab _]. unfold str_lt in Hab.
  cbn [ValidateCanonicalDrawIDs]. rewrite Hab. exact IH.
Qed.

(** ** Ranking *)
#[export] Instance candidate_le_total : Total candidate_le.
Proof.
  intros a b. unfold candidate_le, CompareCandidates.
  rewrite (String.compare_antisym (RC_Ticket b)), (String.compare_antisym (RC_DrawID b)).
  destruct (String.compare (RC_Ticket a) (RC_Ticket b)); simpl; [|by left|by right].
  destruct (String.compare (RC_DrawID a) (RC_DrawID b)); simpl; [by left|by left|by right].
Qed.
#[export] Instance candidate_le_trans : Transitive candidate_le.
Proof.
  intros [i a] [j b] [k c]. unfold candidate_le, CompareCandidates. simpl.
  pose proof (str_compare_trans a b c) as H. pose proof (str_compare_trans i j k) as H'.
  destruct (String.compare a b) eqn:Eab, (String.compare b c) eqn:Ebc; try done.
  - apply String.compare_eq_iff in Eab as ->, Ebc as ->. by rewrite str_compare_refl.
  - apply String.compare_eq_iff in Eab as ->. by rewrite Ebc.
  - apply String.compare_eq_iff in Ebc as ->. by rewrite Eab.
  - by rewrite (str_lt_trans a b c).
Qed.

Lemma ranked_permutation l : RankCandidates l ≡ₚ l.
Proof. apply merge_sort_Permutation. Qed.
Lemma ranked_sorted l : StronglySorted candidate_le (RankCandidates l).
Proof. apply StronglySorted_merge_sort; apply _. Qed.

(** The order of the protocol: by ticket, then by draw ID. *)
Definition ranked_before (a b : RankedCandidate) : Prop :=
  str_lt (RC_Ticket a) (RC_Ticket b) ∨
  (RC_Ticket a = RC_Ticket b ∧ str_lt (RC_DrawID a) (RC_DrawID b)).

Lemma str_lt_irrefl a : ¬ str_lt a a.
Proof. unfold str_lt. by rewrite str_compare_refl. Qed.

#[export] Instance ranked_before_antisymm : AntiSymm (=) ranked_before.
Proof.
  intros [i a] [j b]. unfold ranked_before. simpl. intros H1 H2. exfalso.
  destruct H1 as [H1|[-> H1]], H2 as [H2|[Heq H2]]; subst;
    [exact (str_lt_irrefl a (str_lt_trans _ _ _ H1 H2)) | by eapply str_lt_irrefl.. |
     exact (str_lt_irrefl i (str_lt_trans _ _ _ H1 H2))].
Qed.

Lemma ranked_before_le a b : candidate_le a b → RC_DrawID a ≠ RC_DrawID b → ranked_before a b.
Proof.
  unfold candidate_le, CompareCandidates, ranked_before, str_lt. intros H Hne.
  destruct (String.compare (RC_Ticket a) (RC_Ticket b)) eqn:E; [|by left|done].
  apply String.compare_eq_iff in E. right. split; [done|].
  destruct (String.compare (RC_DrawID a) (RC_DrawID b)) eqn:E'; [|done|done].
  by apply String.compare_eq_iff in E'.
Qed.

(** The candidates in the order of the protocol; there is only one such list. *)
Definition ranking_of (candidates ranking : list RankedCandidate) : Prop :=
  ranking ≡ₚ candidates ∧ StronglySorted ranked_before ranking.

Lemma ranking_unique candidates l l' :
  ranking_of candidates l → ranking_of candidates l' → l = l'.
Proof.
  intros [Hp Hs] [Hp' Hs']. apply (StronglySorted_unique ranked_before); [done..|].
  by rewrite Hp, Hp'.
Qed.

Lemma ranked_strictly l : NoDup (RC_DrawID <$> l) → ranking_of l (RankCandidates l).
Proof.
  intros Hnd. pose proof (ranked_permutation l) as Hp. split; [done|].
  rewrite <- Hp in Hnd. clear Hp. revert Hnd.
  induction (ranked_sorted l) as [|a r Hr IH Ha]; intros Hnd; [constructor|]. rewrite fmap_cons in Hnd. apply NoDup_cons in Hnd as [Hout Hnd].
  constructor; [by apply IH|]. apply Forall_forall. intros b Hb.
  rewrite Forall_forall in Ha. apply ranked_before_le; [by apply Ha|].
  intros Heq. apply Hout. rewrite Heq. apply list_elem_of_fmap_2, Hb.
Qed.

(** ** The beacon *)

(** Heights within the window and strictly increasing, above [prev] at first. *)
Fixpoint window_ok (start end_ : Z) (prev : option Z) (observed : list ObservedBlock) : Prop :=
  match observed with
  | [] => True
  | block :: observed =>
      start ≤ OB_Height block ≤ end_ ∧
      match prev with Some h => h < OB_Height block | None => True end ∧
      window_ok start end_ (Some (OB_Height block)) observed
  end.
(** The blocks of the other slots. *)
Definition external (target : Z) (observed : list ObservedBlock) : list ObservedBlock :=
  base.filter (λ block, OB_ProposerSlotID block ≠ target) observed.

Lemma filter_loop_spec target start end_ prev observed r :
  filter_loop target start end_ prev observed = Ok r ↔
  window_ok start end_ prev observed ∧ r = entry_of <$> external target observed.
Proof.
  revert prev r. induction observed as [|block observed IH]; intros prev r; cbn [filter_loop window_ok].
  { split; [intros [= <-]; done | by intros [_ ->]]. }
  unfold external. rewrite filter_cons. split.
  - intros H. minv. zify_bool.
    match goal with H : filter_loop _ _ _ _ _ = Ok _ |- _ => apply IH in H as [Hw ->] end.
    assert (match prev with Some h => h < OB_Height block | None => True end).
    { destruct prev; minv; zify_bool; lia. }
    split; [split_and!; done|].
    destruct (Z.eqb_spec (OB_ProposerSlotID block) target); case_decide; done.
  - intros [(Hr & Hp & Hw) ->]. rewrite Z.gtb_ltb.
    destruct (Z.ltb_spec (OB_Height block) start); [lia|].
    destruct (Z.ltb_spec end_ (OB_Height block)); [lia|]. cbn.
    assert (match prev with
      | Some h => fail_if (OB_Height block <=? h) SelInvalidBeaconWindow
      | None => mret tt end = (Ok tt : res unit)) as ->.
    { destruct prev as [h|]; [|done]. by destruct (Z.leb_spec (OB_Height block) h); [lia|]. }
    cbn. rewrite (proj2 (IH (Some (OB_Height block)) _) (conj Hw eq_refl)). cbn.
    destruct (Z.eqb_spec (OB_ProposerSlotID block) target); case_decide; done.
Qed.

Lemma window_ok_weaken start end_ p q observed :
  match p, q with Some p, Some q => q ≤ p | None, Some _ => False | _, None => True end →
  window_ok start end_ p observed → window_ok start end_ q observed.
Proof. destruct observed; [done|]. simpl. destruct p, q; intuition lia. Qed.

Lemma window_ok_external target start end_ prev observed :
  window_ok start end_ prev observed → window_ok start end_ prev (external target observed).
Proof.
  revert prev. induction observed as [|block observed IH]; intros prev; [done|].
  intros (Hr & Hp & Hw). unfold external. rewrite filter_cons. apply IH in Hw.
  case_decide; [exact (conj Hr (conj Hp Hw))|].
  eapply window_ok_weaken; [|exact Hw]. destruct prev; [lia | done].
Qed.

Lemma external_idemp target observed : external target (external target observed) = external target observed.
Proof. unfold external. rewrite list_filter_filter. apply list_filter_iff. tauto. Qed.

Lemma FilterBeaconEntries_external target start end_ observed r :
  FilterBeaconEntries target start end_ observed = Ok r →
  FilterBeaconEntries target start end_ (external target observed) = Ok r.
Proof.
  unfold FilterBeaconEntries. intros H. apply res_bind_Ok in H as ([] & -> & H). cbn.
  apply filter_loop_spec in H as [Hw ->]. apply filter_loop_spec.
  split; [by apply window_ok_external | by rewrite external_idemp].
Qed.

(** ** Evaluation *)
Section evaluation.
Context {SH : Sha256}.

Lemma selectFirst_spec (ranked : list RankedCandidate) k : 0 ≤ k →
  SelectFirstK ranked k = RC_DrawID <$> take (Z.to_nat k) ranked.
Proof.
  intros Hk. unfold SelectFirstK. rewrite Z.gtb_ltb.
  destruct (Z.ltb_spec (Z.of_nat (List.length ranked)) k); [|done].
  rewrite Nat2Z.id, firstn_all, take_ge; [done|]. lia.
Qed.
End evaluation.

(** ** Hexadecimal transport *)
Lemma fmtHex_len h : len (fmtHex h) = 2 * len h.
Proof. unfold len. induction h as [|c h IH]; simpl; lia. Qed.

(** A byte, its two digits and back, by cases on its bits. *)
Lemma hex_byte c :
  hex_value (hex_digit (N.shiftr (N_of_ascii c) 4)) = Some (N.shiftr (N_of_ascii c) 4) ∧
  hex_value (hex_digit (N.land (N_of_ascii c) 15)) = Some (N.land (N_of_ascii c) 15) ∧
  ascii_of_N (16 * N.shiftr (N_of_ascii c) 4 + N.land (N_of_ascii c) 15) = c ∧
  lower (hex_digit (N.shiftr (N_of_ascii c) 4)) = hex_digit (N.shiftr (N_of_ascii c) 4) ∧
  lower (hex_digit (N.land (N_of_ascii c) 15)) = hex_digit (N.land (N_of_ascii c) 15).
Proof. destruct c as [[] [] [] [] [] [] [] []]; vm_compute; repeat split. Qed.

Lemma hex_decode_fmt h : hex_decode (fmtHex h) = Some h ∧ to_lower (fmtHex h) = fmtHex h.
Proof.
  induction h as [|c h [IH IH']]; [done|].
  destruct (hex_byte c) as (H1 & H2 & H3 & H4 & H5). cbn [fmtHex hex_decode to_lower].
  by rewrite H1, H2, IH, H3, H4, H5, IH'.
Qed.

(** A lower-case digit is the digit of its value. *)
Lemma hex_lower c n : hex_value c = Some n → lower c = c → (n < 16)%N ∧ hex_digit n = c.
Proof.
  destruct c as [[] [] [] [] [] [] [] []]; vm_compute; intros H H'; try discriminate H;
    try discriminate H'; injection H as <-; auto.
Qed.
Lemma hex_digits_of h l : (h < 16)%N → (l < 16)%N →
  N.shiftr (N_of_ascii (ascii_of_N (16 * h + l))) 4 = h ∧
  N.land (N_of_ascii (ascii_of_N (16 * h + l))) 15 = l.
Proof.
  intros Hh Hl. rewrite N_ascii_embedding by lia. rewrite N.shiftr_div_pow2.
  change 15%N with (N.ones 4). rewrite N.land_ones. change (2 ^ 4)%N with 16%N.
  split; [symmetry; apply (N.div_unique _ _ h l); lia | symmetry; apply (N.mod_unique _ _ h l); lia].
Qed.

Lemma hex_decode_lower s h : hex_decode s = Some h → to_lower s = s → s = fmtHex h.
Proof.
  revert h. induction s as [s IH] using (induction_ltof1 _ String.length).
  intros h H Hl. destruct s as [|hi [|lo s]]; cbn [hex_decode] in H; [by injection H as <- | done|].
  destruct (hex_value hi) as [a|] eqn:Ha; [|done].
  destruct (hex_value lo) as [b|] eqn:Hb; [|done].
  destruct (hex_decode s) as [t|] eqn:Ht; [|done]. injection H as <-.
  cbn [to_lower] in Hl. injection Hl as Hl1 Hl2 Hl3.
  destruct (hex_lower hi a Ha Hl1) as [Hra <-], (hex_lower lo b Hb Hl2) as [Hrb <-].
  destruct (hex_digits_of a b Hra Hrb) as [H1 H2]. cbn [fmtHex]. rewrite H1, H2.
  do 2 f_equal. apply IH; [|done|done]. unfold ltof. simpl. lia.
Qed.

(** ** Properties *)

(** The transport form of a digest is read back exactly, and nothing else is
    read: a text is accepted as a hash when it is the lower-case hexadecimal
    rendering of 32 bytes. *)
Theorem hash_hex_roundtrip (s : string) (h : Hash) :
  HashFromHex s = Ok h ↔ s = fmtHex h ∧ is_hash h.
Proof.
  unfold HashFromHex, decodeHex32, HashFromBytes, is_hash, HashSize. split.
  - intros H. apply res_bind_Ok in H as (b & Hb & H). minv.
    destruct (hex_decode s) as [t|] eqn:Ht; [|done]. minv. zify_bool.
    match goal with H : bool_decide _ = false |- _ =>
      apply bool_decide_eq_false, dec_stable in H as Hl end.
    split; [by apply hex_decode_lower | done].
  - intros [-> Hh]. destruct (hex_decode_fmt h) as [-> ->]. rewrite fmtHex_len, Hh, Z.eqb_refl.
    rewrite bool_decide_eq_false_2 by (by intros []). cbn. by rewrite Hh.
Qed.

(** C36: no two inputs of the five hash primitives share a preimage: the preimage
    determines the primitive, the chain, slot and epoch, and every value hashed,
    so a digest computed for one purpose or selection is not the digest of
    another unless the hash function collides. *)
Theorem preimages_unambiguous (p q : hashed) (s : string) :
  hashed_typed p → hashed_typed q → preimage p = Ok s → preimage q = Ok s → p = q.
Proof.
  intros Hp Hq (Hlp & ->)%preimage_Ok (Hlq & H)%preimage_Ok.
  pose proof (domains_differ _ _ _ _ H) as Hd. rewrite Hd in H.
  apply app_inj in H as [_ H]; [|done].
  apply context_inj in H as [Hc Hpay]; [|by apply context_of_typed..|done|done].
  by apply payload_inj.
Qed.

(** C35: the number of selected participants is the exact floor of the candidates
    times the rate, at least one, capped by the slot, the protocol and half the
    candidates, and no candidate count overflows on the way; none of no
    candidates and one of one are selected; limits out of bounds are refused. *)
Theorem selected_count_exact (n : Z) (l : CountLimits) :
  0 ≤ n ≤ MaxUint64 → limits_typed l →
  (SelectedCount n l = if decide (limits_valid l) then Ok (count_of n l) else Err SelInvalidParams) ∧
  (limits_valid l → 2 ≤ n → 1 ≤ count_of n l ≤ n / 2).
Proof. intros Hn Hl. split; [by apply SelectedCount_spec | apply count_of_bounds]. Qed.

(** The heights of a selection are ordered as the protocol needs: with
    parameters the bounds admit for the shortest epoch, in any epoch [start, next)
    the derived beacon window fits; a permitted commitment precedes it, a
    permitted publication follows it inside the epoch, and both exist. *)
Theorem selection_window_fits (p : SelectionParams) (start next : Z) (n : Z) :
  is_u64 (BeaconStartOffsetBlocks p) → is_u64 (BeaconWindowBlocks p) →
  SelectionParams_Validate p HardMinEpochLengthBlocks = Ok tt →
  0 < start → start + HardMinEpochLengthBlocks ≤ next ≤ MaxUint64 → 2 ≤ n →
  ∃ first last,
    DeriveBeaconWindow start (BeaconStartOffsetBlocks p) (BeaconWindowBlocks p) = Ok (first, last) ∧
    last - first + 1 = BeaconWindowBlocks p ∧ ValidateBeaconWindowFits last next = Ok tt ∧
    (∀ c, is_u64 c → ValidateCommitmentHeight c start first = Ok tt ↔ start ≤ c < first) ∧
    (∀ h, is_u64 h → ValidateResultPublicationHeight h start next n last = Ok tt ↔ last < h < next) ∧
    start < first ≤ last ∧ last + 1 < next.
Proof.
  intros Ho Hw Hv Hs Hn Hc. unfold HardMinEpochLengthBlocks in *.
  destruct (SelectionParams_Validate_fits p 360 Ho Hw Hv) as (Ho0 & Hw0 & Hfit).
  set (o := BeaconStartOffsetBlocks p) in *. set (w := BeaconWindowBlocks p) in *.
  exists (start + o), (start + o + (w - 1)). split_and!; [| |  | | | lia..].
  - unfold DeriveBeaconWindow. destruct (Z.eqb_spec w 0); [lia|]. cbn.
    rewrite u64_small by (widths; lia).
    assert (AddUint64 start o = Ok (start + o)) as -> by (apply AddUint64_Ok; widths; lia). cbn.
    assert (AddUint64 (start + o) (w - 1) = Ok (start + o + (w - 1))) as ->
      by (apply AddUint64_Ok; widths; lia). done.
  - lia.
  - unfold ValidateBeaconWindowFits.
    assert (SubUint64 next 2 = Ok (next - 2)) as -> by (apply SubUint64_Ok; widths; lia). cbn.
    rewrite Z.gtb_ltb. by destruct (Z.ltb_spec (next - 2) (start + o + (w - 1))); [lia|].
  - intros c Hcu. unfold ValidateCommitmentHeight. rewrite Z.geb_leb.
    destruct (Z.ltb_spec c start), (Z.leb_spec (start + o) c); cbn; split; done || lia.
  - intros h Hh. unfold ValidateResultPublicationHeight. rewrite Z.geb_leb.
    destruct (Z.ltb_spec n 2); [lia|].
    assert (AddUint64 (start + o + (w - 1)) 1 = Ok (start + o + (w - 1) + 1)) as ->
      by (apply AddUint64_Ok; widths; lia).
    destruct (Z.ltb_spec h start), (Z.leb_spec next h); cbn; [split; (done || lia)..|].
    destruct (Z.ltb_spec h (start + o + (w - 1) + 1)); cbn; split; done || lia.
Qed.

Section outcome.
Context {SH : Sha256}.

(** The digest of one of the package's preimages. *)
Definition digest (p : hashed) : Hash :=
  Sum256 (domain_of p +:+ context_bytes (context_of p) +:+ payload_of p).

(** The values have their Go types. *)
Record input_typed (input : EvaluationInput) : Prop := {
  it_ids : list_typed (EI_CandidateDrawIDs input);
  it_start : is_u64 (EI_EpochNMinus1StartHeight input);
  it_offset : is_u64 (EI_BeaconStartOffsetBlocks input);
  it_window : is_u64 (EI_BeaconWindowBlocks input);
  it_limits : limits_typed (EI_Limits input)
}.

(** What the protocol prescribes, over unbounded integers: the window, the blocks
    of it that count, and when they make a beacon. *)
Definition window_first (input : EvaluationInput) : Z :=
  EI_EpochNMinus1StartHeight input + EI_BeaconStartOffsetBlocks input.
Definition window_last (input : EvaluationInput) : Z :=
  window_first input + EI_BeaconWindowBlocks input - 1.
Definition counted_blocks (input : EvaluationInput) : list ObservedBlock :=
  external (SC_SlotID (EI_Context input)) (EI_ObservedWindow input).
Definition proposers_of (blocks : list ObservedBlock) : gset Z :=
  list_to_set (OB_ProposerSlotID <$> blocks).
Definition stats_of (blocks : list ObservedBlock) : BeaconStats := {|
  BS_UsableCount := Z.of_nat (List.length blocks);
  BS_DistinctExternalProposers := Z.of_nat (size (proposers_of blocks)) |}.
Definition beacon_valid (input : EvaluationInput) : Prop :=
  BT_MinExternalBeaconBlocks (EI_Thresholds input) ≤
    Z.of_nat (List.length (counted_blocks input)) ∧
  BT_MinDistinctExternalProposers (EI_Thresholds input) ≤
    Z.of_nat (size (proposers_of (counted_blocks input))).
#[local] Instance beacon_valid_dec input : Decision (beacon_valid input).
Proof. unfold beacon_valid. apply _. Defined.

(** The parameters of the beacon are in bounds. *)
Definition beacon_params_valid (offset window : Z) (t : BeaconThresholds) : Prop :=
  offset ≠ 0 ∧ window ≠ 0 ∧ BT_MinExternalBeaconBlocks t ≠ 0 ∧
  BT_MinExternalBeaconBlocks t ≤ window ∧ BT_MinDistinctExternalProposers t ≠ 0 ∧
  BT_MinDistinctExternalProposers t ≤ BT_MinExternalBeaconBlocks t.

(** The input the evaluation accepts.  The limits matter once there is something
    to rank: two candidates or more and a beacon. *)
Definition well_formed (input : EvaluationInput) : Prop :=
  len (SC_ChainID (EI_Context input)) ≤ 65535 ∧
  StronglySorted str_lt (EI_CandidateDrawIDs input) ∧
  ((2 ≤ List.length (EI_CandidateDrawIDs input))%nat →
     beacon_params_valid (EI_BeaconStartOffsetBlocks input) (EI_BeaconWindowBlocks input)
       (EI_Thresholds input) ∧
     window_last input ≤ MaxUint64 ∧
     window_ok (window_first input) (window_last input) None (EI_ObservedWindow input) ∧
     (beacon_valid input → limits_valid (EI_Limits input))).

Definition candidate_set_digest (input : EvaluationInput) : Hash :=
  digest (HCandidateSet (EI_Context input) (EI_CandidateDrawIDs input)).
Definition beacon_digest (input : EvaluationInput) : Hash :=
  digest (HBeacon (EI_Context input) (candidate_set_digest input) (window_first input)
    (window_last input) (entry_of <$> counted_blocks input)).
(** The candidates, each with the ticket the beacon draws for it. *)
Definition drawn_tickets (input : EvaluationInput) : list RankedCandidate :=
  (λ id, {| RC_DrawID := id;
            RC_Ticket := digest (HTicket (EI_Context input) (candidate_set_digest input)
              (beacon_digest input) id) |}) <$> EI_CandidateDrawIDs input.
Definition prescribed_count (input : EvaluationInput) : Z :=
  count_of (Z.of_nat (List.length (EI_CandidateDrawIDs input))) (EI_Limits input).

Definition undrawn (input : EvaluationInput) (outcome : Outcome) (ids : list DrawID)
    : EvaluationResult := {|
  ER_Outcome := outcome; ER_CandidateSetHash := candidate_set_digest input;
  ER_BeaconHash := zero_hash; ER_BeaconHashDefined := false;
  ER_BeaconStartHeight := 0; ER_BeaconEndHeight := 0; ER_IncludedEntries := [];
  ER_Stats := {| BS_UsableCount := 0; BS_DistinctExternalProposers := 0 |};
  ER_Ranking := []; ER_SelectedCount := Z.of_nat (List.length ids);
  ER_SelectedDrawIDs := ids |}.
Definition no_beacon (input : EvaluationInput) : EvaluationResult := {|
  ER_Outcome := OutcomeNoValidBeacon; ER_CandidateSetHash := candidate_set_digest input;
  ER_BeaconHash := zero_hash; ER_BeaconHashDefined := false;
  ER_BeaconStartHeight := window_first input; ER_BeaconEndHeight := window_last input;
  ER_IncludedEntries := entry_of <$> counted_blocks input;
  ER_Stats := stats_of (counted_blocks input);
  ER_Ranking := []; ER_SelectedCount := 0; ER_SelectedDrawIDs := [] |}.
Definition drawn (input : EvaluationInput) (ranking : list RankedCandidate) : EvaluationResult := {|
  ER_Outcome := OutcomeSuccess; ER_CandidateSetHash := candidate_set_digest input;
  ER_BeaconHash := beacon_digest input; ER_BeaconHashDefined := true;
  ER_BeaconStartHeight := window_first input; ER_BeaconEndHeight := window_last input;
  ER_IncludedEntries := entry_of <$> counted_blocks input;
  ER_Stats := stats_of (counted_blocks input);
  ER_Ranking := ranking; ER_SelectedCount := prescribed_count input;
  ER_SelectedDrawIDs := take (Z.to_nat (prescribed_count input)) (RC_DrawID <$> ranking) |}.

(** The result of a selection, on its four branches. *)
Inductive prescribed (input : EvaluationInput) : EvaluationResult → Prop :=
  | prescribed_empty :
      EI_CandidateDrawIDs input = [] → prescribed input (undrawn input OutcomeNoCandidates [])
  | prescribed_single id :
      EI_CandidateDrawIDs input = [id] → prescribed input (undrawn input OutcomeSuccess [id])
  | prescribed_no_beacon :
      (2 ≤ List.length (EI_CandidateDrawIDs input))%nat → ¬ beacon_valid input →
      prescribed input (no_beacon input)
  | prescribed_drawn ranking :
      (2 ≤ List.length (EI_CandidateDrawIDs input))%nat → beacon_valid input →
      ranking_of (drawn_tickets input) ranking → prescribed input (drawn input ranking).

(** *** The digests *)
Lemma candidate_hash_Ok sc ids h :
  ComputeCandidateSetHash sc ids = Ok h ↔
  len (SC_ChainID sc) ≤ 65535 ∧ StronglySorted str_lt ids ∧ h = digest (HCandidateSet sc ids).
Proof.
  unfold ComputeCandidateSetHash, candidateSetPreimage, digest. cbn [domain_of context_of payload_of].
  rewrite res_bind_Ok. setoid_rewrite res_bind_Ok. setoid_rewrite res_bind_Ok. split.
  - intros (buf & ([] & Hc & b & Hb & [= <-]) & [= <-]). apply appendTo_Ok in Hb as [Hl ->].
    apply canonical_iff in Hc. by rewrite <- app_assoc_str.
  - intros (Hl & Hc & ->). eexists. split; [exists tt; split; [by apply canonical_iff|]|].
    + eexists. split; [by apply appendTo_Ok | reflexivity].
    + by rewrite <- app_assoc_str.
Qed.

Lemma entry_order_ok start end_ prev blocks :
  window_ok start end_ prev blocks → validateEntryOrder (entry_of <$> blocks) = Ok tt.
Proof.
  revert prev. induction blocks as [|a blocks IH]; intros prev; [done|].
  intros (_ & _ & Hw). specialize (IH _ Hw). destruct blocks as [|b blocks]; [done|]. destruct Hw as (_ & Hab & _).
  cbn [fmap list_fmap validateEntryOrder BE_Height entry_of] in *.
  by destruct (Z.leb_spec (OB_Height b) (OB_Height a)); [lia|].
Qed.

Lemma beacon_hash_ok sc h start end_ entries :
  len (SC_ChainID sc) ≤ 65535 → validateEntryOrder entries = Ok tt →
  ComputeBeaconHash sc h start end_ entries = Ok (digest (HBeacon sc h start end_ entries)).
Proof.
  intros Hl Ho. unfold ComputeBeaconHash, beaconPreimage. rewrite Ho. cbn [mbind res_bind].
  rewrite (proj2 (appendTo_Ok sc DomainBeacon _) (conj Hl eq_refl)). cbn [mbind res_bind].
  unfold mret, res_ret, digest. cbn [domain_of context_of payload_of].
  by rewrite <- app_assoc_str.
Qed.

Lemma tickets_ok sc h b ids :
  len (SC_ChainID sc) ≤ 65535 →
  ComputeTickets sc h b ids =
    Ok ((λ id, {| RC_DrawID := id; RC_Ticket := digest (HTicket sc h b id) |}) <$> ids).
Proof.
  intros Hl. unfold ComputeTickets.
  set (f := λ candidates id, _). set (g := λ id, _).
  enough (∀ acc, fold_m f ids acc = Ok (acc ++ (g <$> ids))) as H by apply (H []).
  induction ids as [|id ids IH]; intros acc; cbn [fold_m]; [by rewrite app_nil_r|].
  assert (f acc id = Ok (acc ++ [g id])) as ->.
  { unfold f, g, ComputeTicket, ticketPreimage.
    rewrite (proj2 (appendTo_Ok sc DomainTicket _) (conj Hl eq_refl)). cbn [mbind res_bind].
    unfold mret, res_ret, digest. cbn [mbind res_bind domain_of context_of payload_of].
    by rewrite <- app_assoc_str. }
  cbn [mbind res_bind]. by rewrite IH, <- app_assoc.
Qed.

(** *** The window and the beacon *)
Lemma beacon_params_Ok offset window t :
  ValidateBeaconParams offset window t = Ok tt ↔ beacon_params_valid offset window t.
Proof.
  unfold ValidateBeaconParams, beacon_params_valid. rewrite !Z.gtb_ltb.
  repeat match goal with |- context [?a =? ?b] => destruct (Z.eqb_spec a b) end; cbn;
    repeat match goal with |- context [?a <? ?b] => destruct (Z.ltb_spec a b); cbn end;
    split; done || lia.
Qed.

Lemma window_derived start offset window r :
  is_u64 start → is_u64 offset → is_u64 window → window ≠ 0 →
  DeriveBeaconWindow start offset window = Ok r ↔
  start + offset + window - 1 ≤ MaxUint64 ∧ r = (start + offset, start + offset + window - 1).
Proof.
  intros Hs Ho Hw Hne. unfold DeriveBeaconWindow. destruct (Z.eqb_spec window 0); [done|].
  cbn [fail_if mbind res_bind mret res_ret]. rewrite u64_small by (widths; lia).
  rewrite res_bind_Ok. split.
  - intros (first & Hf & H). apply wrap_Ok, AddUint64_Ok in Hf as [-> Hf]; [|done..].
    apply res_bind_Ok in H as (last & Hl & [= <-]).
    apply wrap_Ok, AddUint64_Ok in Hl as [-> Hl]; [|widths; lia..].
    split; [lia | f_equal; lia].
  - intros [Hle ->]. exists (start + offset).
    assert (AddUint64 start offset = Ok (start + offset)) as -> by (apply AddUint64_Ok; widths; lia).
    assert (AddUint64 (start + offset) (window - 1) = Ok (start + offset + window - 1)) as ->
      by (apply AddUint64_Ok; widths; lia).
    done.
Qed.

Lemma entries_filtered target start end_ observed r :
  start ≤ end_ →
  FilterBeaconEntries target start end_ observed = Ok r ↔
  window_ok start end_ None observed ∧ r = entry_of <$> external target observed.
Proof.
  intros Hle. unfold FilterBeaconEntries. rewrite Z.gtb_ltb.
  destruct (Z.ltb_spec end_ start); [lia|]. apply filter_loop_spec.
Qed.

Lemma stats_spec blocks : ComputeBeaconStats (entry_of <$> blocks) = stats_of blocks.
Proof.
  unfold ComputeBeaconStats, stats_of, proposers_of. by rewrite length_fmap, <- list_fmap_compose.
Qed.

Lemma Satisfied_spec input :
  Satisfied (EI_Thresholds input) (stats_of (counted_blocks input)) =
    bool_decide (beacon_valid input).
Proof.
  unfold Satisfied, beacon_valid. simpl. rewrite !Z.geb_leb.
  apply eq_true_iff_eq. rewrite andb_true_iff, !Z.leb_le, bool_decide_eq_true. done.
Qed.

(** *** The ranking *)
Lemma drawn_ids input : RC_DrawID <$> drawn_tickets input = EI_CandidateDrawIDs input.
Proof. unfold drawn_tickets. rewrite <- list_fmap_compose. apply list_fmap_id. Qed.

Lemma drawn_ranked input : StronglySorted str_lt (EI_CandidateDrawIDs input) →
  ranking_of (drawn_tickets input) (RankCandidates (drawn_tickets input)).
Proof. intros Hs. apply ranked_strictly. rewrite drawn_ids. by apply sorted_NoDup. Qed.

Lemma ranking_length input ranking : ranking_of (drawn_tickets input) ranking →
  List.length ranking = List.length (EI_CandidateDrawIDs input).
Proof. intros [Hp _]. rewrite Hp, <- (drawn_ids input). by rewrite length_fmap. Qed.

Lemma prescribed_count_range input :
  (2 ≤ List.length (EI_CandidateDrawIDs input))%nat → limits_valid (EI_Limits input) →
  1 ≤ prescribed_count input ≤ Z.of_nat (List.length (EI_CandidateDrawIDs input)).
Proof.
  intros Hn Hl. set (n := Z.of_nat _).
  pose proof (count_of_bounds n (EI_Limits input) Hl ltac:(subst n; lia)) as Hc.
  assert (n / 2 ≤ n) by (apply Z.div_le_upper_bound; subst n; lia).
  unfold prescribed_count. fold n. lia.
Qed.

(** *** The evaluation *)

(** What the code computes when there is something to rank. *)
Lemma draw_ok input :
  input_typed input → well_formed input →
  (2 ≤ List.length (EI_CandidateDrawIDs input))%nat →
  evaluateWithBeacon input (candidate_set_digest input) =
    Ok (if decide (beacon_valid input) then drawn input (RankCandidates (drawn_tickets input))
        else no_beacon input).
Proof.
  intros [Hids Hs Ho Hw Hlim] (Hl & Hsort & Hmany) Hn. destruct (Hmany Hn) as (Hp & Hlast & Hwin & Hval).
  unfold evaluateWithBeacon. rewrite (proj2 (beacon_params_Ok _ _ _) Hp). cbn [mbind res_bind].
  destruct Hp as (_ & Hw0 & _).
  rewrite (proj2 (window_derived _ _ _ (window_first input, window_last input) Hs Ho Hw Hw0))
    by done. cbn [mbind res_bind].
  assert (window_first input ≤ window_last input) as Hle by (unfold window_last; widths; lia).
  rewrite (proj2 (entries_filtered _ _ _ _ (entry_of <$> counted_blocks input) Hle)
    (conj Hwin eq_refl)). cbn [mbind res_bind]. rewrite stats_spec, Satisfied_spec.
  destruct (decide (beacon_valid input)) as [Hb|Hb];
    [rewrite bool_decide_eq_true_2 by done | by rewrite bool_decide_eq_false_2 by done].
  cbn [negb]. rewrite beacon_hash_ok by
    (done || exact (entry_order_ok _ _ _ _ (window_ok_external _ _ _ _ _ Hwin))).
  cbn [mbind res_bind]. rewrite tickets_ok by done. cbn [mbind res_bind].
  fold (beacon_digest input). fold (drawn_tickets input).
  rewrite SelectedCount_spec, decide_True by first [by apply Hval | done | unfold list_typed in Hids; lia].
  cbn [mbind res_bind]. fold (prescribed_count input).
  pose proof (prescribed_count_range input Hn (Hval Hb)) as Hc.
  rewrite selectFirst_spec by lia. unfold mret, res_ret, drawn. do 2 f_equal.
  - rewrite length_fmap, length_take, (ranking_length input) by by apply drawn_ranked. lia.
  - by rewrite fmap_take.
Qed.

(** The input the code accepts is well-formed. *)
Lemma draw_well_formed input h r :
  input_typed input → (2 ≤ List.length (EI_CandidateDrawIDs input))%nat →
  len (SC_ChainID (EI_Context input)) ≤ 65535 → StronglySorted str_lt (EI_CandidateDrawIDs input) →
  evaluateWithBeacon input h = Ok r → well_formed input.
Proof.
  intros [Hids Hs Ho Hw Hlim] Hn Hl Hsort H. split; [done|]. split; [done|]. intros _.
  unfold evaluateWithBeacon in H. apply res_bind_Ok in H as ([] & Hp & H).
  apply beacon_params_Ok in Hp. split; [done|]. destruct Hp as (_ & Hw0 & _).
  apply res_bind_Ok in H as ([first last] & Hwin & H).
  apply window_derived in Hwin as [Hlast [= -> ->]]; [|done..].
  fold (window_first input) in Hlast, H. fold (window_last input) in Hlast, H. split; [done|].
  apply res_bind_Ok in H as (entries & He & H).
  apply entries_filtered in He as [Hok ->]; [|unfold window_last; widths; lia]. split; [done|].
  intros Hb. fold (counted_blocks input) in H.
  rewrite stats_spec, Satisfied_spec, bool_decide_eq_true_2 in H by done. cbn [negb] in H.
  apply res_bind_Ok in H as (b & _ & H). apply res_bind_Ok in H as (candidates & _ & H).
  apply res_bind_Ok in H as (k & Hk & _).
  rewrite SelectedCount_spec in Hk by first [done | unfold list_typed in Hids; lia].
  by case_decide.
Qed.

(** The result of a well-formed input. *)
Definition computed (input : EvaluationInput) : EvaluationResult :=
  match EI_CandidateDrawIDs input with
  | [] => undrawn input OutcomeNoCandidates []
  | [id] => undrawn input OutcomeSuccess [id]
  | _ => if decide (beacon_valid input) then drawn input (RankCandidates (drawn_tickets input))
         else no_beacon input
  end.

Lemma Evaluate_Ok input r : input_typed input →
  Evaluate input = Ok r ↔ well_formed input ∧ r = computed input.
Proof.
  intros Ht. unfold Evaluate. rewrite res_bind_Ok. setoid_rewrite candidate_hash_Ok.
  fold (candidate_set_digest input). split.
  - intros (h & (Hl & Hsort & ->) & H).
    assert (well_formed input) as Hwf.
    { destruct (EI_CandidateDrawIDs input) as [|a [|b ids]] eqn:E.
      1,2: split; [done|]; split; [by rewrite E|]; rewrite E; simpl; lia.
      rewrite <- E in Hsort. eapply draw_well_formed; [done | rewrite E; simpl; lia | done..]. }
    split; [done|]. unfold computed.
    destruct (EI_CandidateDrawIDs input) as [|a [|b ids]] eqn:E; [by injection H as <-..|].
    rewrite draw_ok in H by first [done | rewrite E; simpl; lia]. by injection H as <-.
  - intros [Hwf ->]. exists (candidate_set_digest input).
    split; [destruct Hwf as (? & ? & _); done|]. unfold computed.
    destruct (EI_CandidateDrawIDs input) as [|a [|b ids]] eqn:E; [done..|].
    apply draw_ok; [done..|]. rewrite E. simpl. lia.
Qed.

Lemma prescribed_computed input r : well_formed input →
  prescribed input r ↔ r = computed input.
Proof.
  intros (_ & Hsort & _). apply drawn_ranked in Hsort. unfold computed. split.
  - intros [E | id E | Hn Hb | ranking Hn Hb Hr]; [by rewrite E..| |];
      destruct (EI_CandidateDrawIDs input) as [|a [|b ids]]; simpl in Hn; try lia.
    + by rewrite decide_False.
    + rewrite decide_True by done. f_equal. by eapply ranking_unique.
  - intros ->. destruct (EI_CandidateDrawIDs input) as [|a [|b ids]] eqn:E;
      [by apply prescribed_empty | by apply prescribed_single|].
    case_decide; [apply prescribed_drawn | apply prescribed_no_beacon]; rewrite ?E; simpl; done || lia.
Qed.

(** C34: the evaluation of a selection succeeds exactly on well-formed input and
    then returns exactly the prescribed result, every field of it.  Well-formed: a
    chain identifier of at most 65535 bytes, draw IDs strictly increasing, and,
    with two candidates or more, beacon parameters in bounds, a window that ends
    within the uint64 range, observed heights strictly increasing inside it, and
    valid limits when there is a beacon.  Prescribed: the digest of the candidate
    set; none selected of none and the one of one; with two or more, the window, the
    blocks of the other slots in it and their statistics; no selection when they are
    too few or from too few proposers; otherwise the digest of the beacon over
    the window and those blocks, one ticket per candidate drawn from it, the only
    ranking of the candidates by ticket and then draw ID, and as selected list
    the first of the ranking, in this order, as many as the limits give. *)
Theorem selection_outcome (input : EvaluationInput) :
  input_typed input →
  (∀ r, Evaluate input = Ok r ↔ well_formed input ∧ prescribed input r) ∧
  (well_formed input → ∃ r, Evaluate input = Ok r).
Proof.
  intros Ht. split.
  - intros r. rewrite Evaluate_Ok by done.
    split; intros [Hwf Hr]; (split; [done|]); by apply prescribed_computed in Hr || apply prescribed_computed.
  - intros Hwf. exists (computed input). by apply Evaluate_Ok.
Qed.

(** The selected list of a result has no repetition and the declared length. *)
Lemma selected_list_valid input r : input_typed input → Evaluate input = Ok r →
  NoDup (ER_SelectedDrawIDs r) ∧ ER_SelectedCount r = Z.of_nat (List.length (ER_SelectedDrawIDs r)).
Proof.
  intros Ht H. apply Evaluate_Ok in H as [Hwf Hr]; [|done]. apply prescribed_computed in Hr; [|done].
  destruct Hwf as (_ & Hsort & Hmany).
  destruct Hr as [E | id E | Hn Hb | ranking Hn Hb Hr]; simpl.
  - split; [constructor | done].
  - split; [apply NoDup_singleton | done].
  - split; [constructor | done].
  - pose proof (prescribed_count_range input Hn) as Hc.
    pose proof (ranking_length _ _ Hr) as Hlen. destruct (Hmany Hn) as (_ & _ & _ & Hval).
    specialize (Hc (Hval Hb)). destruct Hr as [Hp _]. split.
    + apply (sublist_NoDup _ (RC_DrawID <$> ranking)); [|apply sublist_take].
      rewrite Hp, drawn_ids. by apply sorted_NoDup.
    + rewrite length_take, length_fmap. lia.
Qed.

Lemma result_hash input r : input_typed input → Evaluate input = Ok r →
  ComputeCandidateSetHash (EI_Context input) (EI_CandidateDrawIDs input) = Ok (ER_CandidateSetHash r).
Proof.
  intros Ht H. apply Evaluate_Ok in H as [Hwf Hr]; [|done]. apply prescribed_computed in Hr; [|done].
  apply candidate_hash_Ok. destruct Hwf as (Hl & Hsort & _). split_and!; [done..|].
  by destruct Hr.
Qed.

(** The same selection observed without the blocks the slot itself proposed. *)
Definition without_own_blocks (input : EvaluationInput) : EvaluationInput := {|
  EI_Context := EI_Context input;
  EI_CandidateDrawIDs := EI_CandidateDrawIDs input;
  EI_EpochNMinus1StartHeight := EI_EpochNMinus1StartHeight input;
  EI_BeaconStartOffsetBlocks := EI_BeaconStartOffsetBlocks input;
  EI_BeaconWindowBlocks := EI_BeaconWindowBlocks input;
  EI_ObservedWindow := external (SC_SlotID (EI_Context input)) (EI_ObservedWindow input);
  EI_Thresholds := EI_Thresholds input;
  EI_Limits := EI_Limits input |}.

(** A slot cannot steer its own selection with the blocks it proposes: they
    enter no part of the result, which is the one obtained without them. *)
Theorem selection_ignores_own_blocks (input : EvaluationInput) (r : EvaluationResult) :
  Evaluate input = Ok r → Evaluate (without_own_blocks input) = Ok r.
Proof.
  unfold Evaluate. simpl. intros H. apply res_bind_Ok in H as (h & Hh & H). rewrite Hh. simpl.
  destruct (EI_CandidateDrawIDs input) as [|a [|b rest]] eqn:Hids; [done..|].
  unfold evaluateWithBeacon in *. simpl. rewrite Hids in *.
  apply res_bind_Ok in H as ([] & Hp & H). rewrite Hp. simpl.
  apply res_bind_Ok in H as ([first last] & Hw & H). rewrite Hw. simpl.
  apply res_bind_Ok in H as (entries & He & H). apply FilterBeaconEntries_external in He.
  rewrite He. exact H.
Qed.

Lemma verify_positions_Ok (l l' : list DrawID) :
  List.length l = List.length l' → verify_positions l l' = Ok tt ↔ l = l'.
Proof.
  revert l'. induction l as [|a l IH]; intros [|b l'] Hn; try done. injection Hn as Hn.
  cbn [verify_positions]. split.
  - intros H. apply res_bind_Ok in H as ([] & Hab & H). minv.
    apply bool_decide_eq_false, dec_stable in Hab as ->. f_equal. by apply IH.
  - intros [= -> ->]. rewrite bool_decide_eq_false_2 by (by intros []). by apply IH.
Qed.
Lemma VerifySelectedDrawIDs_Ok l l' : VerifySelectedDrawIDs l l' = Ok tt ↔ l = l'.
Proof.
  unfold VerifySelectedDrawIDs. split.
  - intros H. apply res_bind_Ok in H as ([] & Hn & H). minv.
    apply bool_decide_eq_false, dec_stable in Hn. by apply verify_positions_Ok in H.
  - intros <-. rewrite bool_decide_eq_false_2 by (by intros []). by apply verify_positions_Ok.
Qed.

Lemma scan_ids_Ok (l : list DrawID) (seen : gset string) :
  is_ok (fold_m (λ (seen : gset string) id,
    fail_if (bool_decide (id ∈ seen)) SelDuplicateSelectedID ;;
    mret ({[id]} ∪ seen)) l seen) = true ↔ NoDup l ∧ ∀ id, id ∈ l → id ∉ seen.
Proof.
  revert seen. induction l as [|a l IH]; intros seen; cbn [fold_m].
  { split; [split; [constructor | set_solver] | done]. }
  case_bool_decide as Ha; cbn [fail_if mbind res_bind mret res_ret is_ok].
  - split; [done|]. intros [_ H]. destruct (H a); [by left | done].
  - rewrite IH, NoDup_cons. set_solver.
Qed.
Lemma ValidateSelectedList_Ok n l :
  ValidateSelectedList n l = Ok tt ↔ n = Z.of_nat (List.length l) ∧ NoDup l.
Proof.
  unfold ValidateSelectedList. pose proof (scan_ids_Ok l ∅) as H.
  destruct (fold_m _ l ∅) as [x|e]; destruct (Z.eqb_spec n (Z.of_nat (List.length l))); cbn;
    split; try done; try (intros []; done).
  - intros _. split; [done|]. by apply H.
  - intros [_ Hnd]. assert (is_ok (Err e : res (gset string)) = true) as Hok; [|done].
    apply H. split; [done | set_solver].
Qed.

(** A published result passes the checks exactly when it is the derived one:
    the candidate count and set hash of the commitment, the declared count and the
    selected list, in ranking order, must all be those of the evaluation. *)
Theorem published_result_checks (input : EvaluationInput) (r : EvaluationResult)
    (committedCount declaredCount : Z) (committedHash : Hash) (published : list DrawID) :
  Evaluate input = Ok r → input_typed input →
  (ValidateCandidateCount committedCount (EI_CandidateDrawIDs input) = Ok tt ∧
   VerifyCandidateSetHash (EI_Context input) committedHash (EI_CandidateDrawIDs input) = Ok tt ∧
   ValidateSelectedList declaredCount published = Ok tt ∧
   VerifySelectedDrawIDs (ER_SelectedDrawIDs r) published = Ok tt) ↔
  committedCount = Z.of_nat (List.length (EI_CandidateDrawIDs input)) ∧
  committedHash = ER_CandidateSetHash r ∧
  declaredCount = ER_SelectedCount r ∧ published = ER_SelectedDrawIDs r.
Proof.
  intros H Ht. destruct (selected_list_valid input r Ht H) as [Hnd Hcount].
  pose proof (result_hash input r Ht H) as Hhash.
  unfold ValidateCandidateCount, VerifyCandidateSetHash. rewrite Hhash.
  rewrite ValidateSelectedList_Ok, VerifySelectedDrawIDs_Ok. cbn [mbind res_bind].
  destruct (Z.eqb_spec committedCount (Z.of_nat (List.length (EI_CandidateDrawIDs input)))); cbn.
  2:{ split; intros (? & ?); done. }
  destruct (decide (ER_CandidateSetHash r = committedHash)) as [<-|Hne].
  - rewrite bool_decide_eq_false_2 by (by intros []). cbn.
    split; [intros (_ & _ & [-> _] & <-) | intros (_ & _ & -> & ->)]; split_and!; done || congruence.
  - rewrite bool_decide_eq_true_2 by done. cbn.
    split; [by intros (_ & ? & _) | intros (_ & -> & _); done].
Qed.
End outcome.

(** ** A sample selection *)
Fixpoint checksum (acc : Z) (s : string) : Z :=
  match s with
  | EmptyString => acc
  | String c s => checksum (acc * 31 + Z.of_N (N_of_ascii c)) s
  end.
Definition sample_digest (s : string) : string := be 32 (checksum 7 s).
#[program] Definition sample_sha : Sha256 := {|
  Sum256 := sample_digest;
  HMAC key s := sample_digest (key +:+ s)
|}.
Next Obligation. intros s. apply be_len. Qed.
Next Obligation. intros key s. apply be_len. Qed.

Definition sample_block (height slot : Z) : ObservedBlock := {|
  OB_Height := height; OB_ProposerSlotID := slot; OB_BlockHash := be 32 height |}.
Definition sample_limits : CountLimits := {|
  CL_SelectionRateBps := 5000; CL_SlotMaxSelected := 10; CL_ProtocolMaxSelected := 10 |}.
Definition sample_input : EvaluationInput := {|
  EI_Context := {| SC_ChainID := "twilight-1"; SC_SlotID := 7; SC_TargetEpoch := 3 |};
  EI_CandidateDrawIDs := [be 32 5; be 32 21; be 32 400];
  EI_EpochNMinus1StartHeight := 361; EI_BeaconStartOffsetBlocks := 100;
  EI_BeaconWindowBlocks := 10;
  EI_ObservedWindow := [sample_block 461 7; sample_block 462 9; sample_block 465 8];
  EI_Thresholds := {| BT_MinExternalBeaconBlocks := 2; BT_MinDistinctExternalProposers := 2 |};
  EI_Limits := sample_limits |}.
Definition sample_result : EvaluationResult :=
  Eval vm_compute in match @Evaluate sample_sha sample_input with
  | Ok r => r
  | Err _ => {|
      ER_Outcome := OutcomeUnspecified; ER_CandidateSetHash := zero_hash;
      ER_BeaconHash := zero_hash; ER_BeaconHashDefined := false; ER_BeaconStartHeight := 0;
      ER_BeaconEndHeight := 0; ER_IncludedEntries := [];
      ER_Stats := {| BS_UsableCount := 0; BS_DistinctExternalProposers := 0 |};
      ER_Ranking := []; ER_SelectedCount := 0; ER_SelectedDrawIDs := [] |}
  end.

Lemma sample_evaluates : @Evaluate sample_sha sample_input = Ok sample_result.
Proof. vm_eq. Qed.
Lemma sample_limits_typed : limits_typed (EI_Limits sample_input).
Proof. vm_compute. repeat split; discriminate. Qed.
Lemma sample_list_typed : list_typed (EI_CandidateDrawIDs sample_input).
Proof. vm_compute. discriminate. Qed.

Lemma sample_input_typed : input_typed sample_input.
Proof.
  split; [exact sample_list_typed | vm_compute; split; discriminate.. | exact sample_limits_typed].
Qed.

Lemma selection_outcome_witness :
  @well_formed sample_input ∧ @prescribed sample_sha sample_input sample_result ∧
  ER_SelectedDrawIDs sample_result = [RC_DrawID (List.hd {| RC_DrawID := zero_hash;
    RC_Ticket := zero_hash |} (ER_Ranking sample_result))].
Proof.
  destruct (@selection_outcome sample_sha sample_input sample_input_typed) as [H _].
  destruct (proj1 (H sample_result) sample_evaluates) as [Hwf Hr].
  split; [exact Hwf|]. split; [exact Hr | reflexivity].
Defined.

Lemma selection_ignores_own_blocks_witness :
  @Evaluate sample_sha (without_own_blocks sample_input) = Ok sample_result ∧
  List.length (EI_ObservedWindow (without_own_blocks sample_input)) = 2%nat.
Proof.
  split; [|reflexivity].
  exact (@selection_ignores_own_blocks sample_sha sample_input sample_result sample_evaluates).
Defined.

Lemma published_result_checks_witness :
  VerifySelectedDrawIDs (ER_SelectedDrawIDs sample_result) (ER_SelectedDrawIDs sample_result) = Ok tt.
Proof.
  apply (@published_result_checks sample_sha sample_input sample_result 3
    (ER_SelectedCount sample_result) (ER_CandidateSetHash sample_result)
    (ER_SelectedDrawIDs sample_result) sample_evaluates sample_input_typed).
  split_and!; reflexivity.
Defined.

Lemma selected_count_exact_witness : SelectedCount MaxUint64 sample_limits = Ok 10.
Proof.
  destruct (selected_count_exact MaxUint64 sample_limits) as [-> _].
  - vm_compute. split; discriminate.
  - exact sample_limits_typed.
  - vm_compute. reflexivity.
Defined.

Definition sample_parameters : SelectionParams := {|
  MaxSelectionRateBps := 5000; BeaconStartOffsetBlocks := 100; BeaconWindowBlocks := 10;
  MinExternalBeaconBlocks := 2; MinDistinctExternalProposers := 2 |}.
Lemma selection_window_fits_witness :
  ∃ first last, DeriveBeaconWindow 361 100 10 = Ok (first, last) ∧ last + 1 < 721.
Proof.
  destruct (selection_window_fits sample_parameters 361 721 3)
    as (first & last & H & _ & _ & _ & _ & _ & Hl);
    [by vm_compute.. | reflexivity | vm_compute; split; discriminate | vm_compute; discriminate|].
  exists first, last. exact (conj H Hl).
Defined.

Lemma preimages_unambiguous_witness :
  let sc := EI_Context sample_input in
  HSelected sc [be 32 5] = HSelected sc [be 32 (4 + 1)] ∧
  ¬ ∃ s, preimage (HDrawID sc) = Ok s ∧ preimage (HSelected sc []) = Ok s.
Proof.
  assert (context_typed (EI_Context sample_input)) as Hc by (vm_compute; repeat split; discriminate).
  split.
  - eapply (preimages_unambiguous _ _ _); [ | |reflexivity|reflexivity];
      (split; [exact Hc|]; split; [repeat constructor | vm_compute; discriminate]).
  - intros (s & H1 & H2).
    assert (hashed_typed (HSelected (EI_Context sample_input) [])) as Hs
      by (split; [exact Hc|]; split; [constructor | vm_compute; discriminate]).
    discriminate (preimages_unambiguous (HDrawID (EI_Context sample_input)) _ s Hc Hs H1 H2).
Defined.
