(* ===== verification/CoreSlotQueries.v ===== *)
(** * The query server of x/coreslot

    Models [x/coreslot/keeper/query_server.go]: each query over the store of
    [CoreSlotState], the errors of the keeper mapped onto gRPC codes as the server
    maps them.  A read that fails because bytes will not decode is not modelled:
    the store holds values.  The paginator that filters rows is the class
    [FilteredPaginator]. *)
From S2P Require Import Prelude Checked SdkMath Bounds EconomicAddress RewardsTypes.
From S2P Require Import Collections Bytes Paging Allocation RewardConfig CoreSlotTypes CoreSlotState CoreSlot CoreSlotMsgs.
From S2P Require Import CoreSlotGenesis CoreSlotInvariant CoreSlotValidators CoreSlotPolicy CoreSlotRows.
From S2P Require Import CoreSlotBlocks CoreSlotTheorems SelectionTheorems.
From stdpp Require Import relations.
From Stdlib Require Import String.
Local Open Scope Z_scope.

(** ** query.proto *)
Record QueryCoreSlotsRequest := {
  QCS_Status : SlotStatus;
  QCS_Pagination : option PageRequest
}.
Record QueryCoreSlotsResponse := {
  QCS_Slots : list CoreSlot;
  QCS_PageResponse : option PageResponse
}.
Record QuerySelectionPolicyVersionRequest := {
  QSV_SlotId : Z;
  QSV_PolicyVersion : Z
}.
Record QuerySelectionPolicyAtHeightRequest := {
  QSH_SlotId : Z;
  QSH_AtHeight : Z
}.

(** ** query_server.go: errors *)
Definition policyQueryError {A} (m : res A) : res A :=
  map_err (λ e,
    match e with
    | CsSlotNotFound | CsSelectionPolicyNotFound => StatusNotFound
    | CsInvalidSelectionPolicy => StatusInternal
    | e => e
    end) m.

Definition lookupError {A} (m : res A) : res A :=
  map_err (λ e,
    match e with
    | CsSlotNotFound | CsSelectionPolicyNotFound | ErrNotFound => StatusNotFound
    | e => if is_status e then e else StatusInternal
    end) m.

Definition mandatoryStateError {A} (m : res A) : res A :=
  map_err (λ e, if is_status e then e else StatusInternal) m.

Definition slotIndexError {A} (m : res A) : res A :=
  map_err (λ e, match e with ErrNotFound => StatusNotFound | _ => StatusInternal end) m.

(** ** [query.CollectionFilteredPaginate]

    Read from a key, a page covers the rows from there on up to and including the
    [limit]-th that matches, and returns those that match; its next key is that of
    the row after. *)
Fixpoint filtered_rows {A} (cursor : Z → string) (P : A → bool) (limit : nat) (l : list (Z * A))
    : list (Z * A) * PageResponse :=
  match l with
  | [] => ([], next_page EmptyString)
  | (k, x) :: l =>
      match limit with
      | O => ([], next_page (cursor k))
      | S limit' =>
          if P x then
            (let '(rows, response) := filtered_rows cursor P limit' l in
             ((k, x) :: rows, response))
          else filtered_rows cursor P limit l
      end
  end.

Class FilteredPaginator := {
  filtered_page : ∀ {A}, gmap Z A → (A → bool) → option PageRequest →
    res (list (Z * A) * PageResponse);
  filtered_cursor : Z → string;
  filtered_cursor_nonempty k : filtered_cursor k ≠ EmptyString;
  filtered_first {A} (m : gmap Z A) P limit : 1 ≤ limit →
    filtered_page m P (Some (page_by_key EmptyString limit)) =
      Ok (filtered_rows filtered_cursor P (Z.to_nat limit) (entries m));
  filtered_next {A} (m : gmap Z A) P limit k : 1 ≤ limit → is_u64 k →
    filtered_page m P (Some (page_by_key (filtered_cursor k) limit)) =
      Ok (filtered_rows filtered_cursor P (Z.to_nat limit) (from_key k m))
}.

(** ** query_server.go: the queries *)
Section queries.
Context {BE : Bech32} {PK : PubKeyCodec} {FP : FilteredPaginator}.
Implicit Types (s : CoreSlotState).

Definition CoreSlotQueryParams s : res CoreSlotParams := mandatoryStateError (getParams s).

Definition QueryCoreSlot s (req : option Z) : res CoreSlot :=
  match req with
  | None => Err StatusInvalidArgument
  | Some slotId => lookupError (getSlot slotId s)
  end.

Definition QueryCoreSlots s (req : option QueryCoreSlotsRequest) : res QueryCoreSlotsResponse :=
  let pageReq := req ≫= QCS_Pagination in
  let status := from_option QCS_Status SLOT_STATUS_UNSPECIFIED req in
  fail_if (match pageReq with
           | None => false
           | Some page => negb (Pg_Offset page =? 0) && bool_decide (Pg_Key page ≠ EmptyString)
           end) StatusInvalidArgument ;;
  '(rows, pageRes) ← mandatoryStateError (filtered_page (Cs_Slots s) (λ slot,
    bool_decide (status = SLOT_STATUS_UNSPECIFIED) || bool_decide (status = Status slot)) pageReq);
  mret {| QCS_Slots := snd <$> rows; QCS_PageResponse := Some pageRes |}.

Definition QueryActiveCoreSlots s : res QueryCoreSlotsResponse :=
  slots ← mandatoryStateError (ActiveSlotRows s);
  mret {| QCS_Slots := slots; QCS_PageResponse := None |}.

Definition indexedSlot s (id : Z) : res CoreSlot :=
  map_err (λ _, StatusInternal) (coll_get (Cs_Slots s !! id)).

Definition CoreSlotByOperator s (req : option string) : res CoreSlot :=
  operator ← deref_ptr req;
  id ← slotIndexError (coll_get (Cs_ByOperator s !! operator));
  indexedSlot s id.

Definition CoreSlotByConsensusAddress s (req : option string) : res CoreSlot :=
  address ← deref_ptr req;
  raw ← (match hex_decode address with Some raw => Ok raw | None => Err StatusInvalidArgument end);
  let key := fmtHex raw in
  id ← slotIndexError (coll_get (Cs_ByConsensus s !! key));
  indexedSlot s id.

Definition PendingKeyRotations s : res (list PendingKeyRotation) :=
  mret (snd <$> entries (Cs_Rotations s)).

Definition pendingTransfer (key : Z) (transfer : PendingAuthorityTransfer)
    : res PendingAuthorityTransferEntry :=
  let role : AuthorityRole := key in
  wrap ErrPlain (authorityRoleKey role) ;;
  fail_if (bool_decide (AccAddressFromBech32 (PAT_Nominee transfer) = None)) ErrPlain ;;
  fail_if (PAT_NominatedHeight transfer <=? 0) ErrPlain ;;
  mret {| PATE_Role := role; PATE_Transfer := Some transfer |}.

Definition PendingAuthorityTransfers s : res (list PendingAuthorityTransferEntry) :=
  mandatoryStateError (map_m (λ kv, pendingTransfer (fst kv) (snd kv)) (entries (Cs_PendingAuthority s))).

Definition LastAppliedValidators s : res (list LastAppliedValidator) :=
  mret (str_values (Cs_LastApplied s)).

Definition QueryReservedConsensusAddress s (req : option string) : res ReservedConsensusAddress :=
  match req with
  | None => Err StatusInvalidArgument
  | Some address => lookupError (coll_get (Cs_Reserved s !! address))
  end.

Definition QuerySelectionPolicy s (req : option Z) : res SelectionPolicyVersion :=
  slotId ← deref_ptr req;
  slot ← policyQueryError
    (map_err (λ e, if bool_decide (e = CsSlotNotFound) then e else CsInvalidSelectionPolicy)
      (getSlot slotId s));
  policyQueryError (currentPolicy slot s).

Definition QuerySelectionPolicyVersion s (req : option QuerySelectionPolicyVersionRequest)
    : res SelectionPolicyVersion :=
  req ← deref_ptr req;
  policy ← policyQueryError
    (map_err (λ e, if bool_decide (e = ErrNotFound) then CsSelectionPolicyNotFound
                   else CsInvalidSelectionPolicy)
      (coll_get (Cs_SelectionPolicies s !! (QSV_SlotId req, QSV_PolicyVersion req))));
  policyQueryError
    (fail_if (negb (SPV_SlotId policy =? QSV_SlotId req) ||
              negb (SPV_PolicyVersion policy =? QSV_PolicyVersion req)) CsInvalidSelectionPolicy) ;;
  mret policy.

Definition QuerySelectionPolicyAtHeight s (req : option QuerySelectionPolicyAtHeightRequest)
    : res SelectionPolicyVersion :=
  req ← deref_ptr req;
  policyQueryError (SelectionPolicyAtHeight (QSH_SlotId req) (QSH_AtHeight req) s).

Definition QueryRewardWeight s (req : option Z) : res OperatorRewardWeight :=
  match req with
  | None => Err StatusInvalidArgument
  | Some slotId => lookupError (GetRewardWeight slotId s)
  end.
End queries.

(** ** Following filtered pages *)

(** What a page covers: the rows up to where the next page begins. *)
Lemma filtered_rows_split {A} (cursor : Z → string) (P : A → bool) limit l :
  ∃ l1 l2, l = l1 ++ l2 ∧
    filtered_rows cursor P limit l = (base.filter (λ kv, P (snd kv) = true) l1,
      next_page match l2 with [] => EmptyString | (k, _) :: _ => cursor k end) ∧
    (l2 ≠ [] → limit ≠ 0%nat → l1 ≠ []).
Proof.
  revert limit. induction l as [|[k x] l IH]; intros limit; cbn [filtered_rows].
  { by exists [], []. }
  destruct limit as [|limit]; [by exists [], ((k, x) :: l)|].
  destruct (P x) eqn:HP.
  - destruct (IH limit) as (l1 & l2 & -> & -> & _). exists ((k, x) :: l1), l2.
    split_and!; [done | | done]. by rewrite filter_cons_True.
  - destruct (IH (S limit)) as (l1 & l2 & -> & -> & _). exists ((k, x) :: l1), l2.
    split_and!; [done | | done]. by rewrite filter_cons_False by (simpl; congruence).
Qed.

Section follow_filtered.
Context {FP : FilteredPaginator} {A B : Type}.

(** Following the cursors returns every matching row, by ascending key. *)
Lemma filtered_follow (m : gmap Z A) (P : A → bool) (f : A → B) limit query :
  1 ≤ limit → (∀ k x, m !! k = Some x → is_u64 k) →
  (∀ key rows response, filtered_page m P (Some (page_by_key key limit)) = Ok (rows, response) →
     query key = Ok ((λ kv, f (snd kv)) <$> rows, response)) →
  ∀ fuel, (size m < fuel)%nat → follow query fuel EmptyString =
    Ok ((λ kv, f (snd kv)) <$> base.filter (λ kv, P (snd kv) = true) (entries m)).
Proof.
  intros Hl Hk Hq.
  assert (∀ fuel key l, (List.length l < fuel)%nat →
    (∀ l1 j x l2, l = l1 ++ (j, x) :: l2 → from_key j m = (j, x) :: l2 ∧ m !! j = Some x) →
    filtered_page m P (Some (page_by_key key limit)) =
      Ok (filtered_rows filtered_cursor P (Z.to_nat limit) l) →
    follow query fuel key =
      Ok ((λ kv, f (snd kv)) <$> base.filter (λ kv, P (snd kv) = true) l)) as Hgen.
  { induction fuel as [|fuel IH]; intros key l Hfuel Hsplit Hpage; [lia|].
    destruct (filtered_rows_split filtered_cursor P (Z.to_nat limit) l)
      as (l1 & l2 & -> & Hrows & Hne). rewrite Hrows in Hpage.
    cbn [follow]. rewrite (Hq _ _ _ Hpage). cbn [mbind res_bind next_page Pg_NextKey].
    destruct l2 as [|[j x] l2].
    - rewrite bool_decide_eq_true_2 by done. by rewrite app_nil_r.
    - rewrite bool_decide_eq_false_2 by apply filtered_cursor_nonempty.
      destruct (Hsplit l1 j x l2 eq_refl) as [Hj Hm].
      assert (List.length l1 ≠ 0%nat) as Hl1.
      { intros H%length_zero_iff_nil. apply Hne; [done | lia | done]. }
      rewrite (IH (filtered_cursor j) ((j, x) :: l2)).
      + cbn [mbind res_bind mret res_ret]. by rewrite filter_app, fmap_app.
      + rewrite length_app in Hfuel. lia.
      + intros l1' j' x' l2' He. apply (Hsplit (l1 ++ l1')). by rewrite <- app_assoc, <- He.
      + rewrite <- Hj. apply filtered_next; [done|]. by eapply Hk. }
  intros fuel Hfuel. apply Hgen; [by rewrite entries_length | | by apply filtered_first].
  intros l1 j x l2. apply entries_split.
Qed.
End follow_filtered.

(** ** A concrete paginator: cursors are big-endian keys *)
#[program] Definition key_filtered_paginator : FilteredPaginator := {|
  filtered_page A m P page :=
    let page := default {| Pg_Key := EmptyString; Pg_Offset := 0; Pg_Limit := 0;
      Pg_CountTotal := true; Pg_Reverse := false |} page in
    let rows := if Pg_Reverse page then rev (entries m) else entries m in
    let limit := if Pg_Limit page =? 0 then 100 else Pg_Limit page in
    if bool_decide (Pg_Key page = EmptyString) then
      let matching := base.filter (λ kv, P (snd kv) = true) rows in
      let '(results, response) := filtered_rows (be 8) P (Z.to_nat (Pg_Offset page + limit)) rows in
      mret (drop (Z.to_nat (Pg_Offset page)) results, {| Pg_NextKey := Pg_NextKey response;
        Pg_Total := if Pg_CountTotal page then Z.of_nat (List.length matching) else 0 |})
    else
      let cursor := be_value (Pg_Key page) in
      mret (filtered_rows (be 8) P (Z.to_nat limit)
        (if Pg_Reverse page then base.filter (λ kv, fst kv ≤ cursor) rows
         else base.filter (λ kv, cursor ≤ fst kv) rows));
  filtered_cursor := be 8
|}.
Next Obligation. exact be8_nonempty. Qed.
Next Obligation.
  intros A m P limit Hl. cbn [page_by_key default id Pg_Key Pg_Offset Pg_Limit Pg_CountTotal Pg_Reverse].
  destruct (Z.eqb_spec limit 0); [lia|]. rewrite bool_decide_eq_true_2 by done. cbv zeta.
  rewrite Z.add_0_l. destruct (filtered_rows_split (be 8) P (Z.to_nat limit) (entries m))
    as (l1 & l2 & _ & -> & _). by rewrite drop_0.
Qed.
Next Obligation.
  intros A m P limit k Hl Hk. cbn [page_by_key default id Pg_Key Pg_Offset Pg_Limit Pg_CountTotal Pg_Reverse].
  destruct (Z.eqb_spec limit 0); [lia|]. rewrite bool_decide_eq_false_2 by apply be8_nonempty.
  cbv zeta. rewrite be8_value by done. reflexivity.
Qed.

(** ** What the queries answer in a good state *)
Section answers.
Context {BE : Bech32} {PK : PubKeyCodec} {FP : FilteredPaginator} (econ : Validator).
Context (p : CoreSlotParams) (h : Z) (s : CoreSlotState).
Context (Hi : core_inv econ p s) (Hpi : policy_inv h s).

Lemma slot_id id slot : Cs_Slots s !! id = Some slot → SlotId slot = id.
Proof using Hi. intros Hs. apply (so_id _ _ _ _ (ci_slots _ _ _ Hi id slot Hs)). Qed.

Definition live (slot : CoreSlot) : Prop :=
  Cs_Slots s !! SlotId slot = Some slot ∧ Status slot ≠ SLOT_STATUS_REMOVED.

Lemma operator_answer op :
  match CoreSlotByOperator s (Some op) with
  | Ok slot => live slot ∧ OperatorAddress slot = op
  | Err status => status = StatusNotFound ∧ ∀ slot, live slot → OperatorAddress slot ≠ op
  end.
Proof using Hi.
  unfold CoreSlotByOperator, indexedSlot. cbn [deref_ptr mbind res_bind].
  destruct (Cs_ByOperator s !! op) as [id|] eqn:Hop; cbn [coll_get slotIndexError map_err mbind res_bind].
  - apply (ci_operators _ _ _ Hi) in Hop as (slot & Hs & Hl & Ho). rewrite Hs.
    cbn [coll_get map_err]. unfold live. by rewrite (slot_id id slot Hs).
  - split; [done|]. intros slot [Hs Hl] Ho.
    assert (Cs_ByOperator s !! op = Some (SlotId slot)) as H; [|congruence].
    apply (ci_operators _ _ _ Hi). by exists slot.
Qed.

Lemma consensus_answer address raw : hex_decode address = Some raw →
  match CoreSlotByConsensusAddress s (Some address) with
  | Ok slot => Cs_Slots s !! SlotId slot = Some slot ∧ owns s (SlotId slot) (fmtHex raw)
  | Err status => status = StatusNotFound ∧ ∀ id, ¬ owns s id (fmtHex raw)
  end.
Proof using Hi.
  intros Hraw. unfold CoreSlotByConsensusAddress, indexedSlot. cbn [deref_ptr mbind res_bind].
  rewrite Hraw. cbn [mbind res_bind].
  destruct (Cs_ByConsensus s !! fmtHex raw) as [id|] eqn:Hk;
    cbn [coll_get slotIndexError map_err mbind res_bind].
  - apply (ci_keys _ _ _ Hi) in Hk as Hown.
    assert (∃ slot, Cs_Slots s !! id = Some slot) as (slot & Hs).
    { destruct Hown as [(slot & Hs & _)|(r & Hr & _)]; [by exists slot|].
      destruct (ci_rotations _ _ _ Hi id r Hr) as (_ & _ & slot & Hs & _). by exists slot. }
    rewrite Hs. cbn. by rewrite (slot_id id slot Hs).
  - split; [done|]. intros id Hown. apply (ci_keys _ _ _ Hi) in Hown. congruence.
Qed.

(** A live slot is found under the address of its own key, in either case. *)
Lemma own_key_found slot key addr : live slot →
  consensusKey (ConsensusPubkey slot) = Ok (key, addr) →
  ∀ address, hex_decode address = Some addr →
    CoreSlotByConsensusAddress s (Some address) = Ok slot.
Proof using Hi.
  intros [Hs Hl] Hkey address Haddr. pose proof (consensus_answer address addr Haddr) as Hans.
  assert (key = fmtHex addr) as ->.
  { unfold consensusKey in Hkey. apply res_bind_Ok in Hkey as (pk & _ & Hkey). by injection Hkey as <- <-. }
  assert (owns s (SlotId slot) (fmtHex addr)) as Hown.
  { left. exists slot. split_and!; [done..|]. apply key_of_Some. by exists addr. }
  destruct (CoreSlotByConsensusAddress _ _) as [slot'|status].
  - destruct Hans as [Hs' Hown']. pose proof (owns_unique econ p s Hi _ _ _ Hown Hown') as He.
    rewrite He in Hs. congruence.
  - destruct Hans as [_ Hno]. by destruct (Hno _ Hown).
Qed.

Definition slots_page (status : SlotStatus) (limit : Z) (key : string)
    : res (list CoreSlot * PageResponse) :=
  answer ← QueryCoreSlots s (Some {| QCS_Status := status;
    QCS_Pagination := Some (page_by_key key limit) |});
  mret (QCS_Slots answer, default (next_page EmptyString) (QCS_PageResponse answer)).

Definition wanted (status : SlotStatus) (slot : CoreSlot) : bool :=
  bool_decide (status = SLOT_STATUS_UNSPECIFIED) || bool_decide (status = Status slot).

Lemma slots_listed status limit : 1 ≤ limit →
  ∀ fuel, (size (Cs_Slots s) < fuel)%nat → follow (slots_page status limit) fuel EmptyString =
    Ok (base.filter (λ slot, wanted status slot = true) (snd <$> entries (Cs_Slots s))).
Proof using Hi.
  intros Hl fuel Hfuel. rewrite (filtered_follow (Cs_Slots s) (wanted status) id limit).
  - f_equal. clear. induction (entries (Cs_Slots s)) as [|[k x] l IH]; [done|].
    rewrite filter_cons, !fmap_cons, filter_cons. simpl. case_decide; [|done]. simpl. by f_equal.
  - done.
  - intros k x Hk. destruct (so_range _ _ _ _ (ci_slots _ _ _ Hi k x Hk)). widths. lia.
  - intros key rows response Hpage. unfold slots_page, QueryCoreSlots.
    cbn [option_bind mbind from_option QCS_Status QCS_Pagination page_by_key Pg_Offset Pg_Key].
    cbn [Z.eqb negb andb fail_if mret res_ret mbind res_bind].
    unfold wanted in Hpage. by rewrite Hpage.
  - done.
Qed.

(** *** Selection policies *)
Lemma current_answer id slot : Cs_Slots s !! id = Some slot →
  ∃ q, QuerySelectionPolicy s (Some id) = Ok q ∧
    version_of s id (CurrentSelectionPolicyVersion slot) = Some q ∧
    SPV_ValidUntilHeightExclusive q = 0.
Proof using Hi Hpi.
  intros Hs. pose proof (pi_history _ _ Hpi id slot Hs) as Hh.
  pose proof (ho_current _ _ _ _ Hh) as Hcur.
  destruct (proj2 (ho_versions _ _ _ _ Hh (CurrentSelectionPolicyVersion slot)) ltac:(lia)) as [q Hq].
  exists q. pose proof (ho_last _ _ _ _ Hh q Hq) as Hlast. split_and!; [|done..].
  destruct (ho_row _ _ _ _ Hh _ q Hq) as (Hid & Hv & _).
  unfold QuerySelectionPolicy, getSlot. cbn [deref_ptr mbind res_bind]. rewrite Hs.
  cbn [map_err policyQueryError mbind res_bind]. unfold currentPolicy. rewrite (slot_id id slot Hs).
  destruct (Z.eqb_spec (CurrentSelectionPolicyVersion slot) 0); [lia|].
  cbn [fail_if mret res_ret mbind res_bind]. unfold version_of in Hq. rewrite Hq.
  cbn [coll_get wrap mbind res_bind]. rewrite Hid, Hv, Hlast, !Z.eqb_refl. done.
Qed.

Lemma version_answer id v :
  QuerySelectionPolicyVersion s (Some {| QSV_SlotId := id; QSV_PolicyVersion := v |}) =
    match version_of s id v with
    | Some q => Ok q
    | None => Err StatusNotFound
    end.
Proof using Hpi.
  unfold QuerySelectionPolicyVersion. cbn [deref_ptr mbind res_bind QSV_SlotId QSV_PolicyVersion].
  fold (version_of s id v). destruct (version_of s id v) as [q|] eqn:Hq.
  - destruct (pi_owner _ _ Hpi id v ltac:(eauto)) as [slot Hs].
    destruct (ho_row _ _ _ _ (pi_history _ _ Hpi id slot Hs) v q Hq) as (Hid & Hv & _).
    cbn [coll_get map_err policyQueryError mbind res_bind]. by rewrite Hid, Hv, !Z.eqb_refl.
  - cbn [coll_get map_err]. by rewrite bool_decide_eq_true_2.
Qed.

Lemma height_answer id height :
  match QuerySelectionPolicyAtHeight s (Some {| QSH_SlotId := id; QSH_AtHeight := height |}) with
  | Ok q => ∃ v, version_of s id v = Some q ∧ in_force height q
  | Err status => status = StatusNotFound ∧ ∀ v q, version_of s id v = Some q → ¬ in_force height q
  end.
Proof using Hpi.
  unfold QuerySelectionPolicyAtHeight. cbn [deref_ptr mbind res_bind QSH_SlotId QSH_AtHeight].
  destruct (SelectionPolicyAtHeight id height s) as [q|e] eqn:E; cbn [policyQueryError map_err].
  - by apply (resolve_iff h s id height q Hpi).
  - pose proof (resolve_error h s id height e Hpi E) as ->. split; [done|].
    intros v q Hq Hf. rewrite (proj2 (resolve_iff h s id height q Hpi)) in E; [done|]. by exists v.
Qed.
End answers.

(** ** Properties *)
Section properties.
Context {BE : Bech32} {PK : PubKeyCodec} {FP : FilteredPaginator} (econ : Validator).

(** C18: slots are found by what they own: in every state reachable from a good
    one, the lookups by operator and by consensus address answer the slot that
    owns what was asked for, and NotFound only if none does; a slot that is not
    removed is found under its operator and under its key's address in either
    letter case; text that is no hexadecimal is refused as such; nothing is ever
    reported as corrupt; the active query returns exactly the active slots, and
    following the pages of the listing exactly the slots of the wanted status, by
    ascending identifier. *)
Theorem slot_lookups_complete (x : Z * CoreSlotState) (h : Z) (s : CoreSlotState)
    (status : SlotStatus) (limit : Z) :
  cs_good econ x → rtc (cs_step econ) x (h, s) → 1 ≤ limit →
  (∀ op, match CoreSlotByOperator s (Some op) with
     | Ok slot => live s slot ∧ OperatorAddress slot = op
     | Err status => status = StatusNotFound ∧ ∀ slot, live s slot → OperatorAddress slot ≠ op
     end) ∧
  (∀ address, match hex_decode address, CoreSlotByConsensusAddress s (Some address) with
     | None, answer => answer = Err StatusInvalidArgument
     | Some raw, Ok slot => Cs_Slots s !! SlotId slot = Some slot ∧ owns s (SlotId slot) (fmtHex raw)
     | Some raw, Err status => status = StatusNotFound ∧ ∀ id, ¬ owns s id (fmtHex raw)
     end) ∧
  (∀ slot, live s slot →
     CoreSlotByOperator s (Some (OperatorAddress slot)) = Ok slot ∧
     ∃ key addr, consensusKey (ConsensusPubkey slot) = Ok (key, addr) ∧
       CoreSlotByConsensusAddress s (Some key) = Ok slot ∧
       ∀ address, hex_decode address = Some addr →
         CoreSlotByConsensusAddress s (Some address) = Ok slot) ∧
  (∃ answer, QueryActiveCoreSlots s = Ok answer ∧ NoDup (QCS_Slots answer) ∧
     ∀ slot, slot ∈ QCS_Slots answer ↔
       Cs_Slots s !! SlotId slot = Some slot ∧ Status slot = SLOT_STATUS_ACTIVE) ∧
  ∀ fuel, (size (Cs_Slots s) < fuel)%nat → follow (slots_page s status limit) fuel EmptyString =
    Ok (base.filter (λ slot, wanted status slot = true) (snd <$> entries (Cs_Slots s))).
Proof.
  intros Hg Hrun Hl. destruct (run_good econ x (h, s) Hg Hrun) as (_ & (p & Hi) & _). simpl in Hi.
  split_and!.
  - intros op. by eapply operator_answer.
  - intros address. destruct (hex_decode address) as [raw|] eqn:Hraw.
    + by apply (consensus_answer econ p s Hi).
    + unfold CoreSlotByConsensusAddress. cbn [deref_ptr mbind res_bind]. by rewrite Hraw.
  - intros slot Hlive. split.
    + pose proof (operator_answer econ p s Hi (OperatorAddress slot)) as Hans.
      destruct (CoreSlotByOperator _ _) as [slot'|e]; [|by destruct (proj2 Hans slot Hlive)].
      destruct Hans as [[Hs' Hl'] Ho], Hlive as [Hs Hl0]. f_equal.
      assert (Cs_ByOperator s !! OperatorAddress slot = Some (SlotId slot)) as H1
        by (apply (ci_operators _ _ _ Hi); by exists slot).
      assert (Cs_ByOperator s !! OperatorAddress slot = Some (SlotId slot')) as H2
        by (apply (ci_operators _ _ _ Hi); by exists slot').
      congruence.
    + destruct (so_key _ _ _ _ (ci_slots _ _ _ Hi _ slot (proj1 Hlive))) as [key Hkey].
      apply key_of_Some in Hkey as [addr Hkey].
      pose proof (own_key_found econ p s Hi slot key addr Hlive Hkey) as Hfound.
      exists key, addr. split_and!; [done| |done]. apply Hfound.
      unfold consensusKey in Hkey. apply res_bind_Ok in Hkey as (pk & _ & Hkey).
      injection Hkey as <- <-. apply hex_decode_fmt.
  - destruct (ActiveSlotRows_spec econ p s Hi) as (rows & Hrows & Hnd & Hin & _).
    eexists. split; [by unfold QueryActiveCoreSlots; rewrite Hrows|]. by split.
  - by eapply slots_listed.
Qed.

(** C19: every Selection-policy version is served and nothing else is: in every
    reachable state, the current policy of a slot is its last, open-ended version,
    a version asked for by number is answered as stored, and a height resolves to
    the version in force there; what does not exist is NotFound, and no query
    reports the history as contradictory. *)
Theorem selection_policy_queries_complete (x : Z * CoreSlotState) (h : Z) (s : CoreSlotState)
    (id v height : Z) :
  cs_good econ x → rtc (cs_step econ) x (h, s) →
  match Cs_Slots s !! id with
  | Some slot => ∃ q, QuerySelectionPolicy s (Some id) = Ok q ∧
      version_of s id (CurrentSelectionPolicyVersion slot) = Some q ∧
      SPV_ValidUntilHeightExclusive q = 0
  | None => QuerySelectionPolicy s (Some id) = Err StatusNotFound
  end ∧
  QuerySelectionPolicyVersion s (Some {| QSV_SlotId := id; QSV_PolicyVersion := v |}) =
    match version_of s id v with Some q => Ok q | None => Err StatusNotFound end ∧
  match QuerySelectionPolicyAtHeight s (Some {| QSH_SlotId := id; QSH_AtHeight := height |}) with
  | Ok q => ∃ v, version_of s id v = Some q ∧ in_force height q
  | Err status => status = StatusNotFound ∧ ∀ v q, version_of s id v = Some q → ¬ in_force height q
  end.
Proof.
  intros Hg Hrun. destruct (run_good econ x (h, s) Hg Hrun) as (_ & (p & Hi) & Hpi). simpl in Hi, Hpi.
  split_and!.
  - destruct (Cs_Slots s !! id) as [slot|] eqn:Hs.
    + by apply (current_answer econ p h s Hi Hpi).
    + unfold QuerySelectionPolicy, getSlot. cbn [deref_ptr mbind res_bind]. by rewrite Hs.
  - by apply (version_answer h s Hpi).
  - by apply (height_answer h s Hpi).
Qed.
End properties.

(** ** Witnesses *)
Section witnesses.
#[local] Existing Instances bech32_id plain_keys one_decimal key_filtered_paginator.

Lemma slot_lookups_complete_witness :
  CoreSlotByOperator sample_core (Some "ann"%string) =
    Ok (sample_core_slot 1 "ann" "a" SLOT_STATUS_ACTIVE) ∧
  follow (slots_page sample_core SLOT_STATUS_PENDING 1) 9 EmptyString =
    Ok [sample_core_slot 3 "cat" "c" SLOT_STATUS_PENDING].
Proof.
  destruct sample_import as (p & _ & Hg).
  destruct (slot_lookups_complete sample_validator (1, sample_core) 1 sample_core
    SLOT_STATUS_PENDING 1 Hg (rtc_refl _ _) ltac:(lia)) as (_ & _ & Hlive & _ & Hlist).
  split.
  - apply (Hlive (sample_core_slot 1 "ann" "a" SLOT_STATUS_ACTIVE)).
    split; [exact sample_slot_1 | discriminate].
  - etransitivity; [apply (Hlist 9%nat)|].
    + apply Nat.ltb_lt. vm_cast_no_check (eq_refl true).
    + vm_cast_no_check (eq_refl (@Ok (list CoreSlot) [sample_core_slot 3 "cat" "c" SLOT_STATUS_PENDING])).
Defined.

Lemma selection_policy_queries_complete_witness :
  QuerySelectionPolicyVersion sample_core (Some {| QSV_SlotId := 1; QSV_PolicyVersion := 1 |}) =
    Ok (sample_policy 1) ∧
  QuerySelectionPolicyVersion sample_core (Some {| QSV_SlotId := 1; QSV_PolicyVersion := 2 |}) =
    Err StatusNotFound.
Proof.
  destruct sample_import as (p & _ & Hg).
  pose proof (selection_policy_queries_complete sample_validator (1, sample_core) 1 sample_core
    1 1 9 Hg (rtc_refl _ _)) as (_ & H1 & _).
  pose proof (selection_policy_queries_complete sample_validator (1, sample_core) 1 sample_core
    1 2 9 Hg (rtc_refl _ _)) as (_ & H2 & _).
  split.
  - etransitivity; [exact H1|].
    vm_cast_no_check (eq_refl (@Ok SelectionPolicyVersion (sample_policy 1))).
  - etransitivity; [exact H2|].
    vm_cast_no_check (eq_refl (@Err SelectionPolicyVersion StatusNotFound)).
Defined.
End witnesses.
