(* ===== verification/CoreSlotUpgrades.v ===== *)
(** * Coordinated upgrades: the proxy of x/coreslot and the application's registry

    Models the upgrade messages of [x/coreslot/keeper/msg_server.go] over the
    interface of [x/coreslot/types/expected_keepers.go], its implementation and the
    upgrade registry in [app/upgrades.go], and the change of block parameters in
    [app/consensusparams.go].  The keeper of x/upgrade, the module manager and the
    consensus parameters of CometBFT are not code of this repository: they are the
    classes [UpgradeKeeper] and [CometParams] and parameters, with the documented
    behaviour as laws. *)
From S2P Require Import Prelude Checked SdkMath Bounds EconomicAddress RewardsTypes Collections.
From S2P Require Import Allocation RewardConfig CoreSlotTypes CoreSlotState CoreSlot CoreSlotMsgs.
From S2P Require Import CoreSlotInvariant CoreSlotTheorems.
From Stdlib Require Import String.
Local Open Scope Z_scope.

(** ** x/upgrade *)
Record Plan := {
  Plan_Name : string;
  Plan_Time : Z;
  Plan_Height : Z;
  Plan_Info : string;
  Plan_UpgradedClientState : option Any
}.

(** The pending plan is all this code reads; scheduling replaces it, clearing
    removes it, and a call that fails leaves it.  [GetUpgradePlan] answers
    [ErrNotFound] for [ErrNoUpgradePlanFound]. *)
Class UpgradeKeeper := {
  UpgradeStore : Type;
  GetUpgradePlan : UpgradeStore → res Plan;
  UK_ScheduleUpgrade : Plan → M UpgradeStore unit;
  UK_ClearUpgradePlan : M UpgradeStore unit;
  schedule_law plan u : let '(u', r) := UK_ScheduleUpgrade plan u in
    GetUpgradePlan u' = match r with Ok _ => Ok plan | Err _ => GetUpgradePlan u end;
  clear_law u : let '(u', r) := UK_ClearUpgradePlan u in
    GetUpgradePlan u' = match r with Ok _ => Err ErrNotFound | Err _ => GetUpgradePlan u end
}.

(** ** types/expected_keepers.go, and app/upgrades.go: upgradeScheduler *)
Section scheduler.
Context {UK : UpgradeKeeper}.

Record UpgradeScheduler := {
  ScheduleUpgrade : string → Z → string → M UpgradeStore unit;
  CancelUpgrade : M UpgradeStore unit;
  PendingUpgrade : UpgradeStore → res string
}.

(** [keeper] is false for a nil pointer. *)
Definition upgradeScheduler (keeper : bool) : UpgradeScheduler := {|
  ScheduleUpgrade name height info :=
    fail_if (negb keeper) CsUpgradeUnavailable ;;
    UK_ScheduleUpgrade {| Plan_Name := name; Plan_Time := 0; Plan_Height := height;
      Plan_Info := info; Plan_UpgradedClientState := None |};
  CancelUpgrade :=
    fail_if (negb keeper) CsUpgradeUnavailable ;;
    UK_ClearUpgradePlan;
  PendingUpgrade u :=
    fail_if (negb keeper) CsUpgradeUnavailable ;;
    match GetUpgradePlan u with
    | Ok plan => mret (Plan_Name plan)
    | Err e => if bool_decide (e = ErrNotFound) then mret EmptyString else Err e
    end
|}.

(** ** msg_server.go *)
Record MsgScheduleUpgrade := {
  SU_Authority : string;
  SU_Name : string;
  SU_Height : Z;
  SU_Info : string
}.
Record MsgCancelUpgrade := { CU_Authority : string }.

(** The handlers read the parameters of the module and nothing else of its store;
    [height] is that of the header. *)
Context (upgrades : option UpgradeScheduler) (s : CoreSlotState) (height : Z).

Definition requireScheduler : res UpgradeScheduler :=
  match upgrades with None => Err CsUpgradeUnavailable | Some u => mret u end.

Definition HandleScheduleUpgrade (msg : MsgScheduleUpgrade) : M UpgradeStore unit :=
  scheduler ← lift requireScheduler;
  params ← lift (getParams s);
  fail_if (bool_decide (SU_Authority msg ≠ Authority params)) CsUnauthorized ;;
  fail_if (bool_decide (SU_Name msg = EmptyString)) CsInvalidUpgrade ;;
  fail_if (SU_Height msg <=? height) CsInvalidUpgrade ;;
  ScheduleUpgrade scheduler (SU_Name msg) (SU_Height msg) (SU_Info msg).

Definition HandleCancelUpgrade (msg : MsgCancelUpgrade) : M UpgradeStore unit :=
  scheduler ← lift requireScheduler;
  params ← lift (getParams s);
  fail_if (bool_decide (CU_Authority msg ≠ Authority params)) CsUnauthorized ;;
  pending ← reads (PendingUpgrade scheduler);
  fail_if (bool_decide (pending = EmptyString)) CsInvalidUpgrade ;;
  CancelUpgrade scheduler.
End scheduler.

(** ** app/consensusparams.go *)
Record BlockParams := { MaxBytes : Z; MaxGas : Z }.

(** [cmtproto.ConsensusParams], with nilable sections, and [cmttypes.ConsensusParams]. *)
Class CometParams := {
  EvidenceParams : Type; ValidatorParams : Type; VersionParams : Type; ABCIParams : Type;
  ZeroVersion : VersionParams;
  ZeroABCI : ABCIParams
}.
Record ProtoParams `{CometParams} := {
  CP_Block : option BlockParams;
  CP_Evidence : option EvidenceParams;
  CP_Validator : option ValidatorParams;
  CP_Version : option VersionParams;
  CP_Abci : option ABCIParams
}.
Class CometConversions `{CP : CometParams} := {
  CmtParams : Type;
  ConsensusParamsFromProto : ProtoParams → CmtParams;
  with_Block : CmtParams → BlockParams → CmtParams;
  ToProto : CmtParams → ProtoParams;
  ValidateBasic : CmtParams → res unit;
  ValidateUpdate : CmtParams → ProtoParams → Z → res unit;
  (** The conversions copy every section; an absent ABCI section reads as zero. *)
  conversion_law stored b : is_Some (CP_Block stored) → is_Some (CP_Evidence stored) →
    is_Some (CP_Validator stored) → is_Some (CP_Version stored) →
    ToProto (with_Block (ConsensusParamsFromProto stored) b) =
      {| CP_Block := Some b; CP_Evidence := CP_Evidence stored; CP_Validator := CP_Validator stored;
         CP_Version := CP_Version stored; CP_Abci := Some (default ZeroABCI (CP_Abci stored)) |}
}.

Section consensus.
Context `{CC : CometConversions}.
(** [ParamsStore] of the consensus keeper. *)
Definition ParamsStore : Type := option ProtoParams.

Definition absent {A} (o : option A) : bool := match o with Some _ => false | None => true end.

(** [if stored.Version == nil { stored.Version = &cmtproto.VersionParams{} }] *)
Definition initVersion (stored : ProtoParams) : ProtoParams :=
  match CP_Version stored with
  | Some _ => stored
  | None => {| CP_Block := CP_Block stored; CP_Evidence := CP_Evidence stored;
      CP_Validator := CP_Validator stored; CP_Version := Some ZeroVersion;
      CP_Abci := CP_Abci stored |}
  end.

Definition SetBlockParams (blockHeight maxBytes maxGas : Z) : M ParamsStore unit :=
  stored ← reads coll_get;
  fail_if (absent (CP_Block stored) || absent (CP_Evidence stored) || absent (CP_Validator stored))
    ErrPlain ;;
  let stored := initVersion stored in
  let current := ConsensusParamsFromProto stored in
  let next := with_Block current {| MaxBytes := maxBytes; MaxGas := maxGas |} in
  lift (ValidateBasic next) ;;
  let update := ToProto next in
  lift (ValidateUpdate current update blockHeight) ;;
  modify (λ _, Some update).

Definition SetBlockMaxGas (blockHeight maxGas : Z) : M ParamsStore unit :=
  stored ← reads coll_get;
  match CP_Block stored with
  | None => mthrow ErrPlain
  | Some block => SetBlockParams blockHeight (MaxBytes block) maxGas
  end.

Definition V040BlockMaxGas : Z := 30000000.
End consensus.

(** ** app/upgrades.go: the registry *)
Section registry.
Context {StoreUpgrades VersionMap Keepers : Type}.

Record Upgrade := {
  Up_Name : string;
  Up_StoreUpgrades : option StoreUpgrades;
  Up_Migrate : option (M Keepers unit)
}.

Definition ValidateUpgrades (upgrades : list Upgrade) : res unit :=
  fold_m (λ seen upgrade,
    fail_if (bool_decide (Up_Name upgrade = EmptyString)) ErrPlain ;;
    fail_if (bool_decide (Up_Name upgrade ∈ seen)) ErrPlain ;;
    mret ({[Up_Name upgrade]} ∪ seen)) upgrades (∅ : gset string) ;;
  mret tt.

(** The closure registered for an entry: module migrations, then the entry's own. *)
Context (RunMigrations : VersionMap → M Keepers VersionMap).
Definition upgradeHandler (upgrade : Upgrade) (fromVM : VersionMap) : M Keepers VersionMap :=
  toVM ← RunMigrations fromVM;
  match Up_Migrate upgrade with Some migrate => migrate | None => mret tt end ;;
  mret toVM.

(** [SetUpgradeHandler] is an assignment to the keeper's map of handlers. *)
Definition registerUpgradeHandlers (upgrades : list Upgrade)
    (handlers : gmap string (VersionMap → M Keepers VersionMap))
    : res (gmap string (VersionMap → M Keepers VersionMap)) :=
  wrap Panic (ValidateUpgrades upgrades) ;;
  mret (fold_left (λ handlers upgrade,
    <[Up_Name upgrade := upgradeHandler upgrade]> handlers) upgrades handlers).

Record UpgradeInfo := { Info_Name : string; Info_Height : Z }.

(** The store loader it installs, if any: the height and the declared changes. *)
Definition setUpgradeStoreLoader (upgrades : list Upgrade) (info : res UpgradeInfo)
    (IsSkipHeight : Z → bool) : res (option (Z * StoreUpgrades)) :=
  info ← wrap Panic info;
  if bool_decide (Info_Name info = EmptyString) || IsSkipHeight (Info_Height info) then mret None
  else mret ((fix scan (upgrades : list Upgrade) := match upgrades with
    | [] => None
    | upgrade :: upgrades =>
        match Up_StoreUpgrades upgrade with
        | Some changes =>
            if bool_decide (Up_Name upgrade = Info_Name info) then Some (Info_Height info, changes)
            else scan upgrades
        | None => scan upgrades
        end
    end) upgrades).

(** [requireCompleteModuleVersionMap], over the stored map and the mounted modules. *)
Definition requireCompleteModuleVersionMap (stored : res (gmap string Z)) (modules : gset string)
    : res unit :=
  stored ← wrap ErrPlain stored;
  let missing := modules ∖ dom stored in
  fail_if (bool_decide (missing ≠ ∅)) ErrPlain.
End registry.
Arguments Upgrade : clear implicits.

(** The live registry, over what a migration reaches: the consensus parameters and
    the rest of the application, which no released entry touches. *)
Section live.
Context `{CC : CometConversions} (StoreUpgrades App : Type) (blockHeight : Z).

Definition Upgrades : list (Upgrade StoreUpgrades (ParamsStore * App)) := [
  {| Up_Name := "v0.2.0"; Up_StoreUpgrades := None; Up_Migrate := None |};
  {| Up_Name := "v0.3.0"; Up_StoreUpgrades := None; Up_Migrate := None |};
  {| Up_Name := "v0.4.0"; Up_StoreUpgrades := None;
     Up_Migrate := Some (zoom fst (λ params k, (params, snd k))
       (SetBlockMaxGas blockHeight V040BlockMaxGas)) |}
]%string.
End live.

(** ** Lemmas of the registry *)
Section registry_lemmas.
Context {StoreUpgrades VersionMap Keepers : Type}.
Context (RunMigrations : VersionMap → M Keepers VersionMap).
Implicit Types (upgrades : list (Upgrade StoreUpgrades Keepers)).

Lemma ValidateUpgrades_iff upgrades :
  ValidateUpgrades upgrades = Ok tt ↔
  NoDup (Up_Name <$> upgrades) ∧ EmptyString ∉ Up_Name <$> upgrades.
Proof using Type.
  assert (∀ seen : gset string, is_ok (fold_m (λ seen upgrade,
    fail_if (bool_decide (Up_Name upgrade = EmptyString)) ErrPlain ;;
    fail_if (bool_decide (Up_Name upgrade ∈ seen)) ErrPlain ;;
    mret ({[Up_Name upgrade]} ∪ seen)) upgrades seen) = true ↔
    NoDup (Up_Name <$> upgrades) ∧ EmptyString ∉ Up_Name <$> upgrades ∧
    ∀ u, u ∈ upgrades → Up_Name u ∉ seen) as Hgen.
  { clear RunMigrations. induction upgrades as [|u upgrades IH]; intros seen; cbn [fold_m].
    { simpl. split; [|done]. intros _. split_and!; [constructor | set_solver | set_solver]. }
    rewrite fmap_cons, NoDup_cons, not_elem_of_cons.
    destruct (decide (Up_Name u = EmptyString)) as [He|He];
      [rewrite (bool_decide_eq_true_2 _ He) | rewrite (bool_decide_eq_false_2 _ He)].
    { simpl. split; [done|]. intros (_ & [Hne _] & _). by destruct Hne. }
    destruct (decide (Up_Name u ∈ seen)) as [Hs|Hs];
      [rewrite (bool_decide_eq_true_2 _ Hs) | rewrite (bool_decide_eq_false_2 _ Hs)].
    { simpl. split; [done|]. intros (_ & _ & Hu). destruct (Hu u); [left | exact Hs]. }
    cbn [fail_if mret res_ret mbind res_bind].
    rewrite IH. split.
    - intros (Hnd & Hne & Hu). split_and!; [|done|by intros ?|done|].
      + intros Hin. apply list_elem_of_fmap in Hin as (u' & Hname & Hu'). apply (Hu u' Hu'). set_solver.
      + intros u' [->|Hu']%elem_of_cons; [done|]. specialize (Hu u' Hu'). set_solver.
    - intros ((Hn & Hnd) & (_ & Hne) & Hu). split_and!; [done..|]. intros u' Hu'.
      intros [Heq%elem_of_singleton|Hin]%elem_of_union; [|apply (Hu u'); [by right | exact Hin]].
      apply Hn, list_elem_of_fmap. by exists u'. }
  specialize (Hgen ∅). unfold ValidateUpgrades. destruct (fold_m _ _ _) as [seen|e]; simpl in *.
  - split; [|done]. intros _. split; apply Hgen; done.
  - split; [done|]. intros [Hnd Hne]. exfalso. destruct Hgen as [_ Hgen]. discriminate Hgen.
    split_and!; [done..|]. set_solver.
Qed.

(** The last entry of a name is the one whose handler runs. *)
Lemma handlers_lookup upgrades (handlers : gmap string (VersionMap → M Keepers VersionMap)) name :
  NoDup (Up_Name <$> upgrades) →
  fold_left (λ handlers upgrade, <[Up_Name upgrade := upgradeHandler RunMigrations upgrade]> handlers)
    upgrades handlers !! name =
  match List.find (λ u, bool_decide (Up_Name u = name)) upgrades with
  | Some u => Some (upgradeHandler RunMigrations u)
  | None => handlers !! name
  end.
Proof using Type.
  revert handlers. induction upgrades as [|u upgrades IH]; intros handlers; [done|].
  rewrite fmap_cons, NoDup_cons. intros [Hn Hnd]. cbn [fold_left List.find]. rewrite IH by done.
  case_bool_decide as He; [subst name|].
  - destruct (List.find _ upgrades) as [u'|] eqn:E; [|by rewrite lookup_insert_eq].
    apply List.find_some in E as [Hin He]. destruct Hn. apply list_elem_of_fmap.
    exists u'. split; [by apply bool_decide_eq_true in He | by apply list_elem_of_In].
  - destruct (List.find _ upgrades); [done|]. by rewrite lookup_insert_ne.
Qed.

(** The first entry of a name that declares stores is the one that is loaded. *)
Lemma loader_entry upgrades u height (skip : Z → bool) :
  NoDup (Up_Name <$> upgrades) → u ∈ upgrades → Up_Name u ≠ EmptyString → skip height = false →
  setUpgradeStoreLoader upgrades (Ok {| Info_Name := Up_Name u; Info_Height := height |}) skip =
    Ok ((λ changes, (height, changes)) <$> Up_StoreUpgrades u).
Proof using Type.
  intros Hnd Hu Hne Hskip. unfold setUpgradeStoreLoader. cbn [wrap mbind res_bind Info_Name Info_Height].
  rewrite bool_decide_eq_false_2, Hskip by done. cbn [orb]. unfold mret, res_ret. f_equal.
  induction upgrades as [|u' upgrades IH]; [by apply elem_of_nil in Hu|].
  rewrite fmap_cons, NoDup_cons in Hnd. destruct Hnd as [Hn Hnd].
  apply elem_of_cons in Hu as [<-|Hu].
  - destruct (Up_StoreUpgrades u) as [changes|]; [by rewrite bool_decide_eq_true_2|].
    clear IH. induction upgrades as [|v upgrades IH]; [done|].
    rewrite fmap_cons, not_elem_of_cons in Hn. apply NoDup_cons in Hnd as [_ Hnd].
    destruct Hn as [Hv Hn]. specialize (IH Hn Hnd). destruct (Up_StoreUpgrades v); [|done].
    by rewrite bool_decide_eq_false_2.
  - specialize (IH Hnd Hu). destruct (Up_StoreUpgrades u') as [changes|]; [|done].
    rewrite bool_decide_eq_false_2; [done|]. intros He. apply Hn, list_elem_of_fmap. by exists u.
Qed.
End registry_lemmas.

(** Writing block parameters: all or nothing, and the block section only. *)
Section consensus_lemmas.
Context `{CC : CometConversions}.

Definition complete (stored : ProtoParams) : Prop :=
  is_Some (CP_Block stored) ∧ is_Some (CP_Evidence stored) ∧ is_Some (CP_Validator stored).

(** What is written over complete parameters. *)
Definition with_block_params (stored : ProtoParams) (b : BlockParams) : ProtoParams := {|
  CP_Block := Some b; CP_Evidence := CP_Evidence stored; CP_Validator := CP_Validator stored;
  CP_Version := Some (default ZeroVersion (CP_Version stored));
  CP_Abci := Some (default ZeroABCI (CP_Abci stored)) |}.

Lemma SetBlockParams_spec height maxBytes maxGas (store store' : ParamsStore) r :
  SetBlockParams height maxBytes maxGas store = (store', r) →
  match r with
  | Ok _ => ∃ stored, store = Some stored ∧ complete stored ∧
      store' = Some (with_block_params stored {| MaxBytes := maxBytes; MaxGas := maxGas |})
  | Err _ => store' = store
  end.
Proof using Type.
  unfold SetBlockParams. intros Hrun. destruct store as [stored|]; [|by injection Hrun as <- <-].
  destruct r as [[]|e].
  - minv. match goal with H : coll_get _ = Ok ?x |- _ => injection H as <- end.
    assert (complete stored) as Hc by (unfold absent, complete in *; repeat case_match; done || eauto).
    exists stored. split_and!; [done..|]. f_equal. unfold initVersion, with_block_params.
    destruct Hc as (Hb' & He' & Hv').
    destruct (CP_Version stored) as [ve|] eqn:E; rewrite conversion_law; simpl; rewrite ?E; eauto.
  - unfold reads, lift, modify, fail_if, mthrow, M_throw, mret, M_ret, mbind, M_bind in Hrun.
    cbn [coll_get] in Hrun. destruct (absent (CP_Block stored) || _ || _); [by injection Hrun|].
    destruct (ValidateBasic _); [|by injection Hrun]. by destruct (ValidateUpdate _ _ _); injection Hrun.
Qed.
End consensus_lemmas.

(** ** Properties *)
Section properties.
Context {UK : UpgradeKeeper}.

Context (s : CoreSlotState) (p : CoreSlotParams) (Hp : Cs_Params s = Some p).

Definition plan_of (msg : MsgScheduleUpgrade) : Plan := {|
  Plan_Name := SU_Name msg; Plan_Time := 0; Plan_Height := SU_Height msg;
  Plan_Info := SU_Info msg; Plan_UpgradedClientState := None |}.

Lemma schedule_run height msg (u : UpgradeStore) :
  HandleScheduleUpgrade (Some (upgradeScheduler true)) s height msg u =
    if decide (SU_Authority msg ≠ Authority p) then (u, Err CsUnauthorized)
    else if decide (SU_Name msg = EmptyString ∨ SU_Height msg ≤ height) then (u, Err CsInvalidUpgrade)
    else UK_ScheduleUpgrade (plan_of msg) u.
Proof using Hp.
  unfold HandleScheduleUpgrade, getParams. rewrite Hp.
  rewrite (M_bind_run _ _ u u (upgradeScheduler true)) by done.
  rewrite (M_bind_run _ _ u u p) by done.
  destruct (decide (SU_Authority msg ≠ Authority p)) as [Ha|Ha];
    [by rewrite (bool_decide_eq_true_2 _ Ha) | rewrite (bool_decide_eq_false_2 _ Ha)].
  rewrite (M_bind_run _ _ u u tt) by done.
  destruct (decide (SU_Name msg = EmptyString)) as [Hn|Hn];
    [rewrite (bool_decide_eq_true_2 _ Hn) | rewrite (bool_decide_eq_false_2 _ Hn)].
  { by rewrite decide_True by tauto. }
  rewrite (M_bind_run _ _ u u tt) by done. destruct (Z.leb_spec (SU_Height msg) height).
  - by rewrite decide_True by tauto.
  - rewrite decide_False by (intros [?|?]; [done | lia]).
    by rewrite (M_bind_run _ _ u u tt) by done.
Qed.

Lemma cancel_run msg (u : UpgradeStore) :
  HandleCancelUpgrade (Some (upgradeScheduler true)) s msg u =
    if decide (CU_Authority msg ≠ Authority p) then (u, Err CsUnauthorized)
    else match PendingUpgrade (upgradeScheduler true) u with
         | Ok name => if decide (name = EmptyString) then (u, Err CsInvalidUpgrade)
                      else UK_ClearUpgradePlan u
         | Err e => (u, Err e)
         end.
Proof using Hp.
  unfold HandleCancelUpgrade, getParams. rewrite Hp.
  rewrite (M_bind_run _ _ u u (upgradeScheduler true)) by done.
  rewrite (M_bind_run _ _ u u p) by done.
  destruct (decide (CU_Authority msg ≠ Authority p)) as [Ha|Ha];
    [by rewrite (bool_decide_eq_true_2 _ Ha) | rewrite (bool_decide_eq_false_2 _ Ha)].
  rewrite (M_bind_run _ _ u u tt) by done.
  destruct (PendingUpgrade (upgradeScheduler true) u) as [name|e] eqn:Hpend.
  2:{ rewrite (M_bind_run_err _ _ u u e); [done|]. unfold reads. by rewrite Hpend. }
  rewrite (M_bind_run _ _ u u name) by (unfold reads; by rewrite Hpend).
  destruct (decide (name = EmptyString)) as [Hn|Hn];
    [by rewrite (bool_decide_eq_true_2 _ Hn) | rewrite (bool_decide_eq_false_2 _ Hn)].
  by rewrite (M_bind_run _ _ u u tt) by done.
Qed.

(** C25: only the authority on record schedules or withdraws an upgrade: a plan is
    scheduled exactly as named, for a later height, without a time or a client
    state, and replaces the pending one; it is withdrawn only while one is
    pending; every refusal leaves the pending plan, and a build without a route to
    x/upgrade refuses everything. *)
Theorem upgrade_authorised (height : Z) (u : UpgradeStore) :
  (∀ msg, let '(u', r) := HandleScheduleUpgrade (Some (upgradeScheduler true)) s height msg u in
     match r with
     | Ok _ => SU_Authority msg = Authority p ∧ SU_Name msg ≠ EmptyString ∧ height < SU_Height msg ∧
         GetUpgradePlan u' = Ok {| Plan_Name := SU_Name msg; Plan_Time := 0;
           Plan_Height := SU_Height msg; Plan_Info := SU_Info msg; Plan_UpgradedClientState := None |}
     | Err e => GetUpgradePlan u' = GetUpgradePlan u ∧
         (SU_Authority msg ≠ Authority p → e = CsUnauthorized)
     end) ∧
  (∀ msg, let '(u', r) := HandleCancelUpgrade (Some (upgradeScheduler true)) s msg u in
     match r with
     | Ok _ => CU_Authority msg = Authority p ∧
         (∃ plan, GetUpgradePlan u = Ok plan ∧ Plan_Name plan ≠ EmptyString) ∧
         GetUpgradePlan u' = Err ErrNotFound
     | Err e => GetUpgradePlan u' = GetUpgradePlan u ∧
         (CU_Authority msg ≠ Authority p → e = CsUnauthorized) ∧
         (CU_Authority msg = Authority p → GetUpgradePlan u = Err ErrNotFound → e = CsInvalidUpgrade)
     end) ∧
  ∀ upgrades, upgrades = None ∨ upgrades = Some (upgradeScheduler false) →
    ∀ msg msg',
      (∃ e, HandleScheduleUpgrade upgrades s height msg u = (u, Err e)) ∧
      ∃ e, HandleCancelUpgrade upgrades s msg' u = (u, Err e).
Proof using Hp.
  split_and!.
  - intros msg. rewrite schedule_run. case_decide as Ha; [done|].
    case_decide as Hn; [done|]. pose proof (schedule_law (plan_of msg) u) as Hlaw.
    destruct (UK_ScheduleUpgrade (plan_of msg) u) as [u' [[]|e]]; [|done].
    split_and!; [done | tauto | lia | done].
  - intros msg. rewrite cancel_run. case_decide as Ha; [done|].
    pose proof (clear_law u) as Hlaw. cbn [upgradeScheduler PendingUpgrade negb fail_if mret res_ret mbind res_bind].
    destruct (GetUpgradePlan u) as [plan|e] eqn:Hplan.
    + cbn. case_decide as Hn; [done|].
      destruct (UK_ClearUpgradePlan u) as [u' [[]|e]]; [|done].
      split_and!; [done | by exists plan | done].
    + case_bool_decide as He; [by subst e|]. split_and!; [done..|]. intros _ [= ->]. done.
  - intros upgrades Hup msg msg'. unfold HandleScheduleUpgrade, HandleCancelUpgrade, getParams. rewrite Hp.
    destruct Hup as [->| ->]; [split; by eexists|].
    unfold mbind, M_bind, lift, requireScheduler, reads, fail_if, mret, M_ret, res_ret, mthrow, M_throw.
    cbn [coll_get upgradeScheduler ScheduleUpgrade PendingUpgrade negb fail_if].
    split; repeat case_match; simplify_eq; by eexists.
Qed.
End properties.

Section registry_properties.
Context {StoreUpgrades VersionMap Keepers : Type} (RunMigrations : VersionMap → M Keepers VersionMap).

(** A name identifies one upgrade: the application starts with a registry
    exactly when its names are non-empty and distinct, and then the handler
    registered for a name and the stores loaded for it are those of the one entry
    that bears it, although the handler would be the last such entry's and the
    stores the first's; no other name has either. *)
Theorem registry_unambiguous (upgrades : list (Upgrade StoreUpgrades Keepers)) :
  match registerUpgradeHandlers RunMigrations upgrades ∅ with
  | Err e => e = Panic ∧ ¬ (NoDup (Up_Name <$> upgrades) ∧ EmptyString ∉ Up_Name <$> upgrades)
  | Ok handlers =>
      NoDup (Up_Name <$> upgrades) ∧ EmptyString ∉ Up_Name <$> upgrades ∧
      (∀ u, u ∈ upgrades → handlers !! Up_Name u = Some (upgradeHandler RunMigrations u) ∧
         ∀ height skip, skip height = false →
           setUpgradeStoreLoader upgrades (Ok {| Info_Name := Up_Name u; Info_Height := height |}) skip =
             Ok ((λ changes, (height, changes)) <$> Up_StoreUpgrades u)) ∧
      ∀ name, name ∉ Up_Name <$> upgrades → handlers !! name = None
  end.
Proof.
  unfold registerUpgradeHandlers. pose proof (ValidateUpgrades_iff upgrades) as Hv.
  destruct (ValidateUpgrades upgrades) as [[]|e]; cbn [wrap mbind res_bind].
  2:{ split; [done|]. rewrite <- Hv. done. }
  destruct (proj1 Hv eq_refl) as [Hnd Hne]. cbn [mret res_ret]. split_and!; [done..| |].
  - intros u Hu. assert (Up_Name u ≠ EmptyString) as Hu0.
    { intros He. apply Hne, list_elem_of_fmap. by exists u. }
    split; [|intros height skip; by apply loader_entry].
    rewrite handlers_lookup by done.
    destruct (List.find (λ v, bool_decide (Up_Name v = Up_Name u)) upgrades) as [v|] eqn:E.
    + apply List.find_some in E as [Hin He%bool_decide_eq_true]. apply list_elem_of_In in Hin.
      by rewrite (NoDup_fmap_inj_on Up_Name upgrades v u).
    + apply list_elem_of_In in Hu. pose proof (List.find_none _ _ E u Hu) as Hf. simpl in Hf.
      by rewrite bool_decide_eq_true_2 in Hf.
  - intros name Hn. rewrite handlers_lookup by done.
    destruct (List.find _ upgrades) as [v|] eqn:E; [|apply lookup_empty].
    apply List.find_some in E as [Hin He%bool_decide_eq_true]. destruct Hn.
    apply list_elem_of_fmap. exists v. split; [done | by apply list_elem_of_In].
Qed.
End registry_properties.

(** The released registry does what its entries say: it is accepted, mounts
    no store, and its last upgrade, run after the module migrations, sets the block
    gas ceiling to 30,000,000 and leaves the block size, every other section of the
    consensus parameters and the rest of the application as they were; whatever is
    refused changes no parameter, so that the node halts at the height with the
    state it had. *)
Theorem v040_sets_block_gas_only `{CC : CometConversions} {StoreUpgrades VersionMap App : Type}
    (RunMigrations : VersionMap → M (ParamsStore * App) VersionMap) (blockHeight : Z)
    (fromVM toVM : VersionMap) (k k' : ParamsStore * App) :
  RunMigrations fromVM k = (k', Ok toVM) →
  ∃ handlers handler,
    registerUpgradeHandlers RunMigrations (Upgrades StoreUpgrades App blockHeight) ∅ = Ok handlers ∧
    handlers !! "v0.4.0"%string = Some handler ∧
    (∀ info skip, setUpgradeStoreLoader (Upgrades StoreUpgrades App blockHeight) (Ok info) skip = Ok None) ∧
    let '(k'', r) := handler fromVM k in
    snd k'' = snd k' ∧
    match r with
    | Ok vm => vm = toVM ∧ ∃ stored block, fst k' = Some stored ∧ CP_Block stored = Some block ∧
        complete stored ∧ fst k'' = Some (with_block_params stored
          {| MaxBytes := MaxBytes block; MaxGas := 30000000 |})
    | Err _ => fst k'' = fst k'
    end.
Proof.
  intros Hmig. eexists _, _. split; [reflexivity|]. split; [reflexivity|]. split.
  { intros info skip. unfold setUpgradeStoreLoader. cbn [wrap mbind res_bind].
    by destruct (bool_decide _ || _). }
  unfold upgradeHandler. rewrite (M_bind_run _ _ k k' toVM Hmig). cbn [Up_Migrate].
  unfold zoom, mbind, M_bind, mret, M_ret. destruct k' as [store app]. cbn [fst snd].
  destruct (SetBlockMaxGas blockHeight V040BlockMaxGas store) as [store' r] eqn:Hrun.
  assert (match r with
    | Ok _ => ∃ stored block, store = Some stored ∧ CP_Block stored = Some block ∧ complete stored ∧
        store' = Some (with_block_params stored {| MaxBytes := MaxBytes block; MaxGas := 30000000 |})
    | Err _ => store' = store
    end) as Hspec.
  { unfold SetBlockMaxGas in Hrun. destruct store as [stored|]; [|by injection Hrun as <- <-].
    rewrite (M_bind_run _ _ (Some stored) (Some stored) stored) in Hrun by done.
    destruct (CP_Block stored) as [block|] eqn:Hblock; [|by injection Hrun as <- <-].
    apply SetBlockParams_spec in Hrun. destruct r; [|done].
    destruct Hrun as (stored' & [= <-] & Hc & Hw). exists stored, block. by split_and!. }
  destruct r as [[]|e]; cbn [fst snd]; split_and!; done || naive_solver.
Qed.

(** ** Witnesses *)
Section witnesses.
(** An x/upgrade keeper that keeps the pending plan and refuses nothing, and
    consensus parameters whose other sections are numbers. *)
#[program] Definition plan_keeper : UpgradeKeeper := {|
  UpgradeStore := option Plan;
  GetUpgradePlan := coll_get;
  UK_ScheduleUpgrade plan := modify (λ _, Some plan);
  UK_ClearUpgradePlan := modify (λ _, None)
|}.
Next Obligation. done. Qed.
Next Obligation. done. Qed.

#[local] Instance number_params : CometParams := {|
  EvidenceParams := Z; ValidatorParams := Z; VersionParams := Z; ABCIParams := Z;
  ZeroVersion := 0; ZeroABCI := 0
|}.
#[local, program] Instance number_conversions : CometConversions := {|
  CmtParams := BlockParams * (Z * Z * Z * Z);
  ConsensusParamsFromProto p := (default {| MaxBytes := 0; MaxGas := 0 |} (CP_Block p),
    (default 0 (CP_Evidence p), default 0 (CP_Validator p), default 0 (CP_Version p),
     default 0 (CP_Abci p)));
  with_Block p b := (b, snd p);
  ToProto p := let '(b, (e, v, n, a)) := p in {| CP_Block := Some b; CP_Evidence := Some e;
    CP_Validator := Some v; CP_Version := Some n; CP_Abci := Some a |};
  ValidateBasic p := fail_if ((MaxGas (fst p) <? -1) || (MaxBytes (fst p) <=? 0)) ErrPlain;
  ValidateUpdate _ _ _ := mret tt
|}.
Next Obligation.
  intros [b e v n a] b' [? Hb] [? He] [? Hv] [? Hn]. simpl in *. subst. done.
Qed.

#[local] Existing Instances bech32_id plain_keys one_decimal plan_keeper.

Lemma sample_params : Cs_Params sample_core = Some (DefaultCoreSlotParams "gov" "guard").
Proof. vm_cast_no_check (eq_refl (Some (DefaultCoreSlotParams "gov" "guard"))). Qed.

Definition sample_upgrade (authority : string) : MsgScheduleUpgrade := {|
  SU_Authority := authority; SU_Name := "v0.5.0"; SU_Height := 100; SU_Info := "" |}%string.

Lemma upgrade_authorised_witness :
  ∃ u e, HandleScheduleUpgrade (UK := plan_keeper) (Some (upgradeScheduler true)) sample_core 9
      (sample_upgrade "guard") (None : option Plan) = (u, Err e) ∧ e = CsUnauthorized ∧ u = None.
Proof.
  destruct (@upgrade_authorised plan_keeper sample_core _ sample_params 9 (None : option Plan)) as (Hs & _ & _).
  specialize (Hs (sample_upgrade "guard")).
  destruct (HandleScheduleUpgrade _ _ _ _ _) as [u [a|e]].
  - discriminate (proj1 Hs).
  - exists u, e. destruct Hs as [Hu He]. split; [reflexivity|]. split.
    + apply He. discriminate.
    + destruct u; [discriminate Hu | reflexivity].
Defined.

Definition number_block (gas : Z) : @ProtoParams number_params :=
  @Build_ProtoParams number_params (Some {| MaxBytes := 22020096; MaxGas := gas |})
    (Some (1 : Z)) (Some (2 : Z)) (Some (3 : Z)) (Some (4 : Z)).

Lemma v040_sets_block_gas_only_witness :
  ∃ handlers handler,
    registerUpgradeHandlers (λ vm : Z, mret vm) (Upgrades unit unit 100) ∅ = Ok handlers ∧
    handlers !! "v0.4.0"%string = Some handler ∧
    handler 5 (Some (number_block (-1)), tt) = ((Some (number_block 30000000), tt), Ok 5).
Proof.
  destruct (@v040_sets_block_gas_only number_params number_conversions unit Z unit (λ vm, mret vm) 100 5 5
    (Some (number_block (-1)), tt) _ eq_refl) as (handlers & handler & Hreg & Hlook & _ & _).
  exists handlers, handler. split; [exact Hreg|]. split; [exact Hlook|].
  injection Hreg as <-. vm_compute in Hlook. injection Hlook as <-. vm_compute. reflexivity.
Defined.
End witnesses.
