(* ===== verification/RewardsQueries.v ===== *)
(** * x/rewards/keeper: the query server

    Models [query_server.go].  The server reads what the keeper reads, through the
    keeper's own functions, and classifies what fails: [epochQueryError] keeps the
    difference between an epoch that was never configured, one that is too far
    ahead, and a history that cannot be trusted; [canonicalStateQueryError] answers
    Internal to a record that must be there and is not readable. *)
From S2P Require Import Prelude Checked SdkMath Bounds EconomicAddress RewardsTypes Collections.
From S2P Require Import Bytes Paging Emission EpochHistory RewardConfig Bank Pause Entitlement.
From S2P Require Import RewardsKeeper RewardsInvariant Finalize.
From Stdlib Require Import String.
Local Open Scope Z_scope.

(** ** query.proto *)
Record NextHalvingInfo := {
  NH_CurrentTier : Z;
  NH_CurrentBlockSubsidy : string;
  NH_NextThreshold : string;
  NH_RemainingUntilNextHalving : string;
  NH_CumulativeEmitted : string;
  NH_MaxSupply : string;
  NH_HasNextHalving : bool
}.
Record QueryEpochInfoResponse := {
  QEI_State : RewardsState;
  QEI_CurrentEpochConfig : EpochConfigSnapshot;
  QEI_CurrentEpochEndHeight : Z;
  QEI_HasPendingParams : bool;
  QEI_PendingParams : option Params;
  QEI_CurrentEpochStartHeight : Z;
  QEI_CurrentEpochLengthBlocks : Z;
  QEI_OpenRewardEnabledBlocks : Z
}.
Record QueryCumulativeEmittedResponse := { QCE_CumulativeEmitted : string; QCE_MaxSupply : string }.
Record QuerySupplyScheduleResponse := { QSS_Params : Params; QSS_NextHalving : NextHalvingInfo }.
Record QueryCurrentEpochActiveBlocksResponse := {
  QAB_EpochNumber : Z;
  QAB_ActiveBlocks : list SlotActiveBlocks;
  QAB_Pagination : PageResponse
}.
Record QueryModuleBalancesResponse := {
  QMB_Denom : string;
  QMB_RewardsBalance : string;
  QMB_FeePoolBalance : string;
  QMB_OutstandingEntitlementLiability : string;
  QMB_CarryForwardRemainder : string
}.
Record QuerySlotEntitlementRequest := { QSE_SlotId : Z; QSE_Epoch : Z }.
Record QuerySlotEntitlementsByEpochRequest := {
  QEE_Epoch : Z;
  QEE_Pagination : option PageRequest
}.
Record QueryRewardConfigVersionsResponse := {
  QRC_Versions : list RewardConfigVersion;
  QRC_Pagination : PageResponse;
  QRC_Scheduled : option ScheduledRewardConfig
}.
Record QueryRewardConfigVersionRequest := { QRV_Version : Z; QRV_EffectiveEpoch : Z }.
Record QueryEpochConfigVersionsRequest := {
  QEC_Pagination : option PageRequest;
  QEC_ScheduledStartEpoch : Z;
  QEC_ScheduledLimit : Z
}.
Record QueryEpochConfigVersionsResponse := {
  QEV_Versions : list EpochConfigVersion;
  QEV_Scheduled : list ScheduledEpochConfig;
  QEV_Pagination : PageResponse;
  QEV_ScheduledNextEpoch : Z
}.
Record QueryEpochBoundariesResponse := {
  QEB_EpochNumber : Z;
  QEB_StartHeight : Z;
  QEB_EndHeight : Z;
  QEB_EpochLengthBlocks : Z
}.
Record QueryRewardsPauseStateResponse := {
  QPS_PauseState : RewardsPauseState;
  QPS_ReleaseEnabled : bool
}.

(** ** query_server.go *)
Definition FeePoolName : string := "rewards_fee_pool"%string.
Definition epochProjectionHorizon : Z := 1000.
Definition maxScheduledEpochConfigsPerPage : Z := 100.

(** An error that names its own code is passed on; what is left is state that could
    not be read.  A store does not cancel a read. *)
Definition canonicalStateQueryError {A} (m : res A) : res A :=
  map_err (λ e, if is_status e then e else StatusInternal) m.

Definition epochQueryError {A} (m : res A) : res A :=
  map_err (λ e,
    match e with
    | RwEpochBeyondProjectionHorizon => StatusOutOfRange
    | RwEpochConfigNotFound => StatusNotFound
    | RwInvalidState => StatusInternal
    | _ => if is_status e then e else StatusInternal
    end) m.

Definition pageRequestError (page : option PageRequest) : res unit :=
  match page with
  | None => mret tt
  | Some page =>
      fail_if (negb (Pg_Offset page =? 0) && bool_decide (Pg_Key page ≠ EmptyString))
        StatusInvalidArgument
  end.

Section queries.
Context {SI : SdkInt} {BE : Bech32} {BK : BankKeeper} {PG : Paginator}.
Context (economicAddresses : Validator).
Implicit Types (s : Store).

Definition QueryParams s : res Params := canonicalStateQueryError (GetParams s).

Definition QueryEpochInfo s : res QueryEpochInfoResponse :=
  state ← canonicalStateQueryError (GetState s);
  cfg ← canonicalStateQueryError (GetCurrentEpochConfig s);
  startHeight ← epochQueryError (EpochStartHeight (Rs_Geometry s) (CurrentEpoch state));
  endHeight ← epochQueryError (EpochEndHeight (Rs_Geometry s) (CurrentEpoch state));
  length ← epochQueryError (EpochLengthForEpoch (Rs_Geometry s) (CurrentEpoch state));
  openBlocks ← canonicalStateQueryError (GetOpenRewardEnabledBlocks s);
  let pending := GetPendingParams s in
  mret {|
    QEI_State := state;
    QEI_CurrentEpochConfig := cfg;
    QEI_CurrentEpochEndHeight := endHeight;
    QEI_HasPendingParams := bool_decide (is_Some pending);
    QEI_PendingParams := pending;
    QEI_CurrentEpochStartHeight := startHeight;
    QEI_CurrentEpochLengthBlocks := length;
    QEI_OpenRewardEnabledBlocks := openBlocks |}.

Definition nextHalvingInfo s : res NextHalvingInfo :=
  params ← GetParams s;
  state ← GetState s;
  cumulative ← ParseAmountString (CumulativeEmitted state);
  maxSupply ← ParseAmountString (P_MaxSupply params);
  initialSubsidy ← ParseAmountString (P_InitialBlockSubsidy params);
  tier ← HalvingTier (Some cumulative) (Some maxSupply);
  subsidy ← NextBlockSubsidy (Some cumulative) (Some maxSupply) (Some initialSubsidy);
  '(threshold, hasNext) ← NextHalvingThreshold (Some cumulative) (Some maxSupply);
  '(nextThreshold, remaining) ←
    (if hasNext : bool then
       diff ← isub threshold cumulative;
       mret (Int_String threshold, if diff >? 0 then diff else 0)
     else mret ("0"%string, 0));
  mret {|
    NH_CurrentTier := tier;
    NH_CurrentBlockSubsidy := Int_String subsidy;
    NH_NextThreshold := nextThreshold;
    NH_RemainingUntilNextHalving := Int_String remaining;
    NH_CumulativeEmitted := Int_String cumulative;
    NH_MaxSupply := Int_String maxSupply;
    NH_HasNextHalving := hasNext |}.

Definition QueryNextHalving s : res NextHalvingInfo := canonicalStateQueryError (nextHalvingInfo s).

Definition QueryEpochReward s (req : option Z) : res EpochReward :=
  fail_if (match req with None => true | Some n => n =? 0 end) StatusInvalidArgument ;;
  epoch_number ← deref req;
  match GetFinalizedEpoch s epoch_number with
  | None => Err StatusNotFound
  | Some epoch => mret epoch
  end.

Definition QueryCumulativeEmitted s : res QueryCumulativeEmittedResponse :=
  state ← canonicalStateQueryError (GetState s);
  params ← canonicalStateQueryError (GetParams s);
  mret {| QCE_CumulativeEmitted := CumulativeEmitted state; QCE_MaxSupply := P_MaxSupply params |}.

Definition QuerySupplySchedule s : res QuerySupplyScheduleResponse :=
  params ← canonicalStateQueryError (GetParams s);
  info ← canonicalStateQueryError (nextHalvingInfo s);
  mret {| QSS_Params := params; QSS_NextHalving := info |}.

(** Over a prefix of pair keys the paginator sees the rows of that prefix. *)
Definition QueryCurrentEpochActiveBlocks s (pageReq : option PageRequest)
    : res QueryCurrentEpochActiveBlocksResponse :=
  state ← canonicalStateQueryError (GetState s);
  pageRequestError pageReq ;;
  '(blocks, pageRes) ← canonicalStateQueryError
    (CollectionPaginate (prefix_map (CurrentEpoch state) (Rs_ActiveBlocks s)) pageReq
      (λ slotID blocks, mret {| AB_SlotId := slotID; AB_BlocksActive := blocks |}));
  mret {| QAB_EpochNumber := CurrentEpoch state; QAB_ActiveBlocks := blocks; QAB_Pagination := pageRes |}.

Definition QueryModuleBalances s : res QueryModuleBalancesResponse :=
  params ← canonicalStateQueryError (MonetaryParams s);
  let denom := P_NativeDenom params in
  match GetModuleAddress ModuleName, GetModuleAddress FeePoolName with
  | Some rewardsAddr, Some feePoolAddr =>
      state ← canonicalStateQueryError (GetState s);
      liability ← canonicalStateQueryError (GetOutstandingEntitlementLiability (Rs_Entitlements s));
      carry ← canonicalStateQueryError (ParseAmountString (CarryForwardRemainder state));
      mret {|
        QMB_Denom := denom;
        QMB_RewardsBalance := Int_String (GetBalance (Rs_Bank s) rewardsAddr denom);
        QMB_FeePoolBalance := Int_String (GetBalance (Rs_Bank s) feePoolAddr denom);
        QMB_OutstandingEntitlementLiability := Int_String liability;
        QMB_CarryForwardRemainder := Int_String carry |}
  | _, _ => Err StatusFailedPrecondition
  end.

(** *** Epoch geometry *)

(** The walk of [scheduledEpochConfigPage]: [size] entries, and the key of the next. *)
Fixpoint schedulePage (size : Z) (page : list ScheduledEpochConfig)
    (rows : list (Z * ScheduledEpochConfig)) : res (list ScheduledEpochConfig * Z) :=
  match rows with
  | [] => mret (page, 0)
  | (key, value) :: rows =>
      if Z.of_nat (List.length page) =? size then mret (page, key)
      else
        ValidateScheduledEpochConfigRecord key value ;;
        schedulePage size (page ++ [value]) rows
  end.

Definition scheduledEpochConfigPage (g : Geometry) (startEpoch limit : Z)
    : res (list ScheduledEpochConfig * Z) :=
  let size := if (limit =? 0) || (limit >? maxScheduledEpochConfigsPerPage)
              then maxScheduledEpochConfigsPerPage else limit in
  schedulePage size []
    (if startEpoch >? 0 then from_key startEpoch (ScheduledEpochConfigs g)
     else entries (ScheduledEpochConfigs g)).

Definition QueryEpochConfigVersions s (req : option QueryEpochConfigVersionsRequest)
    : res QueryEpochConfigVersionsResponse :=
  let historyPage := req ≫= QEC_Pagination in
  let startEpoch := from_option QEC_ScheduledStartEpoch 0 req in
  let limit := from_option QEC_ScheduledLimit 0 req in
  pageRequestError historyPage ;;
  '(versions, pageRes) ← epochQueryError
    (CollectionPaginate (EpochConfigVersions (Rs_Geometry s)) historyPage (λ key version,
      validateEpochConfigRecord key version ;; mret version));
  '(scheduled, nextEpoch) ←
    epochQueryError (scheduledEpochConfigPage (Rs_Geometry s) startEpoch limit);
  mret {| QEV_Versions := versions; QEV_Scheduled := scheduled; QEV_Pagination := pageRes;
          QEV_ScheduledNextEpoch := nextEpoch |}.

Definition QueryEpochBoundaries s (req : option Z) : res QueryEpochBoundariesResponse :=
  fail_if (match req with None => true | Some n => n =? 0 end) StatusInvalidArgument ;;
  epoch ← deref req;
  successor ← wrap StatusInvalidArgument (AddUint64 epoch 1);
  start ← epochQueryError (ProjectEpochStartHeight (Rs_Geometry s) epoch epochProjectionHorizon);
  next ← epochQueryError (ProjectEpochStartHeight (Rs_Geometry s) successor epochProjectionHorizon);
  end_ ← epochQueryError (wrap RwInvalidState (SubUint64 next 1));
  span ← epochQueryError (wrap RwInvalidState (SubUint64 next start));
  epochQueryError (fail_if (span =? 0) RwInvalidState) ;;
  mret {| QEB_EpochNumber := epoch; QEB_StartHeight := start; QEB_EndHeight := end_;
          QEB_EpochLengthBlocks := span |}.

Definition QueryRewardsPauseState s : res QueryRewardsPauseStateResponse :=
  state ← epochQueryError (GetPauseState (Rs_PauseState s));
  enabled ← epochQueryError (SettlementReleaseEnabled (Rs_PauseState s));
  mret {| QPS_PauseState := state; QPS_ReleaseEnabled := enabled |}.

(** *** Entitlements *)
Definition validateEntitlementRelations (entitlement : SlotEntitlement)
    (governing : RewardConfigVersion) : res unit :=
  validatePayoutDestination economicAddresses (Ent_PayoutAddress entitlement) ;;
  fail_if (negb (RCV_Version governing =? Ent_RewardConfigVersion entitlement)) RwInvalidState.

Definition QuerySlotEntitlement s (req : option QuerySlotEntitlementRequest)
    : res SlotEntitlement :=
  req ← (match req with Some req => Ok req | None => Err StatusInvalidArgument end);
  fail_if ((QSE_SlotId req =? 0) || (QSE_Epoch req =? 0)) StatusInvalidArgument ;;
  found ← canonicalStateQueryError
    (GetSlotEntitlement (Rs_Entitlements s) (QSE_SlotId req) (QSE_Epoch req));
  match found with
  | None => Err StatusNotFound
  | Some entitlement =>
      governing ← canonicalStateQueryError
        (RewardConfigForTarget economicAddresses (Rs_RewardConfig s) (QSE_Epoch req));
      canonicalStateQueryError (validateEntitlementRelations entitlement governing) ;;
      mret entitlement
  end.

Definition QuerySlotEntitlementsByEpoch s (req : option QuerySlotEntitlementsByEpochRequest)
    : res (list SlotEntitlement * PageResponse) :=
  req ← (match req with Some req => Ok req | None => Err StatusInvalidArgument end);
  fail_if (QEE_Epoch req =? 0) StatusInvalidArgument ;;
  page ← boundedPage (QEE_Pagination req);
  governing ← canonicalStateQueryError
    (RewardConfigForTarget economicAddresses (Rs_RewardConfig s) (QEE_Epoch req));
  canonicalStateQueryError
    (CollectionPaginate (prefix_map (QEE_Epoch req) (SlotEntitlements (Rs_Entitlements s)))
      (Some page) (λ slotID entitlement,
        validateEntitlementRecord (entitlementKey (QEE_Epoch req) slotID) entitlement ;;
        validateEntitlementRelations entitlement governing ;;
        mret entitlement)).

(** *** Reward configuration *)

(** The closure of [RewardConfigVersions]: [previous] is the last version returned. *)
Definition nextConfigVersion (rc : RewardConfigStore) (returned : list RewardConfigVersion)
    (kv : Z * RewardConfigVersion) : res (list RewardConfigVersion) :=
  let '(key, version) := kv in
  validateResolvedRewardConfig economicAddresses key version ;;
  match last returned with
  | None => validateAdjacentRewardConfigEdge rc version
  | Some previous =>
      fail_if (negb (u64 (RCV_Version previous + 1) =? RCV_Version version) ||
               (RCV_EffectiveEpoch previous >=? RCV_EffectiveEpoch version)) RwInvalidState
  end ;;
  mret (returned ++ [version]).

Definition QueryRewardConfigVersions s (requested : option PageRequest)
    : res QueryRewardConfigVersionsResponse :=
  page ← boundedPage requested;
  canonicalStateQueryError (requireRewardConfigAnchor economicAddresses (Rs_RewardConfig s)) ;;
  '(versions, pageRes) ← canonicalStateQueryError (
    '(rows, pageRes) ← collection_page (RewardConfigVersions (Rs_RewardConfig s)) (Some page);
    versions ← fold_m (nextConfigVersion (Rs_RewardConfig s)) rows [];
    mret (versions, pageRes));
  state ← canonicalStateQueryError (GetState s);
  effectiveEpoch ← wrap StatusInternal (AddUint64 (CurrentEpoch state) 1);
  canonicalStateQueryError (assertSingleScheduledRewardConfig (Rs_RewardConfig s) effectiveEpoch) ;;
  scheduled ← canonicalStateQueryError
    (ScheduledRewardConfigFor (Rs_RewardConfig s) effectiveEpoch);
  mret {| QRC_Versions := versions; QRC_Pagination := pageRes; QRC_Scheduled := scheduled |}.

Definition QueryRewardConfigVersion s (req : option QueryRewardConfigVersionRequest)
    : res RewardConfigVersion :=
  req ← (match req with Some req => Ok req | None => Err StatusInvalidArgument end);
  fail_if (Bool.eqb (QRV_Version req =? 0) (QRV_EffectiveEpoch req =? 0)) StatusInvalidArgument ;;
  found ← canonicalStateQueryError
    (if negb (QRV_Version req =? 0)
     then RewardConfigVersionByNumber economicAddresses (Rs_RewardConfig s) (QRV_Version req)
     else RewardConfigVersionAtEffectiveEpoch economicAddresses (Rs_RewardConfig s)
            (QRV_EffectiveEpoch req));
  match found with
  | None => Err StatusNotFound
  | Some version => mret version
  end.
End queries.

(** ** What the queries answer in a state of the ledger invariant *)
Section answers.
Context {SI : SdkInt} {BE : Bech32} {BK : BankKeeper}.
Context (econ : Validator) (module_addr : AccAddress) (base closed : Z) (s : Store) (v : View).
Context (Hi : ledger_inv econ module_addr base closed s v).

Definition halving_of (max init cum : Z) : NextHalvingInfo := {|
  NH_CurrentTier := tier_of max cum;
  NH_CurrentBlockSubsidy := Int_String (subsidy_of max init cum);
  NH_NextThreshold := if cum =? max then "0"%string
    else Int_String (threshold_of max (tier_of max cum + 1));
  NH_RemainingUntilNextHalving :=
    Int_String (if cum =? max then 0 else threshold_of max (tier_of max cum + 1) - cum);
  NH_CumulativeEmitted := Int_String cum;
  NH_MaxSupply := Int_String max;
  NH_HasNextHalving := negb (cum =? max) |}.

Lemma halving_answer :
  ∃ init, ParseAmountString (P_InitialBlockSubsidy (V_params v)) = Ok init ∧ 0 < init ∧
    nextHalvingInfo s = Ok (halving_of (V_max v) init (V_cumulative v)).
Proof using Hi.
  destruct (Params_Validate_facts _ (proj1 (i_params_ok _ _ _ _ _ _ Hi)))
    as (_ & _ & _ & _ & _ & _ & _ & (mx & Hmx & Hmx0) & (init & Hinit & Hinit0) & _).
  exists init. split; [done|]. split; [done|].
  pose proof (i_cum _ _ _ _ _ _ Hi) as Hcum. pose proof (i_max _ _ _ _ _ _ Hi) as Hmax.
  pose proof (i_cum_max _ _ _ _ _ _ Hi) as Hle. rewrite Hmax in Hmx. injection Hmx as <-.
  destruct (ParseAmountString_Ok _ _ Hcum) as [Hc0 _].
  destruct (ParseAmountString_Ok _ _ Hmax) as [_ Hm1%int_ok_true].
  destruct (ParseAmountString_Ok _ _ Hinit) as [_ Hi1%int_ok_true].
  assert (supply_ok (V_max v) (V_cumulative v)) as Hs by (unfold supply_ok; lia).
  assert (subsidy_ok init) as Hsub by (unfold subsidy_ok; lia).
  unfold nextHalvingInfo, GetParams, GetState. rewrite (i_params _ _ _ _ _ _ Hi), (i_state _ _ _ _ _ _ Hi).
  cbn [coll_get mbind res_bind]. rewrite Hcum, Hmax, Hinit. cbn [mbind res_bind].
  rewrite HalvingTier_spec, NextBlockSubsidy_spec, NextHalvingThreshold_spec by done.
  cbn [mbind res_bind]. unfold halving_of.
  destruct (Z.eqb_spec (V_cumulative v) (V_max v)) as [_|Hne]; [done|].
  destruct (next_threshold_bounds _ _ Hs Hne) as [Hlt Hle2]. cbn [mbind res_bind].
  rewrite (proj2 (isub_Ok _ _ _)) by (split; [reflexivity | apply int_ok_true; lia]).
  cbn [mbind res_bind mret res_ret negb]. rewrite Z.gtb_ltb.
  by destruct (Z.ltb_spec 0 (threshold_of (V_max v) (tier_of (V_max v) (V_cumulative v) + 1) - V_cumulative v)); [|lia].
Qed.

Lemma epoch_info_answer : ∃ cfg,
  QueryEpochInfo s = Ok {|
    QEI_State := V_state v;
    QEI_CurrentEpochConfig := cfg;
    QEI_CurrentEpochEndHeight := CurrentEpochStartHeight (V_state v) +
      length_of (EpochConfigVersions (Rs_Geometry s)) (CurrentEpoch (V_state v)) - 1;
    QEI_HasPendingParams := bool_decide (is_Some (Rs_PendingParams s));
    QEI_PendingParams := Rs_PendingParams s;
    QEI_CurrentEpochStartHeight := CurrentEpochStartHeight (V_state v);
    QEI_CurrentEpochLengthBlocks :=
      length_of (EpochConfigVersions (Rs_Geometry s)) (CurrentEpoch (V_state v));
    QEI_OpenRewardEnabledBlocks := V_enabled v |}.
Proof using Hi.
  destruct (i_cfg _ _ _ _ _ _ Hi) as (cfg & Hcfg & _). exists cfg.
  pose proof (i_epoch _ _ _ _ _ _ Hi) as He. pose proof (i_geometry _ _ _ _ _ _ Hi) as Hwf.
  destruct (inv_start_bounds _ _ _ _ _ _ Hi) as (H1 & H2 & _ & H4 & H5).
  unfold QueryEpochInfo. rewrite (inv_GetState _ _ _ _ _ _ Hi).
  unfold GetCurrentEpochConfig, GetOpenRewardEnabledBlocks, GetPendingParams.
  rewrite Hcfg, (i_enabled _ _ _ _ _ _ Hi).
  cbn [coll_get wrap canonicalStateQueryError map_err mbind res_bind].
  rewrite (EpochStartHeight_spec _ Hwf (CurrentEpoch (V_state v))) by (widths; lia). rewrite H2.
  unfold representable. rewrite decide_True by (widths; lia).
  rewrite (inv_end _ _ _ _ _ _ Hi), (proj1 (EpochLengthForEpoch_spec _ Hwf (CurrentEpoch (V_state v)) ltac:(lia))).
  done.
Qed.

Lemma balances_answer fee :
  GetModuleAddress ModuleName = Some module_addr → GetModuleAddress FeePoolName = Some fee →
  let liability := map_sum owed (SlotEntitlements (Rs_Entitlements s)) in
  QueryModuleBalances s = Ok {|
    QMB_Denom := NativeBaseDenom;
    QMB_RewardsBalance := Int_String (liability + V_carry v);
    QMB_FeePoolBalance := Int_String (GetBalance (Rs_Bank s) fee NativeBaseDenom);
    QMB_OutstandingEntitlementLiability := Int_String liability;
    QMB_CarryForwardRemainder := Int_String (V_carry v) |}.
Proof using Hi.
  intros Hm Hf liability. unfold QueryModuleBalances.
  rewrite (inv_MonetaryParams _ _ _ _ _ _ Hi), Hm, Hf. cbn [canonicalStateQueryError map_err mbind res_bind].
  rewrite (inv_GetState _ _ _ _ _ _ Hi). cbn [canonicalStateQueryError map_err mbind res_bind].
  rewrite (ent_liability _ (i_books _ _ _ _ _ _ Hi)), (i_carry _ _ _ _ _ _ Hi).
  cbn [canonicalStateQueryError map_err mbind res_bind].
  rewrite (proj1 (Params_Validate_facts _ (proj1 (i_params_ok _ _ _ _ _ _ Hi)))).
  by rewrite (i_solvent _ _ _ _ _ _ Hi).
Qed.

(** *** Epoch boundaries *)
Let g := Rs_Geometry s.
Let cur := CurrentEpoch (V_state v).

(** Version numbers do not run out before epoch numbers do. *)
Lemma scheduled_count e : 1 ≤ e ≤ MaxUint64 → ∀ k x, EpochConfigVersions g !! k = Some x →
  ECV_Version x + Z.of_nat (List.length (scheduled_in 0 e g)) ≤ MaxUint64.
Proof using Hi.
  intros He k x Hk. destruct (i_versions _ _ _ _ _ _ Hi k x Hk) as [Hkc Hx].
  pose proof (i_epoch _ _ _ _ _ _ Hi) as Hcur. fold cur in Hkc, Hcur.
  pose proof (distinct_ids_bound ((λ kv, fst kv - cur) <$> scheduled_in 0 e g) (Z.max 0 (e - cur))
    ltac:(lia)) as Hb. rewrite length_fmap in Hb. cut (Z.of_nat (List.length (scheduled_in 0 e g)) ≤ Z.max 0 (e - cur)); [lia|].
  apply Hb.
  - change (NoDup (((λ k, k - cur) ∘ fst) <$> scheduled_in 0 e g)). rewrite list_fmap_compose.
    apply NoDup_fmap_2; [intros a b; lia|].
    apply scheduled_sorted.
  - apply Forall_forall. intros j Hj. apply list_elem_of_fmap in Hj as ([k' s'] & -> & Hin).
    apply elem_of_scheduled in Hin as [Hin Hle]; [|apply (i_schedule _ _ _ _ _ _ Hi)].
    apply (i_schedule_future _ _ _ _ _ _ Hi) in Hin. fold cur in Hin. simpl. lia.
Qed.

(** The geometry once the changes up to the end of an epoch are consumed. *)
Definition foretold (e : Z) (r : QueryEpochBoundariesResponse) : Prop :=
  ∃ g', for_each consume_next (scheduled_in 0 (e + 1) g) g = (g', Ok tt) ∧
    QEB_EpochNumber r = e ∧
    EpochStartHeight g' e = Ok (QEB_StartHeight r) ∧
    EpochEndHeight g' e = Ok (QEB_EndHeight r) ∧
    EpochLengthForEpoch g' e = Ok (QEB_EpochLengthBlocks r) ∧
    EpochStartHeight g' (e + 1) = Ok (QEB_EndHeight r + 1).

Lemma boundaries_answer e : 1 ≤ e < MaxUint64 →
  match QueryEpochBoundaries s (Some e) with
  | Ok r => foretold e r
  | Err status => status = StatusOutOfRange
  end.
Proof using Hi.
  intros He. pose proof (i_geometry _ _ _ _ _ _ Hi) as Hwf. pose proof (i_schedule _ _ _ _ _ _ Hi) as Hsch.
  fold g in Hwf, Hsch. unfold QueryEpochBoundaries. destruct (Z.eqb_spec e 0); [lia|].
  cbn [fail_if mret res_ret deref mbind res_bind].
  assert (AddUint64 e 1 = Ok (e + 1)) as -> by (apply AddUint64_Ok; widths; lia).
  cbn [wrap mbind res_bind]. fold g.
  destruct (ProjectEpochStartHeight g e epochProjectionHorizon) as [start|err] eqn:Hs.
  2:{ apply project_Err in Hs as ->; [done..|lia]. }
  cbn [epochQueryError map_err mbind res_bind].
  destruct (ProjectEpochStartHeight g (e + 1) epochProjectionHorizon) as [next|err] eqn:Hn.
  2:{ apply project_Err in Hn as ->; [done..|lia]. }
  destruct (project_span g e epochProjectionHorizon start next Hwf Hsch He) as
    (g' & Hrun & Hwf' & Hst & Hnx & Hu); [unfold epochProjectionHorizon; widths; lia | |done..|].
  { apply scheduled_count. lia. }
  pose proof (start_of_positive g' Hwf' e ltac:(lia)) as Hp.
  pose proof (start_of_succ g' Hwf' e ltac:(lia)) as Hsucc.
  destruct (EpochLengthForEpoch_spec g' Hwf' e ltac:(lia)) as [Hlen Hb].
  rewrite Hst in Hp. rewrite Hst, Hnx in Hsucc.
  cbn [epochQueryError map_err mbind res_bind].
  assert (SubUint64 next 1 = Ok (next - 1)) as -> by (apply SubUint64_Ok; widths; lia).
  assert (SubUint64 next start = Ok (length_of (EpochConfigVersions g') e)) as ->
    by (apply SubUint64_Ok; widths; lia).
  cbn [epochQueryError map_err wrap mbind res_bind].
  destruct (Z.eqb_spec (length_of (EpochConfigVersions g') e) 0); [lia|].
  cbn [fail_if mret res_ret epochQueryError map_err mbind res_bind].
  exists g'. simpl. split_and!; [done..| | | |].
  - rewrite EpochStartHeight_spec by (done || lia). apply representable_Ok. widths. lia.
  - rewrite <- Hnx. apply EpochEndHeight_spec; [done | lia | lia | rewrite Hnx; widths; lia].
  - done.
  - rewrite EpochStartHeight_spec by (done || lia). apply representable_Ok. widths. lia.
Qed.

(** The open epoch is always in range. *)
Lemma open_boundaries :
  QueryEpochBoundaries s (Some cur) = Ok {|
    QEB_EpochNumber := cur;
    QEB_StartHeight := CurrentEpochStartHeight (V_state v);
    QEB_EndHeight := CurrentEpochStartHeight (V_state v) + length_of (EpochConfigVersions g) cur - 1;
    QEB_EpochLengthBlocks := length_of (EpochConfigVersions g) cur |}.
Proof using Hi.
  pose proof (i_epoch _ _ _ _ _ _ Hi) as He. fold cur in He.
  pose proof (i_geometry _ _ _ _ _ _ Hi) as Hwf. pose proof (i_schedule _ _ _ _ _ _ Hi) as Hsch.
  fold g in Hwf, Hsch. destruct (inv_start_bounds _ _ _ _ _ _ Hi) as (H1 & H2 & H3 & H4 & H5).
  fold g cur in H2, H3, H4, H5.
  assert (scheduled_in 0 cur g = []) as Hnil.
  { destruct (scheduled_in 0 cur g) as [|[j x] l] eqn:E; [done|].
    assert ((j, x) ∈ scheduled_in 0 cur g) as Hj by (rewrite E; set_solver).
    apply elem_of_scheduled in Hj as [Hj Hle]; [|done].
    apply (i_schedule_future _ _ _ _ _ _ Hi) in Hj. fold cur in Hj. lia. }
  destruct (epochConfigVersionFor_spec g Hwf cur ltac:(lia)) as (k & x & Hs & Hr & Hk & Hv).
  pose proof (record_facts k x Hr) as (Hek & Hku & _).
  apply seek_le_Some in Hs as HS. destruct HS as (Hkx & _ & Hbest).
  assert (∀ j y, EpochConfigVersions g !! j = Some y → j ≤ k) as Hlast.
  { intros j y Hj. destruct (i_versions _ _ _ _ _ _ Hi j y Hj) as [Hjc _]. fold cur in Hjc. by eapply Hbest. }
  assert (∀ e, k ≤ e ≤ MaxUint64 → epochStartFrom x e = EpochStartHeight g e) as Hstart.
  { intros e Hke. symmetry. apply (start_after_last g k x e Hwf); [|done].
    rewrite <- (seek_le_max _ cur); [done|]. intros j y Hj. specialize (Hlast j y Hj). lia. }
  assert (EpochStartHeight g cur = Ok (CurrentEpochStartHeight (V_state v))) as Hc.
  { rewrite EpochStartHeight_spec by (done || lia). rewrite H2. apply representable_Ok. widths. lia. }
  assert (EpochStartHeight g (cur + 1) =
    Ok (CurrentEpochStartHeight (V_state v) + length_of (EpochConfigVersions g) cur)) as Hc1.
  { rewrite EpochStartHeight_spec by (done || lia). rewrite H3. apply representable_Ok. widths. lia. }
  assert (ProjectEpochStartHeight g cur epochProjectionHorizon =
    Ok (CurrentEpochStartHeight (V_state v))) as Hp.
  { unfold ProjectEpochStartHeight. rewrite Hv. cbn [mbind res_bind].
    rewrite Hek, (scheduled_from g k x cur Hsch Hkx), Hnil by lia. simpl.
    rewrite Hstart by lia. by rewrite Hc. }
  assert (ProjectEpochStartHeight g (cur + 1) epochProjectionHorizon =
    Ok (CurrentEpochStartHeight (V_state v) + length_of (EpochConfigVersions g) cur)) as Hp1.
  { unfold ProjectEpochStartHeight.
    destruct (epochConfigVersionFor_spec g Hwf (cur + 1) ltac:(lia)) as (k' & x' & Hs' & _ & _ & Hv').
    rewrite seek_le_max in Hs' by (intros j y Hj; specialize (Hlast j y Hj); lia).
    rewrite seek_le_max in Hs by (intros j y Hj; specialize (Hlast j y Hj); lia).
    rewrite Hs in Hs'. injection Hs' as <- <-. rewrite Hv'. cbn [mbind res_bind].
    rewrite Hek, (scheduled_from g k x (cur + 1) Hsch Hkx), scheduled_succ, Hnil by (done || lia).
    destruct (ScheduledEpochConfigs g !! (cur + 1)) as [c|] eqn:E; cbn [app project_loop].
    - destruct (Hsch _ _ E) as (_ & Hval & _). rewrite Hval. cbn [Z.geb epochProjectionHorizon mbind res_bind].
      rewrite Hstart, Hc1 by lia. cbn [unrepresentableEpoch wrap mbind res_bind].
      unfold epochStartFrom. simpl.
      assert (SubUint64 (cur + 1) (cur + 1) = Ok 0) as -> by (apply SubUint64_Ok; widths; lia).
      apply scheduled_facts in Hval as (_ & _ & Hlen). cbn [wrap mbind res_bind].
      assert (MulUint64 0 (SEC_EpochLengthBlocks c) = Ok 0) as -> by (apply MulUint64_Ok; widths; lia).
      cbn [wrap mbind res_bind]. apply wrap_Ok, wrap_Ok, AddUint64_Ok; widths; lia.
    - rewrite Hstart, Hc1 by lia. done. }
  unfold QueryEpochBoundaries. destruct (Z.eqb_spec cur 0); [lia|].
  cbn [fail_if mret res_ret deref mbind res_bind].
  assert (AddUint64 cur 1 = Ok (cur + 1)) as -> by (apply AddUint64_Ok; widths; lia).
  cbn [wrap mbind res_bind]. fold g. rewrite Hp, Hp1. cbn [epochQueryError map_err mbind res_bind].
  set (start := CurrentEpochStartHeight (V_state v)) in *.
  set (len := length_of (EpochConfigVersions g) cur) in *.
  assert (SubUint64 (start + len) 1 = Ok (start + len - 1)) as -> by (apply SubUint64_Ok; widths; lia).
  assert (SubUint64 (start + len) start = Ok len) as -> by (apply SubUint64_Ok; widths; lia).
  cbn [epochQueryError map_err wrap mbind res_bind]. by destruct (Z.eqb_spec len 0); [lia|].
Qed.

(** *** Entitlements *)
Lemma governing_answer k x :
  SlotEntitlements (Rs_Entitlements s) !! k = Some x → 1 ≤ fst k ≤ MaxUint64 →
  ∃ w, RewardConfigForTarget econ (Rs_RewardConfig s) (fst k) = Ok w ∧
    validateEntitlementRelations econ x w = Ok tt.
Proof using Hi.
  intros Hx Hk. destruct (i_governed _ _ _ _ _ _ Hi k x Hx) as (w & Hw & Hv).
  destruct (RewardConfigForTarget_spec econ _ (i_reward _ _ _ _ _ _ Hi) (fst k) Hk) as (w' & Hw' & Hr).
  rewrite Hw in Hw'. injection Hw' as <-. exists w. split; [done|].
  unfold validateEntitlementRelations. rewrite (i_payout _ _ _ _ _ _ Hi k x Hx).
  cbn [mbind res_bind]. by rewrite Hv, Z.eqb_refl.
Qed.

Definition entitlement_request (slot e : Z) : option QuerySlotEntitlementRequest :=
  Some {| QSE_SlotId := slot; QSE_Epoch := e |}.

Lemma entitlement_answer slot e :
  1 ≤ slot → 1 ≤ e ≤ MaxUint64 →
  QuerySlotEntitlement econ s (entitlement_request slot e) =
    match SlotEntitlements (Rs_Entitlements s) !! (e, slot) with
    | Some x => Ok x
    | None => Err StatusNotFound
    end.
Proof using Hi.
  intros Hs He. unfold QuerySlotEntitlement, entitlement_request.
  cbn [mbind res_bind QSE_SlotId QSE_Epoch].
  destruct (Z.eqb_spec slot 0), (Z.eqb_spec e 0); [lia..|].
  cbn [orb fail_if mret res_ret mbind res_bind]. unfold GetSlotEntitlement, entitlementKey.
  destruct (Z.eqb_spec slot 0), (Z.eqb_spec e 0); [lia..|].
  cbn [orb fail_if mret res_ret mbind res_bind].
  destruct (SlotEntitlements (Rs_Entitlements s) !! (e, slot)) as [x|] eqn:E; [|done].
  rewrite (ent_records _ (i_books _ _ _ _ _ _ Hi) _ _ E).
  cbn [mret res_ret canonicalStateQueryError map_err mbind res_bind].
  destruct (governing_answer (e, slot) x E He) as (w & Hw & Hrel). simpl fst in Hw.
  rewrite Hw. cbn [canonicalStateQueryError map_err mbind res_bind].
  by rewrite Hrel.
Qed.

Definition entitlement_page {PG : Paginator} (e limit : Z) (key : string)
    : res (list SlotEntitlement * PageResponse) :=
  QuerySlotEntitlementsByEpoch econ s
    (Some {| QEE_Epoch := e; QEE_Pagination := Some (page_by_key key limit) |}).

(** Following the pages of an epoch is iterating over its entitlements. *)
Lemma entitlement_pages {PG : Paginator} e limit :
  1 ≤ e ≤ MaxUint64 → 1 ≤ limit ≤ 100 →
  ∃ l, IterateEntitlementsForEpoch (Rs_Entitlements s) e = Ok l ∧
    l = snd <$> prefix_entries e (SlotEntitlements (Rs_Entitlements s)) ∧
    ∀ fuel, (List.length l < fuel)%nat → follow (entitlement_page e limit) fuel EmptyString = Ok l.
Proof using Hi.
  intros He Hl. set (m := SlotEntitlements (Rs_Entitlements s)).
  exists (snd <$> prefix_entries e m).
  pose proof (i_books _ _ _ _ _ _ Hi) as Hwf. split_and!; [|done|].
  - unfold IterateEntitlementsForEpoch. destruct (Z.eqb_spec e 0); [lia|].
    cbn [fail_if mret res_ret mbind res_bind]. rewrite iterate_loop; [done|].
    intros k x Hk. apply elem_of_prefix_entries in Hk as [Hk _]. by apply (ent_records _ Hwf).
  - intros fuel Hfuel. rewrite prefix_entries_map in Hfuel |- *.
    rewrite !length_fmap, entries_length in Hfuel. rewrite <- list_fmap_compose.
    destruct (RewardConfigForTarget_spec econ _ (i_reward _ _ _ _ _ _ Hi) e He) as (w & Hw & Hrun).
    apply (paginate_follow (prefix_map e m) (λ slotID entitlement,
      validateEntitlementRecord (entitlementKey e slotID) entitlement ;;
      validateEntitlementRelations econ entitlement w ;; mret entitlement) (λ _ x, x) limit);
      [lia | | |done].
    + intros slot x Hx. rewrite lookup_prefix_map in Hx.
      pose proof (ent_records _ Hwf _ _ Hx) as Hrec.
      split; [by apply (i_slots _ _ _ _ _ _ Hi) in Hx|].
      unfold entitlementKey. rewrite Hrec. cbn [mbind res_bind].
      destruct (governing_answer (e, slot) x Hx He) as (w' & Hw' & Hrel). simpl fst in Hw'.
      rewrite Hrun in Hw'. injection Hw' as <-. by rewrite Hrel.
    + intros key r Hr. unfold entitlement_page, QuerySlotEntitlementsByEpoch.
      cbn [mbind res_bind QEE_Epoch QEE_Pagination]. destruct (Z.eqb_spec e 0); [lia|].
      cbn [fail_if mret res_ret mbind res_bind]. rewrite boundedPage_by_key by done.
      cbn [mbind res_bind]. rewrite Hrun. cbn [canonicalStateQueryError map_err mbind res_bind].
      fold m. by rewrite Hr.
Qed.

(** *** Participation of the open epoch, and closed epochs *)
Definition active_page {PG : Paginator} (limit : Z) (key : string)
    : res (list SlotActiveBlocks * PageResponse) :=
  answer ← QueryCurrentEpochActiveBlocks s (Some (page_by_key key limit));
  mret (QAB_ActiveBlocks answer, QAB_Pagination answer).

(** Following the pages is listing the credited slots of the open epoch, each with
    its blocks. *)
Lemma active_pages {PG : Paginator} limit : 1 ≤ limit →
  let rows := prefix_map cur (Rs_ActiveBlocks s) in
  ∀ fuel, (size rows < fuel)%nat → follow (active_page limit) fuel EmptyString =
    Ok ((λ kv, {| AB_SlotId := fst kv; AB_BlocksActive := snd kv |}) <$> entries rows).
Proof using Hi.
  intros Hl rows fuel Hfuel.
  apply (paginate_follow rows (λ slotID blocks, mret {| AB_SlotId := slotID; AB_BlocksActive := blocks |})
    (λ slotID blocks, {| AB_SlotId := slotID; AB_BlocksActive := blocks |}) limit); [done | | |done].
  - intros slot b Hb. unfold rows in Hb. rewrite lookup_prefix_map in Hb.
    destruct (i_rows _ _ _ _ _ _ Hi _ _ _ Hb) as (_ & _ & Hslot & _). split; [widths; lia | done].
  - intros key r Hr. unfold active_page, QueryCurrentEpochActiveBlocks.
    rewrite (inv_GetState _ _ _ _ _ _ Hi). cbn [canonicalStateQueryError map_err mbind res_bind].
    assert (pageRequestError (Some (page_by_key key limit)) = Ok tt) as -> by done.
    cbn [mbind res_bind]. fold cur rows. rewrite Hr. by destruct r.
Qed.

Lemma epoch_reward_answer e : e ≠ 0 →
  match QueryEpochReward s (Some e) with
  | Ok x => Rs_FinalizedEpochs s !! e = Some x ∧ e ≤ closed ∧ Rewards x = [] ∧
      (1 ≤ e → EpochNumber x = e)
  | Err status => status = StatusNotFound ∧ ¬ 1 ≤ e ≤ closed
  end.
Proof using Hi.
  intros He. unfold QueryEpochReward. destruct (Z.eqb_spec e 0); [done|].
  cbn [fail_if mret res_ret deref mbind res_bind]. unfold GetFinalizedEpoch.
  pose proof (i_records _ _ _ _ _ _ Hi e) as Hrec.
  destruct (Rs_FinalizedEpochs s !! e) as [x|] eqn:E.
  - destruct (i_finalized _ _ _ _ _ _ Hi e x E) as [[_ Hc] Hr]. split_and!; [done..|].
    intros H1. destruct (Hrec ltac:(lia)) as (y & [= <-] & Hy). exact Hy.
  - split; [done|]. intros H1. by destruct (Hrec H1) as (y & ? & _).
Qed.
End answers.
