(* ===== verification/MiningTypes.v ===== *)
(** * x/mining/types: settlements, their parameters, and validation

    The records of [mining.proto] and [tx.proto] and the validation methods of
    [validation.go], [msgs.go] and [genesis.go] that judge one record.  An enum
    value outside the declared ones is not represented; every switch of the code
    treats one as it treats UNSPECIFIED. *)
From S2P Require Import Prelude Checked SdkMath Bounds.
From Stdlib Require Import Ascii String.
Local Open Scope Z_scope.

(** ** mining.proto *)
Inductive MiningDistributionMode :=
  | MINING_DISTRIBUTION_MODE_UNSPECIFIED
  | MINING_DISTRIBUTION_MODE_TRUSTED_AS_DISTRIBUTION
  | MINING_DISTRIBUTION_MODE_PROTOCOL_SELECTION.
Inductive SettlementMode :=
  | SETTLEMENT_MODE_UNSPECIFIED
  | SETTLEMENT_MODE_TRUSTED_AS
  | SETTLEMENT_MODE_SELECTED_PARTICIPANTS
  | SETTLEMENT_MODE_OPERATOR_ONLY.
Inductive SettlementFinalizationReason :=
  | SETTLEMENT_FINALIZATION_REASON_UNSPECIFIED
  | SETTLEMENT_FINALIZATION_REASON_AUTHORIZED_EARLY
  | SETTLEMENT_FINALIZATION_REASON_PERMISSIONLESS_AFTER_DEADLINE
  | SETTLEMENT_FINALIZATION_REASON_PERMISSIONLESS_OPERATOR_ONLY.
#[export] Instance MiningDistributionMode_eq_dec : EqDecision MiningDistributionMode.
Proof. solve_decision. Defined.
#[export] Instance SettlementMode_eq_dec : EqDecision SettlementMode.
Proof. solve_decision. Defined.
#[export] Instance SettlementFinalizationReason_eq_dec : EqDecision SettlementFinalizationReason.
Proof. solve_decision. Defined.

Record MiningDistributionModeVersion := {
  DM_Version : Z;
  DM_Mode : MiningDistributionMode;
  DM_ValidFromEpoch : Z;
  DM_ValidUntilEpochExclusive : Z
}.
Record ScheduledMiningDistributionMode := {
  SDM_EffectiveEpoch : Z;
  SDM_Mode : MiningDistributionMode
}.
Record SelectionParamsVersion := {
  SLP_Version : Z;
  SLP_EffectiveEpoch : Z;
  SLP_MaxSelectionRateBps : Z;
  SLP_MaxSelectedParticipantsPerSelection : Z;
  SLP_MaxCandidatesPerSelection : Z;
  SLP_BeaconStartOffsetBlocks : Z;
  SLP_BeaconWindowBlocks : Z;
  SLP_MinExternalBeaconBlocks : Z;
  SLP_MinDistinctExternalProposers : Z
}.
Record ScheduledSelectionParams := {
  SSLP_EffectiveEpoch : Z;
  SSLP_MaxSelectionRateBps : Z;
  SSLP_MaxSelectedParticipantsPerSelection : Z;
  SSLP_MaxCandidatesPerSelection : Z;
  SSLP_BeaconStartOffsetBlocks : Z;
  SSLP_BeaconWindowBlocks : Z;
  SSLP_MinExternalBeaconBlocks : Z;
  SSLP_MinDistinctExternalProposers : Z
}.
Record SettlementParamsVersion := {
  STP_Version : Z;
  STP_EffectiveEpoch : Z;
  STP_SettlementWindowEpochs : Z;
  STP_MaxRecipientsPerChunk : Z;
  STP_MaxChunksPerSettlement : Z;
  STP_MinRecipientPayoutAmount : string
}.
Record ScheduledSettlementParams := {
  SSTP_EffectiveEpoch : Z;
  SSTP_SettlementWindowEpochs : Z;
  SSTP_MaxRecipientsPerChunk : Z;
  SSTP_MaxChunksPerSettlement : Z;
  SSTP_MinRecipientPayoutAmount : string
}.
Record SettlementEpochAnchor := {
  SEA_Epoch : Z;
  SEA_CreatedSettlementClock : Z
}.
Record Settlement := {
  Stl_SlotId : Z;
  Stl_Epoch : Z;
  Stl_DistributionModeVersion : Z;
  Stl_SettlementMode : SettlementMode;
  Stl_SettlementParamsVersion : Z;
  Stl_NextChunkIndex : Z;
  Stl_Finalized : bool;
  Stl_FinalizedHeight : Z;
  Stl_FinalizationReason : SettlementFinalizationReason
}.
#[export] Instance Settlement_eq_dec : EqDecision Settlement.
Proof. solve_decision. Defined.

(** ** tx.proto *)
Record SettlementChunkPayout := {
  SCP_Recipient : string;
  SCP_Amount : string
}.
Record MsgSubmitSettlementChunk := {
  MSC_SettlementAddress : string;
  MSC_SlotId : Z;
  MSC_Epoch : Z;
  MSC_ChunkIndex : Z;
  MSC_Payouts : list (option SettlementChunkPayout)
}.
Record MsgFinalizeSettlement := {
  MFS_Signer : string;
  MFS_SlotId : Z;
  MFS_Epoch : Z
}.
Record MsgSubmitSettlementChunkResponse := { MSCR_NextChunkIndex : Z }.
Record MsgFinalizeSettlementResponse := {
  MFSR_FinalizationReason : SettlementFinalizationReason;
  MFSR_ReleasedRemainder : string
}.

Section validation.
Context {SI : SdkInt}.

(** ** validation.go *)

(** [ParseCanonicalAmount] of this module.  A rune that is no ASCII digit shows
    in the bytes as a byte that is none. *)
Definition Mining_ParseCanonicalAmount (value : string) : res Z :=
  fail_if (bool_decide (value = EmptyString)) MnInvalidState ;;
  fail_if (negb (string_forall is_digit value)) MnInvalidState ;;
  fail_if (leading_zero value) MnInvalidState ;;
  match NewIntFromString value with
  | None => Err MnInvalidState
  | Some amount =>
      fail_if (amount <? 0) MnInvalidState ;;
      mret amount
  end.

Definition validateDistributionMode (mode : MiningDistributionMode) : res unit :=
  match mode with
  | MINING_DISTRIBUTION_MODE_TRUSTED_AS_DISTRIBUTION
  | MINING_DISTRIBUTION_MODE_PROTOCOL_SELECTION => mret tt
  | _ => Err MnInvalidState
  end.

(** [MiningDistributionModeVersion.Validate] *)
Definition DM_Validate (v : MiningDistributionModeVersion) : res unit :=
  fail_if (DM_Version v =? 0) MnInvalidState ;;
  fail_if (DM_ValidFromEpoch v =? 0) MnInvalidState ;;
  wrap MnInvalidState (validateDistributionMode (DM_Mode v)) ;;
  fail_if (negb (DM_ValidUntilEpochExclusive v =? 0) &&
           (DM_ValidUntilEpochExclusive v <=? DM_ValidFromEpoch v)) MnInvalidState.

(** [SelectionParamsVersion.Validate] *)
Definition SLP_Validate (v : SelectionParamsVersion) : res unit :=
  fail_if (SLP_Version v =? 0) MnInvalidState ;;
  fail_if (SLP_EffectiveEpoch v =? 0) MnInvalidState ;;
  wrap MnInvalidState
    (ValidateSelectionRateBps (SLP_MaxSelectionRateBps v) AbsoluteMaxSelectionRateBps) ;;
  for_each (λ value, fail_if (value =? 0) MnInvalidState) [
    SLP_MaxSelectedParticipantsPerSelection v; SLP_MaxCandidatesPerSelection v;
    SLP_BeaconWindowBlocks v; SLP_MinExternalBeaconBlocks v;
    SLP_MinDistinctExternalProposers v] ;;
  fail_if (SLP_MinExternalBeaconBlocks v >? SLP_BeaconWindowBlocks v) MnInvalidState.

Definition validateSettlementParamValues (windowEpochs maxRecipients maxChunks : Z)
    (minPayout : string) : res unit :=
  wrap MnInvalidState (ValidateSettlementWindowEpochs windowEpochs) ;;
  wrap MnInvalidState (ValidateMaxRecipientsPerChunk maxRecipients) ;;
  wrap MnInvalidState (ValidateMaxChunksPerSettlement maxChunks) ;;
  amount ← Mining_ParseCanonicalAmount minPayout;
  wrap MnInvalidState
    (ValidateMinRecipientPayoutAmount (Some amount) (Some HardMinSettlementPayoutAmount)).

(** [SettlementParamsVersion.Validate] *)
Definition STP_Validate (v : SettlementParamsVersion) : res unit :=
  fail_if (STP_Version v =? 0) MnInvalidState ;;
  fail_if (STP_EffectiveEpoch v =? 0) MnInvalidState ;;
  validateSettlementParamValues (STP_SettlementWindowEpochs v) (STP_MaxRecipientsPerChunk v)
    (STP_MaxChunksPerSettlement v) (STP_MinRecipientPayoutAmount v).

(** ** genesis.go: one record *)

(** [Settlement.Validate] *)
Definition Stl_Validate (s : Settlement) : res unit :=
  fail_if (Stl_SlotId s =? 0) MnInvalidState ;;
  fail_if (Stl_Epoch s =? 0) MnInvalidState ;;
  fail_if ((Stl_DistributionModeVersion s =? 0) || (Stl_SettlementParamsVersion s =? 0))
    MnInvalidState ;;
  match Stl_SettlementMode s with
  | SETTLEMENT_MODE_TRUSTED_AS | SETTLEMENT_MODE_SELECTED_PARTICIPANTS
  | SETTLEMENT_MODE_OPERATOR_ONLY => mret tt
  | _ => Err MnInvalidState
  end ;;
  if Stl_Finalized s then
    fail_if (bool_decide (Stl_FinalizationReason s = SETTLEMENT_FINALIZATION_REASON_UNSPECIFIED))
      MnInvalidState ;;
    fail_if (Stl_FinalizedHeight s =? 0) MnInvalidState
  else
    fail_if (bool_decide (Stl_FinalizationReason s ≠ SETTLEMENT_FINALIZATION_REASON_UNSPECIFIED))
      MnInvalidState ;;
    fail_if (negb (Stl_FinalizedHeight s =? 0)) MnInvalidState.

(** [SettlementEpochAnchor.Validate] *)
Definition SEA_Validate (a : SettlementEpochAnchor) : res unit :=
  fail_if (SEA_Epoch a =? 0) MnInvalidState.

(** ** msgs.go *)

(** [MsgSubmitSettlementChunk.Validate] *)
Definition MSC_Validate (m : MsgSubmitSettlementChunk) : res unit :=
  fail_if (MSC_SlotId m =? 0) MnInvalidState ;;
  fail_if (MSC_Epoch m =? 0) MnInvalidState ;;
  fail_if (bool_decide (MSC_Payouts m = [])) MnInvalidState ;;
  fail_if (Z.of_nat (List.length (MSC_Payouts m)) >? HardMaxRecipientsPerChunk) MnInvalidState ;;
  for_each (λ payout,
    match payout with
    | None => Err MnInvalidState
    | Some payout =>
        fail_if (bool_decide (SCP_Recipient payout = EmptyString)) MnInvalidAddress ;;
        _ ← Mining_ParseCanonicalAmount (SCP_Amount payout);
        mret tt
    end) (MSC_Payouts m).

(** [MsgFinalizeSettlement.Validate] *)
Definition MFS_Validate (m : MsgFinalizeSettlement) : res unit :=
  fail_if (MFS_SlotId m =? 0) MnInvalidState ;;
  fail_if (MFS_Epoch m =? 0) MnInvalidState ;;
  fail_if (bool_decide (MFS_Signer m = EmptyString)) MnInvalidAddress.
End validation.

(** ** What the validators admit *)
Section validation_lemmas.
Context {SI : SdkInt}.

(** The two modules read amounts alike. *)
Lemma Mining_ParseCanonicalAmount_iff s z :
  Mining_ParseCanonicalAmount s = Ok z ↔ ParseCanonicalPayoutAmount s = Ok z.
Proof.
  unfold ParseCanonicalPayoutAmount, ParseCanonicalAmount, Mining_ParseCanonicalAmount.
  destruct (bool_decide (s = EmptyString)); [done|]. cbn [fail_if mbind res_bind mret res_ret].
  destruct (string_forall is_digit s) eqn:Hd; cbn [negb fail_if mbind res_bind mthrow res_throw mret res_ret].
  2:{ split; [done|]. destruct (_ || _); done. }
  destruct (digits_no_space s Hd) as [Ht Hb].
  rewrite Ht, Hb, (bool_decide_eq_true_2 (s = s)) by done.
  cbn [negb orb fail_if mbind res_bind mret res_ret].
  destruct (leading_zero s); [done|]. cbn [fail_if mbind res_bind mret res_ret].
  destruct (NewIntFromString s) as [a|]; [|done]. destruct (a <? 0); done.
Qed.

Lemma validateDistributionMode_Ok m :
  validateDistributionMode m = Ok tt ↔ m ≠ MINING_DISTRIBUTION_MODE_UNSPECIFIED.
Proof. by destruct m. Qed.

Lemma DM_Validate_Ok v :
  DM_Validate v = Ok tt ↔
  DM_Version v ≠ 0 ∧ DM_ValidFromEpoch v ≠ 0 ∧
  DM_Mode v ≠ MINING_DISTRIBUTION_MODE_UNSPECIFIED ∧
  (DM_ValidUntilEpochExclusive v ≠ 0 → DM_ValidFromEpoch v < DM_ValidUntilEpochExclusive v).
Proof.
  unfold DM_Validate. rewrite <- validateDistributionMode_Ok. split.
  - intros H. minv. zify_bool. split_and!; [done..|]. intros Hu.
    destruct (Z.eqb_spec (DM_ValidUntilEpochExclusive v) 0); [done|]. simpl in *. zify_bool. lia.
  - intros (H1 & H2 & -> & H4).
    destruct (Z.eqb_spec (DM_Version v) 0); [done|].
    destruct (Z.eqb_spec (DM_ValidFromEpoch v) 0); [done|].
    cbn. destruct (Z.eqb_spec (DM_ValidUntilEpochExclusive v) 0); [done|].
    destruct (Z.leb_spec (DM_ValidUntilEpochExclusive v) (DM_ValidFromEpoch v)); [|done].
    specialize (H4 ltac:(done)). lia.
Qed.

(** What settlement parameters in force look like. *)
Lemma STP_Validate_Ok v :
  STP_Validate v = Ok tt ↔
  STP_Version v ≠ 0 ∧ STP_EffectiveEpoch v ≠ 0 ∧ 1 ≤ STP_SettlementWindowEpochs v ∧
  1 ≤ STP_MaxRecipientsPerChunk v ≤ 32 ∧ 1 ≤ STP_MaxChunksPerSettlement v ≤ 4 ∧
  ∃ floor, Mining_ParseCanonicalAmount (STP_MinRecipientPayoutAmount v) = Ok floor ∧ 10000 ≤ floor.
Proof.
  unfold STP_Validate, validateSettlementParamValues, ValidateSettlementWindowEpochs,
    ValidateMaxRecipientsPerChunk, ValidateMaxChunksPerSettlement,
    ValidateMinRecipientPayoutAmount, HardMinSettlementPayoutAmount,
    HardMinSettlementWindowEpochs, HardMinRecipientsPerChunk, HardMaxRecipientsPerChunk,
    HardMinChunksPerSettlement, HardMaxChunksPerSettlement. split.
  - intros H. minv.
    repeat match goal with
    | H : requirePositiveAtLeast _ _ = Ok _ |- _ => apply requirePositiveAtLeast_Ok in H
    | H : requirePositiveAtMost _ _ = Ok _ |- _ => apply requirePositiveAtMost_Ok in H
    end. zify_bool. split_and!; try lia. eexists. split; [eassumption | lia].
  - intros (H1 & H2 & H3 & H4 & H5 & floor & Hf & H6).
    destruct (Z.eqb_spec (STP_Version v) 0); [done|].
    destruct (Z.eqb_spec (STP_EffectiveEpoch v) 0); [done|].
    cbn [fail_if mbind res_bind mret res_ret].
    repeat match goal with
    | |- context [requirePositiveAtLeast ?a ?b] =>
        replace (requirePositiveAtLeast a b) with (Ok tt : res unit)
          by (symmetry; apply requirePositiveAtLeast_Ok; lia)
    | |- context [requirePositiveAtMost ?a ?b] =>
        replace (requirePositiveAtMost a b) with (Ok tt : res unit)
          by (symmetry; apply requirePositiveAtMost_Ok; lia)
    end.
    cbn [wrap mbind res_bind]. rewrite Hf. cbn.
    destruct (Z.ltb_spec floor 10000); [lia | done].
Qed.

Lemma SLP_Validate_positive v :
  SLP_Validate v = Ok tt → SLP_Version v ≠ 0 ∧ SLP_EffectiveEpoch v ≠ 0.
Proof. unfold SLP_Validate. intros H. minv. zify_bool. done. Qed.

(** An open settlement, and a finalized one. *)
Lemma Stl_Validate_Ok s :
  Stl_Validate s = Ok tt ↔
  Stl_SlotId s ≠ 0 ∧ Stl_Epoch s ≠ 0 ∧ Stl_DistributionModeVersion s ≠ 0 ∧
  Stl_SettlementParamsVersion s ≠ 0 ∧ Stl_SettlementMode s ≠ SETTLEMENT_MODE_UNSPECIFIED ∧
  (if Stl_Finalized s
   then Stl_FinalizationReason s ≠ SETTLEMENT_FINALIZATION_REASON_UNSPECIFIED ∧
     Stl_FinalizedHeight s ≠ 0
   else Stl_FinalizationReason s = SETTLEMENT_FINALIZATION_REASON_UNSPECIFIED ∧
     Stl_FinalizedHeight s = 0).
Proof.
  unfold Stl_Validate. split.
  - intros H. minv. zify_bool.
    split_and!; [done..| |]; [by destruct (Stl_SettlementMode s)|].
    destruct (Stl_Finalized s); minv;
      repeat match goal with H : bool_decide _ = false |- _ =>
        apply bool_decide_eq_false_1 in H end; zify_bool; [done|].
    split; [by apply dec_stable | done].
  - intros (H1 & H2 & H3 & H4 & H5 & H6).
    repeat match goal with |- context [?x =? 0] =>
      first [destruct (Z.eqb_spec x 0); [done|] | fail] end.
    all: try (destruct (Stl_Finalized s); done).
    cbn [orb fail_if mbind res_bind mret res_ret].
    destruct (Stl_SettlementMode s); try done; cbn [mbind res_bind];
      destruct (Stl_Finalized s), H6 as [Ha Hb];
      rewrite ?bool_decide_eq_false_2 by (auto; tauto);
      rewrite ?Hb; try done.
    all: by destruct (Z.eqb_spec (Stl_FinalizedHeight s) 0).
Qed.
End validation_lemmas.
