(* ===== verification/MiningHistory.v ===== *)
(** * x/mining/keeper: version histories

    [history.go] and [versionlookup.go]: the operations shared by the three
    versioned families (distribution mode, selection parameters, settlement
    parameters), generic in the record.  A history maps the epoch a version
    becomes effective at to the version; version numbers increase along it but
    need not be contiguous, so the lookup by number goes through a derived index
    and proves absence from the history itself.  The theorems: the lookup is
    right whatever the index holds, and never fails when the index is faithful. *)
From S2P Require Import Prelude Checked Collections.
Local Open Scope Z_scope.

Section history.
Context {V : Type}.
Implicit Types (history : gmap Z V) (index : gmap Z Z).

Definition seekVersionKeyAtOrBefore history (epoch : Z) : option (Z * V) := seek_le epoch history.
Definition seekLatestVersion history : option (Z * V) := seek_max history.

Definition setVersionIndexEntry (version epochKey : Z) : M (gmap Z Z) unit :=
  fail_if (version =? 0) MnInvalidState ;;
  existing ← gets (λ index : gmap Z Z, index !! version);
  match existing with
  | Some _ => mthrow MnInvalidState
  | None => modify (λ index, <[version := epochKey]> index)
  end.

Definition lookupVersionEpochKey index (version : Z) : res (option Z) :=
  fail_if (version =? 0) MnInvalidState ;;
  mret (index !! version).

(** The pending change of a family, and whether it is due. *)
Definition scheduledEntryFor (schedule : gmap Z V) (effectiveEpoch : Z)
    : res (option (Z * V * bool)) :=
  match entries schedule with
  | [] => mret None
  | [(key, value)] =>
      fail_if (key <? effectiveEpoch) MnInvalidState ;;
      mret (Some (key, value, key =? effectiveEpoch))
  | _ => Err MnInvalidState
  end.

Definition nextVersionNumber (latest : Z) : res Z := wrap MnInvalidState (AddUint64 latest 1).

(** The epoch a target binds its configuration at, or [true]: the bootstrap. *)
Definition bindingEpochForTarget (target : Z) : res (Z * bool) :=
  fail_if (target =? 0) MnInvalidState ;;
  if target <=? 2 then mret (0, true)
  else
    binding ← wrap MnInvalidState (SubUint64 target 2);
    mret (binding, false).

(** ** versionlookup.go *)
Definition seekIndexedVersionBelow index (version : Z) : option (Z * Z) :=
  if version <=? 1 then None else seek_le (version - 1) index.
Definition seekIndexedVersionAbove index (version : Z) : option (Z * Z) := seek_gt version index.
Definition seekNextHistoryKey history (after : Z) : option Z := fst <$> seek_gt after history.

Inductive versionClassification := versionFound | versionAboveLatest | versionIntentionalGap.

Context (versionOf : V → Z) (validate : Z → V → res unit).

Definition proveVersionGap history index (version : Z) : res unit :=
  match seekIndexedVersionBelow index version with
  | None => Err MnInvalidState
  | Some (lowerVersion, lowerEpoch) =>
  match seekIndexedVersionAbove index version with
  | None => Err MnInvalidState
  | Some (upperVersion, upperEpoch) =>
      lower ← wrap MnInvalidState (coll_get (history !! lowerEpoch));
      validate lowerEpoch lower ;;
      upper ← wrap MnInvalidState (coll_get (history !! upperEpoch));
      validate upperEpoch upper ;;
      fail_if (negb (versionOf lower =? lowerVersion) || negb (versionOf upper =? upperVersion))
        MnInvalidState ;;
      fail_if ((lowerVersion >=? version) || (version >=? upperVersion)) MnInvalidState ;;
      match seekNextHistoryKey history lowerEpoch with
      | None => Err MnInvalidState
      | Some nextEpoch => fail_if (negb (nextEpoch =? upperEpoch)) MnInvalidState
      end
  end
  end.

Definition resolveExactVersion history index (version : Z) : res (Z * versionClassification) :=
  fail_if (version =? 0) MnInvalidState ;;
  match seekLatestVersion history with
  | None => Err MnInvalidState
  | Some (latestKey, latestRecord) =>
      validate latestKey latestRecord ;;
      if version >? versionOf latestRecord then mret (0, versionAboveLatest)
      else
        indexed ← lookupVersionEpochKey index version;
        match indexed with
        | Some epochKey =>
            record ← wrap MnInvalidState (coll_get (history !! epochKey));
            validate epochKey record ;;
            fail_if (negb (versionOf record =? version)) MnInvalidState ;;
            mret (epochKey, versionFound)
        | None =>
            proveVersionGap history index version ;;
            mret (0, versionIntentionalGap)
        end
  end.
End history.

(** ** Histories and faithful indexes *)
Section lookup.
Context {V : Type} (versionOf : V → Z) (validate : Z → V → res unit).
Implicit Types (history : gmap Z V) (index : gmap Z Z).

(** Every record is valid, and versions increase with the epochs. *)
Record history_valid history : Prop := {
  hv_valid : ∀ k r, history !! k = Some r → validate k r = Ok tt;
  hv_positive : ∀ k r, history !! k = Some r → 0 < versionOf r;
  hv_increasing : ∀ k r k' r', history !! k = Some r → history !! k' = Some r' → k < k' →
    versionOf r < versionOf r'
}.

(** The index holds every version number, and nothing else. *)
Definition index_faithful history index : Prop :=
  ∀ version k, index !! version = Some k ↔ ∃ r, history !! k = Some r ∧ versionOf r = version.

(** Whatever the index holds, an answer is right. *)
Definition answers history (version k : Z) (c : versionClassification) : Prop :=
  match c with
  | versionFound => ∃ r, history !! k = Some r ∧ versionOf r = version
  | versionAboveLatest => history ≠ ∅ ∧ ∀ j r, history !! j = Some r → versionOf r < version
  | versionIntentionalGap =>
      (∀ j r, history !! j = Some r → versionOf r ≠ version) ∧
      (∃ j r, history !! j = Some r ∧ versionOf r < version) ∧
      (∃ j r, history !! j = Some r ∧ version < versionOf r)
  end.

Lemma latest_greatest history k r j x :
  history_valid history → seekLatestVersion history = Some (k, r) →
  history !! j = Some x → versionOf x ≤ versionOf r.
Proof.
  intros Hv [Hk Hmax]%seek_max_Some Hj. specialize (Hmax _ _ Hj).
  destruct (decide (j = k)) as [->|]; [by replace x with r by congruence|].
  pose proof (hv_increasing _ Hv j x k r Hj Hk ltac:(lia)). lia.
Qed.

Lemma proveVersionGap_sound history index version :
  history_valid history → proveVersionGap versionOf validate history index version = Ok tt →
  answers history version 0 versionIntentionalGap.
Proof.
  intros Hv H. unfold proveVersionGap in H.
  destruct (seekIndexedVersionBelow index version) as [[lv lk]|]; [|done].
  destruct (seekIndexedVersionAbove index version) as [[uv uk]|]; [|done].
  minv. rewrite Z.geb_leb in *. zify_bool.
  repeat match goal with H : coll_get _ = Ok _ |- _ => apply coll_get_Ok in H end.
  destruct (seekNextHistoryKey history lk) as [nk|] eqn:E; [|done]. minv. zify_bool. subst nk.
  unfold seekNextHistoryKey in E. apply fmap_Some in E as ([j y] & E & Hj). simpl in Hj. subst j.
  apply seek_gt_Some in E as (_ & Hlt & Hmin).
  match goal with Hl : history !! lk = Some ?a, Hu : history !! uk = Some ?b |- _ =>
    rename a into lower; rename b into upper; rename Hl into Hlower; rename Hu into Hupper end.
  split; [|split; [exists lk, lower; split; [done | lia] | exists uk, upper; split; [done | lia]]].
  intros k r Hk Hver. pose proof (hv_increasing _ Hv) as Hi.
  destruct (Z.lt_trichotomy k lk) as [Hc|[->|Hc]].
  - specialize (Hi _ _ _ _ Hk Hlower Hc). lia.
  - replace r with lower in * by congruence. lia.
  - specialize (Hmin _ _ Hk Hc). destruct (decide (k = uk)) as [->|].
    + replace r with upper in * by congruence. lia.
    + specialize (Hi _ _ _ _ Hupper Hk ltac:(lia)). lia.
Qed.

Lemma resolve_sound history index version k c :
  history_valid history →
  resolveExactVersion versionOf validate history index version = Ok (k, c) →
  answers history version k c.
Proof.
  intros Hv H. unfold resolveExactVersion, lookupVersionEpochKey in H. minv. zify_bool.
  destruct (seekLatestVersion history) as [[lk lr]|] eqn:El; [|done]. minv.
  rewrite Z.gtb_ltb in *. destruct (Z.ltb_spec (versionOf lr) version) as [Hlt|Hle].
  - minv. simplify_eq. split.
    + apply seek_max_Some in El as [Hk _]. intros ->. by rewrite lookup_empty in Hk.
    + intros j r Hj. pose proof (latest_greatest _ _ _ _ _ Hv El Hj). lia.
  - minv. destruct (index !! version) as [ek|] eqn:Ei; minv; simplify_eq.
    + zify_bool. match goal with H : coll_get _ = Ok _ |- _ => apply coll_get_Ok in H end.
      simpl. eauto.
    + match goal with H : proveVersionGap _ _ _ _ _ = Ok tt |- _ =>
        apply proveVersionGap_sound in H; [exact H | done] end.
Qed.

(** With a faithful index, a history that begins at version 1 always answers. *)
Lemma resolve_total history index version origin r1 :
  history_valid history → index_faithful history index →
  history !! origin = Some r1 → versionOf r1 = 1 → 1 ≤ version →
  ∃ k c, resolveExactVersion versionOf validate history index version = Ok (k, c).
Proof.
  intros Hv Hf Ho H1 Hver. unfold resolveExactVersion, lookupVersionEpochKey.
  destruct (Z.eqb_spec version 0); [lia|]. cbn [fail_if mret res_ret mbind res_bind].
  destruct (seekLatestVersion history) as [[lk lr]|] eqn:El.
  2:{ apply seek_max_None in El. subst. by rewrite lookup_empty in Ho. }
  pose proof El as [Hlk _]%seek_max_Some. rewrite (hv_valid _ Hv _ _ Hlk). cbn [mbind res_bind].
  rewrite Z.gtb_ltb. destruct (Z.ltb_spec (versionOf lr) version) as [|Hle]; [by eauto|].
  destruct (index !! version) as [ek|] eqn:Ei; cbn [mbind res_bind].
  { apply Hf in Ei as (r & Hr & Hrv). rewrite Hr. cbn. rewrite (hv_valid _ Hv _ _ Hr). cbn.
    rewrite Hrv, Z.eqb_refl. cbn. eauto. }
  enough (proveVersionGap versionOf validate history index version = Ok tt) as ->
    by (cbn; eauto).
  assert (index !! 1 = Some origin) as Hi1 by (apply Hf; eauto).
  assert (index !! versionOf lr = Some lk) as Hil by (apply Hf; eauto).
  assert (version ≠ 1) by congruence. assert (version ≠ versionOf lr) by congruence.
  unfold proveVersionGap, seekIndexedVersionBelow, seekIndexedVersionAbove.
  destruct (Z.leb_spec version 1); [lia|].
  destruct (seek_le (version - 1) index) as [[lv k1]|] eqn:Eb.
  2:{ pose proof (proj1 (seek_le_None _ _) Eb _ _ Hi1). lia. }
  apply seek_le_Some in Eb as (Hlv & Hlv2 & Hlmax). apply Hf in Hlv as (lower & Hlow & Hlowv).
  destruct (seek_gt version index) as [[uv k2]|] eqn:Ea.
  2:{ pose proof (proj1 (seek_gt_None _ _) Ea _ _ Hil). lia. }
  apply seek_gt_Some in Ea as (Huv & Huv2 & Humin). apply Hf in Huv as (upper & Hup & Hupv).
  rewrite Hlow, Hup. cbn [coll_get wrap mbind res_bind].
  rewrite (hv_valid _ Hv _ _ Hlow), (hv_valid _ Hv _ _ Hup). cbn [mbind res_bind].
  rewrite Hlowv, Hupv, !Z.eqb_refl. cbn [negb orb fail_if mret res_ret mbind res_bind].
  rewrite !Z.geb_leb.
  destruct (Z.leb_spec version lv); [lia|]. destruct (Z.leb_spec uv version); [lia|].
  cbn [orb fail_if mret res_ret mbind res_bind]. pose proof (hv_increasing _ Hv) as Hi.
  assert (k1 < k2) as Hk12.
  { destruct (Z.lt_trichotomy k1 k2) as [|[->|Hc]]; [done | replace lower with upper in * by congruence; lia|].
    specialize (Hi _ _ _ _ Hup Hlow Hc). lia. }
  unfold seekNextHistoryKey. destruct (seek_gt k1 history) as [[j y]|] eqn:En.
  2:{ pose proof (proj1 (seek_gt_None _ _) En _ _ Hup). lia. }
  apply seek_gt_Some in En as (Hy & Hj & Hjmin). cbn [fmap option_fmap option_map fst].
  specialize (Hjmin _ _ Hup Hk12). assert (index !! versionOf y = Some j) as Hyi by (apply Hf; eauto).
  pose proof (Hi _ _ _ _ Hlow Hy Hj). assert (versionOf y ≠ version) by congruence.
  assert (version < versionOf y).
  { destruct (decide (version < versionOf y)); [done|].
    specialize (Hlmax _ _ Hyi ltac:(lia)). lia. }
  specialize (Humin _ _ Hyi ltac:(lia)).
  assert (j = k2) as ->; [|by rewrite Z.eqb_refl].
  destruct (decide (j = k2)); [done|]. specialize (Hi _ _ _ _ Hy Hup ltac:(lia)). lia.
Qed.

(** Appending the next version after the last key. *)
Lemma append_valid history k r lk lr :
  history_valid history → seekLatestVersion history = Some (lk, lr) → lk < k →
  versionOf lr < versionOf r → validate k r = Ok tt →
  history_valid (<[k := r]> history).
Proof.
  intros Hv Hl Hk Hlt Hval. pose proof Hl as [Hlk Hmax]%seek_max_Some.
  pose proof (hv_positive _ Hv _ _ Hlk). split.
  - intros j x [[<- <-]|[_ Hj]]%lookup_insert_Some; [done | by eapply hv_valid].
  - intros j x [[<- <-]|[_ Hj]]%lookup_insert_Some; [lia | by eapply hv_positive].
  - intros j x j' x' [[<- <-]|[_ Hj]]%lookup_insert_Some [[<- <-]|[_ Hj']]%lookup_insert_Some Hjj; [lia| | |].
    + specialize (Hmax _ _ Hj'). lia.
    + pose proof (latest_greatest _ _ _ _ _ Hv Hl Hj). lia.
    + by eapply (hv_increasing _ Hv).
Qed.

Lemma append_faithful history index k r lk lr :
  history_valid history → index_faithful history index →
  seekLatestVersion history = Some (lk, lr) → lk < k → versionOf lr < versionOf r →
  index !! versionOf r = None ∧
  index_faithful (<[k := r]> history) (<[versionOf r := k]> index).
Proof.
  intros Hv Hf Hl Hk Hlt. pose proof Hl as [Hlk Hmax]%seek_max_Some.
  assert (∀ j x, history !! j = Some x → versionOf x ≠ versionOf r ∧ j ≠ k) as Hne.
  { intros j x Hj. pose proof (latest_greatest _ _ _ _ _ Hv Hl Hj). specialize (Hmax _ _ Hj). lia. }
  split.
  - destruct (index !! versionOf r) as [j|] eqn:E; [|done].
    apply Hf in E as (x & Hx & Hxv). by apply Hne in Hx as [].
  - intros version j. rewrite lookup_insert_Some, (Hf version j). split.
    + intros [[<- <-]|[Hver (x & Hx & Hxv)]].
      * exists r. by rewrite lookup_insert_eq.
      * exists x. rewrite lookup_insert_ne; [done|]. intros ->. by apply Hne in Hx as [].
    + intros (x & Hx & Hxv). apply lookup_insert_Some in Hx as [[<- <-]|[Hjk Hx]]; [by left|].
      right. split; [|eauto]. intros <-. by apply Hne in Hx as [].
Qed.
End lookup.
Arguments history_valid {_} _ _ _.
Arguments index_faithful {_} _ _ _.

(** ** Schedules *)
Section schedule.
Context {V : Type}.

(** At most one change is pending, at [bound] or later. *)
Definition pending_from (bound : Z) (P : Z → V → Prop) (schedule : gmap Z V) : Prop :=
  schedule = ∅ ∨ ∃ k x, schedule = {[k := x]} ∧ bound ≤ k ∧ P k x.

Lemma entries_empty : entries (∅ : gmap Z V) = [].
Proof. unfold entries. by rewrite map_to_list_empty. Qed.
(** The change is due now, or there is nothing to do now. *)
Lemma scheduledEntryFor_spec bound P (schedule : gmap Z V) :
  pending_from bound P schedule →
  (∃ x, P bound x ∧ schedule = {[bound := x]} ∧
     scheduledEntryFor schedule bound = Ok (Some (bound, x, true))) ∨
  ((∀ x, schedule ≠ {[bound := x]}) ∧
   (scheduledEntryFor schedule bound = Ok None ∨
    ∃ k x, scheduledEntryFor schedule bound = Ok (Some (k, x, false)))).
Proof.
  unfold scheduledEntryFor. intros [->|(k & x & -> & Hk & Hp)].
  - right. rewrite entries_empty. split; [|by left]. intros y Hy%(f_equal (.!! bound)).
    by rewrite lookup_singleton_eq, lookup_empty in Hy.
  - rewrite entries_singleton. destruct (Z.ltb_spec k bound); [lia|].
    cbn [fail_if mret res_ret mbind res_bind]. destruct (Z.eqb_spec k bound) as [->|Hne].
    + left. eauto.
    + right. split; [|right; eauto]. intros y Hy%(f_equal (.!! k)).
      rewrite lookup_singleton_eq, lookup_singleton_ne in Hy by done. done.
Qed.

Lemma pending_from_S bound P (schedule : gmap Z V) :
  pending_from bound P schedule → (∀ x, schedule ≠ {[bound := x]}) →
  pending_from (bound + 1) P schedule.
Proof.
  intros [->|(k & x & -> & Hk & Hp)] Hne; [by left|]. right. exists k, x. split_and!; [done| |done].
  destruct (decide (k = bound)) as [->|]; [by destruct (Hne x) | lia].
Qed.
End schedule.
