(* ===== verification/MiningKeeper.v ===== *)
(** * x/mining/keeper: the store, the three histories, and materialization

    [keeper.go] (the interface to the rewards module and the store), [mode.go],
    [settlementparams.go], [materialize.go] and [endblock.go].  The module holds
    no money: what it knows of entitlements, finalized epochs and the pause it
    reads through [RewardsKeeper], and the two release calls of that interface
    are all it can do to them. *)
From S2P Require Import Prelude Checked SdkMath Bounds RewardsTypes Collections.
From S2P Require Import MiningTypes MiningHistory.
Local Open Scope Z_scope.

(** ** The interface over x/rewards *)
Class RewardsKeeper := {
  RewardsStore : Type;
  Rk_GetFinalizedEpoch : RewardsStore → Z → res (option EpochReward);
  Rk_IterateEntitlementsForEpoch : RewardsStore → Z → res (list SlotEntitlement);
  Rk_GetSlotEntitlement : RewardsStore → Z → Z → res (option SlotEntitlement);
  Rk_EpochStartHeight : RewardsStore → Z → res Z;
  Rk_EpochEndHeight : RewardsStore → Z → res Z;
  Rk_EpochLengthForEpoch : RewardsStore → Z → res Z;
  Rk_SettlementReleaseEnabled : RewardsStore → res bool;
  Rk_PayEntitlement : Z → Z → list EntitlementPayout → M RewardsStore unit;
  Rk_PayEntitlementRemainderToOperator : Z → Z → M RewardsStore unit
}.

(** ** The store *)

(** A versioned family: its history, its pending change, its index by number. *)
Record Family (V S : Type) := {
  Versions : gmap Z V;
  Scheduled : gmap Z S;
  VersionIndex : gmap Z Z
}.
Arguments Versions {_ _} _.
Arguments Scheduled {_ _} _.
Arguments VersionIndex {_ _} _.

Abbreviation ModeFamily := (Family MiningDistributionModeVersion ScheduledMiningDistributionMode).
Abbreviation SelectionFamily := (Family SelectionParamsVersion ScheduledSelectionParams).
Abbreviation SettlementFamily := (Family SettlementParamsVersion ScheduledSettlementParams).

Record MiningStore := {
  Mn_Modes : ModeFamily;
  Mn_SelectionParams : SelectionFamily;
  Mn_SettlementParams : SettlementFamily;
  Mn_SettlementClock : option Z;
  Mn_LastProcessedRewardEpoch : option Z;
  Mn_SettlementEpochAnchors : gmap Z SettlementEpochAnchor;
  Mn_Settlements : gmap (Z * Z) Settlement;
  Mn_OpenSettlementsBySlot : gmap (Z * Z) Z
}.
Abbreviation KM := (M MiningStore).

Section family_setters.
Context {V S : Type}.
Definition put_Versions (v : gmap Z V) (f : Family V S) : Family V S :=
  {| Versions := v; Scheduled := Scheduled f; VersionIndex := VersionIndex f |}.
Definition put_Scheduled (v : gmap Z S) (f : Family V S) : Family V S :=
  {| Versions := Versions f; Scheduled := v; VersionIndex := VersionIndex f |}.
Definition put_VersionIndex (v : gmap Z Z) (f : Family V S) : Family V S :=
  {| Versions := Versions f; Scheduled := Scheduled f; VersionIndex := v |}.

(** [Versions.Set], [setVersionIndexEntry] on the index, [Scheduled.Remove]. *)
Definition setVersion (key : Z) (v : V) : M (Family V S) unit :=
  modify (λ f, put_Versions (<[key := v]> (Versions f)) f).
Definition indexVersion (version key : Z) : M (Family V S) unit :=
  zoom VersionIndex put_VersionIndex (setVersionIndexEntry version key).
Definition removeScheduled (key : Z) : M (Family V S) unit :=
  modify (λ f, put_Scheduled (delete key (Scheduled f)) f).
End family_setters.

Definition put_Modes (v : ModeFamily) (s : MiningStore) : MiningStore := {|
  Mn_Modes := v; Mn_SelectionParams := Mn_SelectionParams s;
  Mn_SettlementParams := Mn_SettlementParams s; Mn_SettlementClock := Mn_SettlementClock s;
  Mn_LastProcessedRewardEpoch := Mn_LastProcessedRewardEpoch s;
  Mn_SettlementEpochAnchors := Mn_SettlementEpochAnchors s;
  Mn_Settlements := Mn_Settlements s; Mn_OpenSettlementsBySlot := Mn_OpenSettlementsBySlot s |}.
Definition put_SelectionParams (v : SelectionFamily) (s : MiningStore) : MiningStore := {|
  Mn_Modes := Mn_Modes s; Mn_SelectionParams := v;
  Mn_SettlementParams := Mn_SettlementParams s; Mn_SettlementClock := Mn_SettlementClock s;
  Mn_LastProcessedRewardEpoch := Mn_LastProcessedRewardEpoch s;
  Mn_SettlementEpochAnchors := Mn_SettlementEpochAnchors s;
  Mn_Settlements := Mn_Settlements s; Mn_OpenSettlementsBySlot := Mn_OpenSettlementsBySlot s |}.
Definition put_SettlementParams (v : SettlementFamily) (s : MiningStore) : MiningStore := {|
  Mn_Modes := Mn_Modes s; Mn_SelectionParams := Mn_SelectionParams s;
  Mn_SettlementParams := v; Mn_SettlementClock := Mn_SettlementClock s;
  Mn_LastProcessedRewardEpoch := Mn_LastProcessedRewardEpoch s;
  Mn_SettlementEpochAnchors := Mn_SettlementEpochAnchors s;
  Mn_Settlements := Mn_Settlements s; Mn_OpenSettlementsBySlot := Mn_OpenSettlementsBySlot s |}.
Definition put_SettlementClock (v : option Z) (s : MiningStore) : MiningStore := {|
  Mn_Modes := Mn_Modes s; Mn_SelectionParams := Mn_SelectionParams s;
  Mn_SettlementParams := Mn_SettlementParams s; Mn_SettlementClock := v;
  Mn_LastProcessedRewardEpoch := Mn_LastProcessedRewardEpoch s;
  Mn_SettlementEpochAnchors := Mn_SettlementEpochAnchors s;
  Mn_Settlements := Mn_Settlements s; Mn_OpenSettlementsBySlot := Mn_OpenSettlementsBySlot s |}.
Definition put_LastProcessedRewardEpoch (v : option Z) (s : MiningStore) : MiningStore := {|
  Mn_Modes := Mn_Modes s; Mn_SelectionParams := Mn_SelectionParams s;
  Mn_SettlementParams := Mn_SettlementParams s; Mn_SettlementClock := Mn_SettlementClock s;
  Mn_LastProcessedRewardEpoch := v;
  Mn_SettlementEpochAnchors := Mn_SettlementEpochAnchors s;
  Mn_Settlements := Mn_Settlements s; Mn_OpenSettlementsBySlot := Mn_OpenSettlementsBySlot s |}.
Definition put_SettlementEpochAnchors (v : gmap Z SettlementEpochAnchor) (s : MiningStore)
    : MiningStore := {|
  Mn_Modes := Mn_Modes s; Mn_SelectionParams := Mn_SelectionParams s;
  Mn_SettlementParams := Mn_SettlementParams s; Mn_SettlementClock := Mn_SettlementClock s;
  Mn_LastProcessedRewardEpoch := Mn_LastProcessedRewardEpoch s;
  Mn_SettlementEpochAnchors := v;
  Mn_Settlements := Mn_Settlements s; Mn_OpenSettlementsBySlot := Mn_OpenSettlementsBySlot s |}.
Definition put_Settlements (v : gmap (Z * Z) Settlement) (s : MiningStore) : MiningStore := {|
  Mn_Modes := Mn_Modes s; Mn_SelectionParams := Mn_SelectionParams s;
  Mn_SettlementParams := Mn_SettlementParams s; Mn_SettlementClock := Mn_SettlementClock s;
  Mn_LastProcessedRewardEpoch := Mn_LastProcessedRewardEpoch s;
  Mn_SettlementEpochAnchors := Mn_SettlementEpochAnchors s;
  Mn_Settlements := v; Mn_OpenSettlementsBySlot := Mn_OpenSettlementsBySlot s |}.
Definition put_OpenSettlementsBySlot (v : gmap (Z * Z) Z) (s : MiningStore) : MiningStore := {|
  Mn_Modes := Mn_Modes s; Mn_SelectionParams := Mn_SelectionParams s;
  Mn_SettlementParams := Mn_SettlementParams s; Mn_SettlementClock := Mn_SettlementClock s;
  Mn_LastProcessedRewardEpoch := Mn_LastProcessedRewardEpoch s;
  Mn_SettlementEpochAnchors := Mn_SettlementEpochAnchors s;
  Mn_Settlements := Mn_Settlements s; Mn_OpenSettlementsBySlot := v |}.

Definition on_modes {A} (m : M ModeFamily A) : KM A := zoom Mn_Modes put_Modes m.
Definition on_selection_params {A} (m : M SelectionFamily A) : KM A :=
  zoom Mn_SelectionParams put_SelectionParams m.
Definition on_settlement_params {A} (m : M SettlementFamily A) : KM A :=
  zoom Mn_SettlementParams put_SettlementParams m.

Definition settlementKey (slotID epoch : Z) : Z * Z := (slotID, epoch).
Definition setSettlement (key : Z * Z) (settlement : Settlement) : KM unit :=
  modify (λ s, put_Settlements (<[key := settlement]> (Mn_Settlements s)) s).
Definition setOpen (key : Z * Z) (epoch : Z) : KM unit :=
  modify (λ s, put_OpenSettlementsBySlot (<[key := epoch]> (Mn_OpenSettlementsBySlot s)) s).
Definition removeOpen (key : Z * Z) : KM unit :=
  modify (λ s, put_OpenSettlementsBySlot (delete key (Mn_OpenSettlementsBySlot s)) s).

Section keeper.
Context {SI : SdkInt}.

(** ** mode.go *)
Definition validateModeRecord (key : Z) (version : MiningDistributionModeVersion) : res unit :=
  fail_if (negb (DM_ValidFromEpoch version =? key)) MnInvalidState ;;
  DM_Validate version.

Definition GenesisDistributionMode (f : ModeFamily) : res MiningDistributionModeVersion :=
  match Versions f !! 1 with
  | None => Err MnParamsNotFound
  | Some version =>
      validateModeRecord 1 version ;;
      fail_if (negb (DM_Version version =? 1)) MnInvalidState ;;
      mret version
  end.

Definition DistributionModeForTarget (f : ModeFamily) (target : Z)
    : res MiningDistributionModeVersion :=
  '(bindingEpoch, bootstrap) ← bindingEpochForTarget target;
  if (bootstrap : bool) then GenesisDistributionMode f
  else
    _ ← GenesisDistributionMode f;
    match seekVersionKeyAtOrBefore (Versions f) bindingEpoch with
    | None => Err MnParamsNotFound
    | Some (key, version) =>
        validateModeRecord key version ;;
        fail_if (negb (DM_ValidUntilEpochExclusive version =? 0) &&
                 (bindingEpoch >=? DM_ValidUntilEpochExclusive version)) MnInvalidState ;;
        mret version
    end.

Definition openDistributionMode (f : ModeFamily) : res (Z * MiningDistributionModeVersion) :=
  match seekLatestVersion (Versions f) with
  | None => Err MnParamsNotFound
  | Some (key, version) =>
      validateModeRecord key version ;;
      fail_if (negb (DM_ValidUntilEpochExclusive version =? 0)) MnInvalidState ;;
      mret (key, version)
  end.

Definition validateDistributionModeValue (mode : MiningDistributionMode) : res unit :=
  match mode with
  | MINING_DISTRIBUTION_MODE_TRUSTED_AS_DISTRIBUTION
  | MINING_DISTRIBUTION_MODE_PROTOCOL_SELECTION => mret tt
  | _ => Err MnInvalidState
  end.

Definition scheduledDistributionModeFor (f : ModeFamily) (effectiveEpoch : Z)
    : res (option ScheduledMiningDistributionMode) :=
  entry ← scheduledEntryFor (Scheduled f) effectiveEpoch;
  match entry with
  | Some (key, scheduled, true) =>
      fail_if (negb (SDM_EffectiveEpoch scheduled =? key)) MnInvalidState ;;
      validateDistributionModeValue (SDM_Mode scheduled) ;;
      mret (Some scheduled)
  | _ => mret None
  end.

Definition modeSuccessor (nextVersion effectiveEpoch : Z)
    (scheduled : ScheduledMiningDistributionMode) : MiningDistributionModeVersion := {|
  DM_Version := nextVersion;
  DM_Mode := SDM_Mode scheduled;
  DM_ValidFromEpoch := effectiveEpoch;
  DM_ValidUntilEpochExclusive := 0 |}.

Definition closed_mode (v : MiningDistributionModeVersion) (until : Z)
    : MiningDistributionModeVersion := {|
  DM_Version := DM_Version v; DM_Mode := DM_Mode v; DM_ValidFromEpoch := DM_ValidFromEpoch v;
  DM_ValidUntilEpochExclusive := until |}.

Definition promoteScheduledDistributionMode (effectiveEpoch : Z) : M ModeFamily unit :=
  found ← reads (λ f, scheduledDistributionModeFor f effectiveEpoch);
  match found with
  | None => mret tt
  | Some scheduled =>
      '(predecessorKey, predecessor) ← reads openDistributionMode;
      fail_if (effectiveEpoch <=? DM_ValidFromEpoch predecessor) MnInvalidState ;;
      nextVersion ← lift (nextVersionNumber (DM_Version predecessor));
      exists_ ← gets (λ f, bool_decide (is_Some (Versions f !! effectiveEpoch)));
      fail_if exists_ MnInvalidState ;;
      let successor := modeSuccessor nextVersion effectiveEpoch scheduled in
      lift (DM_Validate successor) ;;
      let predecessor := closed_mode predecessor (DM_ValidFromEpoch successor) in
      lift (validateModeRecord predecessorKey predecessor) ;;
      setVersion predecessorKey predecessor ;;
      setVersion (DM_ValidFromEpoch successor) successor ;;
      indexVersion (DM_Version successor) (DM_ValidFromEpoch successor) ;;
      removeScheduled effectiveEpoch
  end.

(** ** settlementparams.go *)
Definition validateSettlementParamsRecord (key : Z) (version : SettlementParamsVersion) : res unit :=
  fail_if (negb (STP_EffectiveEpoch version =? key)) MnInvalidState ;;
  STP_Validate version.

Definition GenesisSettlementParams (f : SettlementFamily) : res SettlementParamsVersion :=
  match Versions f !! 1 with
  | None => Err MnParamsNotFound
  | Some version =>
      validateSettlementParamsRecord 1 version ;;
      fail_if (negb (STP_Version version =? 1)) MnInvalidState ;;
      mret version
  end.

Definition validateSelectionParamsRecord (key : Z) (version : SelectionParamsVersion) : res unit :=
  fail_if (negb (SLP_EffectiveEpoch version =? key)) MnInvalidState ;;
  SLP_Validate version.

Definition GenesisSelectionParams (f : SelectionFamily) : res SelectionParamsVersion :=
  match Versions f !! 1 with
  | None => Err MnParamsNotFound
  | Some version =>
      validateSelectionParamsRecord 1 version ;;
      fail_if (negb (SLP_Version version =? 1)) MnInvalidState ;;
      mret version
  end.

Definition SettlementParamsForTarget (f : SettlementFamily) (target : Z)
    : res SettlementParamsVersion :=
  '(bindingEpoch, bootstrap) ← bindingEpochForTarget target;
  if (bootstrap : bool) then GenesisSettlementParams f
  else
    _ ← GenesisSettlementParams f;
    match seekVersionKeyAtOrBefore (Versions f) bindingEpoch with
    | None => Err MnParamsNotFound
    | Some (key, version) =>
        validateSettlementParamsRecord key version ;;
        mret version
    end.

Definition scheduledSettlementParamsFor (f : SettlementFamily) (effectiveEpoch : Z)
    : res (option ScheduledSettlementParams) :=
  entry ← scheduledEntryFor (Scheduled f) effectiveEpoch;
  match entry with
  | Some (key, scheduled, true) =>
      fail_if (negb (SSTP_EffectiveEpoch scheduled =? key)) MnInvalidState ;;
      mret (Some scheduled)
  | _ => mret None
  end.

Definition settlementSuccessor (nextVersion effectiveEpoch : Z)
    (scheduled : ScheduledSettlementParams) : SettlementParamsVersion := {|
  STP_Version := nextVersion;
  STP_EffectiveEpoch := effectiveEpoch;
  STP_SettlementWindowEpochs := SSTP_SettlementWindowEpochs scheduled;
  STP_MaxRecipientsPerChunk := SSTP_MaxRecipientsPerChunk scheduled;
  STP_MaxChunksPerSettlement := SSTP_MaxChunksPerSettlement scheduled;
  STP_MinRecipientPayoutAmount := SSTP_MinRecipientPayoutAmount scheduled |}.

Definition promoteScheduledSettlementParams (effectiveEpoch : Z) : M SettlementFamily unit :=
  found ← reads (λ f, scheduledSettlementParamsFor f effectiveEpoch);
  match found with
  | None => mret tt
  | Some scheduled =>
      latestFound ← gets (λ f, seekLatestVersion (Versions f));
      match latestFound with
      | None => mthrow MnParamsNotFound
      | Some (latestKey, latest) =>
          lift (validateSettlementParamsRecord latestKey latest) ;;
          fail_if (effectiveEpoch <=? STP_EffectiveEpoch latest) MnInvalidState ;;
          nextVersion ← lift (nextVersionNumber (STP_Version latest));
          let successor := settlementSuccessor nextVersion effectiveEpoch scheduled in
          lift (STP_Validate successor) ;;
          setVersion (STP_EffectiveEpoch successor) successor ;;
          indexVersion (STP_Version successor) (STP_EffectiveEpoch successor) ;;
          removeScheduled effectiveEpoch
      end
  end.

Definition selectionSuccessor (nextVersion effectiveEpoch : Z)
    (scheduled : ScheduledSelectionParams) : SelectionParamsVersion := {|
  SLP_Version := nextVersion;
  SLP_EffectiveEpoch := effectiveEpoch;
  SLP_MaxSelectionRateBps := SSLP_MaxSelectionRateBps scheduled;
  SLP_MaxSelectedParticipantsPerSelection := SSLP_MaxSelectedParticipantsPerSelection scheduled;
  SLP_MaxCandidatesPerSelection := SSLP_MaxCandidatesPerSelection scheduled;
  SLP_BeaconStartOffsetBlocks := SSLP_BeaconStartOffsetBlocks scheduled;
  SLP_BeaconWindowBlocks := SSLP_BeaconWindowBlocks scheduled;
  SLP_MinExternalBeaconBlocks := SSLP_MinExternalBeaconBlocks scheduled;
  SLP_MinDistinctExternalProposers := SSLP_MinDistinctExternalProposers scheduled |}.

Definition promoteScheduledSelectionParams (effectiveEpoch : Z) : M SelectionFamily unit :=
  entry ← reads (λ f, scheduledEntryFor (Scheduled f) effectiveEpoch);
  match entry with
  | Some (key, scheduled, true) =>
      fail_if (negb (SSLP_EffectiveEpoch scheduled =? key)) MnInvalidState ;;
      latestFound ← gets (λ f, seekLatestVersion (Versions f));
      match latestFound with
      | None => mthrow MnParamsNotFound
      | Some (latestKey, latest) =>
          lift (validateSelectionParamsRecord latestKey latest) ;;
          fail_if (effectiveEpoch <=? SLP_EffectiveEpoch latest) MnInvalidState ;;
          nextVersion ← lift (nextVersionNumber (SLP_Version latest));
          let successor := selectionSuccessor nextVersion effectiveEpoch scheduled in
          lift (SLP_Validate successor) ;;
          setVersion (SLP_EffectiveEpoch successor) successor ;;
          indexVersion (SLP_Version successor) (SLP_EffectiveEpoch successor) ;;
          removeScheduled effectiveEpoch
      end
  | _ => mret tt
  end.

(** ** materialize.go: reads and single writes *)
Definition GetSettlementClock (s : MiningStore) : res Z :=
  wrap MnInvalidState (coll_get (Mn_SettlementClock s)).
Definition GetLastProcessedRewardEpoch (s : MiningStore) : res Z :=
  wrap MnInvalidState (coll_get (Mn_LastProcessedRewardEpoch s)).

Definition validateSettlementRecord (key : Z * Z) (settlement : Settlement) : res unit :=
  fail_if (negb (Stl_SlotId settlement =? fst key) || negb (Stl_Epoch settlement =? snd key))
    MnInvalidState ;;
  Stl_Validate settlement.

Definition GetSettlement (s : MiningStore) (slotID epoch : Z) : res (option Settlement) :=
  fail_if ((slotID =? 0) || (epoch =? 0)) MnInvalidState ;;
  let key := settlementKey slotID epoch in
  match Mn_Settlements s !! key with
  | None => mret None
  | Some settlement =>
      validateSettlementRecord key settlement ;;
      mret (Some settlement)
  end.

Definition GetSettlementEpochAnchor (s : MiningStore) (epoch : Z)
    : res (option SettlementEpochAnchor) :=
  fail_if (epoch =? 0) MnInvalidState ;;
  match Mn_SettlementEpochAnchors s !! epoch with
  | None => mret None
  | Some anchor =>
      fail_if (negb (SEA_Epoch anchor =? epoch)) MnInvalidState ;;
      SEA_Validate anchor ;;
      mret (Some anchor)
  end.

Definition requireEpochAnchor (s : MiningStore) (epoch : Z) : res SettlementEpochAnchor :=
  found ← GetSettlementEpochAnchor s epoch;
  match found with
  | None => Err MnInvalidState
  | Some anchor => mret anchor
  end.

Definition resolveSettlementMode (mode : MiningDistributionModeVersion) : res SettlementMode :=
  match DM_Mode mode with
  | MINING_DISTRIBUTION_MODE_TRUSTED_AS_DISTRIBUTION => mret SETTLEMENT_MODE_TRUSTED_AS
  | MINING_DISTRIBUTION_MODE_PROTOCOL_SELECTION => Err MnUnsupportedFeature
  | _ => Err MnInvalidState
  end.

Definition createSettlement (settlement : Settlement) : KM unit :=
  lift (Stl_Validate settlement) ;;
  let key := settlementKey (Stl_SlotId settlement) (Stl_Epoch settlement) in
  exists_ ← gets (λ s, bool_decide (is_Some (Mn_Settlements s !! key)));
  fail_if exists_ MnInvalidState ;;
  setSettlement key settlement ;;
  setOpen key (Stl_Epoch settlement).

Definition createEpochAnchor (anchor : SettlementEpochAnchor) : KM unit :=
  lift (SEA_Validate anchor) ;;
  exists_ ← gets (λ s, bool_decide (is_Some (Mn_SettlementEpochAnchors s !! SEA_Epoch anchor)));
  fail_if exists_ MnInvalidState ;;
  modify (λ s, put_SettlementEpochAnchors
    (<[SEA_Epoch anchor := anchor]> (Mn_SettlementEpochAnchors s)) s).

(** ** materialize.go and endblock.go: the end of a block *)
Context {RK : RewardsKeeper}.

Definition advanceSettlementClock (rw : RewardsStore) : KM unit :=
  enabled ← lift (wrap MnInvalidState (Rk_SettlementReleaseEnabled rw));
  if negb enabled then mret tt
  else
    clock ← reads GetSettlementClock;
    next ← lift (wrap MnInvalidState (AddUint64 clock 1));
    modify (put_SettlementClock (Some next)).

Definition finalizedEpochExists (rw : RewardsStore) (epoch : Z) : res bool :=
  found ← wrap MnInvalidState (Rk_GetFinalizedEpoch rw epoch);
  match found with
  | None => mret false
  | Some finalized =>
      fail_if (negb (EpochNumber finalized =? epoch)) MnInvalidState ;;
      mret true
  end.

Definition requireNoFinalizedSuccessor (rw : RewardsStore) (epoch : Z) : res unit :=
  successor ← wrap MnInvalidState (AddUint64 epoch 1);
  found ← finalizedEpochExists rw successor;
  fail_if found MnInvalidState.

(** The settlements of a finalized epoch; the number created is returned. *)
Definition createSettlements (target : Z) (entitlements : list SlotEntitlement) : KM Z :=
  match entitlements with
  | [] => mret 0
  | _ =>
      mode ← reads (λ s, DistributionModeForTarget (Mn_Modes s) target);
      params ← reads (λ s, SettlementParamsForTarget (Mn_SettlementParams s) target);
      settlementMode ← lift (resolveSettlementMode mode);
      fold_m (λ created entitlement,
        fail_if ((Ent_SlotId entitlement =? 0) || negb (Ent_Epoch entitlement =? target))
          MnInvalidState ;;
        createSettlement {|
          Stl_SlotId := Ent_SlotId entitlement;
          Stl_Epoch := target;
          Stl_DistributionModeVersion := DM_Version mode;
          Stl_SettlementMode := settlementMode;
          Stl_SettlementParamsVersion := STP_Version params;
          Stl_NextChunkIndex := 0;
          Stl_Finalized := false;
          Stl_FinalizedHeight := 0;
          Stl_FinalizationReason := SETTLEMENT_FINALIZATION_REASON_UNSPECIFIED |} ;;
        mret (created + 1)) entitlements 0
  end.

Definition materializeFinalizedEpoch (rw : RewardsStore) : KM Z :=
  cursor ← reads GetLastProcessedRewardEpoch;
  target ← lift (wrap MnInvalidState (AddUint64 cursor 1));
  found ← lift (wrap MnInvalidState (Rk_GetFinalizedEpoch rw target));
  match found with
  | None =>
      lift (requireNoFinalizedSuccessor rw target) ;;
      mret 0
  | Some finalized =>
      fail_if (negb (EpochNumber finalized =? target)) MnInvalidState ;;
      entitlements ← lift (wrap MnInvalidState (Rk_IterateEntitlementsForEpoch rw target));
      created ← createSettlements target entitlements;
      (if 0 <? created then
         clock ← reads GetSettlementClock;
         createEpochAnchor {| SEA_Epoch := target; SEA_CreatedSettlementClock := clock |}
       else mret tt) ;;
      modify (put_LastProcessedRewardEpoch (Some target)) ;;
      lift (requireNoFinalizedSuccessor rw target) ;;
      mret target
  end.

Definition miningEndBlock (rw : RewardsStore) : KM unit :=
  advanceSettlementClock rw ;;
  closed ← materializeFinalizedEpoch rw;
  if closed =? 0 then mret tt
  else
    effectiveEpoch ← lift (wrap MnInvalidState (AddUint64 closed 1));
    on_modes (promoteScheduledDistributionMode effectiveEpoch) ;;
    on_selection_params (promoteScheduledSelectionParams effectiveEpoch) ;;
    on_settlement_params (promoteScheduledSettlementParams effectiveEpoch).

Definition MiningEndBlock (rw : RewardsStore) : KM unit := cached (miningEndBlock rw).

(** ** settlementparams.go: deadlines and ceilings *)
Definition SettlementWindowBlocks (rw : RewardsStore) (target : Z)
    (params : SettlementParamsVersion) : res Z :=
  epochLength ← wrap MnInvalidState (Rk_EpochLengthForEpoch rw target);
  wrap MnInvalidState (MulUint64 (STP_SettlementWindowEpochs params) epochLength).

Definition DeadlineClock (rw : RewardsStore) (settlement : Settlement)
    (anchor : SettlementEpochAnchor) (params : SettlementParamsVersion) : res Z :=
  if decide (Stl_SettlementMode settlement = SETTLEMENT_MODE_OPERATOR_ONLY)
  then mret (SEA_CreatedSettlementClock anchor)
  else
    window ← SettlementWindowBlocks rw (Stl_Epoch settlement) params;
    wrap MnInvalidState (AddUint64 (SEA_CreatedSettlementClock anchor) window).

Definition settlementDeadlineFromAnchor (rw : RewardsStore) (s : MiningStore)
    (settlement : Settlement) (anchor : SettlementEpochAnchor) : res Z :=
  params ← SettlementParamsForTarget (Mn_SettlementParams s) (Stl_Epoch settlement);
  fail_if (negb (STP_Version params =? Stl_SettlementParamsVersion settlement)) MnInvalidState ;;
  DeadlineClock rw settlement anchor params.

Definition SettlementDeadlineClock (rw : RewardsStore) (s : MiningStore) (settlement : Settlement)
    : res Z :=
  anchor ← requireEpochAnchor s (Stl_Epoch settlement);
  settlementDeadlineFromAnchor rw s settlement anchor.

Definition ParticipantDistributionCeiling (settlement : Settlement) (entitlement : SlotEntitlement)
    : res Z :=
  match Stl_SettlementMode settlement with
  | SETTLEMENT_MODE_TRUSTED_AS | SETTLEMENT_MODE_SELECTED_PARTICIPANTS =>
      wrap MnInvalidState (Ent_Amount entitlement)
  | SETTLEMENT_MODE_OPERATOR_ONLY => mret 0
  | _ => Err MnInvalidState
  end.
End keeper.
