(* ===== verification/MiningSettlement.v ===== *)
(** * x/mining/keeper: participant chunks and finalization

    [chunk.go], [finalize.go] and [msg_server.go].  A settlement is an obligation
    to release one entitlement: its signer pays participants in chunks while the
    window is open, and a finalization pays the remainder to the operator and
    closes it.  The state is the module's store beside the rewards store; every
    value moves through the two release calls of [RewardsKeeper]. *)
From S2P Require Import Prelude Checked SdkMath Bounds EconomicAddress RewardsTypes Collections.
From S2P Require Import CoreSlotTypes MiningTypes MiningHistory MiningKeeper.
From Stdlib Require Import Ascii String.
Local Open Scope Z_scope.

Record MiningState {RK : RewardsKeeper} := {
  Ms_Mining : MiningStore;
  Ms_Rewards : RewardsStore
}.

Section settlement.
Context {SI : SdkInt} {BE : Bech32} {CK : CoreSlotKeeper} {RK : RewardsKeeper}.
Context (economicAddresses : Validator).
Abbreviation SM := (M MiningState).

Definition put_Mining (v : MiningStore) (s : MiningState) : MiningState :=
  {| Ms_Mining := v; Ms_Rewards := Ms_Rewards s |}.
Definition put_Rewards (v : RewardsStore) (s : MiningState) : MiningState :=
  {| Ms_Mining := Ms_Mining s; Ms_Rewards := v |}.
Definition on_mining {A} (m : KM A) : SM A := zoom Ms_Mining put_Mining m.
Definition on_rewards {A} (m : M RewardsStore A) : SM A := zoom Ms_Rewards put_Rewards m.

(** ** chunk.go *)
Record admittedChunk := {
  ac_settlement : Settlement;
  ac_payouts : list EntitlementPayout;
  ac_total : Z
}.

Definition requireParticipantChunksPermitted (settlement : Settlement) : res unit :=
  match Stl_SettlementMode settlement with
  | SETTLEMENT_MODE_TRUSTED_AS | SETTLEMENT_MODE_SELECTED_PARTICIPANTS => mret tt
  | SETTLEMENT_MODE_OPERATOR_ONLY => Err MnUnsupportedFeature
  | _ => Err MnInvalidState
  end.

Definition requireSettlementSigner (cs : CoreSlotStore) (settlement : Settlement) (signer : string)
    : res unit :=
  slot ← wrap MnInvalidState (GetSlot cs (Stl_SlotId settlement));
  expected ← wrap MnInvalidState (Validate economicAddresses (SettlementAddress slot));
  supplied ← wrap MnInvalidAddress (Validate economicAddresses signer);
  fail_if (bool_decide (supplied ≠ expected)) MnInvalidAddress.

Definition requireAnchorHasElapsed (anchor : SettlementEpochAnchor) (clock : Z) : res unit :=
  fail_if (SEA_CreatedSettlementClock anchor >? clock) MnInvalidState.

Definition requireBeforeDeadline (s : MiningState) (settlement : Settlement)
    (params : SettlementParamsVersion) : res unit :=
  anchor ← requireEpochAnchor (Ms_Mining s) (Stl_Epoch settlement);
  clock ← GetSettlementClock (Ms_Mining s);
  requireAnchorHasElapsed anchor clock ;;
  deadline ← DeadlineClock (Ms_Rewards s) settlement anchor params;
  fail_if (clock >=? deadline) MnUnsupportedFeature.

Definition requireChunkPosition (settlement : Settlement) (params : SettlementParamsVersion)
    (chunkIndex : Z) : res unit :=
  fail_if (negb (chunkIndex =? Stl_NextChunkIndex settlement)) MnInvalidState ;;
  fail_if (Stl_NextChunkIndex settlement >=? STP_MaxChunksPerSettlement params) MnInvalidState ;;
  fail_if (Stl_NextChunkIndex settlement >=? HardMaxChunksPerSettlement) MnInvalidState.

Definition requirePayoutFloor (params : SettlementParamsVersion) : res Z :=
  configured ← Mining_ParseCanonicalAmount (STP_MinRecipientPayoutAmount params);
  let hard := HardMinSettlementPayoutAmount in
  mret (if configured <? hard then hard else configured).

(** One line of [admitPayoutSet]; the accumulator is the payouts, the total and
    the recipient of the line before. *)
Definition admit_line (floor : Z)
    (acc : list EntitlementPayout * Z * option AccAddress) (line : option SettlementChunkPayout)
    : res (list EntitlementPayout * Z * option AccAddress) :=
  let '(payouts, total, previous) := acc in
  match line with
  | None => Err MnInvalidState
  | Some line =>
      recipient ← wrap MnInvalidAddress (Validate economicAddresses (SCP_Recipient line));
      fail_if match previous with
              | Some previous => match String.compare previous recipient with Lt => false | _ => true end
              | None => false
              end MnInvalidState ;;
      amount ← Mining_ParseCanonicalAmount (SCP_Amount line);
      fail_if (amount <? floor) MnInvalidState ;;
      total ← or_err MnInvalidState (Int_SafeAdd total amount);
      mret (payouts ++ [{| Payout_Recipient := SCP_Recipient line; Payout_Amount := SCP_Amount line |}],
            total, Some recipient)
  end.

Definition admitPayoutSet (params : SettlementParamsVersion)
    (lines : list (option SettlementChunkPayout)) : res (list EntitlementPayout * Z) :=
  fail_if (Z.of_nat (List.length lines) >? STP_MaxRecipientsPerChunk params) MnInvalidState ;;
  floor ← requirePayoutFloor params;
  '(payouts, total, _) ← fold_m (admit_line floor) lines ([], 0, None);
  fail_if (negb (total >? 0)) MnInvalidState ;;
  mret (payouts, total).

Definition requireEntitlementFor (rw : RewardsStore) (settlement : Settlement)
    : res SlotEntitlement :=
  found ← wrap MnInvalidState
    (Rk_GetSlotEntitlement rw (Stl_SlotId settlement) (Stl_Epoch settlement));
  match found with
  | None => Err MnInvalidState
  | Some entitlement =>
      fail_if (negb (Ent_SlotId entitlement =? Stl_SlotId settlement) ||
               negb (Ent_Epoch entitlement =? Stl_Epoch settlement)) MnInvalidState ;;
      mret entitlement
  end.

Definition requireWithinParticipantCeiling (rw : RewardsStore) (settlement : Settlement)
    (requested : Z) : res unit :=
  entitlement ← requireEntitlementFor rw settlement;
  ceiling ← ParticipantDistributionCeiling settlement entitlement;
  released ← wrap MnInvalidState (Ent_Released entitlement);
  next ← or_err MnInvalidState (Int_SafeAdd released requested);
  fail_if (next >? ceiling) MnInvalidState.

Definition admitChunk (cs : CoreSlotStore) (msg : MsgSubmitSettlementChunk) (s : MiningState)
    : res admittedChunk :=
  found ← GetSettlement (Ms_Mining s) (MSC_SlotId msg) (MSC_Epoch msg);
  match found with
  | None => Err MnSettlementNotFound
  | Some settlement =>
      fail_if (Stl_Finalized settlement) MnInvalidState ;;
      requireParticipantChunksPermitted settlement ;;
      requireSettlementSigner cs settlement (MSC_SettlementAddress msg) ;;
      params ← SettlementParamsForTarget (Mn_SettlementParams (Ms_Mining s)) (Stl_Epoch settlement);
      fail_if (negb (STP_Version params =? Stl_SettlementParamsVersion settlement))
        MnInvalidState ;;
      requireBeforeDeadline s settlement params ;;
      requireChunkPosition settlement params (MSC_ChunkIndex msg) ;;
      '(payouts, total) ← admitPayoutSet params (MSC_Payouts msg);
      requireWithinParticipantCeiling (Ms_Rewards s) settlement total ;;
      mret {| ac_settlement := settlement; ac_payouts := payouts; ac_total := total |}
  end.

Definition with_next_chunk (settlement : Settlement) (next : Z) : Settlement := {|
  Stl_SlotId := Stl_SlotId settlement; Stl_Epoch := Stl_Epoch settlement;
  Stl_DistributionModeVersion := Stl_DistributionModeVersion settlement;
  Stl_SettlementMode := Stl_SettlementMode settlement;
  Stl_SettlementParamsVersion := Stl_SettlementParamsVersion settlement;
  Stl_NextChunkIndex := next;
  Stl_Finalized := Stl_Finalized settlement;
  Stl_FinalizedHeight := Stl_FinalizedHeight settlement;
  Stl_FinalizationReason := Stl_FinalizationReason settlement |}.

Definition requireReleaseEnabled (s : MiningState) : res unit :=
  releaseEnabled ← wrap MnInvalidState (Rk_SettlementReleaseEnabled (Ms_Rewards s));
  fail_if (negb releaseEnabled) MnUnsupportedFeature.

Definition submitSettlementChunk (cs : CoreSlotStore) (msg : option MsgSubmitSettlementChunk)
    : SM Z :=
  match msg with
  | None => mthrow MnInvalidState
  | Some msg =>
      lift (MSC_Validate msg) ;;
      reads requireReleaseEnabled ;;
      admitted ← reads (admitChunk cs msg);
      on_rewards (Rk_PayEntitlement (MSC_SlotId msg) (MSC_Epoch msg) (ac_payouts admitted)) ;;
      next ← lift (wrap MnInvalidState
        (AddUint64 (Stl_NextChunkIndex (ac_settlement admitted)) 1));
      let updated := with_next_chunk (ac_settlement admitted) next in
      lift (Stl_Validate updated) ;;
      on_mining (setSettlement (settlementKey (Stl_SlotId updated) (Stl_Epoch updated)) updated) ;;
      mret next
  end.

Definition SubmitSettlementChunk (cs : CoreSlotStore) (msg : option MsgSubmitSettlementChunk)
    : SM Z := cached (submitSettlementChunk cs msg).

(** ** finalize.go *)
Record finalizedSettlement := {
  fs_reason : SettlementFinalizationReason;
  fs_remainder : Z
}.

Definition requireValidSigner (signer : string) : res unit :=
  _ ← wrap MnInvalidAddress (ParseAccountAddress economicAddresses signer);
  mret tt.

Definition finalizationDeadline (s : MiningState) (settlement : Settlement)
    (anchor : SettlementEpochAnchor) : res (Z * Z) :=
  params ← SettlementParamsForTarget (Mn_SettlementParams (Ms_Mining s)) (Stl_Epoch settlement);
  fail_if (negb (STP_Version params =? Stl_SettlementParamsVersion settlement)) MnInvalidState ;;
  clock ← GetSettlementClock (Ms_Mining s);
  requireAnchorHasElapsed anchor clock ;;
  deadline ← DeadlineClock (Ms_Rewards s) settlement anchor params;
  mret (deadline, clock).

(** The arms that have a participant window. *)
Definition resolveWindowArm (cs : CoreSlotStore) (s : MiningState) (settlement : Settlement)
    (anchor : SettlementEpochAnchor) (signer : string) : res SettlementFinalizationReason :=
  '(deadline, clock) ← finalizationDeadline s settlement anchor;
  if clock >=? deadline then
    requireValidSigner signer ;;
    mret SETTLEMENT_FINALIZATION_REASON_PERMISSIONLESS_AFTER_DEADLINE
  else
    requireSettlementSigner cs settlement signer ;;
    mret SETTLEMENT_FINALIZATION_REASON_AUTHORIZED_EARLY.

Definition resolveFinalizationArm (cs : CoreSlotStore) (settlement : Settlement) (signer : string)
    (s : MiningState) : res SettlementFinalizationReason :=
  anchor ← requireEpochAnchor (Ms_Mining s) (Stl_Epoch settlement);
  match Stl_SettlementMode settlement with
  | SETTLEMENT_MODE_OPERATOR_ONLY =>
      requireValidSigner signer ;;
      mret SETTLEMENT_FINALIZATION_REASON_PERMISSIONLESS_OPERATOR_ONLY
  | SETTLEMENT_MODE_TRUSTED_AS | SETTLEMENT_MODE_SELECTED_PARTICIPANTS =>
      resolveWindowArm cs s settlement anchor signer
  | _ => Err MnInvalidState
  end.

Definition remainingEntitlement (entitlement : SlotEntitlement) : res Z :=
  amount ← wrap MnInvalidState (Ent_Amount entitlement);
  released ← wrap MnInvalidState (Ent_Released entitlement);
  fail_if (released >? amount) MnInvalidState ;;
  or_err MnInvalidState (Int_SafeSub amount released).

Definition requireEntitlementFullyReleased (settlement : Settlement) (s : MiningState) : res unit :=
  entitlement ← requireEntitlementFor (Ms_Rewards s) settlement;
  amount ← wrap MnInvalidState (Ent_Amount entitlement);
  released ← wrap MnInvalidState (Ent_Released entitlement);
  fail_if (negb (released =? amount)) MnInvalidState.

Definition releaseOperatorRemainder (settlement : Settlement) : SM Z :=
  entitlement ← reads (λ s, requireEntitlementFor (Ms_Rewards s) settlement);
  remainder ← lift (remainingEntitlement entitlement);
  (if remainder >? 0 then
     on_rewards (Rk_PayEntitlementRemainderToOperator (Stl_SlotId settlement) (Stl_Epoch settlement))
   else mret tt) ;;
  reads (requireEntitlementFullyReleased settlement) ;;
  mret remainder.

Definition with_finalization (settlement : Settlement) (height : Z)
    (reason : SettlementFinalizationReason) : Settlement := {|
  Stl_SlotId := Stl_SlotId settlement; Stl_Epoch := Stl_Epoch settlement;
  Stl_DistributionModeVersion := Stl_DistributionModeVersion settlement;
  Stl_SettlementMode := Stl_SettlementMode settlement;
  Stl_SettlementParamsVersion := Stl_SettlementParamsVersion settlement;
  Stl_NextChunkIndex := Stl_NextChunkIndex settlement;
  Stl_Finalized := true;
  Stl_FinalizedHeight := height;
  Stl_FinalizationReason := reason |}.

Definition writeFinalizedSettlement (height : Z) (settlement : Settlement)
    (reason : SettlementFinalizationReason) : KM unit :=
  fail_if (height <=? 0) MnInvalidState ;;
  let finalized := with_finalization settlement (u64 height) reason in
  lift (Stl_Validate finalized) ;;
  let key := settlementKey (Stl_SlotId finalized) (Stl_Epoch finalized) in
  setSettlement key finalized ;;
  removeOpen key.

Definition finalizeSettlement (cs : CoreSlotStore) (height : Z)
    (msg : option MsgFinalizeSettlement) : SM finalizedSettlement :=
  match msg with
  | None => mthrow MnInvalidState
  | Some msg =>
      lift (MFS_Validate msg) ;;
      reads requireReleaseEnabled ;;
      found ← reads (λ s, GetSettlement (Ms_Mining s) (MFS_SlotId msg) (MFS_Epoch msg));
      match found with
      | None => mthrow MnSettlementNotFound
      | Some settlement =>
          fail_if (Stl_Finalized settlement) MnInvalidState ;;
          reason ← reads (resolveFinalizationArm cs settlement (MFS_Signer msg));
          remainder ← releaseOperatorRemainder settlement;
          on_mining (writeFinalizedSettlement height settlement reason) ;;
          mret {| fs_reason := reason; fs_remainder := remainder |}
      end
  end.

Definition FinalizeSettlement (cs : CoreSlotStore) (height : Z)
    (msg : option MsgFinalizeSettlement) : SM finalizedSettlement :=
  cached (finalizeSettlement cs height msg).

(** ** msg_server.go *)
Definition Msg_SubmitSettlementChunk (cs : CoreSlotStore) (msg : option MsgSubmitSettlementChunk)
    : SM MsgSubmitSettlementChunkResponse :=
  next ← SubmitSettlementChunk cs msg;
  mret {| MSCR_NextChunkIndex := next |}.

Definition Msg_FinalizeSettlement (cs : CoreSlotStore) (height : Z)
    (msg : option MsgFinalizeSettlement) : SM MsgFinalizeSettlementResponse :=
  outcome ← FinalizeSettlement cs height msg;
  mret {| MFSR_FinalizationReason := fs_reason outcome;
          MFSR_ReleasedRemainder := Int_String (fs_remainder outcome) |}.
End settlement.
