(* ===== verification/MiningHistories.v ===== *)
(** * x/mining/keeper: the three histories, proved

    What a well-formed family is ([family_wf], [modes_wf]), that promoting a due
    change keeps it and always succeeds, that a target epoch resolves to exactly
    one version, and that a promotion never touches what a bound target resolves
    to.  [c] is the last closed epoch throughout: the next promotion is for
    [c + 2]. *)
From S2P Require Import Prelude Checked SdkMath Bounds RewardsTypes Collections.
From S2P Require Import MiningTypes MiningHistory MiningKeeper.
Local Open Scope Z_scope.

(** ** A family *)
Section family.
Context {V S : Type} (versionOf : V → Z) (validate : Z → V → res unit).
Context (successor : Z → Z → S → V) (effective : S → Z).

(** A pending change becomes a valid version whatever its number. *)
Definition admissible (k : Z) (x : S) : Prop :=
  effective x = k ∧ ∀ n, 0 < n → validate k (successor n k x) = Ok tt ∧
    versionOf (successor n k x) = n.

Record family_wf (c : Z) (f : Family V S) : Prop := {
  fw_history : history_valid versionOf validate (Versions f);
  fw_index : index_faithful versionOf (Versions f) (VersionIndex f);
  fw_origin : ∃ r, Versions f !! 1 = Some r ∧ versionOf r = 1;
  fw_bound : ∀ k r, Versions f !! k = Some r → 1 ≤ k ≤ c + 1 ∧ versionOf r ≤ k;
  fw_pending : pending_from (c + 2) admissible (Scheduled f)
}.

Lemma fw_latest c f : family_wf c f →
  ∃ k r, seekLatestVersion (Versions f) = Some (k, r) ∧ Versions f !! k = Some r ∧
    1 ≤ k ≤ c + 1 ∧ 0 < versionOf r ≤ k ∧ validate k r = Ok tt.
Proof.
  intros Hf. destruct (fw_origin _ _ Hf) as (r1 & H1 & _).
  destruct (seekLatestVersion (Versions f)) as [[k r]|] eqn:E.
  - exists k, r. pose proof E as [Hk _]%seek_max_Some.
    pose proof (fw_bound _ _ Hf _ _ Hk). pose proof (hv_positive _ _ _ (fw_history _ _ Hf) _ _ Hk).
    split_and!; try done; try lia. by apply (hv_valid _ _ _ (fw_history _ _ Hf)).
  - apply seek_max_None in E. rewrite E, lookup_empty in H1. done.
Qed.

(** The family with one more version. *)
Definition appended (k : Z) (r : V) (f : Family V S) : Family V S := {|
  Versions := <[k := r]> (Versions f);
  Scheduled := delete k (Scheduled f);
  VersionIndex := <[versionOf r := k]> (VersionIndex f) |}.

Lemma appended_run k r (f : Family V S) :
  versionOf r ≠ 0 → VersionIndex f !! versionOf r = None →
  (setVersion k r ;; indexVersion (versionOf r) k ;; removeScheduled k) f =
    (appended k r f, Ok tt).
Proof.
  intros Hv Hi. unfold setVersion. rewrite (M_bind_run _ _ f (put_Versions (<[k := r]> (Versions f)) f) tt) by done.
  unfold indexVersion. set (f1 := put_Versions _ f).
  rewrite (M_bind_run _ _ f1 (put_VersionIndex (<[versionOf r := k]> (VersionIndex f1)) f1) tt); [done|].
  apply zoom_run. unfold setVersionIndexEntry. destruct (Z.eqb_spec (versionOf r) 0); [done|].
  rewrite (M_bind_run _ _ (VersionIndex f1) (VersionIndex f1) tt) by done.
  rewrite (M_bind_run _ _ _ (VersionIndex f1) None) by (unfold gets; by rewrite <- Hi).
  done.
Qed.

Lemma appended_wf c f k r x :
  family_wf c f → seekLatestVersion (Versions f) = Some (k, r) → 0 ≤ c →
  Scheduled f = {[c + 2 := x]} → admissible (c + 2) x →
  family_wf (c + 1) (appended (c + 2) (successor (versionOf r + 1) (c + 2) x) f).
Proof.
  intros Hf Hl Hc Hs [_ Hadm]. destruct (fw_latest c f Hf) as (k' & r' & Hl' & Hk & Hb & Hr & _).
  rewrite Hl in Hl'. injection Hl' as <- <-.
  destruct (Hadm (versionOf r + 1) ltac:(lia)) as [Hval Hver].
  split; simpl.
  - eapply append_valid; [by apply (fw_history _ _ Hf) | exact Hl | lia | lia | done].
  - eapply append_faithful; [by apply (fw_history _ _ Hf) | by apply (fw_index _ _ Hf) | exact Hl | lia | lia].
  - destruct (fw_origin _ _ Hf) as (r1 & H1 & Hv1). exists r1.
    rewrite lookup_insert_ne by lia. done.
  - intros j y [[<- <-]|[_ Hj]]%lookup_insert_Some; [lia|].
    pose proof (fw_bound _ _ Hf _ _ Hj). lia.
  - rewrite Hs, delete_singleton_eq. by left.
Qed.

Lemma family_wf_keep c f : family_wf c f → (∀ x, Scheduled f ≠ {[c + 2 := x]}) → family_wf (c + 1) f.
Proof.
  intros Hf Hne. destruct Hf as [H1 H2 H3 H4 H5]. split; try done.
  - intros k r Hk. specialize (H4 _ _ Hk). lia.
  - replace (c + 1 + 2) with (c + 2 + 1) by lia. by apply pending_from_S.
Qed.

(** The family after the promotion for [c + 2]: a change scheduled for that epoch is
    the next version, under the next number, and is scheduled no longer; without one
    nothing has changed. *)
Definition promotes (c : Z) (f f' : Family V S) : Prop :=
  match Scheduled f !! (c + 2) with
  | None => f' = f
  | Some x => ∃ k r, seekLatestVersion (Versions f) = Some (k, r) ∧
      f' = appended (c + 2) (successor (versionOf r + 1) (c + 2) x) f
  end.

Lemma not_due c f : family_wf c f → (∀ x, Scheduled f ≠ {[c + 2 := x]}) → Scheduled f !! (c + 2) = None.
Proof.
  intros Hf Hne. destruct (fw_pending _ _ Hf) as [->|(k & x & Hs & _)]; [done|]. rewrite Hs.
  apply lookup_singleton_ne. intros ->. by apply (Hne x).
Qed.

(** What the history holds at or before an epoch, after an append beyond it. *)
Lemma appended_seek k r f e :
  e < k → seekVersionKeyAtOrBefore (Versions (appended k r f)) e =
    seekVersionKeyAtOrBefore (Versions f) e.
Proof. intros. by apply seek_le_insert_gt. Qed.

Lemma family_seek c f e : family_wf c f → 1 ≤ e →
  ∃ k r, seekVersionKeyAtOrBefore (Versions f) e = Some (k, r) ∧ Versions f !! k = Some r ∧
    1 ≤ k ≤ e ∧ validate k r = Ok tt ∧ (∀ j x, Versions f !! j = Some x → j ≤ e → j ≤ k).
Proof.
  intros Hf He. destruct (fw_origin _ _ Hf) as (r1 & H1 & _).
  unfold seekVersionKeyAtOrBefore. destruct (seek_le e (Versions f)) as [[k r]|] eqn:E.
  - apply seek_le_Some in E as (Hk & Hle & Hmax). exists k, r.
    pose proof (fw_bound _ _ Hf _ _ Hk). split_and!; try done; try lia.
    by apply (hv_valid _ _ _ (fw_history _ _ Hf)).
  - pose proof (proj1 (seek_le_None _ _) E _ _ H1). lia.
Qed.
(** A record replaced by one of the same number. *)
Lemma family_wf_replace c f k r r' :
  family_wf c f → Versions f !! k = Some r → versionOf r' = versionOf r → validate k r' = Ok tt →
  family_wf c (put_Versions (<[k := r']> (Versions f)) f).
Proof.
  intros Hf Hk Hver Hval.
  assert (∀ j x, <[k := r']> (Versions f) !! j = Some x →
    ∃ y, Versions f !! j = Some y ∧ versionOf y = versionOf x ∧ validate j x = Ok tt) as Hold.
  { intros j x [[<- <-]|[_ Hj]]%lookup_insert_Some; [by eauto|].
    exists x. split_and!; [done..|]. by apply (hv_valid _ _ _ (fw_history _ _ Hf)). }
  assert (∀ j y, Versions f !! j = Some y →
    ∃ x, <[k := r']> (Versions f) !! j = Some x ∧ versionOf x = versionOf y) as Hnew.
  { intros j y Hj. destruct (decide (j = k)) as [->|].
    - exists r'. rewrite lookup_insert_eq. split; [done | congruence].
    - exists y. by rewrite lookup_insert_ne by done. }
  split; simpl.
  - split.
    + intros j x (y & _ & _ & Hx)%Hold. done.
    + intros j x (y & Hy & <- & _)%Hold. by eapply (hv_positive _ _ _ (fw_history _ _ Hf)).
    + intros j x j' x' (y & Hy & <- & _)%Hold (y' & Hy' & <- & _)%Hold.
      by apply (hv_increasing _ _ _ (fw_history _ _ Hf)).
  - intros version j. rewrite (fw_index _ _ Hf version j). split.
    + intros (y & (x & Hx & Hxy)%Hnew & <-). eauto.
    + intros (x & (y & Hy & Hyx & _)%Hold & <-). eauto.
  - destruct (fw_origin _ _ Hf) as (r1 & (x & Hx & Hx1)%Hnew & H1). exists x. split; [done | lia].
  - intros j x (y & Hy & <- & _)%Hold. by apply (fw_bound _ _ Hf).
  - by apply (fw_pending _ _ Hf).
Qed.

(** The next number of a history that is never longer than its epochs. *)
Lemma family_next_number c f k r : family_wf c f → c + 2 ≤ MaxUint64 →
  Versions f !! k = Some r → nextVersionNumber (versionOf r) = Ok (versionOf r + 1).
Proof.
  intros Hf Hc Hk. pose proof (fw_bound _ _ Hf _ _ Hk).
  pose proof (hv_positive _ _ _ (fw_history _ _ Hf) _ _ Hk).
  unfold nextVersionNumber.
  assert (AddUint64 (versionOf r) 1 = Ok (versionOf r + 1)) as -> by (apply AddUint64_Ok; widths; lia).
  done.
Qed.

(** An append run from the state of a family, and what it leaves below it. *)
Lemma family_append_run c f k r x :
  family_wf c f → seekLatestVersion (Versions f) = Some (k, r) → 0 ≤ c →
  Scheduled f = {[c + 2 := x]} → admissible (c + 2) x →
  (setVersion (c + 2) (successor (versionOf r + 1) (c + 2) x) ;;
   indexVersion (versionOf (successor (versionOf r + 1) (c + 2) x)) (c + 2) ;;
   removeScheduled (c + 2)) f =
    (appended (c + 2) (successor (versionOf r + 1) (c + 2) x) f, Ok tt).
Proof.
  intros Hf Hl Hc Hs [_ Hadm]. destruct (fw_latest c f Hf) as (k' & r' & Hl' & Hk & Hb & Hr & _).
  rewrite Hl in Hl'. injection Hl' as <- <-.
  destruct (Hadm (versionOf r + 1) ltac:(lia)) as [_ Hver].
  apply appended_run; [lia|]. eapply append_faithful; [by apply (fw_history _ _ Hf) | by apply (fw_index _ _ Hf)
    | exact Hl | | lia].
  instantiate (1 := c + 2). lia.
Qed.
End family.
Arguments family_wf {_ _} _ _ _ _ _ _.
Arguments appended {_ _} _ _ _ _.
Arguments promotes {_ _} _ _ _ _ _.

Lemma binding_bootstrap target : 1 ≤ target ≤ 2 → bindingEpochForTarget target = Ok (0, true).
Proof.
  intros. unfold bindingEpochForTarget. destruct (Z.eqb_spec target 0); [lia|].
  destruct (Z.leb_spec target 2); [done | lia].
Qed.
Lemma binding_later target : 2 < target ≤ MaxUint64 →
  bindingEpochForTarget target = Ok (target - 2, false).
Proof.
  intros. unfold bindingEpochForTarget. destruct (Z.eqb_spec target 0); [lia|].
  destruct (Z.leb_spec target 2); [lia|].
  assert (SubUint64 target 2 = Ok (target - 2)) as -> by (apply SubUint64_Ok; widths; lia). done.
Qed.

(** The version a target is bound to: the genesis one for the first two targets,
    then the one in force two epochs earlier. *)
Definition bound_epoch (target : Z) : Z := if decide (target ≤ 2) then 1 else target - 2.

(** Nothing at or below [b] has changed. *)
Definition kept_to {V S} (b : Z) (f f' : Family V S) : Prop :=
  ∀ k, k ≤ b → Versions f' !! k = Versions f !! k.

Lemma kept_to_refl {V S} b (f : Family V S) : kept_to b f f.
Proof. done. Qed.
Lemma appended_kept {V S} (versionOf : V → Z) b k r (f : Family V S) :
  b < k → kept_to b f (appended versionOf k r f).
Proof. intros Hk j Hj. simpl. rewrite lookup_insert_ne by lia. done. Qed.
Lemma kept_seek {V S} b (f f' : Family V S) e :
  kept_to b f f' → e ≤ b →
  seekVersionKeyAtOrBefore (Versions f') e = seekVersionKeyAtOrBefore (Versions f) e.
Proof.
  intros Hk He. unfold seekVersionKeyAtOrBefore.
  destruct (seek_le e (Versions f)) as [[k r]|] eqn:E.
  - apply seek_le_Some in E as (H1 & H2 & H3). apply seek_le_Some. split_and!; [|done|].
    + rewrite Hk by lia. done.
    + intros j y Hj Hle. rewrite Hk in Hj by lia. by eapply H3.
  - apply seek_le_None. intros j y Hj. destruct (decide (j ≤ b)); [|lia].
    rewrite Hk in Hj by done. by apply (proj1 (seek_le_None _ _) E j y).
Qed.

(** ** The two parameter families *)
Section params.
Context {SI : SdkInt}.

Definition settlement_wf : Z → SettlementFamily → Prop :=
  family_wf STP_Version validateSettlementParamsRecord settlementSuccessor SSTP_EffectiveEpoch.
Definition selection_wf : Z → SelectionFamily → Prop :=
  family_wf SLP_Version validateSelectionParamsRecord selectionSuccessor SSLP_EffectiveEpoch.

Lemma settlement_promotes c f :
  settlement_wf c f → 0 ≤ c → c + 2 ≤ MaxUint64 →
  ∃ f', promoteScheduledSettlementParams (c + 2) f = (f', Ok tt) ∧ settlement_wf (c + 1) f' ∧
    kept_to (c + 1) f f' ∧ promotes STP_Version settlementSuccessor c f f'.
Proof.
  intros Hf Hc Hmax. unfold promoteScheduledSettlementParams, scheduledSettlementParamsFor.
  destruct (scheduledEntryFor_spec _ _ _ (fw_pending _ _ _ _ _ _ Hf))
    as [(x & Hadm & Hs & E)|[Hno E]].
  - destruct (fw_latest _ _ _ _ c f Hf) as (lk & lr & Hl & Hk & Hb & Hr & Hval).
    pose proof (family_next_number _ _ _ _ c f lk lr Hf Hmax Hk) as Hn.
    pose proof Hadm as [Heff Hn2]. destruct (Hn2 (STP_Version lr + 1) ltac:(lia)) as [Hv _].
    exists (appended STP_Version (c + 2) (settlementSuccessor (STP_Version lr + 1) (c + 2) x) f).
    split; [|split_and!; [by eapply appended_wf | apply appended_kept; lia |
      unfold promotes; rewrite Hs, lookup_singleton_eq; by exists lk, lr]].
    erewrite reads_step by (rewrite E; simpl; by rewrite Heff, Z.eqb_refl).
    cbv beta iota. rewrite gets_step, Hl. mrun.
    assert (STP_EffectiveEpoch lr = lk) as Hle
      by (unfold validateSettlementParamsRecord in Hval; minv; by zify_bool).
    rewrite fail_if_step by (rewrite Hle; apply Z.leb_gt; lia). mrun.
    rewrite (lift_step _ _ _ tt) by (unfold validateSettlementParamsRecord in Hv; by minv).
    exact (family_append_run _ _ _ _ c f lk lr x Hf Hl Hc Hs Hadm).
  - exists f. split; [|split_and!; [by apply family_wf_keep | apply kept_to_refl |
      unfold promotes; by rewrite (not_due _ _ _ _ c f Hf Hno)]].
    by destruct E as [E|(k & x & E)]; erewrite reads_step by (rewrite E; reflexivity).
Qed.

Lemma selection_promotes c f :
  selection_wf c f → 0 ≤ c → c + 2 ≤ MaxUint64 →
  ∃ f', promoteScheduledSelectionParams (c + 2) f = (f', Ok tt) ∧ selection_wf (c + 1) f' ∧
    kept_to (c + 1) f f' ∧ promotes SLP_Version selectionSuccessor c f f'.
Proof.
  intros Hf Hc Hmax. unfold promoteScheduledSelectionParams.
  destruct (scheduledEntryFor_spec _ _ _ (fw_pending _ _ _ _ _ _ Hf))
    as [(x & Hadm & Hs & E)|[Hno E]].
  - destruct (fw_latest _ _ _ _ c f Hf) as (lk & lr & Hl & Hk & Hb & Hr & Hval).
    pose proof (family_next_number _ _ _ _ c f lk lr Hf Hmax Hk) as Hn.
    pose proof Hadm as [Heff Hn2]. destruct (Hn2 (SLP_Version lr + 1) ltac:(lia)) as [Hv _].
    exists (appended SLP_Version (c + 2) (selectionSuccessor (SLP_Version lr + 1) (c + 2) x) f).
    split; [|split_and!; [by eapply appended_wf | apply appended_kept; lia |
      unfold promotes; rewrite Hs, lookup_singleton_eq; by exists lk, lr]].
    mrun. cbv beta iota. rewrite fail_if_step by (by rewrite Heff, Z.eqb_refl).
    rewrite gets_step, Hl. mrun.
    assert (SLP_EffectiveEpoch lr = lk) as Hle
      by (unfold validateSelectionParamsRecord in Hval; minv; by zify_bool).
    rewrite fail_if_step by (rewrite Hle; apply Z.leb_gt; lia). mrun.
    rewrite (lift_step _ _ _ tt) by (unfold validateSelectionParamsRecord in Hv; by minv).
    exact (family_append_run _ _ _ _ c f lk lr x Hf Hl Hc Hs Hadm).
  - exists f. split; [|split_and!; [by apply family_wf_keep | apply kept_to_refl |
      unfold promotes; by rewrite (not_due _ _ _ _ c f Hf Hno)]].
    by destruct E as [E|(k & x & E)]; mrun.
Qed.

(** What a target of settlement parameters is bound to. *)
Lemma settlement_genesis c f : settlement_wf c f → ∃ v,
  GenesisSettlementParams f = Ok v ∧ Versions f !! 1 = Some v.
Proof.
  intros Hf. destruct (fw_origin _ _ _ _ _ _ Hf) as (v & Hv & H1). exists v. split; [|done].
  unfold GenesisSettlementParams. rewrite Hv, (hv_valid _ _ _ (fw_history _ _ _ _ _ _ Hf) _ _ Hv).
  simpl. by rewrite H1.
Qed.

Lemma selection_genesis c f : selection_wf c f → ∃ v, GenesisSelectionParams f = Ok v.
Proof.
  intros Hf. destruct (fw_origin _ _ _ _ _ _ Hf) as (v & Hv & H1). exists v.
  unfold GenesisSelectionParams. rewrite Hv.
  rewrite (hv_valid _ _ _ (fw_history _ _ _ _ _ _ Hf) _ _ Hv). cbn [mbind res_bind].
  by rewrite H1.
Qed.

Lemma settlement_target c f target :
  settlement_wf c f → 1 ≤ target ≤ MaxUint64 → ∃ k v,
  SettlementParamsForTarget f target = Ok v ∧ Versions f !! k = Some v ∧
  seekVersionKeyAtOrBefore (Versions f) (bound_epoch target) = Some (k, v) ∧
  STP_Validate v = Ok tt.
Proof.
  intros Hf Ht. destruct (settlement_genesis c f Hf) as (v1 & Hg & H1).
  unfold SettlementParamsForTarget, bound_epoch. case_decide.
  - destruct (family_seek _ _ _ _ c f 1 Hf ltac:(lia)) as (k & v & Hs & Hk & Hle & Hval & _).
    assert (k = 1) as -> by lia. replace v with v1 in * by congruence.
    rewrite binding_bootstrap by lia. exists 1, v1. simpl. split_and!; try done.
    unfold validateSettlementParamsRecord in Hval. by minv.
  - rewrite binding_later by lia. cbn [mbind res_bind]. rewrite Hg. cbn [mbind res_bind].
    destruct (family_seek _ _ _ _ c f (target - 2) Hf ltac:(lia)) as (k & v & Hs & Hk & Hle & Hval & _).
    exists k, v. rewrite Hs, Hval. simpl. split_and!; try done.
    unfold validateSettlementParamsRecord in Hval. by minv.
Qed.

Lemma settlement_target_kept c b f f' target :
  settlement_wf c f → kept_to b f f' → 1 ≤ target ≤ MaxUint64 → bound_epoch target ≤ b → 1 ≤ b →
  SettlementParamsForTarget f' target = SettlementParamsForTarget f target.
Proof.
  intros Hf Hk Ht Hb Hb1. unfold SettlementParamsForTarget, GenesisSettlementParams.
  rewrite (Hk 1) by lia. unfold bound_epoch in Hb. case_decide.
  - by rewrite binding_bootstrap by lia.
  - rewrite binding_later by lia. cbn [mbind res_bind].
    by rewrite (kept_seek b f f') by (done || lia).
Qed.
End params.

(** ** The distribution modes *)
Definition mode_family : Z → ModeFamily → Prop :=
  family_wf DM_Version validateModeRecord modeSuccessor SDM_EffectiveEpoch.

(** A version ends where the next one begins; the last one is open. *)
Definition tiling (f : ModeFamily) : Prop := ∀ k v, Versions f !! k = Some v →
  DM_ValidUntilEpochExclusive v = default 0 (fst <$> seek_gt k (Versions f)).

(** Only trusted distribution is implemented in this profile. *)
Definition trusted (f : ModeFamily) : Prop :=
  (∀ k v, Versions f !! k = Some v → DM_Mode v = MINING_DISTRIBUTION_MODE_TRUSTED_AS_DISTRIBUTION) ∧
  (∀ k x, Scheduled f !! k = Some x → SDM_Mode x = MINING_DISTRIBUTION_MODE_TRUSTED_AS_DISTRIBUTION).

Record modes_wf (c : Z) (f : ModeFamily) : Prop := {
  mo_family : mode_family c f;
  mo_tiling : tiling f
}.

(** The epochs a version governs. *)
Definition governs (v : MiningDistributionModeVersion) (e : Z) : Prop :=
  DM_ValidFromEpoch v ≤ e ∧
  (DM_ValidUntilEpochExclusive v = 0 ∨ e < DM_ValidUntilEpochExclusive v).

(** The same version, perhaps closed since. *)
Definition same_mode (v v' : MiningDistributionModeVersion) : Prop :=
  DM_Version v' = DM_Version v ∧ DM_Mode v' = DM_Mode v ∧ DM_ValidFromEpoch v' = DM_ValidFromEpoch v.

Section modes.
Implicit Types (f : ModeFamily) (v : MiningDistributionModeVersion).

Lemma mode_record k v : validateModeRecord k v = Ok tt ↔ DM_ValidFromEpoch v = k ∧ DM_Validate v = Ok tt.
Proof.
  unfold validateModeRecord. split.
  - intros H. minv. by zify_bool.
  - intros [-> ->]. by rewrite Z.eqb_refl.
Qed.

Lemma mode_from c f k v : mode_family c f → Versions f !! k = Some v → DM_ValidFromEpoch v = k.
Proof.
  intros Hf Hk. apply (hv_valid _ _ _ (fw_history _ _ _ _ _ _ Hf)), mode_record in Hk. by destruct Hk.
Qed.

Lemma tiling_governs c f k v e :
  modes_wf c f → Versions f !! k = Some v →
  (governs v e ↔ k ≤ e ∧ ∀ j x, Versions f !! j = Some x → j ≤ e → j ≤ k).
Proof.
  intros [Hf Ht] Hk. unfold governs. rewrite (mode_from c f k v Hf Hk), (Ht k v Hk).
  destruct (seek_gt k (Versions f)) as [[n y]|] eqn:E; simpl.
  - apply seek_gt_Some in E as (Hn & Hlt & Hmin). pose proof (fw_bound _ _ _ _ _ _ Hf _ _ Hn).
    split.
    + intros [Hle [?|He]]; [lia|]. split; [done|]. intros j x Hj Hje.
      destruct (decide (j ≤ k)); [done|]. specialize (Hmin _ _ Hj ltac:(lia)). lia.
    + intros [Hle Hmax]. split; [done|]. right. destruct (decide (e < n)); [done|].
      specialize (Hmax _ _ Hn ltac:(lia)). lia.
  - split; [|naive_solver]. intros [Hle _]. split; [done|]. intros j x Hj _.
    by apply (proj1 (seek_gt_None _ _) E j x).
Qed.

(** Exactly one version governs an epoch, and it is the one found. *)
Lemma modes_governed c f e :
  modes_wf c f → 1 ≤ e → ∃ k v, seekVersionKeyAtOrBefore (Versions f) e = Some (k, v) ∧
    Versions f !! k = Some v ∧ DM_Validate v = Ok tt ∧ governs v e ∧
    ∀ j x, Versions f !! j = Some x → governs x e → j = k.
Proof.
  intros Hm He. pose proof (mo_family _ _ Hm) as Hf.
  destruct (family_seek _ _ _ _ c f e Hf He) as (k & v & Hs & Hk & Hle & Hval & Hmax).
  exists k, v. split_and!; [done..| | |].
  - by apply mode_record in Hval as [_ ?].
  - apply (tiling_governs c f k v e Hm Hk). split; [lia | done].
  - intros j x Hj [Hje Hjmax]%(tiling_governs c f j x e Hm Hj).
    specialize (Hmax _ _ Hj Hje). specialize (Hjmax _ _ Hk ltac:(lia)). lia.
Qed.

Lemma mode_genesis c f : mode_family c f → ∃ v,
  GenesisDistributionMode f = Ok v ∧ Versions f !! 1 = Some v.
Proof.
  intros Hf. destruct (fw_origin _ _ _ _ _ _ Hf) as (v & Hv & H1). exists v. split; [|done].
  unfold GenesisDistributionMode.
  rewrite Hv, (hv_valid _ _ _ (fw_history _ _ _ _ _ _ Hf) _ _ Hv). simpl. by rewrite H1.
Qed.

Lemma mode_target c f target :
  modes_wf c f → 1 ≤ target ≤ MaxUint64 → ∃ k v,
  DistributionModeForTarget f target = Ok v ∧ Versions f !! k = Some v ∧
  seekVersionKeyAtOrBefore (Versions f) (bound_epoch target) = Some (k, v) ∧
  governs v (bound_epoch target).
Proof.
  intros Hm Ht. pose proof (mo_family _ _ Hm) as Hf.
  destruct (mode_genesis c f Hf) as (v1 & Hg & H1).
  unfold DistributionModeForTarget, bound_epoch. case_decide.
  - destruct (modes_governed c f 1 Hm ltac:(lia)) as (k & v & Hs & Hk & _ & Hgov & _).
    pose proof (fw_bound _ _ _ _ _ _ Hf _ _ Hk) as [[Hk1 _] _].
    assert (DM_ValidFromEpoch v = k) as Hfrom by by eapply mode_from.
    assert (k = 1) as -> by (destruct Hgov; lia). replace v with v1 in * by congruence.
    rewrite binding_bootstrap by lia. exists 1, v1. done.
  - rewrite binding_later by lia. cbn [mbind res_bind]. rewrite Hg. cbn [mbind res_bind].
    destruct (modes_governed c f (target - 2) Hm ltac:(lia)) as (k & v & Hs & Hk & Hval & Hgov & _).
    exists k, v. rewrite Hs. rewrite (proj2 (mode_record k v)) by (split; [by eapply mode_from | done]).
    cbn [mbind res_bind]. rewrite Z.geb_leb. split_and!; try done.
    destruct Hgov as [_ [->|Hu]]; [done|].
    destruct (Z.leb_spec (DM_ValidUntilEpochExclusive v) (target - 2)); [lia|].
    by rewrite andb_false_r.
Qed.

(** Nothing at or below [b] has changed, but that a version may have been closed. *)
Definition modes_kept (b : Z) f f' : Prop :=
  (∀ k v, Versions f !! k = Some v → ∃ v', Versions f' !! k = Some v' ∧ same_mode v v') ∧
  (∀ k, k ≤ b → is_Some (Versions f' !! k) ↔ is_Some (Versions f !! k)).

Lemma modes_kept_refl b f : modes_kept b f f.
Proof. split; [|done]. intros k v Hk. by exists v. Qed.

Lemma mode_target_kept c c' b f f' target v :
  modes_wf c f → modes_wf c' f' → modes_kept b f f' → 1 ≤ target ≤ MaxUint64 →
  bound_epoch target ≤ b → DistributionModeForTarget f target = Ok v →
  ∃ v', DistributionModeForTarget f' target = Ok v' ∧ same_mode v v'.
Proof.
  intros Hm Hm' [Hold Hdom] Ht Hb Hv.
  destruct (mode_target c f target Hm Ht) as (k & x & Hx & Hk & Hs & _).
  destruct (mode_target c' f' target Hm' Ht) as (k' & x' & Hx' & Hk' & Hs' & _).
  replace x with v in * by congruence. exists x'. split; [done|].
  apply seek_le_Some in Hs as (_ & Hle & Hmax). apply seek_le_Some in Hs' as (_ & Hle' & Hmax').
  destruct (Hold _ _ Hk) as (y & Hy & Hsame). specialize (Hmax' _ _ Hy Hle).
  destruct (proj1 (Hdom k' ltac:(lia)) (mk_is_Some _ _ Hk')) as [z Hz]. specialize (Hmax _ _ Hz Hle').
  assert (k' = k) as -> by lia. by replace x' with y by congruence.
Qed.

(** The effect of a promotion: the predecessor is closed, the successor appended. *)
Definition mode_promoted (c : Z) (f : ModeFamily) (lk : Z) (lr : MiningDistributionModeVersion)
    (x : ScheduledMiningDistributionMode) : ModeFamily :=
  appended DM_Version (c + 2) (modeSuccessor (DM_Version lr + 1) (c + 2) x)
    (put_Versions (<[lk := closed_mode lr (c + 2)]> (Versions f)) f).

Definition modes_promote (c : Z) (f f' : ModeFamily) : Prop :=
  match Scheduled f !! (c + 2) with
  | None => f' = f
  | Some x => ∃ k r, seekLatestVersion (Versions f) = Some (k, r) ∧ f' = mode_promoted c f k r x
  end.

Lemma promoted_tiling c f lk lr x :
  modes_wf c f → 0 ≤ c → seekLatestVersion (Versions f) = Some (lk, lr) →
  tiling (mode_promoted c f lk lr x).
Proof.
  intros [Hf Ht] Hc Hl. pose proof Hl as [Hlk Hmax]%seek_max_Some.
  pose proof (fw_bound _ _ _ _ _ _ Hf) as Hb. pose proof (Hb _ _ Hlk) as [Hlb _].
  intros k v Hk. unfold mode_promoted in *. simpl in *.
  set (m := <[c + 2 := _]> (<[lk := _]> (Versions f))).
  assert (∀ j y, m !! j = Some y → j = c + 2 ∨ ∃ z, Versions f !! j = Some z) as Hm.
  { intros j y [[<- _]|[_ [[<- _]|[_ Hj]]%lookup_insert_Some]]%lookup_insert_Some; eauto. }
  assert (∀ j z, Versions f !! j = Some z → ∃ y, m !! j = Some y) as Hm2.
  { intros j z Hj. pose proof (Hb _ _ Hj). unfold m. rewrite lookup_insert_ne by lia.
    destruct (decide (j = lk)) as [->|]; [rewrite lookup_insert_eq; eauto|].
    rewrite lookup_insert_ne by done. eauto. }
  assert (m !! (c + 2) = Some (modeSuccessor (DM_Version lr + 1) (c + 2) x)) as Hnew
    by by apply lookup_insert_eq.
  apply lookup_insert_Some in Hk as [[<- <-]|[Hne [[<- <-]|[Hne2 Hk]]%lookup_insert_Some]].
  - simpl. rewrite (proj2 (seek_gt_None _ _)); [done|].
    intros j y [->|[z Hz%Hb]]%Hm; lia.
  - assert (seek_gt lk m = Some (c + 2, modeSuccessor (DM_Version lr + 1) (c + 2) x)) as ->; [|done].
    apply seek_gt_Some. split_and!; [done | lia|].
    intros j y [->|[z Hz%Hmax]]%Hm Hj; lia.
  - rewrite (Ht k v Hk). pose proof (Hmax _ _ Hk).
    destruct (seek_gt k (Versions f)) as [[n y]|] eqn:E.
    + apply seek_gt_Some in E as (Hn & Hlt & Hmin). destruct (Hm2 _ _ Hn) as [y' Hy'].
      assert (seek_gt k m = Some (n, y')) as ->; [|done]. apply seek_gt_Some.
      split_and!; [done..|]. intros j z Hj Hkj. pose proof (Hb _ _ Hn).
      apply Hm in Hj as [->|[w Hw]]; [lia | by eapply Hmin].
    + pose proof (proj1 (seek_gt_None _ _) E _ _ Hlk). lia.
Qed.

Lemma promoted_same c f lk lr x k v :
  Versions f !! lk = Some lr → Versions f !! k = Some v → k < c + 2 →
  ∃ v', Versions (mode_promoted c f lk lr x) !! k = Some v' ∧ same_mode v v'.
Proof.
  intros Hlk Hk Hlt. simpl. rewrite lookup_insert_ne by lia.
  destruct (decide (k = lk)) as [->|].
  - rewrite lookup_insert_eq. eexists. split; [done|]. replace v with lr by congruence. done.
  - rewrite lookup_insert_ne by done. exists v. done.
Qed.

Lemma mode_promotes c f :
  modes_wf c f → 0 ≤ c → c + 2 ≤ MaxUint64 →
  ∃ f', promoteScheduledDistributionMode (c + 2) f = (f', Ok tt) ∧ modes_wf (c + 1) f' ∧
    (trusted f → trusted f') ∧ modes_kept (c + 1) f f' ∧ modes_promote c f f'.
Proof.
  intros [Hf Ht] Hc Hmax. unfold promoteScheduledDistributionMode, scheduledDistributionModeFor.
  destruct (scheduledEntryFor_spec _ _ _ (fw_pending _ _ _ _ _ _ Hf))
    as [(x & Hadm & Hs & E)|[Hno E]].
  2:{ exists f. split; [by destruct E as [E|(k & x & E)]; erewrite reads_step by (rewrite E; reflexivity)|].
      split; [split; [by apply family_wf_keep | done]|]. split; [done|].
      split; [apply modes_kept_refl|]. unfold modes_promote.
      by rewrite (not_due _ _ _ _ c f Hf Hno). }
  destruct (fw_latest _ _ _ _ c f Hf) as (lk & lr & Hl & Hk & Hb & Hr & Hval).
  pose proof (family_next_number _ _ _ _ c f lk lr Hf Hmax Hk) as Hn.
  pose proof Hadm as [Heff Hn2]. destruct (Hn2 (DM_Version lr + 1) ltac:(lia)) as [Hv _].
  apply mode_record in Hval as [Hfrom Hvalid].
  assert (DM_ValidUntilEpochExclusive lr = 0) as Hopen.
  { rewrite (Ht lk lr Hk). rewrite (proj2 (seek_gt_None _ _)); [done|].
    by apply seek_max_Some in Hl as [_ Hmaxk]. }
  assert (validateModeRecord lk (closed_mode lr (c + 2)) = Ok tt) as Hclosed.
  { apply mode_record. split; [done|]. apply DM_Validate_Ok in Hvalid as (? & ? & ? & _).
    apply DM_Validate_Ok. simpl. split_and!; [done..|]. lia. }
  assert (Versions f !! (c + 2) = None) as Hfree.
  { apply eq_None_not_Some. intros [y Hy]. pose proof (fw_bound _ _ _ _ _ _ Hf _ _ Hy). lia. }
  set (f1 := put_Versions (<[lk := closed_mode lr (c + 2)]> (Versions f)) f).
  assert (mode_family c f1) as Hf1 by by eapply family_wf_replace.
  assert (seekLatestVersion (Versions f1) = Some (lk, closed_mode lr (c + 2))) as Hl1.
  { apply seek_max_Some. simpl. rewrite lookup_insert_eq. split; [done|].
    apply seek_max_Some in Hl as [_ Hmaxk].
    intros j y [[<- _]|[_ Hj]]%lookup_insert_Some; [lia | by eapply Hmaxk]. }
  exists (mode_promoted c f lk lr x). split; [|split; [split|split; [|split; [split|]]]].
  - apply mode_record in Hv as [_ Hsv].
    assert (validateDistributionModeValue (SDM_Mode x) = Ok tt) as Hmode
      by (apply DM_Validate_Ok in Hsv as (_ & _ & Hm & _); simpl in Hm; by destruct (SDM_Mode x)).
    erewrite reads_step by (rewrite E; simpl; rewrite Heff, Z.eqb_refl; simpl; by rewrite Hmode).
    cbv beta iota.
    erewrite reads_step by (unfold openDistributionMode; rewrite Hl,
      (proj2 (mode_record lk lr)), Hopen by done; reflexivity).
    cbv beta iota. rewrite fail_if_step by (rewrite Hfrom; apply Z.leb_gt; lia). mrun.
    rewrite gets_step.
    rewrite fail_if_step by (apply bool_decide_eq_false_2; rewrite Hfree; by intros [? ?]).
    cbv zeta. mrun.
    rewrite (lift_step _ _ _ tt) by exact Hclosed.
    rewrite (M_bind_run _ _ f f1 tt) by reflexivity.
    exact (family_append_run _ _ _ _ c f1 lk (closed_mode lr (c + 2)) x Hf1 Hl1 Hc Hs Hadm).
  - exact (appended_wf _ _ _ _ c f1 lk (closed_mode lr (c + 2)) x Hf1 Hl1 Hc Hs Hadm).
  - by apply promoted_tiling.
  - intros [Hm Hsm]. split; simpl.
    + intros k v [[<- <-]|[_ [[<- <-]|[_ Hkv]]%lookup_insert_Some]]%lookup_insert_Some; simpl.
      * apply (Hsm (c + 2)). by rewrite Hs, lookup_singleton_eq.
      * by eapply Hm.
      * by eapply Hm.
    + intros k y [_ Hy]%lookup_delete_Some. by eapply Hsm.
  - intros k v Hkv. eapply promoted_same; [done..|]. pose proof (fw_bound _ _ _ _ _ _ Hf _ _ Hkv). lia.
  - intros k Hle. simpl. rewrite lookup_insert_ne by lia.
    destruct (decide (k = lk)) as [->|]; [rewrite lookup_insert_eq, Hk; split; eauto|].
    by rewrite lookup_insert_ne by done.
  - unfold modes_promote. rewrite Hs, lookup_singleton_eq. by exists lk, lr.
Qed.
End modes.
