(* ===== verification/MiningInvariant.v ===== *)
(** * x/mining: what the module relies on, and its invariant

    [rewards_contract] is what the mining module needs of x/rewards, over an
    invariant [rw_inv c] of the rewards store whose last closed epoch is [c]: its
    reads are total, it lists exactly the entitlements of an epoch, and the two
    release calls pay one entitlement and nothing else.  [mining_inv c b] is the
    invariant of the module after the end block that processed epoch [c], with a
    settlement clock of at most [b]. *)
From S2P Require Import Prelude Checked SdkMath Bounds EconomicAddress RewardsTypes Collections.
From S2P Require Import CoreSlotTypes Entitlement Release.
From S2P Require Import MiningTypes MiningHistory MiningKeeper MiningSettlement MiningHistories.
Local Open Scope Z_scope.

Section contract.
Context {SI : SdkInt} {RK : RewardsKeeper}.
Implicit Types (rw : RewardsStore) (x : SlotEntitlement).

(** An entitlement on record: [a] in all, [rel] of it released. *)
Record entitled rw (slot e : Z) x (a rel : Z) : Prop := {
  et_get : Rk_GetSlotEntitlement rw slot e = Ok (Some x);
  et_slot : Ent_SlotId x = slot;
  et_epoch : Ent_Epoch x = e;
  et_amount : Ent_Amount x = Ok a;
  et_released : Ent_Released x = Ok rel;
  et_bounds : 0 ≤ rel ≤ a ∧ 0 < a
}.

(** Only one entitlement has changed, [n] more of it being released. *)
Record pays rw rw' (slot e n : Z) : Prop := {
  py_entitlement : ∃ x x' a rel, entitled rw slot e x a rel ∧ entitled rw' slot e x' a (rel + n);
  py_others : ∀ slot' e', (slot', e') ≠ (slot, e) →
    Rk_GetSlotEntitlement rw' slot' e' = Rk_GetSlotEntitlement rw slot' e';
  py_length : ∀ e', Rk_EpochLengthForEpoch rw' e' = Rk_EpochLengthForEpoch rw e';
  py_enabled : Rk_SettlementReleaseEnabled rw' = Rk_SettlementReleaseEnabled rw
}.

Record rewards_contract (rw_inv : Z → RewardsStore → Prop) : Prop := {
  rc_bound : ∀ c rw, rw_inv c rw → 0 ≤ c ∧ c + 2 ≤ MaxUint64;
  rc_enabled : ∀ c rw, rw_inv c rw → ∃ b, Rk_SettlementReleaseEnabled rw = Ok b;
  rc_finalized : ∀ c rw e, rw_inv c rw → 1 ≤ e ≤ c →
    ∃ r, Rk_GetFinalizedEpoch rw e = Ok (Some r) ∧ EpochNumber r = e;
  rc_open : ∀ c rw e, rw_inv c rw → c < e → Rk_GetFinalizedEpoch rw e = Ok None;
  rc_entitlement : ∀ c rw slot e, rw_inv c rw → slot ≠ 0 → 1 ≤ e →
    Rk_GetSlotEntitlement rw slot e = Ok None ∨ ∃ x a rel, entitled rw slot e x a rel ∧ e ≤ c;
  rc_list : ∀ c rw e, rw_inv c rw → 1 ≤ e → ∃ l, Rk_IterateEntitlementsForEpoch rw e = Ok l ∧
    NoDup (Ent_SlotId <$> l) ∧
    ∀ x, x ∈ l ↔ Ent_SlotId x ≠ 0 ∧ Ent_Epoch x = e ∧
      Rk_GetSlotEntitlement rw (Ent_SlotId x) e = Ok (Some x);
  rc_length : ∀ c rw e, rw_inv c rw → 1 ≤ e ≤ c →
    ∃ n, Rk_EpochLengthForEpoch rw e = Ok n ∧ 360 ≤ n ≤ 720;
  rc_pay : ∀ c rw rw' slot e lines r, rw_inv c rw → Rk_PayEntitlement slot e lines rw = (rw', r) →
    match r with
    | Err _ => rw' = rw
    | Ok _ => rw_inv c rw' ∧ pays rw rw' slot e (sum_of line_amount lines)
    end;
  rc_remainder : ∀ c rw rw' slot e r, rw_inv c rw →
    Rk_PayEntitlementRemainderToOperator slot e rw = (rw', r) →
    match r with
    | Err _ => rw' = rw
    | Ok _ => rw_inv c rw' ∧ ∃ x a rel, entitled rw slot e x a rel ∧ pays rw rw' slot e (a - rel)
    end
}.

Lemma entitled_inj rw slot e x x' a a' rel rel' :
  entitled rw slot e x a rel → entitled rw slot e x' a' rel' → x' = x ∧ a' = a ∧ rel' = rel.
Proof. intros [] []. assert (x' = x) as -> by congruence. split; [done|]. split; congruence. Qed.
End contract.

(** ** The invariant *)
Section invariant.
Context {SI : SdkInt} {RK : RewardsKeeper}.
Implicit Types (s : MiningState) (row : Settlement).

Definition clock_of s : Z := default 0 (Mn_SettlementClock (Ms_Mining s)).

(** A settlement is the obligation to release an entitlement: [a] in all, [rel]
    of it released so far, under the mode and parameters its epoch was bound to. *)
Record settles s (slot e : Z) row : Prop := {
  st_record : validateSettlementRecord (slot, e) row = Ok tt;
  st_mode : Stl_SettlementMode row = SETTLEMENT_MODE_TRUSTED_AS;
  st_anchor : is_Some (Mn_SettlementEpochAnchors (Ms_Mining s) !! e);
  st_distribution : ∃ m, DistributionModeForTarget (Mn_Modes (Ms_Mining s)) e = Ok m ∧
    DM_Version m = Stl_DistributionModeVersion row;
  st_params : ∃ p, SettlementParamsForTarget (Mn_SettlementParams (Ms_Mining s)) e = Ok p ∧
    STP_Version p = Stl_SettlementParamsVersion row ∧
    0 ≤ Stl_NextChunkIndex row ≤ STP_MaxChunksPerSettlement p;
  st_entitled : ∃ x a rel, entitled (Ms_Rewards s) slot e x a rel ∧
    (if Stl_Finalized row then rel = a else rel = 0 ↔ Stl_NextChunkIndex row = 0)
}.

Record mining_inv (c b : Z) s : Prop := {
  mi_closed : 0 ≤ c ∧ c + 2 ≤ MaxUint64;
  mi_modes : modes_wf c (Mn_Modes (Ms_Mining s));
  mi_trusted : trusted (Mn_Modes (Ms_Mining s));
  mi_selection : selection_wf c (Mn_SelectionParams (Ms_Mining s));
  mi_params : settlement_wf c (Mn_SettlementParams (Ms_Mining s));
  mi_clock : Mn_SettlementClock (Ms_Mining s) = Some (clock_of s) ∧ 0 ≤ clock_of s ≤ b;
  mi_cursor : Mn_LastProcessedRewardEpoch (Ms_Mining s) = Some c;
  mi_anchors : ∀ e a, Mn_SettlementEpochAnchors (Ms_Mining s) !! e = Some a →
    SEA_Epoch a = e ∧ 1 ≤ e ≤ c ∧ 0 ≤ SEA_CreatedSettlementClock a ≤ clock_of s;
  mi_settles : ∀ slot e row, Mn_Settlements (Ms_Mining s) !! (slot, e) = Some row →
    1 ≤ e ≤ c ∧ settles s slot e row;
  mi_complete : ∀ slot e x a rel, slot ≠ 0 → 1 ≤ e ≤ c →
    entitled (Ms_Rewards s) slot e x a rel → is_Some (Mn_Settlements (Ms_Mining s) !! (slot, e));
  mi_open : ∀ slot e n, Mn_OpenSettlementsBySlot (Ms_Mining s) !! (slot, e) = Some n ↔
    n = e ∧ ∃ row, Mn_Settlements (Ms_Mining s) !! (slot, e) = Some row ∧ Stl_Finalized row = false
}.

(** The module reads nothing of the rewards store but the entitlements of the
    epochs it has processed. *)
Lemma entitled_kept rw rw' slot e x a rel :
  Rk_GetSlotEntitlement rw' slot e = Rk_GetSlotEntitlement rw slot e →
  entitled rw' slot e x a rel ↔ entitled rw slot e x a rel.
Proof. intros Hg. split; intros []; split; congruence. Qed.

Lemma mining_inv_rewards c b mn rw rw' :
  mining_inv c b {| Ms_Mining := mn; Ms_Rewards := rw |} →
  (∀ slot e, e ≤ c → Rk_GetSlotEntitlement rw' slot e = Rk_GetSlotEntitlement rw slot e) →
  mining_inv c b {| Ms_Mining := mn; Ms_Rewards := rw' |}.
Proof.
  intros [] Hg. split; try done; simpl in *.
  - intros slot e row (He & [])%mi_settles0. split; [done|]. split; try done.
    destruct st_entitled0 as (x & a & rel & Hx & Hr). exists x, a, rel. split; [|done].
    apply (entitled_kept rw rw'); [|done]. apply Hg. lia.
  - intros slot e x a rel Hs He Hx. eapply mi_complete0; [done..|].
    apply (entitled_kept rw rw'); [|done]. apply Hg. lia.
Qed.

Lemma mining_inv_later c b b' s : mining_inv c b s → b ≤ b' → mining_inv c b' s.
Proof. intros [] Hb. destruct mi_clock0. split; try done. split; [done | lia]. Qed.

Lemma settles_facts s slot e row : settles s slot e row →
  Stl_SlotId row = slot ∧ Stl_Epoch row = e ∧ slot ≠ 0 ∧ e ≠ 0 ∧ Stl_Validate row = Ok tt.
Proof.
  intros [Hr _ _ _ _ _]. unfold validateSettlementRecord in Hr. minv. zify_bool. simpl in *. subst.
  match goal with H : Stl_Validate row = Ok tt |- _ => pose proof H as (? & ? & _)%Stl_Validate_Ok end.
  done.
Qed.

Lemma get_settlement c b s slot e :
  mining_inv c b s → slot ≠ 0 → e ≠ 0 →
  GetSettlement (Ms_Mining s) slot e = Ok (Mn_Settlements (Ms_Mining s) !! (slot, e)).
Proof.
  intros Hi Hs He. unfold GetSettlement, settlementKey.
  destruct (Z.eqb_spec slot 0); [done|]. destruct (Z.eqb_spec e 0); [done|].
  cbn [orb fail_if mret res_ret mbind res_bind].
  destruct (Mn_Settlements (Ms_Mining s) !! (slot, e)) as [row|] eqn:E; [|done].
  apply (mi_settles _ _ _ Hi) in E as [_ []]. by rewrite st_record0.
Qed.

Lemma anchor_of c b s e :
  mining_inv c b s → is_Some (Mn_SettlementEpochAnchors (Ms_Mining s) !! e) → ∃ a,
  requireEpochAnchor (Ms_Mining s) e = Ok a ∧
  Mn_SettlementEpochAnchors (Ms_Mining s) !! e = Some a ∧
  0 ≤ SEA_CreatedSettlementClock a ≤ clock_of s.
Proof.
  intros Hi [a Ha]. pose proof (mi_anchors _ _ _ Hi _ _ Ha) as (He & Hb & Hc). exists a.
  split; [|done]. unfold requireEpochAnchor, GetSettlementEpochAnchor, SEA_Validate.
  destruct (Z.eqb_spec e 0); [lia|]. cbn [fail_if mret res_ret mbind res_bind].
  rewrite Ha, He, Z.eqb_refl. cbn [negb fail_if mret res_ret mbind res_bind].
  destruct (Z.eqb_spec e 0); [lia | done].
Qed.

Lemma clock_read c b s : mining_inv c b s → GetSettlementClock (Ms_Mining s) = Ok (clock_of s).
Proof. intros [Hc _]%mi_clock. unfold GetSettlementClock. by rewrite Hc. Qed.
End invariant.
