(* ===== verification/MiningBlocks.v ===== *)
(** * x/mining/keeper: the end of a block, proved

    [MiningEndBlock] always succeeds on a state that satisfies the invariant when
    the rewards module has closed at most one epoch since, and it re-establishes
    the invariant for that epoch: one open settlement for every entitlement of
    the closed epoch, one anchor when there is any, the due changes promoted, and
    the clock one further exactly when release is enabled. *)
From S2P Require Import Prelude Checked SdkMath Bounds EconomicAddress RewardsTypes Collections.
From S2P Require Import Entitlement Release MiningTypes MiningHistory MiningKeeper.
From S2P Require Import MiningSettlement MiningHistories MiningInvariant.
Local Open Scope Z_scope.

Section blocks.
Context {SI : SdkInt} {RK : RewardsKeeper}.
Implicit Types (mn : MiningStore) (rw : RewardsStore) (x : SlotEntitlement).

(** ** The clock *)
Definition ticks rw : Z :=
  match Rk_SettlementReleaseEnabled rw with Ok true => 1 | _ => 0 end.

Lemma advance_run c b mn rw (s := {| Ms_Mining := mn; Ms_Rewards := rw |}) enabled :
  mining_inv c b s → b < MaxUint64 → Rk_SettlementReleaseEnabled rw = Ok enabled →
  advanceSettlementClock rw mn = (put_SettlementClock (Some (clock_of s + ticks rw)) mn, Ok tt).
Proof.
  intros Hi Hb He. pose proof (mi_clock _ _ _ Hi) as [Hc Hcb].
  unfold advanceSettlementClock, ticks. rewrite (lift_step _ _ _ enabled) by by rewrite He.
  rewrite He. destruct enabled; simpl.
  - rewrite (reads_step _ _ _ (clock_of s)) by exact (clock_read c b s Hi).
    rewrite (lift_step _ _ _ (clock_of s + 1)); [done|].
    assert (AddUint64 (clock_of s) 1 = Ok (clock_of s + 1)) as -> by (apply AddUint64_Ok; widths; lia).
    done.
  - simpl in Hc. rewrite Z.add_0_r. destruct mn; simpl in *. by rewrite Hc.
Qed.

(** ** New settlements *)
Definition opened_row (target mode_version params_version slot : Z) : Settlement := {|
  Stl_SlotId := slot; Stl_Epoch := target;
  Stl_DistributionModeVersion := mode_version;
  Stl_SettlementMode := SETTLEMENT_MODE_TRUSTED_AS;
  Stl_SettlementParamsVersion := params_version;
  Stl_NextChunkIndex := 0; Stl_Finalized := false; Stl_FinalizedHeight := 0;
  Stl_FinalizationReason := SETTLEMENT_FINALIZATION_REASON_UNSPECIFIED |}.

Definition add_row (target vm vp : Z) mn x : MiningStore :=
  put_OpenSettlementsBySlot
    (<[(Ent_SlotId x, target) := target]> (Mn_OpenSettlementsBySlot mn))
    (put_Settlements (<[(Ent_SlotId x, target) := opened_row target vm vp (Ent_SlotId x)]>
      (Mn_Settlements mn)) mn).
Definition add_rows (target vm vp : Z) (l : list SlotEntitlement) mn : MiningStore :=
  foldl (add_row target vm vp) mn l.

Lemma add_rows_frame target vm vp l mn :
  add_rows target vm vp l mn =
    put_OpenSettlementsBySlot (Mn_OpenSettlementsBySlot (add_rows target vm vp l mn))
      (put_Settlements (Mn_Settlements (add_rows target vm vp l mn)) mn).
Proof.
  revert mn. induction l as [|x l IH]; intros mn; [by destruct mn|]. simpl. rewrite IH at 1. done.
Qed.

Lemma add_rows_settlements target vm vp l mn slot e row :
  Mn_Settlements (add_rows target vm vp l mn) !! (slot, e) = Some row ↔
  (e = target ∧ slot ∈ Ent_SlotId <$> l ∧ row = opened_row target vm vp slot) ∨
  (¬ (e = target ∧ slot ∈ Ent_SlotId <$> l) ∧ Mn_Settlements mn !! (slot, e) = Some row).
Proof.
  revert mn. induction l as [|x l IH]; intros mn; simpl.
  { split; [intros H; right; split; [|done]; set_solver | set_solver]. }
  rewrite IH. simpl. rewrite lookup_insert_Some, elem_of_cons.
  destruct (decide (e = target)) as [->|]; [|naive_solver].
  destruct (decide (slot ∈ Ent_SlotId <$> l)); [naive_solver|].
  destruct (decide (slot = Ent_SlotId x)) as [->|]; naive_solver.
Qed.

Lemma add_rows_open target vm vp l mn slot e n :
  Mn_OpenSettlementsBySlot (add_rows target vm vp l mn) !! (slot, e) = Some n ↔
  (e = target ∧ slot ∈ Ent_SlotId <$> l ∧ n = target) ∨
  (¬ (e = target ∧ slot ∈ Ent_SlotId <$> l) ∧ Mn_OpenSettlementsBySlot mn !! (slot, e) = Some n).
Proof.
  revert mn. induction l as [|x l IH]; intros mn; simpl.
  { split; [intros H; right; split; [|done]; set_solver | set_solver]. }
  rewrite IH. simpl. rewrite lookup_insert_Some, elem_of_cons.
  destruct (decide (e = target)) as [->|]; [|naive_solver].
  destruct (decide (slot ∈ Ent_SlotId <$> l)); [naive_solver|].
  destruct (decide (slot = Ent_SlotId x)) as [->|]; naive_solver.
Qed.

Lemma opened_valid target vm vp slot : target ≠ 0 → vm ≠ 0 → vp ≠ 0 → slot ≠ 0 →
  Stl_Validate (opened_row target vm vp slot) = Ok tt.
Proof. intros. by apply Stl_Validate_Ok. Qed.

Lemma create_loop target vm vp l mn n :
  target ≠ 0 → vm ≠ 0 → vp ≠ 0 → NoDup (Ent_SlotId <$> l) →
  (∀ x, x ∈ l → Ent_SlotId x ≠ 0 ∧ Ent_Epoch x = target ∧
    Mn_Settlements mn !! (Ent_SlotId x, target) = None) →
  fold_m (λ created entitlement,
    fail_if ((Ent_SlotId entitlement =? 0) || negb (Ent_Epoch entitlement =? target))
      MnInvalidState ;;
    createSettlement (opened_row target vm vp (Ent_SlotId entitlement)) ;;
    mret (created + 1)) l n mn = (add_rows target vm vp l mn, Ok (n + Z.of_nat (length l))).
Proof.
  intros Ht Hm Hp. revert mn n. induction l as [|x l IH]; intros mn n Hnd Hl.
  { simpl. by rewrite Z.add_0_r. }
  rewrite fmap_cons, NoDup_cons in Hnd. destruct Hnd as [Hx Hnd].
  destruct (Hl x) as (Hs & He & Hno); [by left|]. cbn [fold_m].
  assert ((Ent_SlotId x =? 0) || negb (Ent_Epoch x =? target) = false) as Hchk.
  { rewrite He, Z.eqb_refl. by apply Z.eqb_neq in Hs as ->. }
  rewrite (M_bind_run _ _ mn (add_row target vm vp mn x) (n + 1)).
  - rewrite IH; [|done|].
    + simpl length. do 2 f_equal. lia.
    + intros y Hy. destruct (Hl y) as (Hys & Hye & Hyn); [by right|]. split_and!; [done..|].
      simpl. rewrite lookup_insert_ne; [done|]. intros [= Heq]. destruct Hx. rewrite Heq.
      apply list_elem_of_fmap. eauto.
  - rewrite fail_if_step by done. rewrite (M_bind_run _ _ mn (add_row target vm vp mn x) tt); [done|].
    unfold createSettlement. rewrite (lift_step _ _ _ tt) by by apply opened_valid.
    rewrite gets_step. rewrite fail_if_step; [done|]. apply bool_decide_eq_false_2.
    unfold settlementKey. simpl. rewrite Hno. by intros [? ?].
Qed.

Lemma create_run c b s target l m p :
  mining_inv c b s → DistributionModeForTarget (Mn_Modes (Ms_Mining s)) target = Ok m →
  DM_Mode m = MINING_DISTRIBUTION_MODE_TRUSTED_AS_DISTRIBUTION → DM_Version m ≠ 0 →
  SettlementParamsForTarget (Mn_SettlementParams (Ms_Mining s)) target = Ok p →
  STP_Version p ≠ 0 → c < target → NoDup (Ent_SlotId <$> l) →
  (∀ x, x ∈ l → Ent_SlotId x ≠ 0 ∧ Ent_Epoch x = target) → 0 ≤ c →
  createSettlements target l (Ms_Mining s) =
    (add_rows target (DM_Version m) (STP_Version p) l (Ms_Mining s), Ok (Z.of_nat (length l))).
Proof.
  intros Hi Hm Hmode Hmv Hp Hpv Ht Hnd Hl Hc. unfold createSettlements.
  destruct l as [|x l]; [done|].
  rewrite (reads_step _ _ _ m) by exact Hm. rewrite (reads_step _ _ _ p) by exact Hp.
  rewrite (lift_step _ _ _ SETTLEMENT_MODE_TRUSTED_AS)
    by (unfold resolveSettlementMode; by rewrite Hmode).
  etransitivity; [apply create_loop|]; try done; [lia|].
  intros y Hy. destruct (Hl y Hy) as [Hs He]. split_and!; [done..|].
  destruct (Mn_Settlements (Ms_Mining s) !! (Ent_SlotId y, target)) as [row|] eqn:E; [|done].
  apply (mi_settles _ _ _ Hi) in E as [? _]. lia.
Qed.

(** The anchor of an epoch that produced a settlement. *)
Definition anchored (target clock : Z) (l : list SlotEntitlement) mn : MiningStore :=
  match l with
  | [] => mn
  | _ => put_SettlementEpochAnchors
      (<[target := {| SEA_Epoch := target; SEA_CreatedSettlementClock := clock |}]>
        (Mn_SettlementEpochAnchors mn)) mn
  end.

Lemma anchor_run target clock l mn :
  target ≠ 0 → Mn_SettlementClock mn = Some clock →
  Mn_SettlementEpochAnchors mn !! target = None →
  (if 0 <? Z.of_nat (length l) then
     clock ← reads GetSettlementClock;
     createEpochAnchor {| SEA_Epoch := target; SEA_CreatedSettlementClock := clock |}
   else mret tt) mn = (anchored target clock l mn, Ok tt).
Proof.
  intros Ht Hc Hno. destruct l as [|x l]; [done|].
  destruct (Z.ltb_spec 0 (Z.of_nat (length (x :: l)))); [|simpl in *; lia].
  rewrite (reads_step _ _ _ clock) by (unfold GetSettlementClock; by rewrite Hc).
  unfold createEpochAnchor, SEA_Validate. simpl.
  rewrite (lift_step _ _ _ tt) by by apply Z.eqb_neq in Ht as ->.
  rewrite gets_step, fail_if_step; [done|]. apply bool_decide_eq_false_2. rewrite Hno. by intros [? ?].
Qed.

Context (rw_inv : Z → RewardsStore → Prop) (Hrc : rewards_contract rw_inv).

Lemma no_successor c rw e : rw_inv c rw → c ≤ e → e < MaxUint64 → 0 ≤ e →
  requireNoFinalizedSuccessor rw e = Ok tt.
Proof.
  intros Hrw He Hm H0. unfold requireNoFinalizedSuccessor, finalizedEpochExists.
  assert (AddUint64 e 1 = Ok (e + 1)) as -> by (apply AddUint64_Ok; widths; lia).
  cbn [wrap mbind res_bind]. by rewrite (rc_open _ Hrc c rw (e + 1) Hrw) by lia.
Qed.

Lemma materialize_idle c b s :
  mining_inv c b s → rw_inv c (Ms_Rewards s) →
  materializeFinalizedEpoch (Ms_Rewards s) (Ms_Mining s) = (Ms_Mining s, Ok 0).
Proof.
  intros Hi Hrw. pose proof (mi_closed _ _ _ Hi) as Hc. unfold materializeFinalizedEpoch.
  rewrite (reads_step _ _ _ c)
    by (unfold GetLastProcessedRewardEpoch; by rewrite (mi_cursor _ _ _ Hi)).
  rewrite (lift_step _ _ _ (c + 1)).
  2:{ assert (AddUint64 c 1 = Ok (c + 1)) as -> by (apply AddUint64_Ok; widths; lia). done. }
  rewrite (lift_step _ _ _ None) by by rewrite (rc_open _ Hrc c _ (c + 1) Hrw) by lia.
  by rewrite (lift_step _ _ _ tt) by (apply (no_successor c); done || lia).
Qed.

(** The store once the epoch after [c] is materialized. *)
Definition materialized (c clock vm vp : Z) (l : list SlotEntitlement) mn : MiningStore :=
  put_LastProcessedRewardEpoch (Some (c + 1))
    (anchored (c + 1) clock l (add_rows (c + 1) vm vp l mn)).

(** What the entitlements of the closed epoch are settled under. *)
Record binding s (e vm vp : Z) : Prop := {
  bi_mode : ∃ m, DistributionModeForTarget (Mn_Modes (Ms_Mining s)) e = Ok m ∧ DM_Version m = vm ∧
    DM_Mode m = MINING_DISTRIBUTION_MODE_TRUSTED_AS_DISTRIBUTION;
  bi_params : ∃ p, SettlementParamsForTarget (Mn_SettlementParams (Ms_Mining s)) e = Ok p ∧
    STP_Version p = vp ∧ STP_Validate p = Ok tt;
  bi_nonzero : vm ≠ 0 ∧ vp ≠ 0
}.

Lemma bound_to c b s e : mining_inv c b s → 1 ≤ e ≤ MaxUint64 → ∃ vm vp, binding s e vm vp.
Proof.
  intros Hi He.
  destruct (mode_target c _ e (mi_modes _ _ _ Hi) He) as (k & m & Hm & Hk & _).
  destruct (settlement_target c _ e (mi_params _ _ _ Hi) He) as (j & p & Hp & Hj & _ & Hval).
  exists (DM_Version m), (STP_Version p). split.
  - exists m. split_and!; [done..|]. by apply (proj1 (mi_trusted _ _ _ Hi) k).
  - exists p. done.
  - pose proof (hv_positive _ _ _ (fw_history _ _ _ _ _ _ (mo_family _ _ (mi_modes _ _ _ Hi))) _ _ Hk).
    apply STP_Validate_Ok in Hval as (? & _). split; [lia | done].
Qed.

Lemma materialize_run c b s :
  mining_inv c b s → rw_inv (c + 1) (Ms_Rewards s) → ∃ vm vp l,
  binding s (c + 1) vm vp ∧
  Rk_IterateEntitlementsForEpoch (Ms_Rewards s) (c + 1) = Ok l ∧ NoDup (Ent_SlotId <$> l) ∧
  (∀ x, x ∈ l ↔ Ent_SlotId x ≠ 0 ∧ Ent_Epoch x = c + 1 ∧
    Rk_GetSlotEntitlement (Ms_Rewards s) (Ent_SlotId x) (c + 1) = Ok (Some x)) ∧
  materializeFinalizedEpoch (Ms_Rewards s) (Ms_Mining s) =
    (materialized c (clock_of s) vm vp l (Ms_Mining s), Ok (c + 1)).
Proof.
  intros Hi Hrw. pose proof (mi_closed _ _ _ Hi) as Hc. pose proof (rc_bound _ Hrc _ _ Hrw) as Hb.
  destruct (bound_to c b s (c + 1) Hi ltac:(lia)) as (vm & vp & Hbind).
  pose proof Hbind as [(m & Hm & Hmv & Hmode) (p & Hp & Hpv & _) [Hnm Hnp]].
  destruct (rc_list _ Hrc _ _ (c + 1) Hrw ltac:(lia)) as (l & Hl & Hnd & Hin).
  exists vm, vp, l. split_and!; [done..|]. unfold materializeFinalizedEpoch.
  rewrite (reads_step _ _ _ c)
    by (unfold GetLastProcessedRewardEpoch; by rewrite (mi_cursor _ _ _ Hi)).
  rewrite (lift_step _ _ _ (c + 1)).
  2:{ assert (AddUint64 c 1 = Ok (c + 1)) as -> by (apply AddUint64_Ok; widths; lia). done. }
  destruct (rc_finalized _ Hrc _ _ (c + 1) Hrw ltac:(lia)) as (r & Hr & Hrn).
  rewrite (lift_step _ _ _ (Some r)) by by rewrite Hr.
  cbv beta iota. rewrite fail_if_step by (by rewrite Hrn, Z.eqb_refl).
  rewrite (lift_step _ _ _ l) by by rewrite Hl.
  assert (createSettlements (c + 1) l (Ms_Mining s) =
    (add_rows (c + 1) vm vp l (Ms_Mining s), Ok (Z.of_nat (length l)))) as Hcreate.
  { rewrite <- Hmv, <- Hpv. apply (create_run c b); try done; try congruence; try lia.
    intros x Hx. apply Hin in Hx. naive_solver. }
  erewrite M_bind_run by exact Hcreate. set (mn1 := add_rows _ _ _ _ _).
  assert (Mn_SettlementClock mn1 = Some (clock_of s) ∧
    Mn_SettlementEpochAnchors mn1 !! (c + 1) = None) as [Hclock Hanchor].
  { unfold mn1. rewrite add_rows_frame. simpl. split; [apply (mi_clock _ _ _ Hi)|].
    destruct (Mn_SettlementEpochAnchors (Ms_Mining s) !! (c + 1)) as [a|] eqn:E; [|done].
    apply (mi_anchors _ _ _ Hi) in E. lia. }
  erewrite M_bind_run by (apply anchor_run; [lia | exact Hclock | exact Hanchor]).
  rewrite modify_step.
  by rewrite (lift_step _ _ _ tt) by (apply (no_successor (c + 1)); done || lia).
Qed.

(** ** The invariant again *)
Lemma ticks_range rw : 0 ≤ ticks rw ≤ 1.
Proof. unfold ticks. repeat case_match; lia. Qed.

Lemma ticked_inv c b s :
  mining_inv c b s → mining_inv c (b + 1)
    {| Ms_Mining := put_SettlementClock (Some (clock_of s + ticks (Ms_Rewards s))) (Ms_Mining s);
       Ms_Rewards := Ms_Rewards s |}.
Proof.
  intros Hi. pose proof (ticks_range (Ms_Rewards s)). set (s' := {| Ms_Mining := _ |}).
  assert (clock_of s' = clock_of s + ticks (Ms_Rewards s)) as Hclock by done.
  pose proof (mi_clock _ _ _ Hi) as [_ Hb].
  split; try (apply Hi); rewrite ?Hclock.
  - split; [done | lia].
  - intros e a Ha. destruct (mi_anchors _ _ _ Hi e a Ha) as (? & ? & ?). split_and!; done || lia.
  - intros slot e row Hr. destruct (mi_settles _ _ _ Hi slot e row Hr) as [He []].
    split; [done|]. by split.
Qed.

(** The three families one epoch later: well formed, true to what is bound, and
    exactly the families before with the changes that were due as versions. *)
Record promoted (c : Z) mn mn' : Prop := {
  pr_modes : modes_wf (c + 1) (Mn_Modes mn');
  pr_trusted : trusted (Mn_Modes mn');
  pr_modes_kept : modes_kept (c + 1) (Mn_Modes mn) (Mn_Modes mn');
  pr_selection : selection_wf (c + 1) (Mn_SelectionParams mn');
  pr_params : settlement_wf (c + 1) (Mn_SettlementParams mn');
  pr_params_kept : kept_to (c + 1) (Mn_SettlementParams mn) (Mn_SettlementParams mn');
  pr_modes_due : modes_promote c (Mn_Modes mn) (Mn_Modes mn');
  pr_selection_due : promotes SLP_Version selectionSuccessor c
    (Mn_SelectionParams mn) (Mn_SelectionParams mn');
  pr_params_due : promotes STP_Version settlementSuccessor c
    (Mn_SettlementParams mn) (Mn_SettlementParams mn')
}.

Lemma bound_epoch_le e b : 1 ≤ e ≤ b → bound_epoch e ≤ b.
Proof. unfold bound_epoch. case_decide; lia. Qed.

Lemma binding_promoted c b s s' e vm vp :
  mining_inv c b s → promoted c (Ms_Mining s) (Ms_Mining s') → 1 ≤ e ≤ c + 1 →
  (∃ m, DistributionModeForTarget (Mn_Modes (Ms_Mining s)) e = Ok m ∧ DM_Version m = vm) →
  (∃ p, SettlementParamsForTarget (Mn_SettlementParams (Ms_Mining s)) e = Ok p ∧ STP_Version p = vp) →
  (∃ m, DistributionModeForTarget (Mn_Modes (Ms_Mining s')) e = Ok m ∧ DM_Version m = vm) ∧
  SettlementParamsForTarget (Mn_SettlementParams (Ms_Mining s')) e =
    SettlementParamsForTarget (Mn_SettlementParams (Ms_Mining s)) e.
Proof.
  intros Hi Hp He (m & Hm & <-) _. pose proof (mi_closed _ _ _ Hi).
  pose proof (bound_epoch_le e (c + 1) He). split.
  - destruct (mode_target_kept c (c + 1) (c + 1) _ (Mn_Modes (Ms_Mining s')) e m (mi_modes _ _ _ Hi)
      (pr_modes _ _ _ Hp) (pr_modes_kept _ _ _ Hp) ltac:(lia) ltac:(done) Hm) as (m' & Hm' & Hv & _).
    eauto.
  - apply (settlement_target_kept c (c + 1)); try done; try lia; [apply Hi | apply Hp].
Qed.

(** Nothing of an epoch has been released yet. *)
Definition untouched rw (e : Z) : Prop := ∀ slot x a rel, entitled rw slot e x a rel → rel = 0.

(** What the module holds once the epoch after [c] is materialized and promoted. *)
Record processed (c vm vp : Z) (l : list SlotEntitlement) s s' : Prop := {
  pc_rewards : Ms_Rewards s' = Ms_Rewards s;
  pc_promoted : promoted c (Ms_Mining s) (Ms_Mining s');
  pc_clock : Mn_SettlementClock (Ms_Mining s') = Mn_SettlementClock (Ms_Mining s);
  pc_cursor : Mn_LastProcessedRewardEpoch (Ms_Mining s') = Some (c + 1);
  pc_anchors : Mn_SettlementEpochAnchors (Ms_Mining s') =
    Mn_SettlementEpochAnchors (anchored (c + 1) (clock_of s) l (Ms_Mining s));
  pc_settlements : Mn_Settlements (Ms_Mining s') =
    Mn_Settlements (add_rows (c + 1) vm vp l (Ms_Mining s));
  pc_open : Mn_OpenSettlementsBySlot (Ms_Mining s') =
    Mn_OpenSettlementsBySlot (add_rows (c + 1) vm vp l (Ms_Mining s))
}.

Lemma anchored_lookup target clock l mn e a :
  Mn_SettlementEpochAnchors (anchored target clock l mn) !! e = Some a ↔
  (l ≠ [] ∧ e = target ∧ a = {| SEA_Epoch := target; SEA_CreatedSettlementClock := clock |}) ∨
  (¬ (l ≠ [] ∧ e = target) ∧ Mn_SettlementEpochAnchors mn !! e = Some a).
Proof.
  destruct l as [|x l]; simpl; [naive_solver|]. rewrite lookup_insert_Some. naive_solver.
Qed.

Lemma new_row_settles c b vm vp l s s' x :
  mining_inv c b s → rw_inv (c + 1) (Ms_Rewards s) → untouched (Ms_Rewards s) (c + 1) →
  binding s (c + 1) vm vp → processed c vm vp l s s' → x ∈ l → Ent_SlotId x ≠ 0 →
  Rk_GetSlotEntitlement (Ms_Rewards s) (Ent_SlotId x) (c + 1) = Ok (Some x) →
  settles s' (Ent_SlotId x) (c + 1) (opened_row (c + 1) vm vp (Ent_SlotId x)).
Proof.
  intros Hi Hrw Hfresh Hbind Hpc Hx Hs Hget. pose proof (mi_closed _ _ _ Hi) as Hc.
  pose proof Hbind as [(m & Hm & Hmv & _) (p & Hp & Hpv & Hpval) [Hnm Hnp]].
  apply STP_Validate_Ok in Hpval as (_ & _ & _ & _ & Hchunks & _).
  destruct (binding_promoted c b s s' (c + 1) vm vp Hi (pc_promoted _ _ _ _ _ _ Hpc))
    as [Hm' Hp']; [lia | by exists m | by exists p |].
  split; try done.
  - unfold validateSettlementRecord. simpl. rewrite !Z.eqb_refl. simpl.
    apply opened_valid; done || lia.
  - rewrite (pc_anchors _ _ _ _ _ _ Hpc). eexists. apply anchored_lookup. left.
    split; [by intros ->; apply elem_of_nil in Hx | done].
  - exists p. rewrite Hp'. split_and!; try done. simpl. lia.
  - destruct (rc_entitlement _ Hrc _ _ (Ent_SlotId x) (c + 1) Hrw Hs ltac:(lia))
      as [E|(y & a & rel & Hy & _)]; [congruence|].
    assert (y = x) as -> by (pose proof (et_get _ _ _ _ _ _ Hy); congruence).
    exists x, a, rel. rewrite (pc_rewards _ _ _ _ _ _ Hpc). split; [done|].
    simpl. by rewrite (Hfresh _ _ _ _ Hy).
Qed.

Lemma old_row_settles c b vm vp l s s' slot e row :
  mining_inv c b s → processed c vm vp l s s' →
  Mn_Settlements (Ms_Mining s) !! (slot, e) = Some row → settles s' slot e row.
Proof.
  intros Hi Hpc Hrow. destruct (mi_settles _ _ _ Hi _ _ _ Hrow) as [He Hst].
  pose proof Hst as [Hrec Hmode [an Han] Hd (p & Hp & Hpv & Hch) Hent].
  destruct (binding_promoted c b s s' e (Stl_DistributionModeVersion row)
    (Stl_SettlementParamsVersion row) Hi (pc_promoted _ _ _ _ _ _ Hpc)) as [Hm' Hp'];
    [lia | done | by exists p |].
  split; try done.
  - rewrite (pc_anchors _ _ _ _ _ _ Hpc). exists an. apply anchored_lookup. right.
    split; [lia | done].
  - exists p. by rewrite Hp'.
  - by rewrite (pc_rewards _ _ _ _ _ _ Hpc).
Qed.

Lemma processed_inv c b vm vp l s s' :
  mining_inv c b s → rw_inv (c + 1) (Ms_Rewards s) → untouched (Ms_Rewards s) (c + 1) →
  binding s (c + 1) vm vp →
  (∀ x, x ∈ l ↔ Ent_SlotId x ≠ 0 ∧ Ent_Epoch x = c + 1 ∧
    Rk_GetSlotEntitlement (Ms_Rewards s) (Ent_SlotId x) (c + 1) = Ok (Some x)) →
  processed c vm vp l s s' → mining_inv (c + 1) b s'.
Proof.
  intros Hi Hrw Hfresh Hbind Hin Hpc. pose proof (rc_bound _ Hrc _ _ Hrw) as Hb.
  pose proof (mi_closed _ _ _ Hi) as Hc. pose proof (pc_promoted _ _ _ _ _ _ Hpc) as [].
  assert (clock_of s' = clock_of s) as Hclock
    by (unfold clock_of; by rewrite (pc_clock _ _ _ _ _ _ Hpc)).
  split; try done.
  - rewrite Hclock, (pc_clock _ _ _ _ _ _ Hpc). apply Hi.
  - by rewrite (pc_cursor _ _ _ _ _ _ Hpc).
  - intros e a. rewrite (pc_anchors _ _ _ _ _ _ Hpc), anchored_lookup, Hclock.
    intros [(_ & -> & ->)|[_ Ha]]; simpl.
    + split; [done|]. pose proof (mi_clock _ _ _ Hi) as [_ ?]. lia.
    + destruct (mi_anchors _ _ _ Hi e a Ha) as (? & ? & ?). split; [done | lia].
  - intros slot e row. rewrite (pc_settlements _ _ _ _ _ _ Hpc), add_rows_settlements.
    intros [(-> & (x & -> & Hx)%list_elem_of_fmap & ->)|[_ Hrow]].
    + split; [lia|]. pose proof (proj1 (Hin x) Hx) as (? & _ & ?). by eapply new_row_settles.
    + split; [|by eapply old_row_settles]. apply (mi_settles _ _ _ Hi) in Hrow as [? _]. lia.
  - intros slot e x a rel Hs He Hx. rewrite (pc_rewards _ _ _ _ _ _ Hpc) in Hx.
    rewrite (pc_settlements _ _ _ _ _ _ Hpc). destruct (decide (e = c + 1)) as [->|].
    + eexists. apply add_rows_settlements. left. split; [done|]. split; [|done].
      apply list_elem_of_fmap. exists x. pose proof (et_slot _ _ _ _ _ _ Hx) as Hsx.
      pose proof (et_epoch _ _ _ _ _ _ Hx). pose proof (et_get _ _ _ _ _ _ Hx).
      split; [done|]. apply Hin. by rewrite Hsx.
    + destruct (mi_complete _ _ _ Hi slot e x a rel Hs ltac:(lia) Hx) as [row Hrow].
      exists row. apply add_rows_settlements. right. split; [naive_solver | done].
  - intros slot e n. rewrite (pc_open _ _ _ _ _ _ Hpc), (pc_settlements _ _ _ _ _ _ Hpc), add_rows_open.
    setoid_rewrite add_rows_settlements. rewrite (mi_open _ _ _ Hi). split.
    + intros [(-> & Hx & ->)|[Hno (-> & row & Hrow & Hf)]]; (split; [done|]); eauto 10.
    + intros (-> & row & [(-> & Hx & ->)|[Hno Hrow]] & Hf); eauto 10.
Qed.

(** ** The end block *)
Lemma promotions_run c mn :
  modes_wf c (Mn_Modes mn) → trusted (Mn_Modes mn) → selection_wf c (Mn_SelectionParams mn) →
  settlement_wf c (Mn_SettlementParams mn) → 0 ≤ c → c + 2 ≤ MaxUint64 → ∃ f g h,
  (on_modes (promoteScheduledDistributionMode (c + 2)) ;;
   on_selection_params (promoteScheduledSelectionParams (c + 2)) ;;
   on_settlement_params (promoteScheduledSettlementParams (c + 2))) mn =
    (put_SettlementParams h (put_SelectionParams g (put_Modes f mn)), Ok tt) ∧
  promoted c mn (put_SettlementParams h (put_SelectionParams g (put_Modes f mn))).
Proof.
  intros Hm Ht Hs Hp Hc Hmax.
  destruct (mode_promotes c _ Hm Hc Hmax) as (f & Hf & Hfw & Hft & Hfk & Hfd).
  destruct (selection_promotes c _ Hs Hc Hmax) as (g & Hg & Hgw & _ & Hgd).
  destruct (settlement_promotes c _ Hp Hc Hmax) as (h & Hh & Hhw & Hhk & Hhd).
  exists f, g, h. split.
  - unfold on_modes. rewrite (zoom_step _ _ _ _ _ f tt) by exact Hf.
    unfold on_selection_params. rewrite (zoom_step _ _ _ _ _ g tt) by exact Hg.
    unfold on_settlement_params. by apply zoom_run.
  - split; simpl; try done. by apply Hft.
Qed.

(** The epoch processed may be one ahead of the module, never more. *)
Lemma end_block_spec c c' b s :
  mining_inv c b s → rw_inv c' (Ms_Rewards s) → c ≤ c' ≤ c + 1 → b < MaxUint64 →
  (c' = c + 1 → untouched (Ms_Rewards s) c') →
  ∃ mn', MiningEndBlock (Ms_Rewards s) (Ms_Mining s) = (mn', Ok tt) ∧
    let s1 := {| Ms_Mining := put_SettlementClock (Some (clock_of s + ticks (Ms_Rewards s)))
                   (Ms_Mining s); Ms_Rewards := Ms_Rewards s |} in
    let s' := {| Ms_Mining := mn'; Ms_Rewards := Ms_Rewards s |} in
    mining_inv c' (b + 1) s' ∧
    ((c' = c ∧ s' = s1) ∨
     (c' = c + 1 ∧ ∃ vm vp l, binding s c' vm vp ∧
       (∀ x, x ∈ l ↔ Ent_SlotId x ≠ 0 ∧ Ent_Epoch x = c' ∧
         Rk_GetSlotEntitlement (Ms_Rewards s) (Ent_SlotId x) c' = Ok (Some x)) ∧
       processed c vm vp l s1 s')).
Proof.
  intros Hi Hrw Hcc Hb Hfresh. set (s1 := {| Ms_Mining := put_SettlementClock _ _ |}).
  pose proof (ticked_inv c b s Hi) as Hi1. fold s1 in Hi1.
  destruct (rc_enabled _ Hrc _ _ Hrw) as [enabled He].
  assert (advanceSettlementClock (Ms_Rewards s) (Ms_Mining s) = (Ms_Mining s1, Ok tt)) as Hadv.
  { destruct s as [mn rw]. simpl in *. by eapply (advance_run c b mn rw). }
  unfold MiningEndBlock. setoid_rewrite (cached_Ok (miningEndBlock (Ms_Rewards s))).
  unfold miningEndBlock. setoid_rewrite (M_bind_run _ _ _ _ _ Hadv).
  destruct (decide (c' = c)) as [->|Hne].
  - exists (Ms_Mining s1). split; [|split; [done | by left]].
    by rewrite (M_bind_run _ _ _ _ _ (materialize_idle c (b + 1) s1 Hi1 Hrw)).
  - assert (c' = c + 1) as -> by lia. specialize (Hfresh eq_refl).
    destruct (materialize_run c (b + 1) s1 Hi1 Hrw) as (vm & vp & l & Hbind & _ & Hnd & Hin & Hrun).
    pose proof (mi_closed _ _ _ Hi) as Hc. set (mn1 := materialized c _ vm vp l _) in Hrun.
    assert (Mn_Modes mn1 = Mn_Modes (Ms_Mining s) ∧
      Mn_SelectionParams mn1 = Mn_SelectionParams (Ms_Mining s) ∧
      Mn_SettlementParams mn1 = Mn_SettlementParams (Ms_Mining s) ∧
      Mn_SettlementClock mn1 = Mn_SettlementClock (Ms_Mining s1) ∧
      Mn_Settlements mn1 = Mn_Settlements (add_rows (c + 1) vm vp l (Ms_Mining s1)) ∧
      Mn_OpenSettlementsBySlot mn1 =
        Mn_OpenSettlementsBySlot (add_rows (c + 1) vm vp l (Ms_Mining s1)) ∧
      Mn_SettlementEpochAnchors mn1 =
        Mn_SettlementEpochAnchors (anchored (c + 1) (clock_of s1) l (Ms_Mining s1)))
      as (E1 & E2 & E3 & E4 & E5 & E6 & E7).
    { unfold mn1, materialized, anchored. destruct l as [|x l]; [done|].
      rewrite (add_rows_frame _ _ _ (x :: l)). done. }
    destruct (promotions_run c mn1) as (f & g & h & Hprom & Hpr);
      [rewrite ?E1, ?E2, ?E3; (apply Hi || lia)..|].
    exists (put_SettlementParams h (put_SelectionParams g (put_Modes f mn1))).
    assert (processed c vm vp l s1 {| Ms_Mining := put_SettlementParams h
      (put_SelectionParams g (put_Modes f mn1)); Ms_Rewards := Ms_Rewards s |}) as Hpc.
    { split; simpl; try done. destruct Hpr as [P1 P2 P3 P4 P5 P6 P7 P8 P9].
      rewrite E1 in P3, P7. rewrite E2 in P8. rewrite E3 in P6, P9. by split. }
    split; [|split; [by eapply processed_inv|]].
    + rewrite (M_bind_run _ _ _ _ _ Hrun). destruct (Z.eqb_spec (c + 1) 0); [lia|].
      rewrite (lift_step _ _ _ (c + 2)); [exact Hprom|].
      assert (AddUint64 (c + 1) 1 = Ok (c + 2)) as ->; [|done].
      replace (c + 2) with (c + 1 + 1) by lia. apply AddUint64_Ok; widths; lia.
    + right. split; [done|]. exists vm, vp, l. split_and!; [|done..].
      destruct Hbind as [B1 B2 B3]. by split.
Qed.
End blocks.
