(* ===== verification/MiningMessages.v ===== *)
(** * x/mining/keeper: chunks and finalization, proved

    What an admitted chunk is, what submitting one does, which arm authorizes a
    finalization, what finalizing does, and that both keep the invariant.  A
    failed message leaves both stores as they were. *)
From S2P Require Import Prelude Checked SdkMath Bounds EconomicAddress RewardsTypes Collections.
From S2P Require Import CoreSlotTypes Entitlement Release MiningTypes MiningHistory MiningKeeper.
From S2P Require Import MiningSettlement MiningHistories MiningInvariant.
From Stdlib Require Import Ascii String.
Local Open Scope Z_scope.

Section chunks.
Context {SI : SdkInt} (econ : Validator).

(** The line of a message that a payout comes from. *)
Definition message_line (p : EntitlementPayout) : option SettlementChunkPayout :=
  Some {| SCP_Recipient := Payout_Recipient p; SCP_Amount := Payout_Amount p |}.

(** A payout set in the order of its recipients, each above the floor. *)
Record payout_set (params : SettlementParamsVersion) (lines : list (option SettlementChunkPayout))
    (payouts : list EntitlementPayout) (total : Z) : Prop := {
  ps_lines : lines = message_line <$> payouts;
  ps_count : (List.length payouts ≤ 32)%nat;
  ps_limit : Z.of_nat (List.length payouts) ≤ STP_MaxRecipientsPerChunk params;
  ps_total : total = sum_of line_amount payouts;
  ps_positive : 0 < total;
  ps_floor : ∃ floor, Mining_ParseCanonicalAmount (STP_MinRecipientPayoutAmount params) = Ok floor ∧
    10000 ≤ floor ∧ Forall (λ p, floor ≤ line_amount p) payouts;
  ps_recipients : ∃ raws, Forall2 (λ p raw, Validate econ (Payout_Recipient p) = Ok raw) payouts raws ∧
    StronglySorted str_lt raws
}.

Lemma requirePayoutFloor_Ok params floor :
  STP_Validate params = Ok tt →
  requirePayoutFloor params = Ok floor ↔
  Mining_ParseCanonicalAmount (STP_MinRecipientPayoutAmount params) = Ok floor.
Proof.
  intros (_ & _ & _ & _ & _ & f & Hf & Hle)%STP_Validate_Ok. unfold requirePayoutFloor.
  rewrite Hf. cbn [mbind res_bind]. unfold HardMinSettlementPayoutAmount.
  destruct (Z.ltb_spec f 10000); [lia | done].
Qed.

Lemma line_amount_parsed p amount :
  Mining_ParseCanonicalAmount (Payout_Amount p) = Ok amount → line_amount p = amount.
Proof. intros H%Mining_ParseCanonicalAmount_iff. unfold line_amount. by rewrite H. Qed.

Lemma admit_lines floor lines acc total prev payouts total' last :
  fold_m (admit_line econ floor) lines (acc, total, prev) = Ok (payouts, total', last) →
  ∃ new raws, payouts = acc ++ new ∧ lines = message_line <$> new ∧
    total' = total + sum_of line_amount new ∧ Forall (λ p, floor ≤ line_amount p) new ∧
    Forall2 (λ p raw, Validate econ (Payout_Recipient p) = Ok raw) new raws ∧
    StronglySorted str_lt raws ∧
    (∀ r, prev = Some r → Forall (str_lt r) raws).
Proof.
  revert acc total prev. induction lines as [|line lines IH]; intros acc total prev H; cbn [fold_m] in H.
  { minv. simplify_eq. exists [], []. rewrite app_nil_r.
    split_and!; [done | done | simpl; lia | constructor | constructor | constructor | constructor]. }
  apply res_bind_Ok in H as ([[acc1 total1] prev1] & Hline & H).
  unfold admit_line in Hline. destruct line as [line|]; [|done].
  apply res_bind_Ok in Hline as (raw & Hraw & Hline). apply wrap_Ok in Hraw.
  apply res_bind_Ok in Hline as ([] & Horder & Hline). apply res_fail_if_Ok in Horder.
  apply res_bind_Ok in Hline as (amount & Hamount & Hline).
  apply res_bind_Ok in Hline as ([] & Hfloor & Hline). apply res_fail_if_Ok in Hfloor. zify_bool.
  apply res_bind_Ok in Hline as (sum & Hsum & Hline). apply SafeAdd_Ok in Hsum as [-> _].
  minv. simplify_eq.
  set (p := {| Payout_Recipient := SCP_Recipient line; Payout_Amount := SCP_Amount line |}) in *.
  pose proof (line_amount_parsed p amount Hamount) as Hp.
  destruct (IH _ _ _ H) as (new & raws & -> & -> & -> & Hfl & Hval & Hsorted & Hprev).
  specialize (Hprev raw eq_refl). exists (p :: new), (raw :: raws).
  split_and!; [by rewrite <- app_assoc | by destruct line | simpl; lia | | | |].
  - constructor; [lia | done].
  - by constructor.
  - by constructor.
  - intros r ->. assert (str_lt r raw) as Hr
      by (unfold str_lt; by destruct (String.compare r raw)).
    constructor; [done|]. eapply Forall_impl; [exact Hprev|]. intros y. by apply str_lt_trans.
Qed.

Lemma admitPayoutSet_Ok params lines payouts total :
  STP_Validate params = Ok tt → admitPayoutSet econ params lines = Ok (payouts, total) →
  payout_set params lines payouts total.
Proof.
  intros Hv H. unfold admitPayoutSet in H.
  apply res_bind_Ok in H as ([] & Hlen & H). apply res_fail_if_Ok in Hlen. zify_bool.
  apply res_bind_Ok in H as (floor & Hfloor & H). apply requirePayoutFloor_Ok in Hfloor; [|done].
  apply res_bind_Ok in H as ([[ps t] last] & Hfold & H).
  apply res_bind_Ok in H as ([] & Hpos & H). apply res_fail_if_Ok, negb_false_iff in Hpos. zify_bool.
  minv. simplify_eq.
  apply admit_lines in Hfold as (new & raws & -> & -> & -> & Hfl & Hval & Hsorted & _).
  simpl in *. rewrite length_fmap in Hlen.
  apply STP_Validate_Ok in Hv as (_ & _ & _ & Hr & _ & f & Hf & Hle).
  split; try done; try lia; [|by exists raws].
  exists f. split_and!; try done. by replace f with floor by congruence.
Qed.
End chunks.

(** ** Submitting a chunk *)
Section submit.
Context {SI : SdkInt} {BE : Bech32} {CK : CoreSlotKeeper} {RK : RewardsKeeper} (econ : Validator).
Context (rw_inv : Z → RewardsStore → Prop) (Hrc : rewards_contract rw_inv).
Implicit Types (s : MiningState) (row : Settlement).

(** The signer is the settlement address the slot has now. *)
Definition authorised (cs : CoreSlotStore) (slot : Z) (signer : string) : Prop :=
  ∃ sl raw, GetSlot cs slot = Ok sl ∧ Validate econ (SettlementAddress sl) = Ok raw ∧
    Validate econ signer = Ok raw.

Lemma requireSettlementSigner_Ok cs row signer :
  requireSettlementSigner econ cs row signer = Ok tt ↔ authorised cs (Stl_SlotId row) signer.
Proof.
  unfold requireSettlementSigner, authorised. split.
  - intros H. minv. match goal with H : bool_decide (?a ≠ ?b) = false |- _ =>
      apply bool_decide_eq_false_1 in H; destruct (decide (a = b)) as [->|]; [|done] end. eauto.
  - intros (sl & raw & -> & H1 & H2). cbn [wrap mbind res_bind]. rewrite H1. cbn [wrap mbind res_bind].
    rewrite H2. cbn [wrap mbind res_bind]. by rewrite bool_decide_eq_false_2 by auto.
Qed.

(** When the participant window of a settlement ends. *)
Definition deadline s row : res Z := SettlementDeadlineClock (Ms_Rewards s) (Ms_Mining s) row.

Lemma deadline_read s row an p :
  requireEpochAnchor (Ms_Mining s) (Stl_Epoch row) = Ok an →
  SettlementParamsForTarget (Mn_SettlementParams (Ms_Mining s)) (Stl_Epoch row) = Ok p →
  STP_Version p = Stl_SettlementParamsVersion row →
  deadline s row = DeadlineClock (Ms_Rewards s) row an p.
Proof.
  intros Ha Hp Hv. unfold deadline, SettlementDeadlineClock, settlementDeadlineFromAnchor.
  rewrite Ha. cbn [mbind res_bind]. rewrite Hp. cbn [mbind res_bind]. by rewrite Hv, Z.eqb_refl.
Qed.

(** A chunk admitted in a state of the invariant. *)
Record chunk_admitted (cs : CoreSlotStore) s (msg : MsgSubmitSettlementChunk) row params
    (payouts : list EntitlementPayout) (total : Z) : Prop := {
  ca_row : Mn_Settlements (Ms_Mining s) !! (MSC_SlotId msg, MSC_Epoch msg) = Some row;
  ca_open : Stl_Finalized row = false;
  ca_signer : authorised cs (MSC_SlotId msg) (MSC_SettlementAddress msg);
  ca_params : SettlementParamsForTarget (Mn_SettlementParams (Ms_Mining s)) (MSC_Epoch msg) = Ok params;
  ca_deadline : ∃ d, deadline s row = Ok d ∧ clock_of s < d;
  ca_position : MSC_ChunkIndex msg = Stl_NextChunkIndex row;
  ca_limit : Stl_NextChunkIndex row < STP_MaxChunksPerSettlement params ≤ 4;
  ca_payouts : payout_set econ params (MSC_Payouts msg) payouts total;
  ca_ceiling : ∃ x a rel, entitled (Ms_Rewards s) (MSC_SlotId msg) (MSC_Epoch msg) x a rel ∧
    rel + total ≤ a
}.

Lemma requireEntitlementFor_Ok rw row x a rel :
  entitled rw (Stl_SlotId row) (Stl_Epoch row) x a rel → requireEntitlementFor rw row = Ok x.
Proof.
  intros Hx. unfold requireEntitlementFor. rewrite (et_get _ _ _ _ _ _ Hx). cbn [wrap mbind res_bind].
  by rewrite (et_slot _ _ _ _ _ _ Hx), (et_epoch _ _ _ _ _ _ Hx), !Z.eqb_refl.
Qed.

Lemma admitChunk_spec c b cs s msg admitted :
  mining_inv c b s → MSC_SlotId msg ≠ 0 → MSC_Epoch msg ≠ 0 →
  admitChunk econ cs msg s = Ok admitted → ∃ params,
    chunk_admitted cs s msg (ac_settlement admitted) params (ac_payouts admitted) (ac_total admitted).
Proof.
  intros Hi Hs He H. unfold admitChunk in H. rewrite (get_settlement c b s _ _ Hi Hs He) in H.
  cbn [mbind res_bind] in H.
  destruct (Mn_Settlements (Ms_Mining s) !! (MSC_SlotId msg, MSC_Epoch msg)) as [row|] eqn:Hrow; [|done].
  destruct (mi_settles _ _ _ Hi _ _ _ Hrow) as [Hec Hst].
  destruct (settles_facts s _ _ _ Hst) as (Hsl & Hep & _).
  destruct Hst as [_ Hmode Hanchor _ (p & Hp & Hpv & Hch) (x & a & rel & Hx & _)].
  destruct (anchor_of c b s _ Hi Hanchor) as (an & Han & _ & Hac).
  destruct (settlement_target c _ (MSC_Epoch msg) (mi_params _ _ _ Hi)) as (_ & q & Hq & _ & _ & Hval);
    [pose proof (mi_closed _ _ _ Hi); lia|]. replace q with p in * by congruence. clear Hq.
  apply res_bind_Ok in H as ([] & Hopen & H). apply res_fail_if_Ok in Hopen.
  apply res_bind_Ok in H as ([] & _ & H).
  apply res_bind_Ok in H as ([] & Hsig & H). apply requireSettlementSigner_Ok in Hsig.
  rewrite Hep, Hp in H. cbn [mbind res_bind] in H. rewrite Hpv, Z.eqb_refl in H.
  cbn [negb fail_if mret res_ret mbind res_bind] in H.
  apply res_bind_Ok in H as ([] & Hbefore & H). unfold requireBeforeDeadline in Hbefore.
  rewrite Hep, Han, (clock_read c b s Hi) in Hbefore. cbn [mbind res_bind] in Hbefore.
  apply res_bind_Ok in Hbefore as ([] & _ & Hbefore).
  apply res_bind_Ok in Hbefore as (d & Hd & Hlt). apply res_fail_if_Ok in Hlt. zify_bool.
  apply res_bind_Ok in H as ([] & Hpos & H). unfold requireChunkPosition in Hpos.
  apply res_bind_Ok in Hpos as ([] & H1 & Hpos). apply res_fail_if_Ok, negb_false_iff in H1. zify_bool.
  apply res_bind_Ok in Hpos as ([] & H2 & _). apply res_fail_if_Ok in H2. zify_bool.
  apply res_bind_Ok in H as ([payouts total] & Hps & H). apply admitPayoutSet_Ok in Hps; [|done].
  apply res_bind_Ok in H as ([] & Hceil & H). injection H as <-. exists p. simpl.
  rewrite <- Hsl, <- Hep in Hx. unfold requireWithinParticipantCeiling in Hceil.
  rewrite (requireEntitlementFor_Ok _ _ _ _ _ Hx) in Hceil. cbn [mbind res_bind] in Hceil.
  unfold ParticipantDistributionCeiling in Hceil.
  rewrite Hmode, (et_amount _ _ _ _ _ _ Hx), (et_released _ _ _ _ _ _ Hx) in Hceil.
  cbn [wrap mbind res_bind] in Hceil.
  apply res_bind_Ok in Hceil as (n & Hn & Hceil). apply SafeAdd_Ok in Hn as [-> _].
  apply res_fail_if_Ok in Hceil. zify_bool. rewrite Hsl, Hep in Hx.
  apply STP_Validate_Ok in Hval as (_ & _ & _ & _ & Hmax & _).
  split; try done.
  - by rewrite <- Hsl.
  - exists d. split; [|lia]. rewrite (deadline_read s row an p) by (rewrite ?Hep; done). done.
  - lia.
  - exists x, a, rel. split; [done | lia].
Qed.

(** ** One row replaced *)
Record replaced (slot e : Z) row' s s' : Prop := {
  rp_frame : Ms_Mining s' = put_OpenSettlementsBySlot (Mn_OpenSettlementsBySlot (Ms_Mining s'))
    (put_Settlements (<[(slot, e) := row']> (Mn_Settlements (Ms_Mining s))) (Ms_Mining s));
  rp_open : Mn_OpenSettlementsBySlot (Ms_Mining s') =
    (if Stl_Finalized row' then delete (slot, e) else id) (Mn_OpenSettlementsBySlot (Ms_Mining s));
  rp_others : ∀ slot' e', (slot', e') ≠ (slot, e) →
    Rk_GetSlotEntitlement (Ms_Rewards s') slot' e' = Rk_GetSlotEntitlement (Ms_Rewards s) slot' e'
}.

(** The histories, the anchors, the clock and the cursor are as they were. *)
Lemma replaced_fields slot e row' s s' : replaced slot e row' s s' →
  Mn_Modes (Ms_Mining s') = Mn_Modes (Ms_Mining s) ∧
  Mn_SelectionParams (Ms_Mining s') = Mn_SelectionParams (Ms_Mining s) ∧
  Mn_SettlementParams (Ms_Mining s') = Mn_SettlementParams (Ms_Mining s) ∧
  Mn_SettlementClock (Ms_Mining s') = Mn_SettlementClock (Ms_Mining s) ∧
  Mn_LastProcessedRewardEpoch (Ms_Mining s') = Mn_LastProcessedRewardEpoch (Ms_Mining s) ∧
  Mn_SettlementEpochAnchors (Ms_Mining s') = Mn_SettlementEpochAnchors (Ms_Mining s) ∧
  Mn_Settlements (Ms_Mining s') = <[(slot, e) := row']> (Mn_Settlements (Ms_Mining s)).
Proof. intros Hr. rewrite (rp_frame _ _ _ _ _ Hr). done. Qed.

Lemma settles_other s s' slot e row :
  Mn_Modes (Ms_Mining s') = Mn_Modes (Ms_Mining s) →
  Mn_SettlementParams (Ms_Mining s') = Mn_SettlementParams (Ms_Mining s) →
  Mn_SettlementEpochAnchors (Ms_Mining s') = Mn_SettlementEpochAnchors (Ms_Mining s) →
  Rk_GetSlotEntitlement (Ms_Rewards s') slot e = Rk_GetSlotEntitlement (Ms_Rewards s) slot e →
  settles s slot e row → settles s' slot e row.
Proof.
  intros E1 E2 E3 Hg [H1 H2 H3 H4 H5 (x & a & rel & Hx & Hr)].
  split; rewrite ?E1, ?E2, ?E3; try done. exists x, a, rel. split; [|done].
  by apply (entitled_kept (Ms_Rewards s)).
Qed.

Lemma replaced_inv c b s s' slot e row row' :
  mining_inv c b s → Mn_Settlements (Ms_Mining s) !! (slot, e) = Some row →
  Stl_Finalized row = false → replaced slot e row' s s' → settles s' slot e row' →
  mining_inv c b s'.
Proof.
  intros Hi Hrow Hopen Hr Hst. pose proof (replaced_fields _ _ _ _ _ Hr) as (E1 & E2 & E3 & E4 & E5 & E6 & E7).
  assert (clock_of s' = clock_of s) as Hclock by (unfold clock_of; by rewrite E4).
  pose proof (mi_settles _ _ _ Hi _ _ _ Hrow) as [He _].
  split; rewrite ?E1, ?E2, ?E3, ?E4, ?E5, ?E6, ?E7, ?Hclock; try apply Hi.
  - intros i j r [[[= <- <-] <-]|[Hne Hj]]%lookup_insert_Some; [done|].
    destruct (mi_settles _ _ _ Hi _ _ _ Hj) as [? Hs]. split; [done|].
    apply (settles_other s); try done. apply (rp_others _ _ _ _ _ Hr). congruence.
  - intros i j x a rel Hi0 Hj Hx. rewrite lookup_insert_is_Some'.
    destruct (decide ((i, j) = (slot, e))) as [|Hne]; [by left|]. right.
    eapply (mi_complete _ _ _ Hi); [done..|].
    apply (entitled_kept _ (Ms_Rewards s')); [|done]. by apply (rp_others _ _ _ _ _ Hr).
  - intros i j n. rewrite (rp_open _ _ _ _ _ Hr).
    destruct (decide ((i, j) = (slot, e))) as [[= -> ->]|Hne].
    + rewrite lookup_insert_eq. destruct (Stl_Finalized row') eqn:Hf.
      * rewrite lookup_delete_eq. split; [done|]. intros (_ & r & [= <-] & Hr2). congruence.
      * simpl. rewrite (mi_open _ _ _ Hi). rewrite Hrow. split.
        -- intros (-> & _). split; [done|]. by exists row'.
        -- intros (-> & _). split; [done|]. by exists row.
    + rewrite lookup_insert_ne by congruence. destruct (Stl_Finalized row').
      * rewrite lookup_delete_ne by congruence. apply (mi_open _ _ _ Hi).
      * apply (mi_open _ _ _ Hi).
Qed.

(** What submitting does, on every branch. *)
Lemma submit_spec c b cs msg s s' r :
  mining_inv c b s → rw_inv c (Ms_Rewards s) →
  SubmitSettlementChunk econ cs (Some msg) s = (s', r) →
  match r with
  | Err _ => s' = s
  | Ok next => ∃ row params payouts total,
      chunk_admitted cs s msg row params payouts total ∧
      next = Stl_NextChunkIndex row + 1 ∧
      replaced (MSC_SlotId msg) (MSC_Epoch msg) (with_next_chunk row next) s s' ∧
      pays (Ms_Rewards s) (Ms_Rewards s') (MSC_SlotId msg) (MSC_Epoch msg) total ∧
      Rk_SettlementReleaseEnabled (Ms_Rewards s) = Ok true ∧
      mining_inv c b s' ∧ rw_inv c (Ms_Rewards s')
  end.
Proof.
  intros Hi Hrw H. unfold SubmitSettlementChunk in H.
  destruct r as [next|err]; [|by eapply cached_Err].
  apply (proj1 (cached_Ok _ _ _ _)) in H. unfold submitSettlementChunk in H.
  apply M_bind_Ok in H as ([] & s1 & H1 & H). apply lift_Ok in H1 as [-> Hval].
  apply M_bind_Ok in H as ([] & s1 & H1 & H). apply reads_Ok in H1 as [-> Hen].
  apply M_bind_Ok in H as (adm & s1 & H1 & H). apply reads_Ok in H1 as [-> Hadm].
  apply M_bind_Ok in H as ([] & s1 & H1 & H). unfold on_rewards in H1.
  apply zoom_Ok in H1 as (rw' & Hpay & ->).
  apply M_bind_Ok in H as (n & s1 & H1 & H). apply lift_Ok in H1 as [-> Hn].
  apply wrap_Ok in Hn.
  apply M_bind_Ok in H as ([] & s1 & H1 & H). apply lift_Ok in H1 as [-> Hupd].
  apply M_bind_Ok in H as ([] & s1 & H1 & H). unfold on_mining in H1.
  apply zoom_Ok in H1 as (mn' & Hset & ->). apply modify_Ok in Hset as ->.
  apply M_ret_Ok in H as [-> ->].
  assert (MSC_SlotId msg ≠ 0 ∧ MSC_Epoch msg ≠ 0) as [Hs He]
    by (clear - Hval; unfold MSC_Validate in Hval; minv; by zify_bool).
  destruct (admitChunk_spec c b cs s msg adm Hi Hs He Hadm) as (params & Hca).
  pose proof Hca as [Hrow Hopen _ Hp _ _ Hlim Hps _].
  destruct (mi_settles _ _ _ Hi _ _ _ Hrow) as [Hec Hst].
  destruct (settles_facts s _ _ _ Hst) as (Hsl & Hep & _).
  assert (n = Stl_NextChunkIndex (ac_settlement adm) + 1) as ->.
  { destruct Hst as [_ _ _ _ (q & _ & _ & Hch) _].
    by apply AddUint64_Ok in Hn as [-> _]; [|widths; lia..]. }
  pose proof (rc_pay _ Hrc _ _ _ _ _ _ _ Hrw Hpay) as [Hrw' Hpays].
  pose proof (ps_total _ _ _ _ _ Hps) as Htotal. rewrite <- Htotal in Hpays.
  set (row := ac_settlement adm) in *. set (row' := with_next_chunk row (Stl_NextChunkIndex row + 1)) in *.
  exists row, params, (ac_payouts adm), (ac_total adm).
  set (s' := put_Mining _ _).
  assert (replaced (MSC_SlotId msg) (MSC_Epoch msg) row' s s') as Hrep.
  { split; simpl.
    - rewrite Hsl, Hep. by destruct (Ms_Mining s).
    - by rewrite Hopen.
    - apply Hpays. }
  assert (settles s' (MSC_SlotId msg) (MSC_Epoch msg) row') as Hst'.
  { destruct Hst as [H1 H2 H3 H4 (q & Hq & Hqv & Hch) (x & a & rel & Hx & Hrel)].
    destruct (py_entitlement _ _ _ _ _ Hpays) as (y & y' & a' & rel' & Hy & Hy').
    destruct (entitled_inj _ _ _ _ _ _ _ _ _ Hx Hy) as (-> & -> & ->).
    split; try done.
    - exists q. split_and!; try done; simpl; [lia|]. replace q with params by congruence. lia.
    - exists y', a, (rel + ac_total adm). split; [exact Hy'|]. simpl. rewrite Hopen.
      pose proof (ps_positive _ _ _ _ _ Hps). pose proof (et_bounds _ _ _ _ _ _ Hx). lia. }
  split_and!; try done.
  - clear - Hen. unfold requireReleaseEnabled in Hen. minv. done.
  - by eapply replaced_inv.
Qed.

(** ** Finalizing *)
(** The arm a finalization takes, and what it asks of the signer. *)
Definition arm_taken (cs : CoreSlotStore) s row (signer : string) (d : Z)
    (reason : SettlementFinalizationReason) : Prop :=
  if decide (d ≤ clock_of s)
  then reason = SETTLEMENT_FINALIZATION_REASON_PERMISSIONLESS_AFTER_DEADLINE ∧
    ∃ raw, ParseAccountAddress econ signer = Ok raw
  else reason = SETTLEMENT_FINALIZATION_REASON_AUTHORIZED_EARLY ∧
    authorised cs (Stl_SlotId row) signer.

Lemma arm_spec c b cs s slot e row signer :
  mining_inv c b s → Mn_Settlements (Ms_Mining s) !! (slot, e) = Some row →
  (∀ reason, resolveFinalizationArm econ cs row signer s = Ok reason ↔
    ∃ d, deadline s row = Ok d ∧ arm_taken cs s row signer d reason).
Proof.
  intros Hi Hrow reason. destruct (mi_settles _ _ _ Hi _ _ _ Hrow) as [Hec Hst].
  destruct (settles_facts s _ _ _ Hst) as (Hsl & Hep & _).
  destruct Hst as [_ Hmode Hanchor _ (p & Hp & Hpv & Hch) _].
  destruct (anchor_of c b s _ Hi Hanchor) as (an & Han & _ & Hac).
  rewrite (deadline_read s row an p) by (rewrite ?Hep; done).
  unfold resolveFinalizationArm. rewrite Hep, Han. cbn [mbind res_bind]. rewrite Hmode.
  unfold resolveWindowArm, finalizationDeadline. rewrite Hep, Hp. cbn [mbind res_bind].
  rewrite Hpv, Z.eqb_refl, (clock_read c b s Hi). cbn [negb fail_if mret res_ret mbind res_bind].
  unfold requireAnchorHasElapsed. rewrite Z.gtb_ltb.
  destruct (Z.ltb_spec (clock_of s) (SEA_CreatedSettlementClock an)); [lia|].
  cbn [fail_if mret res_ret mbind res_bind].
  destruct (DeadlineClock (Ms_Rewards s) row an p) as [d|]; cbn [mret res_ret mbind res_bind]; [|split; naive_solver].
  assert (∀ Q : Z → Prop, (∃ d', Ok d = Ok d' ∧ Q d') ↔ Q d) as HQ
    by (intros Q; split; [by intros (d' & [= ->] & ?) | eauto]).
  rewrite (HQ (λ d', arm_taken cs s row signer d' reason)).
  unfold arm_taken. rewrite Z.geb_leb. destruct (Z.leb_spec d (clock_of s)).
  - rewrite decide_True by done. unfold requireValidSigner.
    destruct (ParseAccountAddress econ signer) as [raw|]; cbn; [|naive_solver].
    split; [intros [= <-]; eauto | by intros [-> _]].
  - rewrite decide_False by lia. rewrite <- requireSettlementSigner_Ok.
    destruct (requireSettlementSigner econ cs row signer) as [[]|]; cbn; [|naive_solver].
    split; [intros [= <-]; eauto | by intros [-> _]].
Qed.

(** The remainder goes to the operator, or there is none. *)
Definition remainder_paid s s' (slot e a rel : Z) : Prop :=
  if decide (rel = a) then Ms_Rewards s' = Ms_Rewards s
  else pays (Ms_Rewards s) (Ms_Rewards s') slot e (a - rel).

Lemma release_spec c s s' row x a rel out :
  rw_inv c (Ms_Rewards s) → entitled (Ms_Rewards s) (Stl_SlotId row) (Stl_Epoch row) x a rel →
  releaseOperatorRemainder row s = (s', Ok out) →
  out = a - rel ∧ Ms_Mining s' = Ms_Mining s ∧ rw_inv c (Ms_Rewards s') ∧
  remainder_paid s s' (Stl_SlotId row) (Stl_Epoch row) a rel ∧
  ∃ x', entitled (Ms_Rewards s') (Stl_SlotId row) (Stl_Epoch row) x' a a.
Proof.
  intros Hrw Hx H. unfold releaseOperatorRemainder in H.
  rewrite (reads_step _ _ _ x) in H by by eapply requireEntitlementFor_Ok.
  apply M_bind_Ok in H as (n & s1 & H1 & H). apply lift_Ok in H1 as [-> Hn].
  assert (n = a - rel) as ->.
  { unfold remainingEntitlement in Hn.
    rewrite (et_amount _ _ _ _ _ _ Hx), (et_released _ _ _ _ _ _ Hx) in Hn. cbn [wrap mbind res_bind] in Hn.
    apply res_bind_Ok in Hn as ([] & _ & Hn). by apply SafeSub_Ok in Hn as [-> _]. }
  apply M_bind_Ok in H as ([] & s1 & H1 & H). apply M_bind_Ok in H as ([] & s2 & H2 & H).
  apply reads_Ok in H2 as [-> _]. apply M_ret_Ok in H as [-> ->]. split; [done|].
  pose proof (et_bounds _ _ _ _ _ _ Hx) as Hb. unfold remainder_paid. rewrite Z.gtb_ltb in H1.
  destruct (Z.ltb_spec 0 (a - rel)).
  - unfold on_rewards in H1. apply zoom_Ok in H1 as (rw' & Hpay & ->). rewrite decide_False by lia.
    pose proof (rc_remainder _ Hrc _ _ _ _ _ _ Hrw Hpay) as [Hrw' (y & a' & rel' & Hy & Hpays)].
    destruct (entitled_inj _ _ _ _ _ _ _ _ _ Hx Hy) as (-> & -> & ->). split_and!; try done.
    destruct (py_entitlement _ _ _ _ _ Hpays) as (y & x' & a' & rel' & Hy' & Hx').
    destruct (entitled_inj _ _ _ _ _ _ _ _ _ Hx Hy') as (-> & -> & ->). exists x'.
    by replace a with (rel + (a - rel)) at 2 by lia.
  - apply M_ret_Ok in H1 as [-> _]. rewrite decide_True by lia. split_and!; try done.
    exists x. by replace a with rel at 2 by lia.
Qed.

Lemma finalize_spec c b cs height msg s s' r :
  mining_inv c b s → rw_inv c (Ms_Rewards s) →
  FinalizeSettlement econ cs height (Some msg) s = (s', r) →
  match r with
  | Err _ => s' = s
  | Ok out => ∃ row d x a rel,
      Mn_Settlements (Ms_Mining s) !! (MFS_SlotId msg, MFS_Epoch msg) = Some row ∧
      Stl_Finalized row = false ∧ Rk_SettlementReleaseEnabled (Ms_Rewards s) = Ok true ∧
      deadline s row = Ok d ∧ arm_taken cs s row (MFS_Signer msg) d (fs_reason out) ∧
      entitled (Ms_Rewards s) (MFS_SlotId msg) (MFS_Epoch msg) x a rel ∧
      fs_remainder out = a - rel ∧
      remainder_paid s s' (MFS_SlotId msg) (MFS_Epoch msg) a rel ∧
      replaced (MFS_SlotId msg) (MFS_Epoch msg)
        (with_finalization row (u64 height) (fs_reason out)) s s' ∧
      mining_inv c b s' ∧ rw_inv c (Ms_Rewards s')
  end.
Proof.
  intros Hi Hrw H. unfold FinalizeSettlement in H.
  destruct r as [out|err]; [|by eapply cached_Err].
  apply (proj1 (cached_Ok _ _ _ _)) in H. unfold finalizeSettlement in H.
  apply M_bind_Ok in H as ([] & s1 & H1 & H). apply lift_Ok in H1 as [-> Hval].
  apply M_bind_Ok in H as ([] & s1 & H1 & H). apply reads_Ok in H1 as [-> Hen].
  assert (MFS_SlotId msg ≠ 0 ∧ MFS_Epoch msg ≠ 0) as [Hs He]
    by (clear - Hval; unfold MFS_Validate in Hval; minv; by zify_bool).
  rewrite (reads_step _ _ s _ (get_settlement c b s _ _ Hi Hs He)) in H.
  destruct (Mn_Settlements (Ms_Mining s) !! (MFS_SlotId msg, MFS_Epoch msg)) as [row|] eqn:Hrow; [|done].
  apply M_bind_Ok in H as ([] & s1 & H1 & H). apply M_fail_if_Ok in H1 as [-> Hopen].
  apply M_bind_Ok in H as (reason & s1 & H1 & H). apply reads_Ok in H1 as [-> Harm].
  apply (arm_spec c b cs s _ _ row _ Hi Hrow) in Harm as (d & Hd & Harm).
  destruct (mi_settles _ _ _ Hi _ _ _ Hrow) as [Hec Hst].
  destruct (settles_facts s _ _ _ Hst) as (Hsl & Hep & _).
  pose proof Hst as [H1 H2 H3 H4 H5 (x & a & rel & Hx & Hrel)].
  apply M_bind_Ok in H as (n & s1 & Hrls & H).
  rewrite <- Hsl, <- Hep in Hx.
  destruct (release_spec c s s1 row x a rel n Hrw Hx Hrls) as (-> & Hmn & Hrw' & Hpaid & x' & Hx').
  apply M_bind_Ok in H as ([] & s2 & H6 & H). apply M_ret_Ok in H as [-> ->].
  unfold on_mining in H6. apply zoom_Ok in H6 as (mn' & Hwrite & ->). rewrite Hmn in Hwrite.
  unfold writeFinalizedSettlement, setSettlement, removeOpen in Hwrite. minv.
  assert (Rk_SettlementReleaseEnabled (Ms_Rewards s) = Ok true) as Henabled
    by (clear - Hen; unfold requireReleaseEnabled in Hen; by minv).
  rewrite Hsl, Hep in *. set (row' := with_finalization row (u64 height) reason) in *.
  match goal with |- context [put_Mining ?m s1] => set (s' := put_Mining m s1) end.
  assert (replaced (MFS_SlotId msg) (MFS_Epoch msg) row' s s') as Hrep.
  { split; simpl; rewrite ?Hsl, ?Hep; [by destruct (Ms_Mining s) | done|].
    intros i j Hne. unfold remainder_paid in Hpaid. case_decide; [by rewrite Hpaid|].
    by apply (py_others _ _ _ _ _ Hpaid). }
  exists row, d, x, a, rel. split_and!; try done.
  eapply replaced_inv; [done..|]. split; try done.
  - unfold validateSettlementRecord. simpl. rewrite Hsl, Hep, !Z.eqb_refl. done.
  - exists x', a, a. done.
Qed.

(** ** Finalization goes through *)
Lemma arm_signer cs s row signer d reason : arm_taken cs s row signer d reason →
  signer ≠ EmptyString ∧ reason ≠ SETTLEMENT_FINALIZATION_REASON_UNSPECIFIED.
Proof.
  unfold arm_taken. case_decide.
  - intros [-> [raw (c & _ & ? & _)%ParseAccountAddress_Ok]]. done.
  - intros [-> (sl & raw & _ & _ & (Hp & _)%Validate_Ok)].
    apply ParseAccountAddress_Ok in Hp as (c & _ & ? & _). done.
Qed.

Lemma release_total c s row x a rel :
  rw_inv c (Ms_Rewards s) → entitled (Ms_Rewards s) (Stl_SlotId row) (Stl_Epoch row) x a rel →
  (rel < a → ∃ rw', Rk_PayEntitlementRemainderToOperator (Stl_SlotId row) (Stl_Epoch row)
     (Ms_Rewards s) = (rw', Ok tt)) →
  ∃ s', releaseOperatorRemainder row s = (s', Ok (a - rel)).
Proof.
  intros Hrw Hx Hpay. pose proof (et_bounds _ _ _ _ _ _ Hx) as Hb.
  pose proof (et_amount _ _ _ _ _ _ Hx) as Ha. pose proof (et_released _ _ _ _ _ _ Hx) as Hr.
  unfold releaseOperatorRemainder. rewrite (reads_step _ _ _ x) by by eapply requireEntitlementFor_Ok.
  rewrite (lift_step _ _ _ (a - rel)).
  2:{ unfold remainingEntitlement. rewrite Ha, Hr. cbn [wrap mbind res_bind]. rewrite Z.gtb_ltb.
      destruct (Z.ltb_spec a rel); [lia|]. cbn. apply SafeSub_Ok. split; [done|].
      apply Ent_Amount_Ok in Ha as [_ Ha%int_ok_true]. apply int_ok_true. lia. }
  assert (∀ st y, entitled (Ms_Rewards st) (Stl_SlotId row) (Stl_Epoch row) y a a →
    requireEntitlementFullyReleased row st = Ok tt) as Hfull.
  { intros st y Hy. unfold requireEntitlementFullyReleased.
    rewrite (requireEntitlementFor_Ok _ _ _ _ _ Hy). cbn [mbind res_bind].
    rewrite (et_amount _ _ _ _ _ _ Hy), (et_released _ _ _ _ _ _ Hy). cbn. by rewrite Z.eqb_refl. }
  rewrite Z.gtb_ltb. destruct (Z.ltb_spec 0 (a - rel)).
  - destruct Hpay as [rw' Hpay]; [lia|]. unfold on_rewards. rewrite (zoom_step _ _ _ _ _ rw' tt) by exact Hpay.
    pose proof (rc_remainder _ Hrc _ _ _ _ _ _ Hrw Hpay) as [Hrw' (y & a' & rel' & Hy & Hpays)].
    destruct (entitled_inj _ _ _ _ _ _ _ _ _ Hx Hy) as (-> & -> & ->).
    destruct (py_entitlement _ _ _ _ _ Hpays) as (y & x' & a' & rel' & Hy' & Hx').
    destruct (entitled_inj _ _ _ _ _ _ _ _ _ Hx Hy') as (-> & -> & ->).
    replace (rel + (a - rel)) with a in Hx' by lia.
    rewrite (reads_step _ _ _ tt) by by eapply (Hfull (put_Rewards rw' s)). eauto.
  - rewrite ret_step. assert (rel = a) as -> by lia.
    rewrite (reads_step _ _ _ tt) by by eapply Hfull. eauto.
Qed.

Lemma finalize_total c b cs height msg s row d x a rel reason :
  mining_inv c b s → rw_inv c (Ms_Rewards s) →
  Mn_Settlements (Ms_Mining s) !! (MFS_SlotId msg, MFS_Epoch msg) = Some row →
  Stl_Finalized row = false → Rk_SettlementReleaseEnabled (Ms_Rewards s) = Ok true →
  deadline s row = Ok d → arm_taken cs s row (MFS_Signer msg) d reason →
  entitled (Ms_Rewards s) (MFS_SlotId msg) (MFS_Epoch msg) x a rel → 0 < height ≤ MaxInt64 →
  (rel < a → ∃ rw', Rk_PayEntitlementRemainderToOperator (MFS_SlotId msg) (MFS_Epoch msg)
     (Ms_Rewards s) = (rw', Ok tt)) →
  ∃ s', FinalizeSettlement econ cs height (Some msg) s =
    (s', Ok {| fs_reason := reason; fs_remainder := a - rel |}).
Proof.
  intros Hi Hrw Hrow Hopen Hen Hd Harm Hx Hh Hpay.
  destruct (mi_settles _ _ _ Hi _ _ _ Hrow) as [Hec Hst].
  destruct (settles_facts s _ _ _ Hst) as (Hsl & Hep & Hs & He & Hval).
  destruct (arm_signer _ _ _ _ _ _ Harm) as [Hsig Hreason].
  rewrite <- Hsl, <- Hep in Hx, Hpay.
  destruct (release_total c s row x a rel Hrw Hx Hpay) as [s1 Hrls].
  unfold FinalizeSettlement. setoid_rewrite (cached_Ok (finalizeSettlement econ cs height (Some msg))).
  unfold finalizeSettlement. rewrite (lift_step _ _ _ tt).
  2:{ unfold MFS_Validate. apply Z.eqb_neq in Hs as ->. apply Z.eqb_neq in He as ->.
      by rewrite bool_decide_eq_false_2. }
  rewrite (reads_step _ _ _ tt) by (unfold requireReleaseEnabled; by rewrite Hen).
  rewrite (reads_step _ _ s _ (get_settlement c b s _ _ Hi Hs He)). rewrite Hrow. cbv beta iota.
  rewrite fail_if_step by done.
  rewrite (reads_step _ _ _ reason) by (apply (arm_spec c b cs s _ _ row _ Hi Hrow); eauto).
  rewrite (M_bind_run _ _ _ _ _ Hrls).
  destruct (release_spec c s s1 row x a rel _ Hrw Hx Hrls) as (_ & Hmn & _).
  eexists. erewrite M_bind_run; [reflexivity|]. unfold on_mining. apply zoom_run.
  unfold writeFinalizedSettlement. rewrite fail_if_step by (apply Z.leb_gt; lia). cbv zeta.
  rewrite (lift_step _ _ _ tt).
  2:{ apply Stl_Validate_Ok in Hval as (V1 & V2 & V3 & V4 & V5 & _). apply Stl_Validate_Ok. simpl.
      rewrite u64_small by (widths; lia). split_and!; done || lia. }
  unfold setSettlement, removeOpen. rewrite modify_step. reflexivity.
Qed.
End submit.
