(* ===== verification/MiningRuns.v ===== *)
(** * x/mining over a run of blocks

    [mining_step]: a message is delivered, the rewards module does something of
    its own, or the block ends.  The rewards module appears by what it guarantees
    ([keeps]): it touches no entitlement and no length of a closed epoch.  From a
    good state every run stays good, and [evolves] says what no run undoes. *)
From S2P Require Import Prelude Checked SdkMath Bounds EconomicAddress RewardsTypes Collections.
From S2P Require Import CoreSlotTypes Entitlement Release MiningTypes MiningHistory MiningKeeper.
From S2P Require Import MiningSettlement MiningHistories MiningInvariant MiningBlocks MiningMessages.
From stdpp Require Import relations.
Local Open Scope Z_scope.

Section runs.
Context {SI : SdkInt} {BE : Bech32} {CK : CoreSlotKeeper} {RK : RewardsKeeper} (econ : Validator).
Context (rw_inv : Z → RewardsStore → Prop) (Hrc : rewards_contract rw_inv).
Implicit Types (s : MiningState) (row : Settlement) (rw : RewardsStore).

(** What the rewards module leaves alone when it is not asked to pay. *)
Record keeps (c : Z) rw rw' : Prop := {
  kp_entitlements : ∀ slot e, e ≤ c →
    Rk_GetSlotEntitlement rw' slot e = Rk_GetSlotEntitlement rw slot e;
  kp_lengths : ∀ e, 1 ≤ e ≤ c → Rk_EpochLengthForEpoch rw' e = Rk_EpochLengthForEpoch rw e
}.

(** The last closed epoch, a bound on the clock, and the two stores. *)
Definition MiningPoint : Type := Z * Z * MiningState.

Inductive mining_step : MiningPoint → MiningPoint → Prop :=
  | mn_chunk c b cs msg s s' r :
      Msg_SubmitSettlementChunk econ cs msg s = (s', r) → mining_step (c, b, s) (c, b, s')
  | mn_finalize c b cs height msg s s' r :
      Msg_FinalizeSettlement econ cs height msg s = (s', r) → mining_step (c, b, s) (c, b, s')
  | mn_rewards c b mn rw rw' :
      rw_inv c rw' → keeps c rw rw' →
      mining_step (c, b, {| Ms_Mining := mn; Ms_Rewards := rw |})
        (c, b, {| Ms_Mining := mn; Ms_Rewards := rw' |})
  | mn_end c c' b mn mn' rw rw' r :
      rw_inv c' rw' → keeps c rw rw' → c ≤ c' ≤ c + 1 → (c' = c + 1 → untouched rw' c') →
      b < MaxUint64 → MiningEndBlock rw' mn = (mn', r) →
      mining_step (c, b, {| Ms_Mining := mn; Ms_Rewards := rw |})
        (c', b + 1, {| Ms_Mining := mn'; Ms_Rewards := rw' |}).

Definition mining_good (x : MiningPoint) : Prop :=
  mining_inv (fst (fst x)) (snd (fst x)) (snd x) ∧ rw_inv (fst (fst x)) (Ms_Rewards (snd x)).

(** The same obligation, perhaps further along. *)
Record same_obligation row row' : Prop := {
  so_slot : Stl_SlotId row' = Stl_SlotId row;
  so_epoch : Stl_Epoch row' = Stl_Epoch row;
  so_mode : Stl_SettlementMode row' = Stl_SettlementMode row;
  so_distribution : Stl_DistributionModeVersion row' = Stl_DistributionModeVersion row;
  so_params : Stl_SettlementParamsVersion row' = Stl_SettlementParamsVersion row;
  so_chunks : Stl_NextChunkIndex row ≤ Stl_NextChunkIndex row';
  so_terminal : Stl_Finalized row = true → row' = row
}.

(** The targets up to [c + 3] are bound once epoch [c] has been processed. *)
Record evolves (c : Z) s s' : Prop := {
  ev_params : ∀ e, 1 ≤ e ≤ c + 3 → e ≤ MaxUint64 →
    SettlementParamsForTarget (Mn_SettlementParams (Ms_Mining s')) e =
    SettlementParamsForTarget (Mn_SettlementParams (Ms_Mining s)) e;
  ev_modes : ∀ e v, 1 ≤ e ≤ c + 3 → e ≤ MaxUint64 →
    DistributionModeForTarget (Mn_Modes (Ms_Mining s)) e = Ok v →
    ∃ v', DistributionModeForTarget (Mn_Modes (Ms_Mining s')) e = Ok v' ∧ same_mode v v';
  ev_anchors : ∀ e a, Mn_SettlementEpochAnchors (Ms_Mining s) !! e = Some a →
    Mn_SettlementEpochAnchors (Ms_Mining s') !! e = Some a;
  ev_lengths : ∀ e, 1 ≤ e ≤ c → Rk_EpochLengthForEpoch (Ms_Rewards s') e =
    Rk_EpochLengthForEpoch (Ms_Rewards s) e;
  ev_clock : clock_of s ≤ clock_of s';
  ev_rows : ∀ k row, Mn_Settlements (Ms_Mining s) !! k = Some row →
    ∃ row', Mn_Settlements (Ms_Mining s') !! k = Some row' ∧ same_obligation row row';
  ev_entitled : ∀ slot e x a rel, e ≤ c → entitled (Ms_Rewards s) slot e x a rel →
    ∃ x' rel', entitled (Ms_Rewards s') slot e x' a rel' ∧ rel ≤ rel'
}.

Lemma same_obligation_refl row : same_obligation row row.
Proof. done. Qed.
Lemma same_obligation_trans row1 row2 row3 :
  same_obligation row1 row2 → same_obligation row2 row3 → same_obligation row1 row3.
Proof.
  intros [] []. split; try congruence; [lia|]. intros Hf.
  match goal with H : Stl_Finalized row1 = true → _ |- _ => rewrite (H Hf) in * end. auto.
Qed.

Lemma evolves_refl c s : evolves c s s.
Proof.
  split; try done.
  - intros e v _ _ Hv. by exists v.
  - intros k row Hr. exists row. by split; [|apply same_obligation_refl].
  - intros slot e x a rel _ Hx. by exists x, rel.
Qed.

Lemma evolves_trans c c' s1 s2 s3 :
  c ≤ c' → evolves c s1 s2 → evolves c' s2 s3 → evolves c s1 s3.
Proof.
  intros Hc [P1 M1 A1 L1 C1 R1 E1] [P2 M2 A2 L2 C2 R2 E2]. split.
  - intros e He Hm. rewrite P2 by lia. by apply P1.
  - intros e v He Hm Hv. destruct (M1 e v He Hm Hv) as (v2 & Hv2 & I1 & I2 & I3).
    destruct (M2 e v2 ltac:(lia) Hm Hv2) as (v3 & Hv3 & J1 & J2 & J3). exists v3.
    split; [done|]. split_and!; congruence.
  - auto.
  - intros e He. rewrite L2 by lia. by apply L1.
  - lia.
  - intros k row Hr. destruct (R1 k row Hr) as (row2 & Hr2 & Hs2).
    destruct (R2 k row2 Hr2) as (row3 & Hr3 & Hs3). exists row3. split; [done|].
    by eapply same_obligation_trans.
  - intros slot e x a rel He Hx. destruct (E1 slot e x a rel He Hx) as (x2 & rel2 & Hx2 & Hle2).
    destruct (E2 slot e x2 a rel2 ltac:(lia) Hx2) as (x3 & rel3 & Hx3 & Hle3).
    exists x3, rel3. split; [done | lia].
Qed.

(** The end of a participant window never moves. *)
Lemma evolves_deadline c b s s' slot e row row' :
  mining_inv c b s → evolves c s s' → same_obligation row row' →
  Mn_Settlements (Ms_Mining s) !! (slot, e) = Some row → deadline s' row' = deadline s row.
Proof.
  intros Hi Hev Hso Hrow. destruct (mi_settles _ _ _ Hi _ _ _ Hrow) as [He Hst].
  destruct (settles_facts s _ _ _ Hst) as (_ & Hep & _).
  destruct (st_anchor _ _ _ _ Hst) as [an Han]. pose proof (ev_anchors _ _ _ Hev _ _ Han) as Han'.
  unfold deadline, SettlementDeadlineClock, settlementDeadlineFromAnchor, requireEpochAnchor,
    GetSettlementEpochAnchor, DeadlineClock, SettlementWindowBlocks.
  rewrite (so_epoch _ _ Hso), (so_mode _ _ Hso), (so_params _ _ Hso), Hep, Han, Han'.
  pose proof (mi_closed _ _ _ Hi).
  rewrite (ev_params _ _ _ Hev e), (ev_lengths _ _ _ Hev e He) by lia. done.
Qed.

(** ** One step *)
Lemma paid_evolves c b s s' slot e row row' n :
  mining_inv c b s → Mn_Settlements (Ms_Mining s) !! (slot, e) = Some row →
  same_obligation row row' → replaced slot e row' s s' →
  Ms_Rewards s' = Ms_Rewards s ∨ (0 ≤ n ∧ pays (Ms_Rewards s) (Ms_Rewards s') slot e n) →
  evolves c s s'.
Proof.
  intros Hi Hrow Hso Hr Hp.
  pose proof (replaced_fields _ _ _ _ _ Hr) as (E1 & _ & E3 & E4 & _ & E6 & E7).
  split.
  - intros j _ _. by rewrite E3.
  - intros j v _ _ Hv. rewrite E1. by exists v.
  - intros j a. by rewrite E6.
  - intros j _. destruct Hp as [->|[_ Hp]]; [done|]. apply Hp.
  - unfold clock_of. by rewrite E4.
  - intros k y Hy. rewrite E7. destruct (decide (k = (slot, e))) as [->|Hne].
    + exists row'. rewrite lookup_insert_eq. by replace y with row by congruence.
    + exists y. rewrite lookup_insert_ne by done. by split; [|apply same_obligation_refl].
  - intros i j x a rel _ Hx. destruct Hp as [->|[Hn Hp]]; [by exists x, rel|].
    destruct (decide ((i, j) = (slot, e))) as [[= -> ->]|Hne].
    + destruct (py_entitlement _ _ _ _ _ Hp) as (y & x' & a' & rel' & Hy & Hx').
      destruct (entitled_inj _ _ _ _ _ _ _ _ _ Hx Hy) as (-> & -> & ->).
      exists x', (rel + n). split; [done | lia].
    + exists x, rel. split; [|done]. apply (entitled_kept (Ms_Rewards s)); [|done].
      by apply (py_others _ _ _ _ _ Hp).
Qed.

Lemma chunk_step c b cs msg s s' r :
  mining_good (c, b, s) → Msg_SubmitSettlementChunk econ cs msg s = (s', r) →
  mining_good (c, b, s') ∧ evolves c s s'.
Proof using Hrc.
  intros [Hi Hrw] H. simpl in *.
  assert (∃ r', SubmitSettlementChunk econ cs msg s = (s', r')) as [r' Hsub].
  { unfold Msg_SubmitSettlementChunk, mbind, M_bind in H.
    destruct (SubmitSettlementChunk econ cs msg s) as [t [n|err]]; injection H as <- _; eauto. }
  destruct msg as [msg|].
  2:{ unfold SubmitSettlementChunk in Hsub. assert (s' = s) as -> by by injection Hsub.
      split; [done | apply evolves_refl]. }
  pose proof (submit_spec econ rw_inv Hrc c b cs msg s s' r' Hi Hrw Hsub) as Hspec.
  destruct r' as [next|err]; [|subst; split; [done | apply evolves_refl]].
  destruct Hspec as (row & params & payouts & total & Hca & -> & Hrep & Hpay & _ & Hi' & Hrw').
  split; [done|].
  apply (paid_evolves c b s s' (MSC_SlotId msg) (MSC_Epoch msg) row
    (with_next_chunk row (Stl_NextChunkIndex row + 1)) total); try done.
  - apply Hca.
  - split; try done; simpl; [lia|]. by rewrite (ca_open _ _ _ _ _ _ _ _ Hca).
  - right. split; [|done]. pose proof (ps_positive _ _ _ _ _ (ca_payouts _ _ _ _ _ _ _ _ Hca)). lia.
Qed.

Lemma finalize_step c b cs height msg s s' r :
  mining_good (c, b, s) → Msg_FinalizeSettlement econ cs height msg s = (s', r) →
  mining_good (c, b, s') ∧ evolves c s s'.
Proof using Hrc.
  intros [Hi Hrw] H. simpl in *.
  assert (∃ r', FinalizeSettlement econ cs height msg s = (s', r')) as [r' Hfin].
  { unfold Msg_FinalizeSettlement, mbind, M_bind in H.
    destruct (FinalizeSettlement econ cs height msg s) as [t [n|err]]; injection H as <- _; eauto. }
  destruct msg as [msg|].
  2:{ unfold FinalizeSettlement in Hfin. assert (s' = s) as -> by by injection Hfin.
      split; [done | apply evolves_refl]. }
  pose proof (finalize_spec econ rw_inv Hrc c b cs height msg s s' r' Hi Hrw Hfin) as Hspec.
  destruct r' as [out|err]; [|subst; split; [done | apply evolves_refl]].
  destruct Hspec as (row & d & x & a & rel & Hrow & Hopen & _ & _ & _ & Hx & _ & Hpaid & Hrep & Hi' & Hrw').
  split; [done|].
  apply (paid_evolves c b s s' (MFS_SlotId msg) (MFS_Epoch msg) row
    (with_finalization row (u64 height) (fs_reason out)) (a - rel)); try done.
  - split; try done. simpl. by rewrite Hopen.
  - unfold remainder_paid in Hpaid. case_decide; [by left | right].
    split; [|done]. pose proof (et_bounds _ _ _ _ _ _ Hx). lia.
Qed.

Lemma kept_evolves c b mn rw rw' :
  mining_inv c b {| Ms_Mining := mn; Ms_Rewards := rw |} → keeps c rw rw' →
  evolves c {| Ms_Mining := mn; Ms_Rewards := rw |} {| Ms_Mining := mn; Ms_Rewards := rw' |}.
Proof.
  intros Hi Hk. split; try done.
  - intros e v _ _ Hv. by exists v.
  - apply Hk.
  - intros k row Hr. exists row. by split; [|apply same_obligation_refl].
  - intros slot e x a rel He Hx. exists x, rel. split; [|done].
    apply (entitled_kept rw); [|done]. by apply (kp_entitlements _ _ _ Hk).
Qed.

Lemma processed_evolves c b vm vp l s s' :
  mining_inv c b s → c + 1 ≤ MaxUint64 → processed c vm vp l s s' → evolves c s s'.
Proof.
  intros Hi Hmax Hpc. pose proof (mi_closed _ _ _ Hi) as Hc.
  pose proof (pc_promoted _ _ _ _ _ _ Hpc) as [Hmo _ Hmk _ Hp Hkept _ _ _].
  assert (∀ e, 1 ≤ e ≤ c + 3 → bound_epoch e ≤ c + 1) as Hbound
    by (intros e He; unfold bound_epoch; case_decide; lia).
  split.
  - intros e He Hm. apply (settlement_target_kept c (c + 1)); try done; try lia; [by apply Hi|].
    by apply Hbound.
  - intros e v He Hm. eapply mode_target_kept; [apply Hi | exact Hmo | exact Hmk | lia |].
    by apply Hbound.
  - intros e a Ha. rewrite (pc_anchors _ _ _ _ _ _ Hpc). apply anchored_lookup. right.
    split; [|done]. apply (mi_anchors _ _ _ Hi) in Ha. lia.
  - intros e _. by rewrite (pc_rewards _ _ _ _ _ _ Hpc).
  - unfold clock_of. by rewrite (pc_clock _ _ _ _ _ _ Hpc).
  - intros [slot e] row Hr. exists row. split; [|apply same_obligation_refl].
    rewrite (pc_settlements _ _ _ _ _ _ Hpc). apply add_rows_settlements. right. split; [|done].
    apply (mi_settles _ _ _ Hi) in Hr as [? _]. lia.
  - intros slot e x a rel _ Hx. exists x, rel. split; [|done].
    by rewrite (pc_rewards _ _ _ _ _ _ Hpc).
Qed.

Lemma ticked_evolves c s :
  evolves c s {| Ms_Mining := put_SettlementClock (Some (clock_of s + ticks (Ms_Rewards s))) (Ms_Mining s);
    Ms_Rewards := Ms_Rewards s |}.
Proof.
  pose proof (ticks_range (Ms_Rewards s)). split; try done.
  - intros e v _ _ Hv. by exists v.
  - unfold clock_of at 2. simpl. lia.
  - intros k row Hr. exists row. by split; [|apply same_obligation_refl].
  - intros slot e x a rel _ Hx. by exists x, rel.
Qed.

Lemma end_step c c' b mn mn' rw rw' r :
  mining_good (c, b, {| Ms_Mining := mn; Ms_Rewards := rw |}) →
  rw_inv c' rw' → keeps c rw rw' → c ≤ c' ≤ c + 1 → (c' = c + 1 → untouched rw' c') →
  b < MaxUint64 → MiningEndBlock rw' mn = (mn', r) →
  r = Ok tt ∧ mining_good (c', b + 1, {| Ms_Mining := mn'; Ms_Rewards := rw' |}) ∧
  evolves c {| Ms_Mining := mn; Ms_Rewards := rw |} {| Ms_Mining := mn'; Ms_Rewards := rw' |}.
Proof using Hrc.
  intros [Hi Hrw] Hrw' Hk Hc Hfresh Hb H. simpl in *.
  pose proof (mining_inv_rewards c b mn rw rw' Hi (kp_entitlements _ _ _ Hk)) as Hi'.
  pose proof (kept_evolves c b mn rw rw' Hi Hk) as Hev.
  destruct (end_block_spec rw_inv Hrc c c' b _ Hi' Hrw' Hc Hb Hfresh) as (mn1 & Hrun & Hi1 & Hcase).
  simpl in Hrun. rewrite H in Hrun. injection Hrun as <- ->. split; [done|]. split; [done|].
  eapply evolves_trans; [|exact Hev|]; [done|].
  eapply evolves_trans; [|apply ticked_evolves|]; [done|].
  destruct Hcase as [[-> Heq]|(-> & vm & vp & l & _ & _ & Hpc)].
  - simpl in *. rewrite <- Heq. apply evolves_refl.
  - eapply processed_evolves; [apply ticked_inv; exact Hi'| |exact Hpc].
    pose proof (rc_bound _ Hrc _ _ Hrw'). lia.
Qed.

Lemma mining_step_evolves x y : mining_good x → mining_step x y →
  fst (fst x) ≤ fst (fst y) ∧ mining_good y ∧ evolves (fst (fst x)) (snd x) (snd y).
Proof using Hrc.
  intros Hg Hstep. destruct Hstep as [c b cs msg s s' r H|c b cs height msg s s' r H
    |c b mn rw rw' Hrw Hk|c c' b mn mn' rw rw' r Hrw Hk Hc Hf Hb H]; simpl.
  - split; [done|]. by eapply chunk_step.
  - split; [done|]. by eapply finalize_step.
  - destruct Hg as [Hi _]. simpl in *. split; [done|]. split; [|by eapply kept_evolves].
    split; [|done]. by apply (mining_inv_rewards c b mn rw rw'); [|apply Hk].
  - split; [lia|]. by eapply end_step.
Qed.

Lemma mining_run_evolves x y : mining_good x → rtc mining_step x y →
  fst (fst x) ≤ fst (fst y) ∧ mining_good y ∧ evolves (fst (fst x)) (snd x) (snd y).
Proof using Hrc.
  intros Hg Hsteps. induction Hsteps as [x|x y z Hstep _ IH].
  { split; [done|]. split; [done | apply evolves_refl]. }
  destruct (mining_step_evolves x y Hg Hstep) as (Hc & Hgy & Hev).
  destruct (IH Hgy) as (Hc2 & Hgz & Hev2). split; [lia|]. split; [done|].
  by eapply evolves_trans.
Qed.
End runs.
