(* ===== verification/MiningQueries.v ===== *)
(** * x/mining/keeper: the query server

    Models [query_server.go]: what a settlement worker reads.  Every handler is a
    function of the module's store, the rewards store where it needs entitlements,
    and the request ([None] for a nil one).  [corrupt] answers Internal to whatever
    failed.  The theorems say that a worker is never misled: what is announced is
    what a finalization will do ([settlement_view]), no open settlement is missing
    from the pages ([open_settlements_view]), the binding a query reports is the one
    settlements are created with. *)
From S2P Require Import Prelude Checked SdkMath EconomicAddress RewardsTypes Collections Bytes Paging.
From S2P Require Import MiningTypes MiningHistory MiningKeeper MiningSettlement.
From S2P Require Import CoreSlotTypes MiningHistories MiningInvariant MiningMessages.
From Stdlib Require Import String.
Local Open Scope Z_scope.

(** ** query.proto *)
Record QuerySettlementRequest := { QSR_SlotId : Z; QSR_Epoch : Z }.
Record QuerySettlementResponse := {
  QS_Settlement : Settlement;
  QS_EntitlementAmount : string;
  QS_ReleasedAmount : string;
  QS_PayoutAddress : string;
  QS_RemainingAmount : string;
  QS_ParticipantDistributionCeiling : string;
  QS_CreatedSettlementClock : Z;
  QS_DeadlineClock : Z;
  QS_PermissionlessFinalizationNow : bool;
  QS_CurrentSettlementClock : Z
}.
Record QueryOpenSettlementsRequest := { QOS_SlotId : Z; QOS_Pagination : option PageRequest }.
Record QueryOpenSettlementsResponse := {
  QOS_Settlements : list Settlement;
  QOS_Next : PageResponse
}.
Record QuerySettlementParamsForEpochResponse := {
  QPE_Epoch : Z;
  QPE_BindingEpoch : Z;
  QPE_SettlementParamsVersion : SettlementParamsVersion;
  QPE_Bootstrap : bool
}.
Record QueryTargetEpochInterpretationResponse := {
  QTE_TargetEpoch : Z;
  QTE_BindingEpoch : Z;
  QTE_DistributionModeVersion : MiningDistributionModeVersion;
  QTE_SelectionApplicable : bool;
  QTE_BootstrapModeWithoutFullNMinus_2Binding : bool
}.
Inductive EconomicAddressRejectionReason :=
  | ECONOMIC_ADDRESS_REJECTION_REASON_UNSPECIFIED
  | ECONOMIC_ADDRESS_REJECTION_REASON_NONE
  | ECONOMIC_ADDRESS_REJECTION_REASON_EMPTY
  | ECONOMIC_ADDRESS_REJECTION_REASON_INVALID
  | ECONOMIC_ADDRESS_REJECTION_REASON_MODULE_ACCOUNT
  | ECONOMIC_ADDRESS_REJECTION_REASON_BANK_BLOCKED.
Record QueryValidateEconomicAddressResponse := {
  QVA_Admissible : bool;
  QVA_RejectionReason : EconomicAddressRejectionReason;
  QVA_CanonicalAddress : string
}.

(** ** query_server.go *)
Definition corrupt {A} (m : res A) : res A := map_err (λ _, StatusInternal) m.

(** A request that has to be there. *)
Definition request {A} (req : option A) : res A :=
  match req with Some req => Ok req | None => Err StatusInvalidArgument end.

Section settlements.
Context {SI : SdkInt} {RK : RewardsKeeper}.
Implicit Types (s : MiningState).

Definition QuerySettlementClock (mn : MiningStore) : res Z := corrupt (GetSettlementClock mn).

Definition derivedFinalizationState s (settlement : Settlement) (anchor : SettlementEpochAnchor)
    (clock : Z) : res (Z * bool) :=
  if decide (Stl_SettlementMode settlement = SETTLEMENT_MODE_OPERATOR_ONLY)
  then mret (SEA_CreatedSettlementClock anchor, negb (Stl_Finalized settlement))
  else
    params ← SettlementParamsForTarget (Mn_SettlementParams (Ms_Mining s)) (Stl_Epoch settlement);
    fail_if (negb (STP_Version params =? Stl_SettlementParamsVersion settlement)) MnInvalidState ;;
    requireAnchorHasElapsed anchor clock ;;
    deadline ← DeadlineClock (Ms_Rewards s) settlement anchor params;
    mret (deadline, negb (Stl_Finalized settlement) && (clock >=? deadline)).

Definition QuerySettlement s (req : option QuerySettlementRequest) : res QuerySettlementResponse :=
  req ← request req;
  fail_if ((QSR_SlotId req =? 0) || (QSR_Epoch req =? 0)) StatusInvalidArgument ;;
  found ← corrupt (GetSettlement (Ms_Mining s) (QSR_SlotId req) (QSR_Epoch req));
  match found with
  | None => Err StatusNotFound
  | Some settlement =>
      entitlement ← corrupt (requireEntitlementFor (Ms_Rewards s) settlement);
      amount ← corrupt (Ent_Amount entitlement);
      released ← corrupt (Ent_Released entitlement);
      fail_if (released >? amount) StatusInternal ;;
      fail_if (Stl_Finalized settlement && negb (released =? amount)) StatusInternal ;;
      ceiling ← corrupt (ParticipantDistributionCeiling settlement entitlement);
      anchor ← corrupt (requireEpochAnchor (Ms_Mining s) (Stl_Epoch settlement));
      clock ← corrupt (GetSettlementClock (Ms_Mining s));
      '(deadline, permissionless) ← corrupt (derivedFinalizationState s settlement anchor clock);
      remaining ← isub amount released;
      mret {|
        QS_Settlement := settlement;
        QS_EntitlementAmount := Int_String amount;
        QS_ReleasedAmount := Int_String released;
        QS_PayoutAddress := Ent_PayoutAddress entitlement;
        QS_RemainingAmount := Int_String remaining;
        QS_ParticipantDistributionCeiling := Int_String ceiling;
        QS_CreatedSettlementClock := SEA_CreatedSettlementClock anchor;
        QS_DeadlineClock := deadline;
        QS_PermissionlessFinalizationNow := permissionless;
        QS_CurrentSettlementClock := clock |}
  end.
End settlements.

(** *** Open settlements: cursors are big-endian epochs *)
Definition encodeEpochCursor (epoch : Z) : string := be 8 epoch.
Definition decodeEpochCursor (cursor : string) : res Z :=
  fail_if (negb (len cursor =? 8)) StatusInvalidArgument ;;
  mret (be_value cursor).

(** The loop over the rows of a slot: at most [budget] rows are inspected, the open
    ones among them are returned, with the cursor of the first row not inspected. *)
Fixpoint inspectSettlements (slotID budget inspected : Z) (rows : list (Z * Settlement))
    (settlements : list Settlement) : res (list Settlement * string) :=
  match rows with
  | [] => mret (settlements, EmptyString)
  | (epoch, settlement) :: rows =>
      if inspected =? budget then mret (settlements, encodeEpochCursor epoch)
      else
        corrupt (validateSettlementRecord (slotID, epoch) settlement) ;;
        inspectSettlements slotID budget (inspected + 1) rows
          (if Stl_Finalized settlement then settlements else settlements ++ [settlement])
  end.

Definition QueryOpenSettlements (mn : MiningStore) (req : option QueryOpenSettlementsRequest)
    : res QueryOpenSettlementsResponse :=
  req ← request req;
  fail_if (QOS_SlotId req =? 0) StatusInvalidArgument ;;
  page ← boundedPage (QOS_Pagination req);
  let canonical := prefix_map (QOS_SlotId req) (Mn_Settlements mn) in
  rows ← (if bool_decide (Pg_Key page = EmptyString) then mret (entries canonical)
          else resume ← decodeEpochCursor (Pg_Key page); mret (from_key resume canonical));
  '(settlements, nextKey) ← inspectSettlements (QOS_SlotId req) (Pg_Limit page) 0 rows [];
  mret {| QOS_Settlements := settlements; QOS_Next := next_page nextKey |}.

(** *** Configuration history *)
Definition requireVersionRequest (version : Z) : res unit :=
  fail_if (version =? 0) StatusInvalidArgument.
Definition requireHistoryAnchor {A} (prove : res A) : res unit := corrupt (_ ← prove; mret tt).

Section versions.
Context {SI : SdkInt} {PG : Paginator}.

Definition exactVersion {V} (history : gmap Z V) (index : gmap Z Z) (version : Z)
    (versionOf : V → Z) (validate : Z → V → res unit) : res V :=
  requireVersionRequest version ;;
  '(epochKey, class) ← corrupt (resolveExactVersion versionOf validate history index version);
  match class with
  | versionAboveLatest | versionIntentionalGap => Err StatusNotFound
  | versionFound => corrupt (coll_get (history !! epochKey))
  end.

Definition listVersions {V} (history : gmap Z V) (bounded : PageRequest)
    (validate : Z → V → res unit) : res (list V * PageResponse) :=
  corrupt (CollectionPaginate history (Some bounded) (λ key record,
    validate key record ;; mret record)).

Definition QueryDistributionModeVersion (mn : MiningStore) (req : option Z)
    : res MiningDistributionModeVersion :=
  version ← request req;
  requireVersionRequest version ;;
  requireHistoryAnchor (GenesisDistributionMode (Mn_Modes mn)) ;;
  exactVersion (Versions (Mn_Modes mn)) (VersionIndex (Mn_Modes mn)) version DM_Version
    validateModeRecord.
Definition QuerySelectionParamsVersion (mn : MiningStore) (req : option Z)
    : res SelectionParamsVersion :=
  version ← request req;
  requireVersionRequest version ;;
  requireHistoryAnchor (GenesisSelectionParams (Mn_SelectionParams mn)) ;;
  exactVersion (Versions (Mn_SelectionParams mn)) (VersionIndex (Mn_SelectionParams mn)) version
    SLP_Version validateSelectionParamsRecord.
Definition QuerySettlementParamsVersion (mn : MiningStore) (req : option Z)
    : res SettlementParamsVersion :=
  version ← request req;
  requireVersionRequest version ;;
  requireHistoryAnchor (GenesisSettlementParams (Mn_SettlementParams mn)) ;;
  exactVersion (Versions (Mn_SettlementParams mn)) (VersionIndex (Mn_SettlementParams mn)) version
    STP_Version validateSettlementParamsRecord.

(** A nil request asks for the first page. *)
Definition QueryDistributionModeVersions (mn : MiningStore) (page : option PageRequest)
    : res (list MiningDistributionModeVersion * PageResponse) :=
  bounded ← boundedPage page;
  requireHistoryAnchor (GenesisDistributionMode (Mn_Modes mn)) ;;
  listVersions (Versions (Mn_Modes mn)) bounded validateModeRecord.
Definition QuerySelectionParamsVersions (mn : MiningStore) (page : option PageRequest)
    : res (list SelectionParamsVersion * PageResponse) :=
  bounded ← boundedPage page;
  requireHistoryAnchor (GenesisSelectionParams (Mn_SelectionParams mn)) ;;
  listVersions (Versions (Mn_SelectionParams mn)) bounded validateSelectionParamsRecord.
Definition QuerySettlementParamsVersions (mn : MiningStore) (page : option PageRequest)
    : res (list SettlementParamsVersion * PageResponse) :=
  bounded ← boundedPage page;
  requireHistoryAnchor (GenesisSettlementParams (Mn_SettlementParams mn)) ;;
  listVersions (Versions (Mn_SettlementParams mn)) bounded validateSettlementParamsRecord.

(** *** The binding of a target epoch *)
Definition QuerySettlementParamsForEpoch (mn : MiningStore) (req : option Z)
    : res QuerySettlementParamsForEpochResponse :=
  epoch ← request req;
  fail_if (epoch =? 0) StatusInvalidArgument ;;
  '(bindingEpoch, bootstrap) ← corrupt (bindingEpochForTarget epoch);
  params ← corrupt (SettlementParamsForTarget (Mn_SettlementParams mn) epoch);
  mret {| QPE_Epoch := epoch; QPE_BindingEpoch := bindingEpoch;
          QPE_SettlementParamsVersion := params; QPE_Bootstrap := bootstrap |}.

Definition QueryTargetEpochInterpretation (mn : MiningStore) (req : option Z)
    : res QueryTargetEpochInterpretationResponse :=
  target ← request req;
  fail_if (target =? 0) StatusInvalidArgument ;;
  '(bindingEpoch, bootstrap) ← corrupt (bindingEpochForTarget target);
  version ← corrupt (DistributionModeForTarget (Mn_Modes mn) target);
  mret {|
    QTE_TargetEpoch := target;
    QTE_BindingEpoch := bindingEpoch;
    QTE_DistributionModeVersion := version;
    QTE_SelectionApplicable := negb bootstrap &&
      bool_decide (DM_Mode version = MINING_DISTRIBUTION_MODE_PROTOCOL_SELECTION);
    QTE_BootstrapModeWithoutFullNMinus_2Binding := bootstrap |}.
End versions.

(** *** Economic addresses *)
Definition economicAddressRejectionReason (e : error) : EconomicAddressRejectionReason * bool :=
  match e with
  | EAEmptyAddress => (ECONOMIC_ADDRESS_REJECTION_REASON_EMPTY, true)
  | EAInvalidAddress => (ECONOMIC_ADDRESS_REJECTION_REASON_INVALID, true)
  | EAModuleAccount => (ECONOMIC_ADDRESS_REJECTION_REASON_MODULE_ACCOUNT, true)
  | EABlockedAddress => (ECONOMIC_ADDRESS_REJECTION_REASON_BANK_BLOCKED, true)
  | _ => (ECONOMIC_ADDRESS_REJECTION_REASON_UNSPECIFIED, false)
  end.

Definition QueryValidateEconomicAddress {BE : Bech32} (economicAddresses : Validator)
    (req : option string) : res QueryValidateEconomicAddressResponse :=
  address ← request req;
  match Validate economicAddresses address with
  | Ok parsed => mret {| QVA_Admissible := true;
      QVA_RejectionReason := ECONOMIC_ADDRESS_REJECTION_REASON_NONE;
      QVA_CanonicalAddress := AccAddress_String parsed |}
  | Err e =>
      match economicAddressRejectionReason e with
      | (_, false) => corrupt (Err e)
      | (reason, true) => mret {| QVA_Admissible := false; QVA_RejectionReason := reason;
          QVA_CanonicalAddress := EmptyString |}
      end
  end.

(** ** What a settlement query answers *)
Section settlement_view.
Context {SI : SdkInt} {BE : Bech32} {CK : CoreSlotKeeper} {RK : RewardsKeeper} (econ : Validator).
Context (rw_inv : Z → RewardsStore → Prop) (Hrc : rewards_contract rw_inv).
Implicit Types (s : MiningState) (row : Settlement).

Definition settlement_response s row x (a rel : Z) (an : SettlementEpochAnchor) (d : Z)
    : QuerySettlementResponse := {|
  QS_Settlement := row;
  QS_EntitlementAmount := Int_String a;
  QS_ReleasedAmount := Int_String rel;
  QS_PayoutAddress := Ent_PayoutAddress x;
  QS_RemainingAmount := Int_String (a - rel);
  QS_ParticipantDistributionCeiling := Int_String a;
  QS_CreatedSettlementClock := SEA_CreatedSettlementClock an;
  QS_DeadlineClock := d;
  QS_PermissionlessFinalizationNow := negb (Stl_Finalized row) && (clock_of s >=? d);
  QS_CurrentSettlementClock := clock_of s |}.

Definition settlement_request (slot e : Z) : option QuerySettlementRequest :=
  Some {| QSR_SlotId := slot; QSR_Epoch := e |}.

Lemma deadline_error rw row an p e : DeadlineClock rw row an p = Err e → e = MnInvalidState.
Proof.
  unfold DeadlineClock, SettlementWindowBlocks. case_decide; [done|].
  destruct (Rk_EpochLengthForEpoch rw (Stl_Epoch row)) as [n|]; [|by intros [= <-]].
  cbn [wrap mbind res_bind]. destruct (MulUint64 _ n) as [w|]; [|by intros [= <-]].
  cbn [wrap mbind res_bind]. destruct (AddUint64 _ w); [done | by intros [= <-]].
Qed.

Lemma query_absent c b s slot e :
  mining_inv c b s → slot ≠ 0 → e ≠ 0 → Mn_Settlements (Ms_Mining s) !! (slot, e) = None →
  QuerySettlement s (settlement_request slot e) = Err StatusNotFound.
Proof.
  intros Hi Hs He Hrow. unfold QuerySettlement, settlement_request. cbn [request mbind res_bind QSR_SlotId QSR_Epoch].
  apply Z.eqb_neq in Hs as Hs'. apply Z.eqb_neq in He as He'. rewrite Hs', He'.
  cbn [orb fail_if mret res_ret mbind res_bind].
  by rewrite (get_settlement c b s slot e Hi Hs He), Hrow.
Qed.

(** The answer is the settlement, its entitlement and its deadline; the one
    failure is a deadline that does not exist. *)
Lemma query_present c b s slot e row :
  mining_inv c b s → Mn_Settlements (Ms_Mining s) !! (slot, e) = Some row →
  ∃ x a rel an, entitled (Ms_Rewards s) slot e x a rel ∧
    (Stl_Finalized row = true → rel = a) ∧
    Mn_SettlementEpochAnchors (Ms_Mining s) !! e = Some an ∧
    QuerySettlement s (settlement_request slot e) =
      match deadline s row with
      | Ok d => Ok (settlement_response s row x a rel an d)
      | Err _ => Err StatusInternal
      end.
Proof.
  intros Hi Hrow. destruct (mi_settles _ _ _ Hi _ _ _ Hrow) as [Hec Hst].
  destruct (settles_facts s _ _ _ Hst) as (Hsl & Hep & Hs & He & _).
  destruct Hst as [_ Hmode Hanchor _ (p & Hp & Hpv & _) (x & a & rel & Hx & Hfin)].
  destruct (anchor_of c b s e Hi Hanchor) as (an & Han & Hlk & Hac).
  pose proof (et_bounds _ _ _ _ _ _ Hx) as Hbounds.
  assert (Stl_Finalized row = true → rel = a) as Hfull
    by (intros Hf; by rewrite Hf in Hfin).
  exists x, a, rel, an. split_and!; try done.
  rewrite (deadline_read s row an p) by (rewrite ?Hep; done).
  unfold QuerySettlement, settlement_request. cbn [request mbind res_bind QSR_SlotId QSR_Epoch].
  apply Z.eqb_neq in Hs as Hs'. apply Z.eqb_neq in He as He'. rewrite Hs', He'.
  cbn [orb fail_if mret res_ret mbind res_bind].
  rewrite (get_settlement c b s slot e Hi Hs He), Hrow. cbn [corrupt map_err mbind res_bind].
  rewrite (requireEntitlementFor_Ok (Ms_Rewards s) row x a rel) by (by rewrite Hsl, Hep).
  cbn [corrupt map_err mbind res_bind].
  rewrite (et_amount _ _ _ _ _ _ Hx), (et_released _ _ _ _ _ _ Hx). cbn [corrupt map_err mbind res_bind].
  rewrite Z.gtb_ltb. destruct (Z.ltb_spec a rel); [lia|]. cbn [fail_if mret res_ret mbind res_bind].
  replace (Stl_Finalized row && negb (rel =? a)) with false.
  2:{ destruct (Stl_Finalized row); [|done]. rewrite Hfull by done. by rewrite Z.eqb_refl. }
  cbn [fail_if mret res_ret mbind res_bind]. unfold ParticipantDistributionCeiling. rewrite Hmode.
  rewrite (et_amount _ _ _ _ _ _ Hx). cbn [wrap corrupt map_err mbind res_bind].
  rewrite Hep, Han, (clock_read c b s Hi). cbn [corrupt map_err mbind res_bind].
  unfold derivedFinalizationState. rewrite decide_False by (by rewrite Hmode).
  rewrite Hep, Hp. cbn [mbind res_bind]. rewrite Hpv, Z.eqb_refl.
  cbn [negb fail_if mret res_ret mbind res_bind]. unfold requireAnchorHasElapsed. rewrite Z.gtb_ltb.
  destruct (Z.ltb_spec (clock_of s) (SEA_CreatedSettlementClock an)); [lia|].
  cbn [fail_if mret res_ret mbind res_bind].
  destruct (DeadlineClock (Ms_Rewards s) row an p) as [d|err] eqn:Hd.
  - cbn [corrupt map_err mbind res_bind]. rewrite (proj2 (isub_Ok a rel (a - rel))); [done|].
    split; [done|]. pose proof (et_amount _ _ _ _ _ _ Hx) as Ha.
    apply wrap_Ok, ParseAmountString_Ok in Ha as [_ Hok]. apply (int_ok_le _ a Hok). lia.
  - apply deadline_error in Hd as ->. done.
Qed.
End settlement_view.

(** ** What the listing of open settlements returns *)
Section open_settlements_view.
Context {SI : SdkInt} {RK : RewardsKeeper}.
Implicit Types (s : MiningState) (row : Settlement).

Definition open_rows (rows : list (Z * Settlement)) : list Settlement :=
  base.filter (λ row, Stl_Finalized row = false) (snd <$> rows).

Lemma open_rows_app l k : open_rows (l ++ k) = open_rows l ++ open_rows k.
Proof. unfold open_rows. by rewrite fmap_app, filter_app. Qed.

Lemma inspect_spec slot budget rows inspected acc :
  (∀ e row, (e, row) ∈ rows → validateSettlementRecord (slot, e) row = Ok tt) →
  0 ≤ inspected ≤ budget →
  inspectSettlements slot budget inspected rows acc =
    Ok (let '(page, response) := page_rows encodeEpochCursor (budget - inspected) rows in
        (acc ++ open_rows page, Pg_NextKey response)).
Proof.
  revert inspected acc. induction rows as [|[e row] rows IH]; intros i acc Hv Hi.
  { unfold page_rows. simpl. by rewrite take_nil, drop_nil, app_nil_r. }
  cbn [inspectSettlements]. destruct (Z.eqb_spec i budget) as [->|Hne].
  { unfold page_rows. rewrite Z.sub_diag. simpl. by rewrite app_nil_r. }
  rewrite (Hv e row) by set_solver. cbn [corrupt map_err mbind res_bind].
  rewrite IH; [|intros; apply Hv; set_solver | lia].
  unfold page_rows. replace (Z.to_nat (budget - i)) with (S (Z.to_nat (budget - (i + 1)))) by lia.
  cbn [take drop]. f_equal. f_equal. unfold open_rows. rewrite fmap_cons, filter_cons.
  simpl. destruct (Stl_Finalized row).
  - by rewrite decide_False.
  - rewrite decide_True by done. by rewrite <- app_assoc.
Qed.

Definition open_request (slot limit : Z) (key : string) : option QueryOpenSettlementsRequest :=
  Some {| QOS_SlotId := slot; QOS_Pagination := Some (page_by_key key limit) |}.
Definition open_page (mn : MiningStore) (slot limit : Z) (key : string)
    : res (list Settlement * PageResponse) :=
  response ← QueryOpenSettlements mn (open_request slot limit key);
  mret (QOS_Settlements response, QOS_Next response).

Lemma inspect_length slot budget rows inspected acc l key :
  inspected ≤ budget → inspectSettlements slot budget inspected rows acc = Ok (l, key) →
  Z.of_nat (List.length l) ≤ Z.of_nat (List.length acc) + (budget - inspected).
Proof.
  revert inspected acc. induction rows as [|[e row] rows IH]; intros i acc Hi H; cbn [inspectSettlements] in H.
  { minv. simplify_eq. lia. }
  destruct (Z.eqb_spec i budget) as [->|Hne]; [minv; simplify_eq; lia|].
  apply res_bind_Ok in H as ([] & _ & H). apply IH in H; [|lia].
  destruct (Stl_Finalized row); [lia|]. rewrite length_app in H. simpl in H. lia.
Qed.

Lemma open_page_length mn slot limit key l response :
  1 ≤ limit ≤ 100 → open_page mn slot limit key = Ok (l, response) →
  Z.of_nat (List.length l) ≤ limit.
Proof.
  intros Hl H. unfold open_page, QueryOpenSettlements, open_request in H. minv.
  match goal with H : request _ = Ok _ |- _ => cbn [request] in H; injection H as <- end.
  match goal with H : boundedPage _ = Ok _ |- _ =>
    cbn [QOS_Pagination] in H; rewrite boundedPage_by_key in H by done; injection H as <- end.
  match goal with H : (let '(_, _) := ?p in _) = _ |- _ => destruct p as [open next]; injection H as <- end.
  match goal with H : inspectSettlements _ _ _ _ _ = _ |- _ =>
    apply inspect_length in H; simpl in *; lia end.
Qed.

(** A page is the open ones among at most [limit] rows. *)
Lemma open_page_spec c b s slot limit :
  mining_inv c b s → slot ≠ 0 → 1 ≤ limit ≤ 100 →
  let m := prefix_map slot (Mn_Settlements (Ms_Mining s)) in
  (open_page (Ms_Mining s) slot limit EmptyString = Ok (let '(rows, response) :=
     page_rows encodeEpochCursor limit (entries m) in (open_rows rows, response))) ∧
  (∀ e row, m !! e = Some row → open_page (Ms_Mining s) slot limit (encodeEpochCursor e) =
     Ok (let '(rows, response) := page_rows encodeEpochCursor limit (from_key e m) in
         (open_rows rows, response))).
Proof.
  intros Hi Hs Hl m. apply Z.eqb_neq in Hs as Hs'.
  assert (∀ e row, m !! e = Some row → 1 ≤ e ≤ c ∧ validateSettlementRecord (slot, e) row = Ok tt) as Hv.
  { intros e row He. unfold m in He. rewrite lookup_prefix_map in He.
    apply (mi_settles _ _ _ Hi) in He as [He []]. done. }
  assert (∀ key rows, (if bool_decide (key = EmptyString) then mret (entries m)
       else resume ← decodeEpochCursor key; mret (from_key resume m)) = Ok rows →
     (∀ p, p ∈ rows → p ∈ entries m) →
     open_page (Ms_Mining s) slot limit key = Ok (let '(page, response) :=
       page_rows encodeEpochCursor limit rows in (open_rows page, response))) as Hpage.
  { intros key rows Hr Hsub. unfold open_page, QueryOpenSettlements, open_request.
    cbn [request mbind res_bind QOS_SlotId QOS_Pagination]. rewrite Hs'.
    cbn [fail_if mret res_ret mbind res_bind]. rewrite boundedPage_by_key by done.
    cbn [page_by_key mbind res_bind Pg_Key Pg_Limit]. fold m. rewrite Hr. cbn [mbind res_bind].
    rewrite (inspect_spec slot limit rows 0 []); [|intros e row Hp; eapply Hv, elem_of_entries, Hsub, Hp | lia].
    rewrite Z.sub_0_r. unfold page_rows. reflexivity. }
  split.
  - apply Hpage; [done|]. done.
  - intros e row He. apply Hpage.
    + rewrite bool_decide_eq_false_2 by apply be8_nonempty.
      unfold decodeEpochCursor, encodeEpochCursor.
      rewrite be_len. change (negb (Z.of_nat 8 =? 8)) with false.
      cbn [fail_if mret res_ret mbind res_bind]. rewrite be8_value; [reflexivity|]. destruct (Hv _ _ He). pose proof (mi_closed _ _ _ Hi). widths. lia.
    + intros p Hp. unfold from_key in Hp. by apply list_elem_of_filter in Hp as [_ Hp].
Qed.
End open_settlements_view.

(** ** What a lookup by version number answers *)
Section version_view.
Context {V : Type} (versionOf : V → Z) (validate : Z → V → res unit).

(** The version asked for, or its absence, or that the store cannot tell. *)
Definition truthful (history : gmap Z V) (version : Z) (answer : res V) : Prop :=
  match answer with
  | Ok r => ∃ k, history !! k = Some r ∧ versionOf r = version
  | Err StatusNotFound => ∀ k r, history !! k = Some r → versionOf r ≠ version
  | Err e => e = StatusInternal
  end.

Lemma resolve_plain (history : gmap Z V) (index : gmap Z Z) version :
  (∀ k r, plain (validate k r)) → plain (resolveExactVersion versionOf validate history index version).
Proof.
  intros Hval. unfold resolveExactVersion, proveVersionGap, lookupVersionEpochKey. plain.
Qed.

(** Whatever the index holds, the answer is truthful; with a faithful one there is
    an answer. *)
Lemma exact_truthful (history : gmap Z V) (index : gmap Z Z) version :
  (∀ k r, plain (validate k r)) → history_valid versionOf validate history → 1 ≤ version →
  truthful history version (exactVersion history index version versionOf validate) ∧
  (index_faithful versionOf history index → (∃ r, history !! 1 = Some r ∧ versionOf r = 1) →
   exactVersion history index version versionOf validate ≠ Err StatusInternal).
Proof.
  intros Hplain Hv Hver. unfold exactVersion, requireVersionRequest.
  destruct (Z.eqb_spec version 0); [lia|]. cbn [fail_if mret res_ret mbind res_bind].
  destruct (resolveExactVersion versionOf validate history index version) as [[k class]|e] eqn:E.
  - pose proof (resolve_sound versionOf validate history index version k class Hv E) as Ha.
    cbn [corrupt map_err mbind res_bind]. destruct class; simpl in Ha.
    + destruct Ha as (r & Hr & Hrv). rewrite Hr. simpl. split; [by exists k | done].
    + destruct Ha as [_ Ha]. split; [|done]. simpl. intros j r Hj. specialize (Ha j r Hj). lia.
    + destruct Ha as [Ha _]. split; [|done]. exact Ha.
  - unfold corrupt.
    rewrite (map_err_plain _ _ e (resolve_plain history index version Hplain) E).
    simpl. split; [done|]. intros Hf (r1 & H1 & Hr1).
    destruct (resolve_total versionOf validate history index version 1 r1 Hv Hf H1 Hr1 Hver)
      as (k & class & E'). congruence.
Qed.
End version_view.
Arguments truthful {_} _ _ _ _.

(** ** The three families *)
Section families.
Context {SI : SdkInt} {RK : RewardsKeeper}.

Lemma validate_mode_plain k r : plain (validateModeRecord k r).
Proof. unfold validateModeRecord, DM_Validate. plain. Qed.
Lemma validate_selection_plain k r : plain (validateSelectionParamsRecord k r).
Proof. unfold validateSelectionParamsRecord, SLP_Validate. cbn [for_each]. plain. Qed.
Lemma amount_plain s : plain (Mining_ParseCanonicalAmount s).
Proof. unfold Mining_ParseCanonicalAmount. plain. Qed.
Lemma validate_settlement_plain k r : plain (validateSettlementParamsRecord k r).
Proof.
  unfold validateSettlementParamsRecord, STP_Validate, validateSettlementParamValues.
  pose proof amount_plain. plain.
Qed.

(** Once the request and the origin are in order, what remains is the lookup. *)
Lemma mode_query mn index version v :
  1 ≤ version → GenesisDistributionMode (Mn_Modes mn) = Ok v →
  QueryDistributionModeVersion (put_Modes (put_VersionIndex index (Mn_Modes mn)) mn) (Some version) =
    exactVersion (Versions (Mn_Modes mn)) index version DM_Version validateModeRecord.
Proof.
  intros Hver Hg. unfold QueryDistributionModeVersion, requireVersionRequest.
  unfold GenesisDistributionMode in *. simpl. destruct (Z.eqb_spec version 0); [lia|]. simpl.
  by rewrite Hg.
Qed.
Lemma selection_query mn index version v :
  1 ≤ version → GenesisSelectionParams (Mn_SelectionParams mn) = Ok v →
  QuerySelectionParamsVersion
    (put_SelectionParams (put_VersionIndex index (Mn_SelectionParams mn)) mn) (Some version) =
    exactVersion (Versions (Mn_SelectionParams mn)) index version SLP_Version
      validateSelectionParamsRecord.
Proof.
  intros Hver Hg. unfold QuerySelectionParamsVersion, requireVersionRequest.
  unfold GenesisSelectionParams in *. simpl. destruct (Z.eqb_spec version 0); [lia|]. simpl.
  by rewrite Hg.
Qed.
Lemma settlement_query mn index version v :
  1 ≤ version → GenesisSettlementParams (Mn_SettlementParams mn) = Ok v →
  QuerySettlementParamsVersion
    (put_SettlementParams (put_VersionIndex index (Mn_SettlementParams mn)) mn) (Some version) =
    exactVersion (Versions (Mn_SettlementParams mn)) index version STP_Version
      validateSettlementParamsRecord.
Proof.
  intros Hver Hg. unfold QuerySettlementParamsVersion, requireVersionRequest.
  unfold GenesisSettlementParams in *. simpl. destruct (Z.eqb_spec version 0); [lia|]. simpl.
  by rewrite Hg.
Qed.

(** The index the module keeps. *)
Lemma put_Modes_same mn :
  put_Modes (put_VersionIndex (VersionIndex (Mn_Modes mn)) (Mn_Modes mn)) mn = mn.
Proof. by destruct mn as [[] ? ? ? ? ? ? ?]. Qed.
Lemma put_SelectionParams_same mn :
  put_SelectionParams (put_VersionIndex (VersionIndex (Mn_SelectionParams mn)) (Mn_SelectionParams mn)) mn = mn.
Proof. by destruct mn as [? [] ? ? ? ? ? ?]. Qed.
Lemma put_SettlementParams_same mn :
  put_SettlementParams (put_VersionIndex (VersionIndex (Mn_SettlementParams mn)) (Mn_SettlementParams mn)) mn = mn.
Proof. by destruct mn as [? ? [] ? ? ? ? ?]. Qed.

(** What is reported of a target epoch. *)
Lemma binding_query mn target p m :
  1 ≤ target ≤ MaxUint64 → SettlementParamsForTarget (Mn_SettlementParams mn) target = Ok p →
  DistributionModeForTarget (Mn_Modes mn) target = Ok m →
  let epoch := if decide (target ≤ 2) then 0 else target - 2 in
  let bootstrap := bool_decide (target ≤ 2) in
  QuerySettlementParamsForEpoch mn (Some target) = Ok {|
    QPE_Epoch := target; QPE_BindingEpoch := epoch; QPE_SettlementParamsVersion := p;
    QPE_Bootstrap := bootstrap |} ∧
  QueryTargetEpochInterpretation mn (Some target) = Ok {|
    QTE_TargetEpoch := target; QTE_BindingEpoch := epoch; QTE_DistributionModeVersion := m;
    QTE_SelectionApplicable := negb bootstrap &&
      bool_decide (DM_Mode m = MINING_DISTRIBUTION_MODE_PROTOCOL_SELECTION);
    QTE_BootstrapModeWithoutFullNMinus_2Binding := bootstrap |}.
Proof.
  intros Ht Hp Hm. cbv zeta.
  assert (bindingEpochForTarget target = Ok (if decide (target ≤ 2) then 0 else target - 2,
    bool_decide (target ≤ 2))) as Hb.
  { case_decide; [rewrite bool_decide_eq_true_2 by done; apply binding_bootstrap; lia|].
    rewrite bool_decide_eq_false_2 by done. apply binding_later. lia. }
  unfold QuerySettlementParamsForEpoch, QueryTargetEpochInterpretation. cbn [request mbind res_bind].
  destruct (Z.eqb_spec target 0); [lia|]. cbn [fail_if mret res_ret mbind res_bind].
  rewrite Hb, Hp, Hm. done.
Qed.
End families.
