(* ===== verification/MiningRewards.v ===== *)
(** * The rewards keeper behind the interface of x/mining

    [rewards_keeper] is the instance of [RewardsKeeper] that the application
    wires: the reads and the two release calls of x/rewards.  In the states of
    the chain invariant it keeps [rewards_contract], and a payment of a remainder
    that is owed goes through. *)
From S2P Require Import Prelude Checked SdkMath Bounds EconomicAddress RewardsTypes Collections.
From S2P Require Import EpochHistory RewardConfig Bank CoreSlotTypes Pause Entitlement RewardsKeeper.
From S2P Require Import RewardsInvariant Release Finalize Lifecycle Chain.
From S2P Require Import MiningTypes MiningKeeper MiningSettlement MiningInvariant MiningBlocks.
Local Open Scope Z_scope.

Section instance.
Context {SI : SdkInt} {BE : Bech32} {BK : BankKeeper}.
Context (econ : Validator) (module_addr : AccAddress) (Henv : environment econ module_addr).

Definition rewards_keeper : RewardsKeeper := {|
  RewardsStore := Store;
  Rk_GetFinalizedEpoch s epoch := Ok (GetFinalizedEpoch s epoch);
  Rk_IterateEntitlementsForEpoch s epoch := IterateEntitlementsForEpoch (Rs_Entitlements s) epoch;
  Rk_GetSlotEntitlement s slotID epoch := GetSlotEntitlement (Rs_Entitlements s) slotID epoch;
  Rk_EpochStartHeight s epoch := EpochStartHeight (Rs_Geometry s) epoch;
  Rk_EpochEndHeight s epoch := EpochEndHeight (Rs_Geometry s) epoch;
  Rk_EpochLengthForEpoch s epoch := EpochLengthForEpoch (Rs_Geometry s) epoch;
  Rk_SettlementReleaseEnabled s := SettlementReleaseEnabled (Rs_PauseState s);
  Rk_PayEntitlement slotID epoch payouts := PayEntitlement econ slotID epoch payouts;
  Rk_PayEntitlementRemainderToOperator slotID epoch :=
    PayEntitlementRemainderToOperator econ slotID epoch
|}.
#[local] Existing Instance rewards_keeper.

(** The part of the chain invariant the mining module sees. *)
Record rewards_good (c : Z) (s : Store) : Prop := {
  rg_ledger : ∃ base v, ledger_inv econ module_addr base c s v;
  rg_pause : ∃ h, pause_ok h (Rs_PauseState s);
  rg_bound : 0 ≤ c ∧ c + 2 ≤ MaxUint64
}.

(** The reads, in terms of the maps. *)
Lemma get_entitlement (s : Store) slot e x :
  ent_wf (Rs_Entitlements s) → slot ≠ 0 → e ≠ 0 →
  Rk_GetSlotEntitlement s slot e = Ok (Some x) ↔
  SlotEntitlements (Rs_Entitlements s) !! (e, slot) = Some x.
Proof.
  intros Hwf Hs He. simpl. unfold GetSlotEntitlement, entitlementKey.
  apply Z.eqb_neq in Hs as ->, He as ->. cbn [orb fail_if mret res_ret mbind res_bind].
  destruct (SlotEntitlements (Rs_Entitlements s) !! (e, slot)) as [y|] eqn:E; [|done].
  rewrite (ent_records _ Hwf _ _ E). simpl. split; intros H; injection H as <-; reflexivity.
Qed.

Lemma get_no_entitlement (s : Store) slot e :
  slot ≠ 0 → e ≠ 0 → SlotEntitlements (Rs_Entitlements s) !! (e, slot) = None →
  Rk_GetSlotEntitlement s slot e = Ok None.
Proof.
  intros Hs He Hn. simpl. unfold GetSlotEntitlement, entitlementKey.
  apply Z.eqb_neq in Hs as ->, He as ->. by rewrite Hn.
Qed.

Lemma entitled_stored (s : Store) slot e x :
  ent_wf (Rs_Entitlements s) → SlotEntitlements (Rs_Entitlements s) !! (e, slot) = Some x →
  ∃ a rel, entitled s slot e x a rel.
Proof.
  intros Hwf Hx. pose proof (ent_records _ Hwf _ _ Hx) as [Hk Hv]%record_valid.
  unfold entitlementKey in Hk. injection Hk as -> ->.
  pose proof Hv as (Hs & He & _)%Ent_Validate_Ok.
  destruct (owed_valid x Hv) as (a & rel & Ha & Hr & Hle & Hp & _). exists a, rel.
  split; try done. by apply get_entitlement.
Qed.

Lemma entitled_lookup (s : Store) slot e x a rel :
  ent_wf (Rs_Entitlements s) → entitled s slot e x a rel →
  SlotEntitlements (Rs_Entitlements s) !! (e, slot) = Some x ∧ slot ≠ 0 ∧ e ≠ 0.
Proof.
  intros Hwf Hx. pose proof (et_get _ _ _ _ _ _ Hx) as Hg.
  assert (slot ≠ 0 ∧ e ≠ 0) as [Hs He].
  { simpl in Hg. unfold GetSlotEntitlement in Hg. minv. by zify_bool. }
  split; [by apply get_entitlement | done].
Qed.

Lemma same_get (s s' : Store) slot e :
  SlotEntitlements (Rs_Entitlements s') !! (e, slot) =
    SlotEntitlements (Rs_Entitlements s) !! (e, slot) →
  Rk_GetSlotEntitlement s' slot e = Rk_GetSlotEntitlement s slot e.
Proof. intros H. simpl. unfold GetSlotEntitlement, entitlementKey. by rewrite H. Qed.

(** The entitlements of an epoch, as the module lists them. *)
Lemma iterate_spec (s : Store) e :
  ent_wf (Rs_Entitlements s) → 1 ≤ e → ∃ l, Rk_IterateEntitlementsForEpoch s e = Ok l ∧
    NoDup (Ent_SlotId <$> l) ∧
    ∀ x, x ∈ l ↔ Ent_SlotId x ≠ 0 ∧ Ent_Epoch x = e ∧
      Rk_GetSlotEntitlement s (Ent_SlotId x) e = Ok (Some x).
Proof.
  intros Hwf He. set (m := SlotEntitlements (Rs_Entitlements s)).
  assert (∀ k x, (k, x) ∈ prefix_entries e m → m !! k = Some x ∧ k = (e, Ent_SlotId x) ∧
    Ent_Epoch x = e ∧ Ent_SlotId x ≠ 0) as Hrow.
  { intros k x [Hk Hf]%elem_of_prefix_entries. split; [done|].
    pose proof (ent_records _ Hwf _ _ Hk) as [-> Hv]%record_valid. unfold entitlementKey in Hf.
    simpl in Hf. apply Ent_Validate_Ok in Hv as (? & _). by subst. }
  exists (snd <$> prefix_entries e m). split_and!.
  - simpl. unfold IterateEntitlementsForEpoch. destruct (Z.eqb_spec e 0); [lia|].
    cbn [fail_if mret res_ret mbind res_bind]. rewrite iterate_loop; [done|].
    intros k x (Hk & _)%Hrow. by apply Hwf.
  - pose proof (prefix_entries_keys_NoDup e m) as Hnd. rewrite <- list_fmap_compose.
    assert (snd ∘ fst <$> prefix_entries e m = (Ent_SlotId ∘ snd <$> prefix_entries e m)) as <-.
    { apply list_fmap_ext. intros i [k x] Hi%list_elem_of_lookup_2. apply Hrow in Hi as (_ & -> & _). done. }
    rewrite (list_fmap_compose fst snd). apply NoDup_fmap_2_strong; [|done].
    intros k k' Hk Hk'. apply list_elem_of_fmap in Hk as ([? x] & -> & Hx).
    apply list_elem_of_fmap in Hk' as ([? x'] & -> & Hx').
    apply Hrow in Hx as (_ & -> & _). apply Hrow in Hx' as (_ & -> & _). simpl. congruence.
  - intros x. rewrite list_elem_of_fmap. split.
    + intros ([k y] & -> & Hx). apply Hrow in Hx as (Hk & -> & Hex & Hs). split_and!; [done..|].
      by apply get_entitlement; [..|lia|].
    + intros (Hs & Hex & Hg%get_entitlement); [|done|done|lia].
      exists ((e, Ent_SlotId x), x). split; [done|]. by apply elem_of_prefix_entries.
Qed.

(** ** The contract *)
Lemma pays_stored (s s' : Store) slot e x x' a rel n :
  with_bank_and_books s s' → ent_wf (Rs_Entitlements s) → ent_wf (Rs_Entitlements s') →
  slot ≠ 0 → e ≠ 0 → SlotEntitlements (Rs_Entitlements s) !! (e, slot) = Some x →
  SlotEntitlements (Rs_Entitlements s') !! (e, slot) = Some x' →
  Ent_Amount x = Ok a → Ent_Released x = Ok rel → Ent_Amount x' = Ok a → Ent_Released x' = Ok (rel + n) →
  (∀ k, k ≠ (e, slot) → SlotEntitlements (Rs_Entitlements s') !! k =
     SlotEntitlements (Rs_Entitlements s) !! k) →
  pays s s' slot e n.
Proof.
  intros Hs Hwf Hwf' Hs0 He0 Hx Hx' Ha Hr Ha' Hr' Hold.
  destruct (entitled_stored s slot e x Hwf Hx) as (a1 & rel1 & H1).
  destruct (entitled_stored s' slot e x' Hwf' Hx') as (a2 & rel2 & H2).
  pose proof (et_amount _ _ _ _ _ _ H1). pose proof (et_released _ _ _ _ _ _ H1).
  pose proof (et_amount _ _ _ _ _ _ H2). pose proof (et_released _ _ _ _ _ _ H2).
  assert (a1 = a ∧ rel1 = rel ∧ a2 = a ∧ rel2 = rel + n) as (-> & -> & -> & ->)
    by (split_and!; congruence).
  split.
  - by exists x, x', a, rel.
  - intros i j Hne. apply same_get. apply Hold. congruence.
  - intros j. by rewrite Hs.
  - by rewrite Hs.
Qed.

Lemma good_pay c (s s' : Store) slot e lines r :
  rewards_good c s → Rk_PayEntitlement slot e lines s = (s', r) →
  match r with
  | Err _ => s' = s
  | Ok _ => rewards_good c s' ∧ pays s s' slot e (sum_of line_amount lines)
  end.
Proof using Henv.
  intros [(base & v & Hl) Hp Hb] H. simpl in *.
  pose proof (i_books _ _ _ _ _ _ Hl) as Hwf.
  destruct (pay_inv econ module_addr Henv base c s s' v slot e lines r Hl H) as [Hl' Hs].
  pose proof (PayEntitlement_spec econ module_addr slot e lines s s' r (env_module _ _ Henv) Hwf H) as Hspec.
  destruct r as [[]|]; [|done].
  destruct Hspec as (p & x & a & rel & _ & _ & _ & Hall & Hx & Ha & Hr & Hle & _ & Hwf' & Hm & _).
  split.
  - split; [by exists base, v | rewrite Hs; exact Hp | done].
  - destruct (entitled_stored s slot e x Hwf Hx) as (a' & rel' & Hent).
    destruct (entitled_lookup s slot e x a' rel' Hwf Hent) as (_ & Hs0 & He0).
    pose proof (et_amount _ _ _ _ _ _ Hent). pose proof (et_released _ _ _ _ _ _ Hent).
    pose proof (et_bounds _ _ _ _ _ _ Hent).
    assert (a' = a ∧ rel' = rel) as [-> ->] by (split; congruence).
    assert (0 ≤ sum_of line_amount lines) as Hn
      by (apply sum_of_nonneg; eapply Forall_impl; [exact Hall|]; simpl; lia).
    pose proof (ent_records _ Hwf _ _ Hx) as [_ Hv]%record_valid.
    assert (0 ≤ rel + sum_of line_amount lines ≤ a) as Hn2 by lia.
    destruct (with_released_valid x a rel _ Hv Ha Hr Hn2) as (_ & Ha2 & Hr2 & _).
    apply (pays_stored s s' slot e x (with_released x (Int_String (rel + sum_of line_amount lines))) a rel);
      try done.
    + by rewrite Hm, lookup_insert_eq.
    + intros k Hk. by rewrite Hm, lookup_insert_ne by done.
Qed.

Lemma good_remainder c (s s' : Store) slot e r :
  rewards_good c s → Rk_PayEntitlementRemainderToOperator slot e s = (s', r) →
  match r with
  | Err _ => s' = s
  | Ok _ => rewards_good c s' ∧ ∃ x a rel, entitled s slot e x a rel ∧ pays s s' slot e (a - rel)
  end.
Proof using Henv.
  intros [(base & v & Hl) Hp Hb] H. simpl in *.
  pose proof (i_books _ _ _ _ _ _ Hl) as Hwf.
  destruct (pay_remainder_inv econ module_addr Henv base c s s' v slot e r Hl H) as [Hl' Hs].
  pose proof (PayRemainder_spec econ module_addr slot e s s' r (env_module _ _ Henv) Hwf H) as Hspec.
  destruct r as [[]|]; [|done].
  destruct Hspec as (x & Hx & Hwf' & _ & _ & (x' & a & Hx' & _ & Ha & Ha' & Hr' & _) & Hold & _).
  split.
  - split; [by exists base, v | rewrite Hs; exact Hp | done].
  - destruct (entitled_stored s slot e x Hwf Hx) as (a' & rel & Hent).
    destruct (entitled_lookup s slot e x a' rel Hwf Hent) as (_ & Hs0 & He0).
    pose proof (et_amount _ _ _ _ _ _ Hent). pose proof (et_released _ _ _ _ _ _ Hent) as Hr.
    assert (a' = a) as -> by congruence.
    exists x, a, rel. split; [done|]. apply (pays_stored s s' slot e x x' a rel); try done.
    by replace (rel + (a - rel)) with a by lia.
Qed.

Lemma rewards_keeps_contract : rewards_contract rewards_good.
Proof using Henv.
  split.
  - by intros c s [_ _ Hb].
  - intros c s [_ (h & st & Hst & Hv & _) _]. simpl. unfold SettlementReleaseEnabled, RewardsPaused, GetPauseState.
    rewrite Hst, Hv. simpl. eauto.
  - intros c s e [(base & v & Hl) _ _] He. simpl. unfold GetFinalizedEpoch.
    destruct (i_records _ _ _ _ _ _ Hl e He) as (r & -> & Hr). eauto.
  - intros c s e [(base & v & Hl) _ _] He. simpl. unfold GetFinalizedEpoch.
    destruct (Rs_FinalizedEpochs s !! e) as [r|] eqn:E; [|done].
    apply (i_finalized _ _ _ _ _ _ Hl) in E as [? _]. lia.
  - intros c s slot e [(base & v & Hl) _ _] Hs He. pose proof (i_books _ _ _ _ _ _ Hl) as Hwf.
    destruct (SlotEntitlements (Rs_Entitlements s) !! (e, slot)) as [x|] eqn:E.
    + right. destruct (entitled_stored s slot e x Hwf E) as (a & rel & Hx). exists x, a, rel.
      split; [done|]. by apply (i_books_epochs _ _ _ _ _ _ Hl) in E.
    + left. apply get_no_entitlement; done || lia.
  - intros c s e [(base & v & Hl) _ _] He. apply iterate_spec; [|done]. by apply Hl.
  - intros c s e [(base & v & Hl) _ _] He. simpl.
    destruct (EpochLengthForEpoch_spec (Rs_Geometry s) (i_geometry _ _ _ _ _ _ Hl) e ltac:(lia)) as [-> ?].
    eauto.
  - intros c s s' slot e lines r. apply good_pay.
  - intros c s s' slot e r. apply good_remainder.
Qed.

(** ** What is owed can be paid *)
Lemma remainder_goes_through c (s : Store) slot e x a rel :
  rewards_good c s → Rk_SettlementReleaseEnabled s = Ok true → entitled s slot e x a rel →
  ∃ s', Rk_PayEntitlementRemainderToOperator slot e s = (s', Ok tt).
Proof using Henv.
  intros [(base & v & Hl) _ _] Hen Hx. pose proof (i_books _ _ _ _ _ _ Hl) as Hwf.
  destruct (entitled_lookup s slot e x a rel Hwf Hx) as (Hk & Hs0 & He0).
  pose proof (ent_records _ Hwf _ _ Hk) as [Hkey Hv]%record_valid.
  destruct (owed_valid x Hv) as (a' & rel' & Ha & Hr & Hle & _ & _ & Ho & Hrem).
  assert (loadReleasableEntitlement slot e s = Ok x) as Hload.
  { apply load_Ok. split_and!; try done. simpl in Hen. unfold SettlementReleaseEnabled in Hen.
    destruct (RewardsPaused (Rs_PauseState s)) as [[]|]; done. }
  simpl. unfold PayEntitlementRemainderToOperator.
  setoid_rewrite (cached_Ok (payEntitlementRemainder econ slot e)). unfold payEntitlementRemainder.
  rewrite (reads_step _ _ s x) by done. rewrite (lift_step _ _ _ _ Hrem).
  destruct (Z.eqb_spec (a' - rel') 0) as [|Hne]; [by eexists|].
  rewrite (reads_step _ _ s (V_params v)) by exact (inv_MonetaryParams _ _ _ _ _ _ Hl).
  pose proof (i_payout _ _ _ _ _ _ Hl _ _ Hk) as Hpay. unfold validatePayoutDestination in Hpay.
  destruct (Validate econ (Ent_PayoutAddress x)) as [raw|] eqn:Hraw; [|done].
  rewrite (lift_step _ _ _ raw) by done.
  destruct (inv_amounts _ _ _ _ _ _ Hl) as (Hden & _ & _ & _ & Hcarry & _ & _ & _ & Hbal & _).
  pose proof (map_sum_elem owed _ _ _ (records_owed_nonneg _ (ent_records _ Hwf)) Hk) as Hel.
  destruct (SendCoins_total ModuleName raw NativeBaseDenom (a' - rel') (Rs_Bank s) module_addr)
    as [b Hb]; [apply Henv | lia | lia | by eapply (env_blocked _ _ Henv) |].
  rewrite Hden. unfold on_bank. rewrite (zoom_step _ _ _ _ _ b tt) by exact Hb.
  destruct (recordRelease_spec (Rs_Entitlements s) x a' rel' (a' - rel')) as (t & Hrec & _); try done; try lia.
  { unfold key_of. by rewrite <- Hkey. }
  eexists. unfold on_entitlements. by apply zoom_run.
Qed.

(** ** Between the payments *)
(** The chain invariant implies what the mining module needs. *)
Lemma chain_good {CK : CoreSlotKeeper} (cs_inv : CoreSlotStore → Prop) base c (x : Chain) v :
  chain_view econ module_addr cs_inv base c x v → rewards_good c (Ch_Rewards x).
Proof.
  intros [[Hl _] Hp _ _ Hh _ Hpos]. split; [by exists base, v | by eexists |].
  destruct (inv_start_bounds _ _ _ _ _ _ Hl) as (H1 & H2 & _ & H4 & H5).
  pose proof (i_epoch _ _ _ _ _ _ Hl) as He. pose proof (i_closed _ _ _ _ _ _ Hl) as Hc.
  pose proof (i_geometry _ _ _ _ _ _ Hl) as Hwf.
  pose proof (start_of_positive _ Hwf 1 ltac:(lia)) as Hp1.
  pose proof (start_of_growth _ Hwf 1 (CurrentEpoch (V_state v) - 1) ltac:(lia) ltac:(lia)) as Hgr.
  replace (1 + (CurrentEpoch (V_state v) - 1)) with (CurrentEpoch (V_state v)) in Hgr by lia.
  unfold position in Hpos. destruct (Ch_InBlock x); widths; lia.
Qed.
End instance.
