(* ===== verification/MiningGenesis.v ===== *)
(** * x/mining: the genesis document

    [types/genesis.go] and [keeper/genesis.go]: validation of a fresh document,
    the check of the active slots' selection policies against it, import with the
    derived indexes, and export.  The theorems: a document that is accepted leaves
    a store that satisfies the invariant of [MiningInvariant] before the first
    epoch, and exporting it gives the document back. *)
From S2P Require Import Prelude Checked SdkMath Bounds RewardsTypes Collections.
From S2P Require Import CoreSlotTypes CoreSlotState CoreSlot MiningTypes MiningHistory MiningKeeper.
From S2P Require Import MiningSettlement MiningHistories MiningInvariant.
From Stdlib Require Import Ascii String.
Local Open Scope Z_scope.

Record MiningGenesis := {
  MG_DistributionModeVersions : list (option MiningDistributionModeVersion);
  MG_ScheduledDistributionModes : list (option ScheduledMiningDistributionMode);
  MG_SelectionParamsVersions : list (option SelectionParamsVersion);
  MG_ScheduledSelectionParams : list (option ScheduledSelectionParams);
  MG_SettlementParamsVersions : list (option SettlementParamsVersion);
  MG_ScheduledSettlementParams : list (option ScheduledSettlementParams);
  MG_SettlementClock : Z;
  MG_LastProcessedRewardEpoch : Z;
  MG_SettlementEpochAnchors : list (option SettlementEpochAnchor);
  MG_Settlements : list (option Settlement)
}.

(** ** types/genesis.go *)
Definition DefaultMaxSelectionRateBps : Z := 2500.
Definition DefaultMaxSelectedParticipantsPerSelection : Z := 64.
Definition DefaultMaxCandidatesPerSelection : Z := 1024.
Definition DefaultBeaconStartOffsetBlocks : Z := 48.
Definition DefaultBeaconWindowBlocks : Z := 24.
Definition DefaultMinExternalBeaconBlocks : Z := 12.
Definition DefaultMinDistinctExternalProposers : Z := 3.
Definition DefaultSettlementWindowEpochs : Z := 2.
Definition DefaultMaxRecipientsPerChunk : Z := 32.
Definition DefaultMaxChunksPerSettlement : Z := 4.
Definition DefaultMinRecipientPayoutAmount : string := "10000".

Definition DefaultMiningGenesis : MiningGenesis := {|
  MG_DistributionModeVersions := [Some {|
    DM_Version := 1;
    DM_Mode := MINING_DISTRIBUTION_MODE_TRUSTED_AS_DISTRIBUTION;
    DM_ValidFromEpoch := 1;
    DM_ValidUntilEpochExclusive := 0 |}];
  MG_ScheduledDistributionModes := [];
  MG_SelectionParamsVersions := [Some {|
    SLP_Version := 1;
    SLP_EffectiveEpoch := 1;
    SLP_MaxSelectionRateBps := DefaultMaxSelectionRateBps;
    SLP_MaxSelectedParticipantsPerSelection := DefaultMaxSelectedParticipantsPerSelection;
    SLP_MaxCandidatesPerSelection := DefaultMaxCandidatesPerSelection;
    SLP_BeaconStartOffsetBlocks := DefaultBeaconStartOffsetBlocks;
    SLP_BeaconWindowBlocks := DefaultBeaconWindowBlocks;
    SLP_MinExternalBeaconBlocks := DefaultMinExternalBeaconBlocks;
    SLP_MinDistinctExternalProposers := DefaultMinDistinctExternalProposers |}];
  MG_ScheduledSelectionParams := [];
  MG_SettlementParamsVersions := [Some {|
    STP_Version := 1;
    STP_EffectiveEpoch := 1;
    STP_SettlementWindowEpochs := DefaultSettlementWindowEpochs;
    STP_MaxRecipientsPerChunk := DefaultMaxRecipientsPerChunk;
    STP_MaxChunksPerSettlement := DefaultMaxChunksPerSettlement;
    STP_MinRecipientPayoutAmount := DefaultMinRecipientPayoutAmount |}];
  MG_ScheduledSettlementParams := [];
  MG_SettlementClock := 0;
  MG_LastProcessedRewardEpoch := 0;
  MG_SettlementEpochAnchors := [];
  MG_Settlements := [] |}.

Section validate.
Context {SI : SdkInt}.
Implicit Types (g : MiningGenesis).

Definition validateDistributionModeHistory g : res unit :=
  fail_if (negb (bool_decide (MG_ScheduledDistributionModes g = []))) MnInvalidGenesis ;;
  match MG_DistributionModeVersions g with
  | [Some anchor] =>
      wrap MnInvalidGenesis (DM_Validate anchor) ;;
      fail_if (negb (DM_Version anchor =? 1) || negb (DM_ValidFromEpoch anchor =? 1))
        MnInvalidGenesis ;;
      fail_if (negb (DM_ValidUntilEpochExclusive anchor =? 0)) MnInvalidGenesis ;;
      fail_if (bool_decide (DM_Mode anchor ≠ MINING_DISTRIBUTION_MODE_TRUSTED_AS_DISTRIBUTION))
        MnInvalidGenesis
  | _ => Err MnInvalidGenesis
  end.

Definition validateSelectionParamsHistory g : res unit :=
  fail_if (negb (bool_decide (MG_ScheduledSelectionParams g = []))) MnInvalidGenesis ;;
  match MG_SelectionParamsVersions g with
  | [Some anchor] =>
      wrap MnInvalidGenesis (SLP_Validate anchor) ;;
      fail_if (negb (SLP_Version anchor =? 1) || negb (SLP_EffectiveEpoch anchor =? 1))
        MnInvalidGenesis
  | _ => Err MnInvalidGenesis
  end.

Definition validateSettlementParamsHistory g : res unit :=
  fail_if (negb (bool_decide (MG_ScheduledSettlementParams g = []))) MnInvalidGenesis ;;
  match MG_SettlementParamsVersions g with
  | [Some anchor] =>
      wrap MnInvalidGenesis (STP_Validate anchor) ;;
      fail_if (negb (STP_Version anchor =? 1) || negb (STP_EffectiveEpoch anchor =? 1))
        MnInvalidGenesis
  | _ => Err MnInvalidGenesis
  end.

Definition validateFreshSettlementState g : res unit :=
  fail_if (negb (MG_SettlementClock g =? 0)) MnInvalidGenesis ;;
  fail_if (negb (MG_LastProcessedRewardEpoch g =? 0)) MnInvalidGenesis ;;
  fail_if (negb (bool_decide (MG_SettlementEpochAnchors g = []))) MnInvalidGenesis ;;
  fail_if (negb (bool_decide (MG_Settlements g = []))) MnInvalidGenesis.

Definition MiningGenesis_Validate g : res unit :=
  validateDistributionModeHistory g ;;
  validateSelectionParamsHistory g ;;
  validateSettlementParamsHistory g ;;
  validateFreshSettlementState g.
End validate.

(** ** keeper/genesis.go *)
Section keeper.
Context {SI : SdkInt}.
Implicit Types (g : MiningGenesis).

(** The module before its genesis. *)
Definition emptyFamily {V S} : Family V S :=
  {| Versions := ∅; Scheduled := ∅; VersionIndex := ∅ |}.
Definition emptyMiningStore : MiningStore := {|
  Mn_Modes := emptyFamily; Mn_SelectionParams := emptyFamily; Mn_SettlementParams := emptyFamily;
  Mn_SettlementClock := None; Mn_LastProcessedRewardEpoch := None;
  Mn_SettlementEpochAnchors := ∅; Mn_Settlements := ∅; Mn_OpenSettlementsBySlot := ∅ |}.

Definition genesisInitialHeight (height : Z) : res Z :=
  fail_if (height <? 0) MnInvalidGenesis ;;
  if height =? 0 then mret 1 else mret height.

Definition validateActiveSlotPolicies (cs : CoreSlotState) g (initialHeight : Z) : res unit :=
  match MG_SelectionParamsVersions g with
  | Some params :: _ =>
      slots ← wrap MnInvalidGenesis (ActiveSlotRows cs);
      for_each (λ slot,
        if bool_decide (Status slot ≠ SLOT_STATUS_ACTIVE) then mret tt
        else
          policy ← wrap MnInvalidGenesis (SelectionPolicyAtHeight (SlotId slot) initialHeight cs);
          wrap MnInvalidGenesis (ValidateSelectionRateBps (SPV_SelectionRateBps policy)
            (SLP_MaxSelectionRateBps params)) ;;
          fail_if (SPV_MaxSelectedParticipants policy >?
                   SLP_MaxSelectedParticipantsPerSelection params) MnInvalidGenesis) slots
  | _ => Err MnInvalidGenesis
  end.

(** [importGenesisCollection] of what a pointer of the document names; [write] is
    the [Set] under the record's key. *)
Definition importGenesisCollection {A} (write : A → KM unit) (x : option A) : KM unit :=
  x ← lift (deref_ptr x);
  write x.

Definition setScheduled {V S} (key : Z) (x : S) : M (Family V S) unit :=
  modify (λ f, put_Scheduled (<[key := x]> (Scheduled f)) f).
Definition setAnchor (anchor : SettlementEpochAnchor) : KM unit :=
  modify (λ s, put_SettlementEpochAnchors
    (<[SEA_Epoch anchor := anchor]> (Mn_SettlementEpochAnchors s)) s).

(** One of the three walks of [rebuildVersionIndexes]. *)
Definition indexGenesisVersion {V S} (versionOf : V → Z) (kv : Z * V) : M (Family V S) unit := λ f,
  let '(f', r) := indexVersion (versionOf (snd kv)) (fst kv) f in (f', wrap MnInvalidGenesis r).
Definition rebuildVersionIndex {V S} (versionOf : V → Z) : M (Family V S) unit :=
  versions ← gets (λ f : Family V S, entries (Versions f));
  for_each (indexGenesisVersion versionOf) versions.
Definition rebuildVersionIndexes : KM unit :=
  on_modes (rebuildVersionIndex DM_Version) ;;
  on_selection_params (rebuildVersionIndex SLP_Version) ;;
  on_settlement_params (rebuildVersionIndex STP_Version).

Definition rebuildOpenSettlementIndex : KM unit :=
  settlements ← gets (λ s, pair_entries (Mn_Settlements s));
  for_each (λ '(key, settlement),
    lift (validateSettlementRecord key settlement) ;;
    if Stl_Finalized settlement then mret tt else setOpen key (Stl_Epoch settlement)) settlements.

(** The writes of [InitGenesis], after its preflight. *)
Definition importMiningGenesis g : KM unit :=
  for_each (importGenesisCollection (λ v, on_modes (setVersion (DM_ValidFromEpoch v) v)))
    (MG_DistributionModeVersions g) ;;
  for_each (importGenesisCollection (λ x, on_modes (setScheduled (SDM_EffectiveEpoch x) x)))
    (MG_ScheduledDistributionModes g) ;;
  for_each (importGenesisCollection (λ v, on_selection_params (setVersion (SLP_EffectiveEpoch v) v)))
    (MG_SelectionParamsVersions g) ;;
  for_each (importGenesisCollection (λ x, on_selection_params (setScheduled (SSLP_EffectiveEpoch x) x)))
    (MG_ScheduledSelectionParams g) ;;
  for_each (importGenesisCollection (λ v, on_settlement_params (setVersion (STP_EffectiveEpoch v) v)))
    (MG_SettlementParamsVersions g) ;;
  for_each (importGenesisCollection (λ x, on_settlement_params (setScheduled (SSTP_EffectiveEpoch x) x)))
    (MG_ScheduledSettlementParams g) ;;
  for_each (importGenesisCollection setAnchor) (MG_SettlementEpochAnchors g) ;;
  for_each (importGenesisCollection (λ x, setSettlement (settlementKey (Stl_SlotId x) (Stl_Epoch x)) x))
    (MG_Settlements g) ;;
  modify (put_SettlementClock (Some (MG_SettlementClock g))) ;;
  modify (put_LastProcessedRewardEpoch (Some (MG_LastProcessedRewardEpoch g))) ;;
  rebuildVersionIndexes ;;
  rebuildOpenSettlementIndex.

Definition MiningInitGenesis (cs : CoreSlotState) (height : Z) g : KM unit :=
  lift (MiningGenesis_Validate g) ;;
  initialHeight ← lift (genesisInitialHeight height);
  lift (validateActiveSlotPolicies cs g initialHeight) ;;
  importMiningGenesis g.

Definition MiningExportGenesis (s : MiningStore) : res MiningGenesis :=
  clock ← wrap MnInvalidState (coll_get (Mn_SettlementClock s));
  cursor ← wrap MnInvalidState (coll_get (Mn_LastProcessedRewardEpoch s));
  mret {|
    MG_DistributionModeVersions := walk (Versions (Mn_Modes s));
    MG_ScheduledDistributionModes := walk (Scheduled (Mn_Modes s));
    MG_SelectionParamsVersions := walk (Versions (Mn_SelectionParams s));
    MG_ScheduledSelectionParams := walk (Scheduled (Mn_SelectionParams s));
    MG_SettlementParamsVersions := walk (Versions (Mn_SettlementParams s));
    MG_ScheduledSettlementParams := walk (Scheduled (Mn_SettlementParams s));
    MG_SettlementClock := clock;
    MG_LastProcessedRewardEpoch := cursor;
    MG_SettlementEpochAnchors := walk (Mn_SettlementEpochAnchors s);
    MG_Settlements := walk_pairs (Mn_Settlements s) |}.
End keeper.

(** ** What a fresh document is *)
Section fresh.
Context {SI : SdkInt}.
Implicit Types (g : MiningGenesis) (m : MiningDistributionModeVersion).
Implicit Types (p : SelectionParamsVersion) (q : SettlementParamsVersion).

Definition fresh_mining m p q : MiningGenesis := {|
  MG_DistributionModeVersions := [Some m]; MG_ScheduledDistributionModes := [];
  MG_SelectionParamsVersions := [Some p]; MG_ScheduledSelectionParams := [];
  MG_SettlementParamsVersions := [Some q]; MG_ScheduledSettlementParams := [];
  MG_SettlementClock := 0; MG_LastProcessedRewardEpoch := 0;
  MG_SettlementEpochAnchors := []; MG_Settlements := [] |}.

(** The first version of each family, in force from the first epoch. *)
Record founding m p q : Prop := {
  fd_mode : DM_Validate m = Ok tt ∧ DM_Version m = 1 ∧ DM_ValidFromEpoch m = 1;
  fd_mode_open : DM_ValidUntilEpochExclusive m = 0 ∧
    DM_Mode m = MINING_DISTRIBUTION_MODE_TRUSTED_AS_DISTRIBUTION;
  fd_selection : SLP_Validate p = Ok tt ∧ SLP_Version p = 1 ∧ SLP_EffectiveEpoch p = 1;
  fd_settlement : STP_Validate q = Ok tt ∧ STP_Version q = 1 ∧ STP_EffectiveEpoch q = 1
}.

Lemma MiningGenesis_Validate_Ok g :
  MiningGenesis_Validate g = Ok tt → ∃ m p q, g = fresh_mining m p q ∧ founding m p q.
Proof.
  unfold MiningGenesis_Validate, validateDistributionModeHistory, validateSelectionParamsHistory,
    validateSettlementParamsHistory, validateFreshSettlementState.
  destruct g as [ms sms ps sps qs sqs clock cursor anchors rows]; simpl. intros H. minv.
  repeat match goal with
  | H : match ?l with _ => _ end = Ok _ |- _ => destruct l as [|[?|] [|? ?]]; try discriminate H
  end. minv.
  repeat match goal with
  | H : bool_decide (_ ≠ _) = false |- _ => apply bool_decide_eq_false_1 in H
  end. zify_bool.
  repeat match goal with H : bool_decide _ = true |- _ => apply bool_decide_eq_true_1 in H end.
  subst. eexists _, _, _. split; [reflexivity|].
  split; try tauto. split; [tauto|]. by apply dec_stable.
Qed.

Definition founded {V S} (v : V) : Family V S :=
  {| Versions := {[1 := v]}; Scheduled := ∅; VersionIndex := {[1 := 1]} |}.
Definition imported_mining m p q : MiningStore := {|
  Mn_Modes := founded m; Mn_SelectionParams := founded p; Mn_SettlementParams := founded q;
  Mn_SettlementClock := Some 0; Mn_LastProcessedRewardEpoch := Some 0;
  Mn_SettlementEpochAnchors := ∅; Mn_Settlements := ∅; Mn_OpenSettlementsBySlot := ∅ |}.

Lemma rebuild_founded {V S} (versionOf : V → Z) (v : V) :
  versionOf v = 1 →
  rebuildVersionIndex versionOf
    {| Versions := {[1 := v]}; Scheduled := ∅ : gmap Z S; VersionIndex := ∅ |} = (founded v, Ok tt).
Proof.
  intros Hv. unfold rebuildVersionIndex. rewrite gets_step. simpl. rewrite entries_singleton. simpl.
  unfold indexGenesisVersion. simpl. rewrite Hv. reflexivity.
Qed.

Lemma import_mining_run m p q :
  founding m p q → importMiningGenesis (fresh_mining m p q) emptyMiningStore =
    (imported_mining m p q, Ok tt).
Proof.
  intros [(_ & Hm1 & Hm2) _ (_ & Hp1 & Hp2) (_ & Hq1 & Hq2)].
  unfold importMiningGenesis, fresh_mining, importGenesisCollection.
  set (s1 := {| Mn_Modes := {| Versions := {[1 := m]}; Scheduled := ∅; VersionIndex := ∅ |};
    Mn_SelectionParams := {| Versions := {[1 := p]}; Scheduled := ∅; VersionIndex := ∅ |};
    Mn_SettlementParams := {| Versions := {[1 := q]}; Scheduled := ∅; VersionIndex := ∅ |};
    Mn_SettlementClock := Some 0; Mn_LastProcessedRewardEpoch := Some 0;
    Mn_SettlementEpochAnchors := ∅; Mn_Settlements := ∅; Mn_OpenSettlementsBySlot := ∅ |}).
  transitivity ((rebuildVersionIndexes ;; rebuildOpenSettlementIndex) s1).
  { subst s1. clear Hm1 Hp1 Hq1. destruct m, p, q. simpl in Hm2, Hp2, Hq2. subst. reflexivity. }
  unfold rebuildVersionIndexes, on_modes, on_selection_params, on_settlement_params.
  rewrite (M_bind_run _ _ s1 {| Mn_Modes := founded m; Mn_SelectionParams := founded p;
    Mn_SettlementParams := founded q; Mn_SettlementClock := Some 0;
    Mn_LastProcessedRewardEpoch := Some 0; Mn_SettlementEpochAnchors := ∅;
    Mn_Settlements := ∅; Mn_OpenSettlementsBySlot := ∅ |} tt); [reflexivity|].
  erewrite zoom_step by (apply rebuild_founded; exact Hm1).
  erewrite zoom_step by (apply rebuild_founded; exact Hp1).
  erewrite zoom_run by (apply rebuild_founded; exact Hq1). reflexivity.
Qed.

(** A family of one version, in force from the first epoch. *)
Lemma founded_family {V S} (versionOf : V → Z) validate (successor : Z → Z → S → V) effective v :
  versionOf v = 1 → validate 1 v = Ok tt →
  family_wf versionOf validate successor effective 0 (founded v).
Proof.
  intros Hv Hval. split; simpl.
  - split.
    + intros k r [<- <-]%lookup_singleton_Some. done.
    + intros k r [<- <-]%lookup_singleton_Some. lia.
    + intros k r k' r' [<- <-]%lookup_singleton_Some [<- <-]%lookup_singleton_Some. lia.
  - intros n k. rewrite lookup_singleton_Some. setoid_rewrite lookup_singleton_Some.
    naive_solver.
  - exists v. by rewrite lookup_singleton_eq.
  - intros k r [<- <-]%lookup_singleton_Some. lia.
  - by left.
Qed.

Lemma founded_modes m :
  DM_Version m = 1 → DM_ValidFromEpoch m = 1 → DM_Validate m = Ok tt →
  DM_ValidUntilEpochExclusive m = 0 → modes_wf 0 (founded m).
Proof.
  intros Hv Hf Hval Ho. split.
  - apply founded_family; [done|]. by apply mode_record.
  - intros k v Hk. unfold founded in *. simpl in *.
    apply lookup_singleton_Some in Hk as [<- <-]. rewrite Ho.
    assert (seek_gt 1 ({[1 := m]} : gmap Z MiningDistributionModeVersion) = None) as ->; [|done].
    apply seek_gt_None. intros i y [<- <-]%lookup_singleton_Some. lia.
Qed.

Context {RK : RewardsKeeper}.

Lemma imported_mining_inv m p q (rw : RewardsStore) :
  founding m p q → mining_inv 0 0 {| Ms_Mining := imported_mining m p q; Ms_Rewards := rw |}.
Proof.
  intros [(Hm & Hm1 & Hm2) [Ho Ht] (Hp & Hp1 & Hp2) (Hq & Hq1 & Hq2)]. split; simpl.
  - widths. lia.
  - by apply founded_modes.
  - split; [|done]. intros k v Hk. simpl in Hk. by apply lookup_singleton_Some in Hk as [<- <-].
  - apply founded_family; [done|]. unfold validateSelectionParamsRecord. by rewrite Hp2, Hp.
  - apply founded_family; [done|]. unfold validateSettlementParamsRecord. by rewrite Hq2, Hq.
  - done.
  - done.
  - done.
  - done.
  - lia.
  - intros slot e n. rewrite lookup_empty. split; [done|]. intros (_ & row & Hr & _).
    by rewrite lookup_empty in Hr.
Qed.

Lemma export_imported_mining m p q :
  MiningExportGenesis (imported_mining m p q) = Ok (fresh_mining m p q).
Proof.
  unfold MiningExportGenesis, fresh_mining. simpl.
  by rewrite !walk_singleton, !walk_empty, walk_pairs_empty.
Qed.

(** The selection policy of every active slot is within the parameters. *)
Lemma mining_genesis_run cs height g s r :
  MiningInitGenesis cs height g emptyMiningStore = (s, r) →
  match r with
  | Err _ => s = emptyMiningStore
  | Ok _ => ∃ m p q, founding m p q ∧ g = fresh_mining m p q ∧ s = imported_mining m p q ∧
      validateActiveSlotPolicies cs g (if height =? 0 then 1 else height) = Ok tt ∧ 0 ≤ height
  end.
Proof.
  unfold MiningInitGenesis. intros H.
  destruct (MiningGenesis_Validate g) as [[]|e] eqn:Hg;
    [|cbn in H; by injection H as <- <-].
  rewrite (lift_step _ _ _ tt) in H by done.
  unfold genesisInitialHeight in H.
  destruct (Z.ltb_spec height 0); [cbn in H; by injection H as <- <-|].
  rewrite (lift_step _ _ _ (if height =? 0 then 1 else height)) in H by (by destruct (height =? 0)).
  destruct (validateActiveSlotPolicies cs g _) as [[]|e] eqn:Hp;
    [|cbn in H; by injection H as <- <-].
  rewrite (lift_step _ _ _ tt) in H by done.
  apply MiningGenesis_Validate_Ok in Hg as (m & p & q & -> & Hf).
  rewrite import_mining_run in H by done. injection H as <- <-. by exists m, p, q.
Qed.
End fresh.
