(* ===== verification/AppChain.v ===== *)
(** * The application: the three modules over one chain

    [app/config.go] orders the modules: genesis runs CoreSlot, rewards, mining; a
    block begins with rewards and ends with CoreSlot, rewards, mining.  Mining
    reads CoreSlot and rewards and calls the two release operations of rewards;
    rewards reads CoreSlot; nothing else crosses.  [app_inv] joins the chain
    invariant of [Chain] and the invariant of [MiningInvariant], and every step
    keeps both ([app_step_spec]). *)
From S2P Require Import Prelude Checked SdkMath Bounds EconomicAddress RewardsTypes.
From S2P Require Import Collections EpochHistory RewardConfig Bank Pause Entitlement.
From S2P Require Import RewardsKeeper RewardsInvariant Release Finalize Lifecycle.
From S2P Require Import CoreSlotTypes CoreSlotState CoreSlot CoreSlotMsgs CoreSlotEndBlock.
From S2P Require Import CoreSlotInvariant CoreSlotLifecycle CoreSlotValidators CoreSlotRows.
From S2P Require Import CoreSlotGenesis CoreSlotGenesisInvariant CoreSlotTheorems Chain.
From S2P Require Import RewardsGenesis RewardsGenesisTheorems MiningTypes MiningHistory MiningKeeper.
From S2P Require Import MiningSettlement MiningHistories MiningInvariant MiningBlocks MiningMessages.
From S2P Require Import MiningRuns MiningRewards MiningGenesis.
From stdpp Require Import relations.
Local Open Scope Z_scope.

(** ** CoreSlot under the rewards module *)
Section keeper.
Context {BE : Bech32} {PK : PubKeyCodec} (econ : Validator).

Definition coreslot_valid (s : CoreSlotState) : Prop := ∃ p, core_inv econ p s.

#[program] Definition coreslot_keeper : CoreSlotKeeper := {|
  CoreSlotStore := CoreSlotState;
  cs_wf := coreslot_valid;
  GetActiveSlots := ActiveSlotRows;
  GetSlot s id := getSlot id s;
  GetAuthority := AuthorityOf;
  GetEmergencyAuthority := EmergencyAuthorityOf
|}.
Next Obligation.
  intros s slots [p Hi] H.
  destruct (ActiveSlotRows_spec econ p s Hi) as (rows & Hrows & _ & Hin & Hnd & _).
  replace slots with rows by congruence. split; [done|]. apply Forall_forall.
  intros slot [Hs Ha]%Hin. pose proof (so_range _ _ _ _ (ci_slots _ _ _ Hi _ _ Hs)).
  widths. split; [lia|]. split; [lia | done].
Qed.
Next Obligation.
  intros s id slot [p Hi] [_ Hok]%(inv_getSlot econ p s Hi). by apply so_id in Hok.
Qed.

(** A message delivered, or a block ended, at some height. *)
Inductive coreslot_moves : CoreSlotState → CoreSlotState → Prop :=
  | moves_message h m s s' r : message_typed m → coreslot_deliver econ h m s = (s', r) →
      coreslot_moves s s'
  | moves_endblock h s s' r : CoreSlotEndBlock h s = (s', r) → coreslot_moves s s'.

Lemma moves_valid s s' : coreslot_valid s → coreslot_moves s s' → coreslot_valid s'.
Proof.
  intros Hv Hm. revert Hv. destruct Hm as [h m a b r Ht Hd|h a b r He]; intros [p Hi].
  - destruct (deliver_inv econ h p m a b r Ht Hi Hd) as [q Hq]. by exists q.
  - destruct (endblock_spec econ h p a Hi) as (t & keyed & He' & Hi' & _).
    rewrite He in He'. injection He' as <- _. by exists p.
Qed.

(** Slots are never deleted. *)
Lemma moves_slot s s' id : coreslot_valid s → coreslot_moves s s' →
  is_Some (Cs_Slots s !! id) → is_Some (Cs_Slots s' !! id).
Proof.
  intros Hv Hm. revert Hv. destruct Hm as [h m a b r Ht Hd|h a b r He]; intros [p Hi] [slot Hs].
  - destruct (deliver_effects econ h p a Hi m b r Hd) as [Hrows _].
    destruct (Hrows id slot Hs) as (slot' & Hs' & _). by exists slot'.
  - destruct (endblock_spec econ h p a Hi) as (t & keyed & He' & Hi' & []).
    rewrite He in He'. injection He' as <- _. rewrite en_slots, Hs. simpl.
    repeat case_match; eauto.
Qed.

Lemma valid_snapshot s id slot :
  coreslot_valid s → Cs_Slots s !! id = Some slot →
  ∃ sn, @GetSlotRewardSnapshot coreslot_keeper econ s id = Ok sn.
Proof.
  intros [p Hi] Hs. pose proof (ci_slots _ _ _ Hi id slot Hs) as Hok.
  unfold GetSlotRewardSnapshot. simpl. unfold getSlot. rewrite Hs. simpl.
  rewrite (so_id _ _ _ _ Hok), Z.eqb_refl. simpl. unfold slotRewardSnapshot.
  pose proof (so_operator _ _ _ _ Hok) as Ho. pose proof (so_payout _ _ _ _ Hok) as Hp.
  destruct (ParseAccountAddress _ _) as [o|]; [|done].
  destruct (Validate _ _) as [a|]; [|done]. simpl. eauto.
Qed.

Lemma coreslot_keeps_contract :
  @coreslot_contract coreslot_keeper econ coreslot_valid coreslot_moves.
Proof.
  split.
  - done.
  - exact moves_valid.
  - intros s [p Hi]. destruct (ActiveSlotRows_spec econ p s Hi) as (rows & Hrows & _).
    by exists rows.
  - intros s slots slot [p Hi] Ha Hin.
    destruct (ActiveSlotRows_spec econ p s Hi) as (rows & Hrows & _ & Hiff & _).
    simpl in Ha. assert (rows = slots) as -> by congruence. apply Hiff in Hin as [Hs _].
    eapply valid_snapshot; [by exists p | done].
  - intros a b id sn Ha Hm Hsn.
    assert (is_Some (Cs_Slots a !! id)) as Hs.
    { unfold GetSlotRewardSnapshot in Hsn. simpl in Hsn. unfold getSlot in Hsn.
      destruct (Cs_Slots a !! id); [eauto | done]. }
    destruct (moves_slot a b id Ha Hm Hs) as [slot Hb].
    eapply valid_snapshot; [by eapply moves_valid | done].
Qed.
End keeper.

(** ** The state, and what runs on it *)
Section app.
Context {SI : SdkInt} {BE : Bech32} {BK : BankKeeper} {PK : PubKeyCodec} {DC : DecCodec}.
Context (econ : Validator).
#[local] Instance app_coreslot : CoreSlotKeeper := coreslot_keeper econ.
#[local] Instance app_rewards : RewardsKeeper := rewards_keeper econ.

Record AppState := {
  Ap_CoreSlots : CoreSlotState;
  Ap_Rewards : Store;
  Ap_Mining : MiningStore
}.

Definition mining_state (a : AppState) : MiningState :=
  {| Ms_Mining := Ap_Mining a; Ms_Rewards := Ap_Rewards a : RewardsStore |}.

Definition on_coreslots {A} (m : M CoreSlotState A) : M AppState A :=
  zoom Ap_CoreSlots (λ v a, {| Ap_CoreSlots := v; Ap_Rewards := Ap_Rewards a; Ap_Mining := Ap_Mining a |}) m.
Definition on_rewards_of {A} (f : CoreSlotState → M Store A) : M AppState A := λ a,
  zoom Ap_Rewards (λ v a, {| Ap_CoreSlots := Ap_CoreSlots a; Ap_Rewards := v; Ap_Mining := Ap_Mining a |})
    (f (Ap_CoreSlots a)) a.
Definition on_settlements {A} (f : CoreSlotState → M MiningState A) : M AppState A := λ a,
  zoom mining_state (λ v a, {| Ap_CoreSlots := Ap_CoreSlots a; Ap_Rewards := Ms_Rewards v; Ap_Mining := Ms_Mining v |})
    (f (Ap_CoreSlots a)) a.
Definition on_mining_of {A} (f : CoreSlotState → Store → M MiningStore A) : M AppState A := λ a,
  zoom Ap_Mining (λ v a, {| Ap_CoreSlots := Ap_CoreSlots a; Ap_Rewards := Ap_Rewards a; Ap_Mining := v |})
    (f (Ap_CoreSlots a) (Ap_Rewards a)) a.

(** [BeginBlockers] and [EndBlockers] of the runtime module. *)
Definition AppBeginBlock (height : Z) : M AppState unit :=
  on_rewards_of (λ cs, BeginBlock econ (cs : CoreSlotStore) height).
Definition AppEndBlock (height : Z) : M AppState (list ValidatorUpdate) :=
  updates ← on_coreslots (CoreSlotEndBlock height);
  on_rewards_of (λ cs, EndBlock econ (cs : CoreSlotStore) height) ;;
  on_mining_of (λ _ rw, MiningEndBlock (rw : RewardsStore)) ;;
  mret updates.

(** [InitGenesis]: the bank's genesis has run. *)
Definition AppInitGenesis (height : Z) (coreslot : CoreSlotGenesis) (rewards : RewardsGenesis)
    (mining : MiningGenesis) : M AppState (list ValidatorUpdate) :=
  updates ← on_coreslots (CoreSlotGenesis.InitGenesis econ height coreslot);
  on_rewards_of (λ _, RewardsGenesis.InitGenesis econ height rewards) ;;
  on_mining_of (λ cs _, MiningInitGenesis cs height mining) ;;
  mret updates.
Definition emptyApp (bank : Bank) : AppState := {|
  Ap_CoreSlots := emptyCoreSlotState; Ap_Rewards := emptyRewardsStore bank;
  Ap_Mining := emptyMiningStore |}.

(** Every message a transaction can carry.  The release calls of the rewards
    module are no messages: only mining makes them. *)
Inductive app_message :=
  | CoreSlotMsg (m : coreslot_message)
  | RewardsUpdateParams (msg : option MsgUpdateRewardsParams)
  | RewardsPause (msg : option MsgPauseRewards)
  | RewardsResume (msg : option MsgResumeRewards)
  | SubmitChunk (msg : option MsgSubmitSettlementChunk)
  | Finalize (msg : option MsgFinalizeSettlement).

Definition app_deliver (height : Z) (m : app_message) : M AppState unit :=
  match m with
  | CoreSlotMsg m => on_coreslots (coreslot_deliver econ height m)
  | RewardsUpdateParams msg => on_rewards_of (λ cs, deliver econ (cs : CoreSlotStore) height (UpdateParams msg))
  | RewardsPause msg => on_rewards_of (λ cs, deliver econ (cs : CoreSlotStore) height (Pause msg))
  | RewardsResume msg => on_rewards_of (λ cs, deliver econ (cs : CoreSlotStore) height (Resume msg))
  | SubmitChunk msg =>
      on_settlements (λ cs, Msg_SubmitSettlementChunk econ (cs : CoreSlotStore) msg) ;; mret tt
  | Finalize msg =>
      on_settlements (λ cs, Msg_FinalizeSettlement econ (cs : CoreSlotStore) height msg) ;; mret tt
  end.

Definition app_typed (m : app_message) : Prop :=
  match m with CoreSlotMsg m => message_typed m | _ => True end.

(** A block: its begin hooks, messages and other modules' transfers (which cannot
    touch the escrow or mint the native coin) in any order, its end hooks. *)
Record AppChain := { Ac_Height : Z; Ac_InBlock : bool; Ac_State : AppState }.

Inductive app_step (module_addr : AccAddress) : AppChain → AppChain → Prop :=
  | app_begin h a a' :
      h + 1 ≤ MaxInt64 → AppBeginBlock (h + 1) a = (a', Ok tt) →
      app_step module_addr {| Ac_Height := h; Ac_InBlock := false; Ac_State := a |}
        {| Ac_Height := h + 1; Ac_InBlock := true; Ac_State := a' |}
  | app_tx h a m a' r :
      app_typed m → app_deliver h m a = (a', r) →
      app_step module_addr {| Ac_Height := h; Ac_InBlock := true; Ac_State := a |}
        {| Ac_Height := h; Ac_InBlock := true; Ac_State := a' |}
  | app_bank h b a bank :
      GetBalance bank module_addr NativeBaseDenom =
        GetBalance (Rs_Bank (Ap_Rewards a)) module_addr NativeBaseDenom →
      GetSupply bank NativeBaseDenom = GetSupply (Rs_Bank (Ap_Rewards a)) NativeBaseDenom →
      app_step module_addr {| Ac_Height := h; Ac_InBlock := b; Ac_State := a |}
        {| Ac_Height := h; Ac_InBlock := b; Ac_State := {| Ap_CoreSlots := Ap_CoreSlots a;
             Ap_Rewards := put_Bank bank (Ap_Rewards a); Ap_Mining := Ap_Mining a |} |}
  | app_end h a a' updates :
      AppEndBlock h a = (a', Ok updates) →
      app_step module_addr {| Ac_Height := h; Ac_InBlock := true; Ac_State := a |}
        {| Ac_Height := h; Ac_InBlock := false; Ac_State := a' |}.

(** ** The invariant *)
Context (module_addr : AccAddress) (Henv : environment econ module_addr).
Implicit Types (a : AppState) (c : AppChain) (cs : CoreSlotState) (s : Store).

Definition chain_of c : Chain := {|
  Ch_Height := Ac_Height c; Ch_InBlock := Ac_InBlock c;
  Ch_CoreSlots := Ap_CoreSlots (Ac_State c) : CoreSlotStore; Ch_Rewards := Ap_Rewards (Ac_State c) |}.

Abbreviation view := (chain_view econ module_addr (coreslot_valid econ)).

(** The settlement clock has ticked at most once per block that has ended. *)
Definition blocks_ended c : Z := if Ac_InBlock c then Ac_Height c - 1 else Ac_Height c.

(** The mining module has processed every epoch that is closed, and no other. *)
Record app_inv (base closed : Z) c : Prop := {
  ai_chain : ∃ v, view base closed (chain_of c) v;
  ai_mining : mining_inv closed (blocks_ended c) (mining_state (Ac_State c))
}.

Lemma view_good base k h b cs s v :
  view base k {| Ch_Height := h; Ch_InBlock := b; Ch_CoreSlots := cs : CoreSlotStore; Ch_Rewards := s |} v →
  rewards_good econ module_addr k s.
Proof. intros H. exact (chain_good econ module_addr _ base k _ v H). Qed.

(** Inside a block the mining module sees a rewards module it can rely on. *)
Definition in_block (base h : Z) cs (k : Z) s : Prop := ∃ v, view base k
  {| Ch_Height := h; Ch_InBlock := true; Ch_CoreSlots := cs : CoreSlotStore; Ch_Rewards := s |} v.

Lemma in_block_contract base h cs : rewards_contract (in_block base h cs : Z → RewardsStore → Prop).
Proof using Henv.
  pose proof (rewards_keeps_contract econ module_addr Henv) as Hrc.
  assert (∀ k s, in_block base h cs k s → rewards_good econ module_addr k s) as Hg
    by (intros k s [v Hv]; by eapply view_good).
  split.
  - intros k s H. exact (rc_bound _ Hrc _ _ (Hg _ _ H)).
  - intros k s H. exact (rc_enabled _ Hrc _ _ (Hg _ _ H)).
  - intros k s e H. exact (rc_finalized _ Hrc _ _ e (Hg _ _ H)).
  - intros k s e H. exact (rc_open _ Hrc _ _ e (Hg _ _ H)).
  - intros k s slot e H. exact (rc_entitlement _ Hrc _ _ slot e (Hg _ _ H)).
  - intros k s e H. exact (rc_list _ Hrc _ _ e (Hg _ _ H)).
  - intros k s e H. exact (rc_length _ Hrc _ _ e (Hg _ _ H)).
  - intros k s s' slot e lines r H Hrun.
    pose proof (rc_pay _ Hrc _ _ _ _ _ _ _ (Hg _ _ H) Hrun) as Hp.
    destruct r as [[]|]; [|done]. split; [|apply Hp]. destruct H as [v Hv]. exists v.
    apply (message_spec (CK := app_coreslot) econ module_addr Henv _ base k h cs s s' v
      (Pay slot e lines) (Ok tt) Hv).
    apply cached_Ok. exact Hrun.
  - intros k s s' slot e r H Hrun.
    pose proof (rc_remainder _ Hrc _ _ _ _ _ _ (Hg _ _ H) Hrun) as Hp.
    destruct r as [[]|]; [|done]. split; [|apply Hp]. destruct H as [v Hv]. exists v.
    apply (message_spec (CK := app_coreslot) econ module_addr Henv _ base k h cs s s' v
      (PayRemainder slot e) (Ok tt) Hv).
    apply cached_Ok. exact Hrun.
Qed.

(** What the rewards module does of its own leaves the closed epochs alone. *)
Lemma same_keeps k s s' :
  rewards_good econ module_addr k s → rewards_good econ module_addr k s' →
  Rs_Entitlements s' = Rs_Entitlements s →
  (∀ e, 1 ≤ e ≤ k → length_of (EpochConfigVersions (Rs_Geometry s')) e =
    length_of (EpochConfigVersions (Rs_Geometry s)) e) →
  keeps k (s : RewardsStore) (s' : RewardsStore).
Proof.
  intros [(b1 & v1 & H1) _ _] [(b2 & v2 & H2) _ _] He Hl. split.
  - intros slot e _. apply same_get. by rewrite He.
  - intros e Hek. simpl.
    rewrite (proj1 (EpochLengthForEpoch_spec _ (i_geometry _ _ _ _ _ _ H1) e ltac:(lia))),
      (proj1 (EpochLengthForEpoch_spec _ (i_geometry _ _ _ _ _ _ H2) e ltac:(lia))).
    by rewrite Hl.
Qed.

Lemma begun_keeps k s s' v :
  rewards_good econ module_addr k s → rewards_good econ module_addr k s' →
  k ≤ CurrentEpoch (V_state v) → begun v s s' → keeps k (s : RewardsStore) (s' : RewardsStore).
Proof.
  intros H1 H2 Hk [He Hl]. apply same_keeps; try done. intros e Hek. apply Hl. lia.
Qed.

(** The end of a block changes no old entitlement; those it creates are unpaid. *)
Lemma ended_keeps base k k' s s' v v' :
  ledger_inv econ module_addr base k s v → rewards_good econ module_addr k' s' →
  ended econ module_addr k k' s s' v v' →
  keeps k (s : RewardsStore) (s' : RewardsStore) ∧
  (k' = k + 1 → untouched (s' : RewardsStore) k').
Proof.
  intros Hl Hg [[-> ->]|(-> & Hcur & rc & s1 & em & tr & -> & Hc)].
  { split; [done | lia]. }
  destruct Hg as [(b2 & v2 & H2) _ _]. split; [split|intros _].
  - intros slot e He. apply same_get. simpl.
    destruct (SlotEntitlements (Rs_Entitlements s1) !! (e, slot)) as [x|] eqn:E.
    + destruct (cl_new _ _ _ _ _ _ _ _ Hc _ _ E) as [->|[Hk _]]; [done | simpl in Hk; lia].
    + destruct (SlotEntitlements (Rs_Entitlements s) !! (e, slot)) as [x|] eqn:E'; [|done].
      apply (cl_old _ _ _ _ _ _ _ _ Hc) in E'. congruence.
  - intros e _. simpl. by rewrite (cl_geometry _ _ _ _ _ _ _ _ Hc).
  - intros slot x a rel Hx.
    pose proof (i_books _ _ _ _ _ _ H2) as Hwf.
    destruct (entitled_lookup econ _ slot (k + 1) x a rel Hwf Hx) as (Hk & _). simpl in Hk.
    destruct (cl_new _ _ _ _ _ _ _ _ Hc _ _ Hk) as [Hold|[_ [Hr _]]].
    + apply (i_books_epochs _ _ _ _ _ _ Hl) in Hold. lia.
    + pose proof (et_released _ _ _ _ _ _ Hx). congruence.
Qed.

(** ** The hooks *)
Lemma app_begin_spec base k h a :
  app_inv base k {| Ac_Height := h; Ac_InBlock := false; Ac_State := a |} → h + 1 ≤ MaxInt64 →
  ∃ a', AppBeginBlock (h + 1) a = (a', Ok tt) ∧
    app_inv base k {| Ac_Height := h + 1; Ac_InBlock := true; Ac_State := a' |} ∧
    evolves k (mining_state a) (mining_state a').
Proof.
  intros [[v Hv] Hm] Hmax. destruct a as [cs s mn]. unfold chain_of in *. simpl in *.
  destruct (begin_spec (CK := app_coreslot) econ module_addr _ _ (coreslot_keeps_contract econ)
    base k h cs s v Hv Hmax) as (s' & v' & Hrun & Hv' & Had & _ & _ & st & slots & _ & _ & _ & Hbegun).
  assert (keeps k (s : RewardsStore) (s' : RewardsStore)) as Hk.
  { eapply begun_keeps; [by eapply view_good | by eapply view_good | | exact Hbegun].
    pose proof (c_position _ _ _ _ _ _ _ Hv) as Hpos. unfold position in Hpos. simpl in Hpos. lia. }
  exists {| Ap_CoreSlots := cs; Ap_Rewards := s'; Ap_Mining := mn |}. split_and!.
  - unfold AppBeginBlock, on_rewards_of. by erewrite zoom_run by exact Hrun.
  - split; [by exists v'|]. unfold blocks_ended in *. simpl in *.
    replace (h + 1 - 1) with h by lia.
    apply (mining_inv_rewards (RK := app_rewards) k h mn s s' Hm). apply Hk.
  - exact (kept_evolves (RK := app_rewards) k h mn s s' Hm Hk).
Qed.

Lemma app_end_spec base k h a :
  app_inv base k {| Ac_Height := h; Ac_InBlock := true; Ac_State := a |} →
  ∃ k' a' updates, AppEndBlock h a = (a', Ok updates) ∧ k ≤ k' ∧
    app_inv base k' {| Ac_Height := h; Ac_InBlock := false; Ac_State := a' |} ∧
    evolves k (mining_state a) (mining_state a').
Proof using Henv.
  intros [[v Hv] Hm]. destruct a as [cs s mn]. unfold chain_of, blocks_ended in *. simpl in *.
  destruct (c_coreslots _ _ _ _ _ _ _ Hv) as [p Hp]. simpl in Hp.
  destruct (endblock_spec econ h p cs Hp) as (t & keyed & Hcs & _).
  pose proof (coreslot_view (CK := app_coreslot) econ module_addr _ _ (coreslot_keeps_contract econ)
    base k h true cs t s v Hv (moves_endblock econ h cs t _ Hcs)) as Hv1.
  destruct (end_spec (CK := app_coreslot) econ module_addr Henv _ base k h t s v Hv1)
    as (k' & s' & v' & Hrun & Hv2 & Had & _ & Hended).
  pose proof (view_good _ _ _ _ _ _ _ Hv2) as Hg2.
  destruct (ended_keeps base k k' s s' v v' (proj1 (c_rewards _ _ _ _ _ _ _ Hv)) Hg2 Hended) as [Hk Hun].
  pose proof (c_height _ _ _ _ _ _ _ Hv) as Hh. simpl in Hh.
  destruct (MiningEndBlock (RK := app_rewards) s' mn) as [mn' r] eqn:Hmn.
  pose proof (ad_closed _ _ _ _ Had) as Hkk.
  destruct (end_step (RK := app_rewards) (rewards_good econ module_addr) (rewards_keeps_contract econ module_addr Henv)
    k k' (h - 1) mn mn' s s' r) as (-> & [Hm' _] & Hev); try done.
  { split; [exact Hm | by eapply view_good]. }
  { widths. lia. }
  replace (h - 1 + 1) with h in Hm' by lia.
  exists k', {| Ap_CoreSlots := t; Ap_Rewards := s'; Ap_Mining := mn' |}. eexists. split_and!.
  - unfold AppEndBlock, on_coreslots. erewrite zoom_step by exact Hcs. simpl.
    unfold on_rewards_of at 1. erewrite M_bind_run by (apply zoom_run; exact Hrun). simpl.
    unfold on_mining_of. erewrite M_bind_run by (apply zoom_run; exact Hmn). reflexivity.
  - lia.
  - split; [by exists v' | exact Hm'].
  - exact Hev.
Qed.

(** ** The messages *)
Lemma forget_run {A} (m : M AppState A) a a' r :
  ((m ;; mret tt) : M AppState unit) a = (a', r) → ∃ r', m a = (a', r').
Proof. unfold mbind, M_bind. destruct (m a) as [b [x|e]]; intros [= <- _]; eauto. Qed.

Lemma rewards_message_step base k h cs s mn m s' r :
  is_payment m = false →
  app_inv base k {| Ac_Height := h; Ac_InBlock := true;
    Ac_State := {| Ap_CoreSlots := cs; Ap_Rewards := s; Ap_Mining := mn |} |} →
  deliver (CK := app_coreslot) econ cs h m s = (s', r) →
  let a' := {| Ap_CoreSlots := cs; Ap_Rewards := s'; Ap_Mining := mn |} in
  app_inv base k {| Ac_Height := h; Ac_InBlock := true; Ac_State := a' |} ∧
  evolves k (mining_state {| Ap_CoreSlots := cs; Ap_Rewards := s; Ap_Mining := mn |}) (mining_state a').
Proof using Henv.
  intros Hm [[v Hv] Hmi] Hrun. unfold chain_of, blocks_ended in *. simpl in *.
  pose proof (message_spec (CK := app_coreslot) econ module_addr Henv _ base k h cs s s' v m r Hv Hrun) as Hv'.
  pose proof (c_height _ _ _ _ _ _ _ Hv) as Hh. simpl in Hh.
  destruct (message_keeps (CK := app_coreslot) econ h cs s s' (V_params v) m r Hm) as [He Hg]; try done.
  { exact (i_params _ _ _ _ _ _ (proj1 (c_rewards _ _ _ _ _ _ _ Hv))). }
  assert (keeps k (s : RewardsStore) (s' : RewardsStore)) as Hk.
  { apply same_keeps; [by eapply view_good | by eapply view_good | done | by rewrite Hg]. }
  split.
  - split; [by exists v|]. simpl.
    apply (mining_inv_rewards (RK := app_rewards) k (h - 1) mn s s' Hmi). apply Hk.
  - exact (kept_evolves (RK := app_rewards) k (h - 1) mn s s' Hmi Hk).
Qed.

Lemma app_deliver_spec base k h a m a' r :
  app_typed m → app_inv base k {| Ac_Height := h; Ac_InBlock := true; Ac_State := a |} →
  app_deliver h m a = (a', r) →
  app_inv base k {| Ac_Height := h; Ac_InBlock := true; Ac_State := a' |} ∧
  evolves k (mining_state a) (mining_state a').
Proof using Henv.
  intros Ht Hi H. destruct m as [m|msg|msg|msg|msg|msg]; simpl in H.
  - unfold on_coreslots in H. apply zoom_any in H as (cs' & Hrun & ->).
    destruct Hi as [[v Hv] Hm], a as [cs s mn]. unfold chain_of, blocks_ended in *. simpl in *.
    split; [split|apply evolves_refl]; [|exact Hm]. exists v.
    apply (coreslot_view (CK := app_coreslot) econ module_addr _ _ (coreslot_keeps_contract econ)
      base k h true cs cs' s v Hv). by eapply moves_message.
  - unfold on_rewards_of in H. apply zoom_any in H as (s' & Hrun & ->). destruct a.
    by eapply (rewards_message_step _ _ _ _ _ _ (UpdateParams msg)).
  - unfold on_rewards_of in H. apply zoom_any in H as (s' & Hrun & ->). destruct a.
    by eapply (rewards_message_step _ _ _ _ _ _ (Pause msg)).
  - unfold on_rewards_of in H. apply zoom_any in H as (s' & Hrun & ->). destruct a.
    by eapply (rewards_message_step _ _ _ _ _ _ (Resume msg)).
  - apply forget_run in H as [r' H]. unfold on_settlements in H.
    apply zoom_any in H as (st & Hrun & ->). destruct a as [cs s mn], Hi as [Hv Hm].
    unfold chain_of, blocks_ended in *. simpl in *.
    destruct (chunk_step (CK := app_coreslot) econ _ (in_block_contract base h cs) k (h - 1)
      cs msg _ st r' (conj Hm Hv) Hrun) as [[Hm' Hv'] Hev].
    destruct st as [mn' s']. split; [split; [exact Hv' | exact Hm'] | exact Hev].
  - apply forget_run in H as [r' H]. unfold on_settlements in H.
    apply zoom_any in H as (st & Hrun & ->). destruct a as [cs s mn], Hi as [Hv Hm].
    unfold chain_of, blocks_ended in *. simpl in *.
    destruct (finalize_step (CK := app_coreslot) econ _ (in_block_contract base h cs) k (h - 1)
      cs h msg _ st r' (conj Hm Hv) Hrun) as [[Hm' Hv'] Hev].
    destruct st as [mn' s']. split; [split; [exact Hv' | exact Hm'] | exact Hev].
Qed.

(** ** Every step *)
Lemma app_step_spec base k c c' :
  app_inv base k c → app_step module_addr c c' →
  ∃ k', k ≤ k' ∧ app_inv base k' c' ∧
    evolves k (mining_state (Ac_State c)) (mining_state (Ac_State c')).
Proof using Henv.
  intros Hi Hstep. destruct Hstep as [h a a' Hmax H|h a m a' r Ht H|h b a bank Hbal Hsup|h a a' updates H];
    simpl.
  - destruct (app_begin_spec base k h a Hi Hmax) as (a1 & Hrun & Hi' & Hev).
    rewrite H in Hrun. injection Hrun as <-. by exists k.
  - destruct (app_deliver_spec base k h a m a' r Ht Hi H) as [Hi' Hev]. by exists k.
  - destruct Hi as [[v Hv] Hm], a as [cs s mn]. unfold chain_of, blocks_ended in *. simpl in *.
    assert (keeps k (s : RewardsStore) (put_Bank bank s : RewardsStore)) as Hk by done.
    exists k. split; [done|]. split.
    + split; [exists v|].
      * by apply (bank_view (CK := app_coreslot) econ module_addr _ base k h b cs s v bank Hv).
      * apply (mining_inv_rewards (RK := app_rewards) k _ mn s (put_Bank bank s) Hm). apply Hk.
    + eapply (kept_evolves (RK := app_rewards) k _ mn s (put_Bank bank s)); [exact Hm | exact Hk].
  - destruct (app_end_spec base k h a Hi) as (k' & a1 & u & Hrun & Hk & Hi' & Hev).
    rewrite H in Hrun. injection Hrun as <- _. by exists k'.
Qed.

Lemma app_run_spec base k c c' :
  app_inv base k c → rtc (app_step module_addr) c c' →
  ∃ k', k ≤ k' ∧ app_inv base k' c' ∧
    evolves k (mining_state (Ac_State c)) (mining_state (Ac_State c')).
Proof using Henv.
  intros Hi Hsteps. revert k Hi. induction Hsteps as [c|c c1 c2 Hstep _ IH]; intros k Hi.
  { exists k. split; [done|]. split; [done | apply evolves_refl]. }
  destruct (app_step_spec base k c c1 Hi Hstep) as (k1 & Hk1 & Hi1 & Hev1).
  destruct (IH k1 Hi1) as (k2 & Hk2 & Hi2 & Hev2).
  exists k2. split; [lia|]. split; [done|]. by eapply evolves_trans.
Qed.
End app.

(** ** From the three genesis documents *)
Section genesis.
Context {SI : SdkInt} {BE : Bech32} {BK : BankKeeper} {PK : PubKeyCodec} {DC : DecCodec}.
Context (econ : Validator).

(** A CoreSlot import that succeeded, read backwards. *)
Lemma imported_valid height g (s : CoreSlotState) updates :
  height ≤ MaxInt64 → genesis_typed g → distinct_consensus g →
  CoreSlotGenesis.InitGenesis econ height g emptyCoreSlotState = (s, Ok updates) →
  coreslot_valid econ s.
Proof.
  intros Hmax Ht Hd Hrun. pose proof Hrun as H. unfold CoreSlotGenesis.InitGenesis in H.
  do 4 (let Hl := fresh in let Hk := fresh in
    apply M_bind_Ok in H as (? & ? & Hl & Hk); apply lift_Ok in Hl as [-> Hl];
    rename Hk into H). clear H.
  repeat match goal with u : unit |- _ => destruct u end.
  match goal with He : EffectiveInitialHeight height = Ok ?h |- _ =>
    assert (h ≤ MaxInt64) as Hh
      by (clear - He Hmax; unfold EffectiveInitialHeight in He; minv; destruct (height =? 0); minv; widths; lia) end.
  edestruct import_spec as (p & s' & keyed & Hrun' & _ & Hi & _); try eassumption.
  exists p. rewrite Hrun in Hrun'. by injection Hrun' as -> _.
Qed.

(** What the documents, the bank and the chain identity have to meet. *)
Record app_genesis_fits (module_addr : AccAddress) (height h0 base : Z) (coreslot : CoreSlotGenesis)
    (rewards : RewardsGenesis) (bank : Bank) : Prop := {
  gf_environment : environment econ module_addr;
  gf_height : effectiveInitialHeight height = Ok h0 ∧ height ≤ MaxInt64;
  gf_coreslot : genesis_typed coreslot ∧ distinct_consensus coreslot;
  gf_rewards : genesis_fits rewards base (GetSupply bank NativeBaseDenom);
  gf_escrow : GetBalance bank module_addr NativeBaseDenom ≤ GetSupply bank NativeBaseDenom
}.

Lemma app_genesis_inv (module_addr : AccAddress) height h0 base coreslot rewards mining bank a updates :
  app_genesis_fits module_addr height h0 base coreslot rewards bank →
  AppInitGenesis econ height coreslot rewards mining (emptyApp bank) = (a, Ok updates) →
  app_inv econ module_addr base 0 {| Ac_Height := h0 - 1; Ac_InBlock := false; Ac_State := a |}.
Proof.
  intros [Henv [Hh0 Hmax] [Ht Hd] Hfits Hcov] H. unfold AppInitGenesis in H.
  apply M_bind_Ok in H as (u1 & a1 & H1 & H). unfold on_coreslots in H1.
  apply zoom_Ok in H1 as (cs & Hcs & ->).
  apply M_bind_Ok in H as ([] & a2 & H2 & H). unfold on_rewards_of in H2.
  apply zoom_Ok in H2 as (s & Hrw & ->).
  apply M_bind_Ok in H as ([] & a3 & H3 & H). unfold on_mining_of in H3.
  apply zoom_Ok in H3 as (mn & Hmn & ->). apply M_ret_Ok in H as [-> _]. simpl in *.
  pose proof (imported_valid height coreslot cs u1 Hmax Ht Hd Hcs) as Hvalid.
  destruct (genesis_establishes (CK := coreslot_keeper econ) econ module_addr
    (coreslot_valid econ) cs height base rewards bank s Henv Hvalid Hmax Hrw Hfits Hcov)
    as (h & v & Hh & Hpos & _ & _ & _ & _ & _ & Hv).
  assert (h = h0) as -> by congruence. split; [by exists v|].
  apply mining_genesis_run in Hmn as (m & p & q & Hf & _ & -> & _).
  apply (mining_inv_later _ 0); [|unfold blocks_ended; simpl; lia].
  by apply (imported_mining_inv (RK := app_rewards econ)).
Qed.
End genesis.

