(* ===== verification/AppSample.v ===== *)
(** * A sample run of the application

    [run_blocks] executes whole blocks without messages; the sample chain starts
    from the default documents of rewards and mining and the sample document of
    CoreSlot, and is run past the close of its first epoch. *)
From S2P Require Import Prelude Checked SdkMath Bounds EconomicAddress RewardsTypes CoreSlotMsgs.
From S2P Require Import Collections Allocation Bank EpochHistory RewardConfig RewardsKeeper CoreSlotTypes CoreSlotState CoreSlot.
From S2P Require Import CoreSlotEndBlock CoreSlotGenesis CoreSlotGenesisInvariant CoreSlotTheorems Chain RewardsGenesis.
From S2P Require Import RewardsInvariant Lifecycle RewardsGenesisTheorems MiningTypes MiningKeeper MiningSettlement.
From S2P Require Import MiningInvariant MiningGenesis AppChain.
From stdpp Require Import relations.

Local Open Scope Z_scope.


Section run.
Context {SI : SdkInt} {BE : Bech32} {BK : BankKeeper} {PK : PubKeyCodec} {DC : DecCodec}.
Context (econ : Validator) (module_addr : AccAddress).

Fixpoint run_blocks (n : nat) (height : Z) (a : AppState) : option AppState :=
  match n with
  | O => Some a
  | S n =>
      match AppBeginBlock econ (height + 1) a with
      | (a, Ok _) =>
          match AppEndBlock econ (height + 1) a with
          | (a, Ok _) => run_blocks n (height + 1) a
          | _ => None
          end
      | _ => None
      end
  end.

Lemma run_blocks_steps n height a a' :
  height + Z.of_nat n ≤ MaxInt64 → run_blocks n height a = Some a' →
  rtc (app_step econ module_addr) {| Ac_Height := height; Ac_InBlock := false; Ac_State := a |}
    {| Ac_Height := height + Z.of_nat n; Ac_InBlock := false; Ac_State := a' |}.
Proof.
  revert height a. induction n as [|n IH]; intros height a Hmax H; cbn [run_blocks] in H.
  { injection H as <-. rewrite Z.add_0_r. apply rtc_refl. }
  destruct (AppBeginBlock econ (height + 1) a) as [b [[]|]] eqn:Hb; [|done].
  destruct (AppEndBlock econ (height + 1) b) as [d [us|]] eqn:He; [|done].
  eapply rtc_l; [by apply app_begin; [lia|]|]. eapply rtc_l; [by eapply app_end|].
  replace (height + Z.of_nat (S n)) with (height + 1 + Z.of_nat n) by lia.
  apply IH; [lia | done].
Qed.
End run.

Section sample.
#[local] Existing Instances sdkint_256 bech32_id ledger_bank plain_keys one_decimal.

(** The chain before its first block, and once its first epoch has closed. *)
Definition sample_first : AppState := Eval vm_compute in
  fst (AppInitGenesis sample_validator 0 sample_genesis DefaultGenesis DefaultMiningGenesis
    (emptyApp empty_ledger)).
Definition sample_closed : AppState := Eval vm_compute in
  default sample_first (run_blocks sample_validator 360 0 sample_first).

(** Inside the first block of the second epoch: before any message, after slot 1
    has paid a chunk, and after it has finalized its settlement. *)
Definition sample_chunk : MsgSubmitSettlementChunk := {|
  MSC_SettlementAddress := "ann"%string; MSC_SlotId := 1; MSC_Epoch := 1; MSC_ChunkIndex := 0;
  MSC_Payouts := [Some {| SCP_Recipient := "dora"%string; SCP_Amount := "20000"%string |};
                  Some {| SCP_Recipient := "emil"%string; SCP_Amount := "30000"%string |}] |}.
Definition sample_finalize : MsgFinalizeSettlement :=
  {| MFS_Signer := "ann"%string; MFS_SlotId := 1; MFS_Epoch := 1 |}.
Definition sample_open : AppState := Eval vm_compute in
  fst (AppBeginBlock sample_validator 361 sample_closed).
Definition sample_paid_chunk : AppState := Eval vm_compute in
  fst (app_deliver sample_validator 361 (SubmitChunk (Some sample_chunk)) sample_open).
Definition sample_finalized_row : AppState := Eval vm_compute in
  fst (app_deliver sample_validator 361 (Finalize (Some sample_finalize)) sample_paid_chunk).

Lemma sample_fits : app_genesis_fits sample_validator "rewards"%string 0 1 0 sample_genesis
  DefaultGenesis (empty_ledger : Bank).
Proof.
  split.
  - exact sample_environment.
  - by split.
  - exact (conj sample_typed sample_distinct).
  - exact default_fits.
  - vm_compute. discriminate.
Qed.

Definition sample_updates : list ValidatorUpdate := Eval vm_compute in
  match snd (AppInitGenesis sample_validator 0 sample_genesis DefaultGenesis DefaultMiningGenesis
    (emptyApp (empty_ledger : Bank))) with Ok updates => updates | Err _ => [] end.
Lemma sample_imports :
  AppInitGenesis sample_validator 0 sample_genesis DefaultGenesis DefaultMiningGenesis
    (emptyApp (empty_ledger : Bank)) = (sample_first, Ok sample_updates).
Proof. vm_eq. Qed.

Lemma sample_runs : run_blocks sample_validator 360 0 sample_first = Some sample_closed.
Proof. vm_eq. Qed.
Lemma sample_begins_block : AppBeginBlock sample_validator (360 + 1) sample_closed = (sample_open, Ok tt).
Proof. vm_eq. Qed.
Lemma sample_delivers_chunk :
  app_deliver sample_validator 361 (SubmitChunk (Some sample_chunk)) sample_open =
    (sample_paid_chunk, Ok tt).
Proof. vm_eq. Qed.
Lemma sample_delivers_finalize :
  app_deliver sample_validator 361 (Finalize (Some sample_finalize)) sample_paid_chunk =
    (sample_finalized_row, Ok tt).
Proof. vm_eq. Qed.

(** ** The sample states are reachable *)
Definition sample_start : AppChain :=
  {| Ac_Height := 1 - 1; Ac_InBlock := false; Ac_State := sample_first |}.
Definition sample_at (a : AppState) : AppChain :=
  {| Ac_Height := 361; Ac_InBlock := true; Ac_State := a |}.
Abbreviation sample_app_step := (app_step sample_validator "rewards"%string).

Lemma sample_reaches : rtc sample_app_step sample_start (sample_at sample_open).
Proof.
  eapply rtc_r.
  - apply (run_blocks_steps sample_validator "rewards"%string 360 0);
      [vm_compute; discriminate | exact sample_runs].
  - apply (app_begin _ _ 360); [vm_compute; discriminate | exact sample_begins_block].
Qed.
Lemma sample_reaches_paid : rtc sample_app_step (sample_at sample_open) (sample_at sample_paid_chunk).
Proof. apply rtc_once. eapply (app_tx _ _ _ _ (SubmitChunk (Some sample_chunk))); [exact I | exact sample_delivers_chunk]. Qed.

Lemma sample_start_inv : app_inv sample_validator "rewards"%string 0 0 sample_start.
Proof.
  exact (app_genesis_inv sample_validator "rewards"%string 0 1 0 sample_genesis DefaultGenesis
    DefaultMiningGenesis empty_ledger sample_first sample_updates sample_fits sample_imports).
Qed.

Lemma sample_reached_inv a :
  rtc sample_app_step sample_start (sample_at a) →
  Mn_LastProcessedRewardEpoch (Ap_Mining a) = Some 1 →
  app_inv sample_validator "rewards"%string 0 1 (sample_at a).
Proof.
  intros Hr Hc. destruct (app_run_spec sample_validator "rewards"%string sample_environment 0 0 _ _
    sample_start_inv Hr) as (k & _ & Hi & _).
  pose proof (mi_cursor _ _ _ (ai_mining _ _ _ _ _ Hi)) as Hk. simpl in Hk.
  rewrite Hc in Hk. by injection Hk as <-.
Qed.

Lemma sample_open_inv : app_inv sample_validator "rewards"%string 0 1 (sample_at sample_open).
Proof. apply sample_reached_inv; [exact sample_reaches | vm_compute; reflexivity]. Qed.
Lemma sample_paid_inv : app_inv sample_validator "rewards"%string 0 1 (sample_at sample_paid_chunk).
Proof.
  apply sample_reached_inv; [|vm_compute; reflexivity].
  etrans; [exact sample_reaches | exact sample_reaches_paid].
Qed.
End sample.
