(* ===== verification/MiningTheorems.v ===== *)
(** * x/mining, proved

    The properties of the module, over any rewards module that keeps
    [rewards_contract]; the witnesses are states of the sample run of [AppSample]. *)
From S2P Require Import Prelude Checked SdkMath Bounds EconomicAddress RewardsTypes Collections.
From S2P Require Import Allocation Bank EpochHistory RewardConfig CoreSlotTypes CoreSlotState CoreSlot.
From S2P Require Import Entitlement RewardsKeeper RewardsInvariant Release CoreSlotTheorems Chain.
From S2P Require Import MiningTypes MiningHistory MiningKeeper MiningSettlement MiningHistories.
From S2P Require Import MiningInvariant MiningBlocks MiningMessages MiningRuns MiningRewards.
From S2P Require Import MiningGenesis AppChain AppSample.
From stdpp Require Import relations.
Local Open Scope Z_scope.

Section lemmas.
Context {SI : SdkInt} {BE : Bech32} {CK : CoreSlotKeeper} {RK : RewardsKeeper}.
Context (econ : Validator) (rw_inv : Z → RewardsStore → Prop) (Hrc : rewards_contract rw_inv).
Implicit Types (s : MiningState) (row : Settlement).

(** A message that was carried out cannot be carried out again. *)
Lemma chunk_not_repeated c b cs cs' msg s row params payouts total s1 s2 next r :
  mining_inv c b s1 → rw_inv c (Ms_Rewards s1) →
  chunk_admitted econ cs s msg row params payouts total →
  next = Stl_NextChunkIndex row + 1 →
  replaced (MSC_SlotId msg) (MSC_Epoch msg) (with_next_chunk row next) s s1 →
  SubmitSettlementChunk econ cs' (Some msg) s1 = (s2, r) → s2 = s1 ∧ is_ok r = false.
Proof using Hrc.
  intros Hi Hrw Hca -> Hrep H.
  pose proof (submit_spec econ rw_inv Hrc c b cs' msg s1 s2 r Hi Hrw H) as Hs.
  destruct r as [n|e]; [|done].
  destruct Hs as (row2 & p2 & l2 & t2 & Hca2 & _). exfalso.
  pose proof (ca_row _ _ _ _ _ _ _ _ Hca2) as Hrow2.
  destruct (replaced_fields _ _ _ _ _ Hrep) as (_ & _ & _ & _ & _ & _ & Hm).
  rewrite Hm, lookup_insert_eq in Hrow2. injection Hrow2 as <-.
  pose proof (ca_position _ _ _ _ _ _ _ _ Hca2) as H2. simpl in H2.
  pose proof (ca_position _ _ _ _ _ _ _ _ Hca). lia.
Qed.

(** A finalized settlement accepts nothing more. *)
Lemma finalized_is_closed c b slot e row s :
  mining_inv c b s → rw_inv c (Ms_Rewards s) →
  Mn_Settlements (Ms_Mining s) !! (slot, e) = Some row → Stl_Finalized row = true →
  (∀ cs msg s' r, MSC_SlotId msg = slot → MSC_Epoch msg = e →
     SubmitSettlementChunk econ cs (Some msg) s = (s', r) → s' = s ∧ is_ok r = false) ∧
  (∀ cs height msg s' r, MFS_SlotId msg = slot → MFS_Epoch msg = e →
     FinalizeSettlement econ cs height (Some msg) s = (s', r) → s' = s ∧ is_ok r = false).
Proof using Hrc.
  intros Hi Hrw Hrow Hf. split.
  - intros cs msg s' r <- <- H.
    pose proof (submit_spec econ rw_inv Hrc c b cs msg s s' r Hi Hrw H) as Hs.
    destruct r as [n|]; [|done]. destruct Hs as (row2 & ? & ? & ? & Hca & _).
    pose proof (ca_row _ _ _ _ _ _ _ _ Hca). pose proof (ca_open _ _ _ _ _ _ _ _ Hca). congruence.
  - intros cs height msg s' r <- <- H.
    pose proof (finalize_spec econ rw_inv Hrc c b cs height msg s s' r Hi Hrw H) as Hs.
    destruct r as [n|]; [|done]. destruct Hs as (row2 & ? & ? & ? & ? & Hr2 & Ho2 & _). congruence.
Qed.

(** A participant window that can be computed ends within a uint64. *)
Lemma deadline_fits c b s slot e row d :
  mining_inv c b s → Mn_Settlements (Ms_Mining s) !! (slot, e) = Some row →
  (∀ p, SettlementParamsForTarget (Mn_SettlementParams (Ms_Mining s)) e = Ok p →
     STP_SettlementWindowEpochs p ≤ MaxUint64) →
  rw_inv c (Ms_Rewards s) → b ≤ MaxUint64 → deadline s row = Ok d →
  ∃ p n an, SettlementParamsForTarget (Mn_SettlementParams (Ms_Mining s)) e = Ok p ∧
    Rk_EpochLengthForEpoch (Ms_Rewards s) e = Ok n ∧
    Mn_SettlementEpochAnchors (Ms_Mining s) !! e = Some an ∧
    d = SEA_CreatedSettlementClock an + STP_SettlementWindowEpochs p * n ∧ d ≤ MaxUint64.
Proof using Hrc.
  intros Hi Hrow Hw Hrw Hb Hd. destruct (mi_settles _ _ _ Hi _ _ _ Hrow) as [Hec Hst].
  destruct (settles_facts s _ _ _ Hst) as (_ & Hep & _).
  destruct Hst as [_ Hmode Hanchor _ (p & Hp & Hpv & _) _].
  destruct (anchor_of c b s e Hi Hanchor) as (an & Han & Hl & Hac).
  rewrite (deadline_read s row an p) in Hd by (rewrite ?Hep; done).
  destruct (rc_length _ Hrc _ _ e Hrw Hec) as (n & Hn & Hn2).
  destruct (settlement_target c _ e (mi_params _ _ _ Hi)) as (_ & q & Hq & _ & _ & Hval);
    [pose proof (mi_closed _ _ _ Hi); lia|]. replace q with p in Hval by congruence.
  apply STP_Validate_Ok in Hval as (_ & _ & Hwin & _). specialize (Hw p Hp).
  pose proof (mi_clock _ _ _ Hi) as [_ Hclock].
  unfold DeadlineClock in Hd. rewrite decide_False in Hd by (rewrite Hmode; done).
  apply res_bind_Ok in Hd as (window & Hwindow & Hd). unfold SettlementWindowBlocks in Hwindow.
  rewrite Hep, Hn in Hwindow. cbn [wrap mbind res_bind] in Hwindow.
  apply wrap_Ok, MulUint64_Ok in Hwindow as [-> Hm]; [|widths; lia..].
  apply wrap_Ok, AddUint64_Ok in Hd as [-> Hs]; [|widths; lia..].
  by exists p, n, an.
Qed.
End lemmas.

(** ** Properties *)
Section properties.
Context {SI : SdkInt} {BE : Bech32} {CK : CoreSlotKeeper} {RK : RewardsKeeper}.
Context (econ : Validator) (rw_inv : Z → RewardsStore → Prop).
Implicit Types (s : MiningState) (row : Settlement).

(** C9: a settlement is never lost: from a good state, through any messages,
    changes of the rewards module and end blocks, the state stays good, the clock
    never falls, every settlement keeps its slot, epoch, mode, versions and
    deadline, its chunks only grow in number, it is frozen once finalized, and no
    entitlement loses amount or takes back what was released. *)
Theorem obligations_survive (x y : MiningPoint) :
  rewards_contract rw_inv → mining_good rw_inv x → rtc (mining_step econ rw_inv) x y →
  mining_good rw_inv y ∧ fst (fst x) ≤ fst (fst y) ∧ clock_of (snd x) ≤ clock_of (snd y) ∧
  (∀ slot e row, Mn_Settlements (Ms_Mining (snd x)) !! (slot, e) = Some row →
     ∃ row', Mn_Settlements (Ms_Mining (snd y)) !! (slot, e) = Some row' ∧
       same_obligation row row' ∧ deadline (snd y) row' = deadline (snd x) row) ∧
  (∀ slot e z a rel, e ≤ fst (fst x) → entitled (Ms_Rewards (snd x)) slot e z a rel →
     ∃ z' rel', entitled (Ms_Rewards (snd y)) slot e z' a rel' ∧ rel ≤ rel').
Proof.
  intros Hrc Hg Hrun. destruct (mining_run_evolves econ rw_inv Hrc x y Hg Hrun) as (Hc & Hgy & Hev).
  split_and!; try done; [apply Hev| |apply Hev].
  intros slot e row Hrow. destruct (ev_rows _ _ _ Hev _ _ Hrow) as (row' & Hrow' & Hso).
  exists row'. split_and!; try done. by eapply evolves_deadline; [apply Hg|..].
Qed.

(** C6: a chunk is paid exactly or not at all: a submission that fails leaves the
    state as it was; one that succeeds was signed by the settlement address of the
    slot, came before the deadline with the next chunk index and within the chunk,
    recipient and floor limits, released exactly its total of this one
    entitlement and never more than its amount, and moved the index by one, so
    that the same submission fails from then on. *)
Theorem chunk_pays_exactly (c b : Z) cs msg s s' r :
  rewards_contract rw_inv → mining_inv c b s → rw_inv c (Ms_Rewards s) →
  SubmitSettlementChunk econ cs (Some msg) s = (s', r) →
  match r with
  | Err _ => s' = s
  | Ok next => ∃ row params payouts total,
      chunk_admitted econ cs s msg row params payouts total ∧
      next = Stl_NextChunkIndex row + 1 ∧
      replaced (MSC_SlotId msg) (MSC_Epoch msg) (with_next_chunk row next) s s' ∧
      pays (Ms_Rewards s) (Ms_Rewards s') (MSC_SlotId msg) (MSC_Epoch msg) total ∧
      Rk_SettlementReleaseEnabled (Ms_Rewards s) = Ok true ∧
      mining_inv c b s' ∧ rw_inv c (Ms_Rewards s') ∧
      ∀ cs2 s2 r2, SubmitSettlementChunk econ cs2 (Some msg) s' = (s2, r2) →
        s2 = s' ∧ is_ok r2 = false
  end.
Proof.
  intros Hrc Hi Hrw H. pose proof (submit_spec econ rw_inv Hrc c b cs msg s s' r Hi Hrw H) as Hs.
  destruct r as [next|]; [|done].
  destruct Hs as (row & p & l & t & Hca & Hn & Hrep & Hpay & Hen & Hi' & Hrw').
  exists row, p, l, t. split_and!; try done. intros cs2 s2 r2. by eapply chunk_not_repeated.
Qed.

(** C7: a finalization settles its obligation: one that fails leaves the state as
    it was; one that succeeds takes the arm the clock dictates (anyone's after the
    deadline, only the settlement address's before), pays the operator exactly
    what is still owed, leaves the entitlement fully released and the row final,
    and every later chunk or finalization of it fails. *)
Theorem finalization_settles (c b height : Z) cs msg s s' r :
  rewards_contract rw_inv → mining_inv c b s → rw_inv c (Ms_Rewards s) →
  FinalizeSettlement econ cs height (Some msg) s = (s', r) →
  match r with
  | Err _ => s' = s
  | Ok out => ∃ row d x a rel row',
      Mn_Settlements (Ms_Mining s) !! (MFS_SlotId msg, MFS_Epoch msg) = Some row ∧
      Stl_Finalized row = false ∧ Rk_SettlementReleaseEnabled (Ms_Rewards s) = Ok true ∧
      deadline s row = Ok d ∧ arm_taken econ cs s row (MFS_Signer msg) d (fs_reason out) ∧
      entitled (Ms_Rewards s) (MFS_SlotId msg) (MFS_Epoch msg) x a rel ∧
      fs_remainder out = a - rel ∧
      remainder_paid s s' (MFS_SlotId msg) (MFS_Epoch msg) a rel ∧
      row' = with_finalization row (u64 height) (fs_reason out) ∧
      replaced (MFS_SlotId msg) (MFS_Epoch msg) row' s s' ∧
      (∃ x', entitled (Ms_Rewards s') (MFS_SlotId msg) (MFS_Epoch msg) x' a a) ∧
      mining_inv c b s' ∧ rw_inv c (Ms_Rewards s') ∧
      (∀ cs2 msg2 s2 r2, MSC_SlotId msg2 = MFS_SlotId msg → MSC_Epoch msg2 = MFS_Epoch msg →
         SubmitSettlementChunk econ cs2 (Some msg2) s' = (s2, r2) → s2 = s' ∧ is_ok r2 = false) ∧
      (∀ cs2 h2 msg2 s2 r2, MFS_SlotId msg2 = MFS_SlotId msg → MFS_Epoch msg2 = MFS_Epoch msg →
         FinalizeSettlement econ cs2 h2 (Some msg2) s' = (s2, r2) → s2 = s' ∧ is_ok r2 = false)
  end.
Proof.
  intros Hrc Hi Hrw H.
  pose proof (finalize_spec econ rw_inv Hrc c b cs height msg s s' r Hi Hrw H) as Hs.
  destruct r as [out|]; [|done].
  destruct Hs as (row & d & x & a & rel & Hrow & Hopen & Hen & Hd & Harm & Hx & Hrem & Hpaid & Hrep & Hi' & Hrw').
  set (row' := with_finalization row (u64 height) (fs_reason out)) in *.
  assert (Mn_Settlements (Ms_Mining s') !! (MFS_SlotId msg, MFS_Epoch msg) = Some row') as Hrow'.
  { destruct (replaced_fields _ _ _ _ _ Hrep) as (_ & _ & _ & _ & _ & _ & ->). apply lookup_insert_eq. }
  destruct (finalized_is_closed econ rw_inv Hrc c b _ _ row' s' Hi' Hrw' Hrow' eq_refl) as [Hch Hfi].
  exists row, d, x, a, rel, row'. split_and!; try done.
  destruct (mi_settles _ _ _ Hi' _ _ _ Hrow') as [_ Hst].
  destruct (st_entitled _ _ _ _ Hst) as (x' & a' & rel' & Hx' & Hfull). simpl in Hfull. subst rel'.
  exists x'. replace a with a'; [done|]. unfold remainder_paid in Hpaid. case_decide as Hz.
  - rewrite Hpaid in Hx'. by destruct (entitled_inj _ _ _ _ _ _ _ _ _ Hx Hx') as (_ & -> & _).
  - destruct (py_entitlement _ _ _ _ _ Hpaid) as (y & y' & ay & ry & Hy & Hy').
    destruct (entitled_inj _ _ _ _ _ _ _ _ _ Hx Hy) as (_ & -> & _).
    by destruct (entitled_inj _ _ _ _ _ _ _ _ _ Hx' Hy') as (_ & -> & _).
Qed.

(** C8: the end block never fails and processes each closed epoch once: the
    settlement clock ticks unless rewards are paused; when an epoch has closed,
    every entitlement of it becomes one open settlement (and nothing else does),
    under the distribution mode and the parameters its epoch is bound to, with the
    clock on record as the start of its window, and each of the three histories is
    what it was with the change scheduled for the epoch after the closed one, if
    there is one, appended under the next number and no longer scheduled (the
    distribution mode it replaces ends there); otherwise only the clock changes. *)
Theorem end_block_materializes (c c' b : Z) s :
  rewards_contract rw_inv → mining_inv c b s → rw_inv c' (Ms_Rewards s) → c ≤ c' ≤ c + 1 →
  b < MaxUint64 → (c' = c + 1 → untouched (Ms_Rewards s) c') →
  ∃ mn', MiningEndBlock (Ms_Rewards s) (Ms_Mining s) = (mn', Ok tt) ∧
    let s1 := {| Ms_Mining := put_SettlementClock (Some (clock_of s + ticks (Ms_Rewards s)))
                   (Ms_Mining s); Ms_Rewards := Ms_Rewards s |} in
    let s' := {| Ms_Mining := mn'; Ms_Rewards := Ms_Rewards s |} in
    mining_inv c' (b + 1) s' ∧
    ((c' = c ∧ s' = s1) ∨
     (c' = c + 1 ∧ ∃ vm vp l, binding s c' vm vp ∧
       (∀ x, x ∈ l ↔ Ent_SlotId x ≠ 0 ∧ Ent_Epoch x = c' ∧
         Rk_GetSlotEntitlement (Ms_Rewards s) (Ent_SlotId x) c' = Ok (Some x)) ∧
       processed c vm vp l s1 s' ∧
       ∀ slot e row, Mn_Settlements mn' !! (slot, e) = Some row ↔
         (e = c' ∧ row = opened_row c' vm vp slot ∧ ∃ x, x ∈ l ∧ Ent_SlotId x = slot) ∨
         (e ≠ c' ∧ Mn_Settlements (Ms_Mining s) !! (slot, e) = Some row))).
Proof.
  intros Hrc Hi Hrw Hcc Hb Hfresh.
  destruct (end_block_spec rw_inv Hrc c c' b s Hi Hrw Hcc Hb Hfresh) as (mn' & Hrun & Hi' & Hcase).
  exists mn'. split; [done|]. cbv zeta. split; [done|].
  destruct Hcase as [Hcase|(-> & vm & vp & l & Hbind & Hl & Hpc)]; [by left | right].
  split; [done|]. exists vm, vp, l. split_and!; try done. intros slot e row.
  pose proof (pc_settlements _ _ _ _ _ _ Hpc) as Hm. simpl in Hm. rewrite Hm, add_rows_settlements.
  rewrite list_elem_of_fmap. split.
  - intros [(-> & (x & -> & Hx) & ->)|[Hn Hrow]]; [left; by eauto|]. right. split; [|done].
    intros ->. apply (mi_settles _ _ _ Hi) in Hrow as [? _]. lia.
  - intros [(-> & -> & x & Hx & <-)|[Hn Hrow]]; [left; by eauto | right]. split; [tauto | done].
Qed.

(** C30: the distribution modes stay well formed: in a well-formed history every
    epoch is governed by exactly one version, each version ending where the next
    begins; promoting a due change at the close of epoch [c + 1] succeeds, keeps
    the history well formed, and leaves every target up to [c + 3] bound to the
    version it had. *)
Theorem mode_history_well_formed (c : Z) (f : ModeFamily) :
  modes_wf c f → 0 ≤ c → c + 2 ≤ MaxUint64 →
  ∃ f', promoteScheduledDistributionMode (c + 2) f = (f', Ok tt) ∧ modes_wf (c + 1) f' ∧
    (∀ e, 1 ≤ e → ∃ k v, seekVersionKeyAtOrBefore (Versions f') e = Some (k, v) ∧ governs v e ∧
       ∀ j w, Versions f' !! j = Some w → governs w e → j = k) ∧
    (∀ target v, 1 ≤ target ≤ MaxUint64 → target ≤ c + 3 →
       DistributionModeForTarget f target = Ok v →
       ∃ v', DistributionModeForTarget f' target = Ok v' ∧ same_mode v v').
Proof.
  intros Hm Hc Hmax. destruct (mode_promotes c f Hm Hc Hmax) as (f' & Hrun & Hm' & _ & Hkept & _).
  exists f'. split_and!; [done..| |].
  - intros e He. destruct (modes_governed _ f' e Hm' He) as (k & v & Hs & _ & _ & Hg & Hu).
    by exists k, v.
  - intros target v Ht Hle Hv. apply (mode_target_kept c (c + 1) (c + 1) f f' target v); try done.
    unfold bound_epoch. case_decide; lia.
Qed.

(** Version numbers resolve soundly: in a valid history, whatever the derived
    index holds, an answer is right: a version found is the one asked for, one
    above the latest is above every version, and one in a gap is between two
    versions and not in the history; with the faithful index of a history that
    starts at version 1 every positive number gets an answer. *)
Theorem version_lookup_sound {V : Type} (versionOf : V → Z) (validate : Z → V → res unit)
    (history : gmap Z V) (version : Z) :
  history_valid versionOf validate history →
  (∀ index k class, resolveExactVersion versionOf validate history index version = Ok (k, class) →
     answers versionOf history version k class) ∧
  (∀ index origin first, index_faithful versionOf history index →
     history !! origin = Some first → versionOf first = 1 → 1 ≤ version →
     ∃ k class, resolveExactVersion versionOf validate history index version = Ok (k, class)).
Proof.
  intros Hv. split.
  - intros index k class. by apply resolve_sound.
  - intros index origin first. by apply resolve_total.
Qed.

(** C38: a settlement window that does not fit stalls its epoch: when the start of
    the window plus its length in blocks passes the uint64 range, no chunk of such
    a settlement is ever accepted and it can never be finalized, not even early by
    the settlement address: every attempt, now or after any further run, fails and
    changes nothing. *)
Theorem oversized_window_stalls (x y : MiningPoint) (slot e : Z) row p n an :
  rewards_contract rw_inv → mining_good rw_inv x →
  Mn_Settlements (Ms_Mining (snd x)) !! (slot, e) = Some row →
  SettlementParamsForTarget (Mn_SettlementParams (Ms_Mining (snd x))) e = Ok p →
  Rk_EpochLengthForEpoch (Ms_Rewards (snd x)) e = Ok n →
  Mn_SettlementEpochAnchors (Ms_Mining (snd x)) !! e = Some an →
  STP_SettlementWindowEpochs p ≤ MaxUint64 → snd (fst x) ≤ MaxUint64 →
  MaxUint64 < SEA_CreatedSettlementClock an + STP_SettlementWindowEpochs p * n →
  rtc (mining_step econ rw_inv) x y →
  (∀ cs msg s' r, MSC_SlotId msg = slot → MSC_Epoch msg = e →
     SubmitSettlementChunk econ cs (Some msg) (snd y) = (s', r) → s' = snd y ∧ is_ok r = false) ∧
  (∀ cs height msg s' r, MFS_SlotId msg = slot → MFS_Epoch msg = e →
     FinalizeSettlement econ cs height (Some msg) (snd y) = (s', r) →
     s' = snd y ∧ is_ok r = false).
Proof.
  intros Hrc Hg Hrow Hp Hn Han Hw Hb Hbig Hrun.
  destruct (mining_run_evolves econ rw_inv Hrc x y Hg Hrun) as (_ & [Hiy Hry] & Hev).
  destruct Hg as [Hi Hrw]. destruct x as [[c b] s], y as [[c' b'] t]. simpl in *.
  destruct (ev_rows _ _ _ Hev _ _ Hrow) as (row' & Hrow' & Hso).
  assert (∀ d, deadline t row' ≠ Ok d) as Hno.
  { intros d Hd. rewrite (evolves_deadline c b s t slot e row row' Hi Hev Hso Hrow) in Hd.
    destruct (deadline_fits rw_inv Hrc c b s slot e row d Hi Hrow) as (p' & n' & an' & Hp' & Hn' & Han' & -> & Hle);
      [intros p'; congruence | done..|].
    assert (p' = p ∧ n' = n ∧ an' = an) as (-> & -> & ->) by (split_and!; congruence). lia. }
  split.
  - intros cs msg s' r <- <- H.
    pose proof (submit_spec econ rw_inv Hrc c' b' cs msg t s' r Hiy Hry H) as Hs.
    destruct r as [?|?]; [|done]. destruct Hs as (row2 & ? & ? & ? & Hca & _). exfalso.
    destruct (ca_deadline _ _ _ _ _ _ _ _ Hca) as (d & Hd & _).
    pose proof (ca_row _ _ _ _ _ _ _ _ Hca). apply (Hno d). congruence.
  - intros cs height msg s' r <- <- H.
    pose proof (finalize_spec econ rw_inv Hrc c' b' cs height msg t s' r Hiy Hry H) as Hs.
    destruct r as [?|?]; [|done]. destruct Hs as (row2 & d & ? & ? & ? & Hr2 & _ & _ & Hd & _).
    exfalso. apply (Hno d). congruence.
Qed.

(** C33: a mining document is imported whole or refused before any write: an
    accepted one has only the three founding versions, satisfies the policy check
    of the active slots, leaves a store that satisfies the invariant before the
    first epoch, and is exported exactly. *)
Theorem mining_genesis_import (coreslots : CoreSlotState) (height : Z) (g : MiningGenesis)
    (mn : MiningStore) (rw : RewardsStore) r :
  MiningInitGenesis coreslots height g emptyMiningStore = (mn, r) →
  match r with
  | Err _ => mn = emptyMiningStore
  | Ok _ => mining_inv 0 0 {| Ms_Mining := mn; Ms_Rewards := rw |} ∧
      MiningExportGenesis mn = Ok g ∧ 0 ≤ height ∧
      validateActiveSlotPolicies coreslots g (if height =? 0 then 1 else height) = Ok tt
  end.
Proof.
  intros H. pose proof (mining_genesis_run coreslots height g mn r H) as Hr.
  destruct r; [|done]. destruct Hr as (m & p & q & Hf & -> & -> & Hpol & Hh).
  split_and!; [by apply imported_mining_inv | apply export_imported_mining | done | done].
Qed.
End properties.

(** ** The witnesses *)
Section sample.
#[local] Existing Instances sdkint_256 bech32_id ledger_bank plain_keys one_decimal.
#[local] Instance sample_coreslot_keeper : CoreSlotKeeper := app_coreslot sample_validator.
#[local] Instance sample_rewards_keeper : RewardsKeeper := app_rewards sample_validator.
Definition sample_rw : Z → RewardsStore → Prop := rewards_good sample_validator "rewards"%string.

Definition sample_state_of (a : AppState) : MiningState :=
  {| Ms_Mining := Ap_Mining a; Ms_Rewards := Ap_Rewards a : RewardsStore |}.

Lemma sample_rw_contract : rewards_contract sample_rw.
Proof. exact (rewards_keeps_contract sample_validator "rewards"%string sample_environment). Qed.

Lemma app_inv_good a : app_inv sample_validator "rewards"%string 0 1 (sample_at a) →
  mining_good sample_rw (1, 360, sample_state_of a).
Proof.
  intros [[v Hv] Hm]. split; [exact Hm|]. exact (view_good _ _ _ _ _ _ _ _ _ Hv).
Qed.
Lemma sample_open_good : mining_good sample_rw (1, 360, sample_state_of sample_open).
Proof. exact (app_inv_good _ sample_open_inv). Qed.
Lemma sample_paid_good : mining_good sample_rw (1, 360, sample_state_of sample_paid_chunk).
Proof. exact (app_inv_good _ sample_paid_inv). Qed.

Lemma sample_chunk_run : SubmitSettlementChunk (CK := sample_coreslot_keeper) sample_validator
  (Ap_CoreSlots sample_open) (Some sample_chunk) (sample_state_of sample_open) =
  (sample_state_of sample_paid_chunk, Ok 1).
Proof. vm_eq. Qed.

Lemma chunk_pays_exactly_witness : ∃ total,
  pays (Ap_Rewards sample_open : RewardsStore) (Ap_Rewards sample_paid_chunk : RewardsStore) 1 1 total.
Proof.
  destruct (chunk_pays_exactly (CK := sample_coreslot_keeper) (RK := sample_rewards_keeper) sample_validator sample_rw 1 360 (Ap_CoreSlots sample_open)
    sample_chunk
    (sample_state_of sample_open) (sample_state_of sample_paid_chunk) (Ok 1))
    as (row & params & payouts & total & _ & _ & _ & Hpay & _).
  - exact sample_rw_contract.
  - exact (proj1 sample_open_good).
  - exact (proj2 sample_open_good).
  - exact sample_chunk_run.
  - exists total. exact Hpay.
Defined.

Lemma sample_finalize_run : ∃ out, FinalizeSettlement (CK := sample_coreslot_keeper) sample_validator
  (Ap_CoreSlots sample_paid_chunk) 361 (Some sample_finalize)
  (sample_state_of sample_paid_chunk) = (sample_state_of sample_finalized_row, Ok out).
Proof.
  exists {| fs_reason := SETTLEMENT_FINALIZATION_REASON_AUTHORIZED_EARLY; fs_remainder := 74864200 |}.
  vm_eq.
Qed.

Lemma finalization_settles_witness : ∃ x a,
  entitled (Ap_Rewards sample_finalized_row : RewardsStore) 1 1 x a a.
Proof.
  destruct sample_finalize_run as [out Hrun].
  destruct (finalization_settles (CK := sample_coreslot_keeper) (RK := sample_rewards_keeper) sample_validator sample_rw 1 360 361 (Ap_CoreSlots sample_paid_chunk)
    sample_finalize (sample_state_of sample_paid_chunk) (sample_state_of sample_finalized_row) (Ok out))
    as (row & d & x & a & rel & row' & _ & _ & _ & _ & _ & _ & _ & _ & _ & _ & (x' & Hx) & _).
  - exact sample_rw_contract.
  - exact (proj1 sample_paid_good).
  - exact (proj2 sample_paid_good).
  - exact Hrun.
  - exists x', a. exact Hx.
Defined.

(** The chunk as a step of the module. *)
Lemma sample_chunk_reaches :
  rtc (mining_step (CK := sample_coreslot_keeper) sample_validator sample_rw) (1, 360, sample_state_of sample_open)
    (1, 360, sample_state_of sample_paid_chunk).
Proof.
  apply rtc_once.
  apply (mn_chunk (CK := sample_coreslot_keeper) sample_validator sample_rw 1 360 (Ap_CoreSlots sample_open) (Some sample_chunk)
    _ _ (Ok {| MSCR_NextChunkIndex := 1 |})).
  unfold Msg_SubmitSettlementChunk. rewrite (M_bind_run _ _ _ _ _ sample_chunk_run). reflexivity.
Qed.

Lemma obligations_survive_witness : ∃ row row',
  Mn_Settlements (Ap_Mining sample_open) !! (1, 1) = Some row ∧
  Mn_Settlements (Ap_Mining sample_paid_chunk) !! (1, 1) = Some row' ∧ same_obligation row row'.
Proof.
  destruct (obligations_survive (CK := sample_coreslot_keeper) (RK := sample_rewards_keeper) sample_validator sample_rw (1, 360, sample_state_of sample_open)
    (1, 360, sample_state_of sample_paid_chunk) sample_rw_contract sample_open_good
    sample_chunk_reaches)
    as (_ & _ & _ & Hrows & _).
  destruct (Mn_Settlements (Ap_Mining sample_open) !! (1, 1)) as [row|] eqn:E;
    [|exfalso; revert E; vm_compute; discriminate].
  destruct (Hrows 1 1 row E) as (row' & Hrow' & Hso & _).
  exists row, row'. exact (conj eq_refl (conj Hrow' Hso)).
Defined.

(** A founding store beside the rewards store whose first epoch has closed. *)
Lemma sample_rows_fresh : map_Forall (λ _ row, Stl_NextChunkIndex row = 0 ∧ Stl_Finalized row = false)
  (Mn_Settlements (Ap_Mining sample_open)).
Proof. apply (bool_decide_unpack _). vm_compute. exact I. Qed.

Lemma sample_untouched : untouched (Ap_Rewards sample_open : RewardsStore) 1.
Proof.
  intros slot x a rel Hx. destruct sample_open_good as [Hi [(base & v & Hl) _ _]]. simpl in Hi.
  destruct (entitled_lookup sample_validator _ slot 1 x a rel (i_books _ _ _ _ _ _ Hl) Hx) as (_ & Hs & _).
  assert (1 ≤ 1 ≤ 1) as H1 by lia.
  destruct (mi_complete _ _ _ Hi slot 1 x a rel Hs H1 Hx) as [row Hrow].
  destruct (sample_rows_fresh _ _ Hrow) as [Hn Hf].
  destruct (mi_settles _ _ _ Hi _ _ _ Hrow) as [_ Hst].
  destruct (st_entitled _ _ _ _ Hst) as (x' & a' & rel' & Hx' & Hr).
  destruct (entitled_inj _ _ _ _ _ _ _ _ _ Hx Hx') as (_ & _ & <-).
  rewrite Hf in Hr. by apply Hr.
Qed.

Definition sample_mode : MiningDistributionModeVersion := {|
  DM_Version := 1; DM_Mode := MINING_DISTRIBUTION_MODE_TRUSTED_AS_DISTRIBUTION;
  DM_ValidFromEpoch := 1; DM_ValidUntilEpochExclusive := 0 |}.
Definition sample_selection_params : SelectionParamsVersion := {|
  SLP_Version := 1; SLP_EffectiveEpoch := 1; SLP_MaxSelectionRateBps := 2500;
  SLP_MaxSelectedParticipantsPerSelection := 64; SLP_MaxCandidatesPerSelection := 1024;
  SLP_BeaconStartOffsetBlocks := 48; SLP_BeaconWindowBlocks := 24;
  SLP_MinExternalBeaconBlocks := 12; SLP_MinDistinctExternalProposers := 3 |}.
Definition sample_settlement_params (window : Z) : SettlementParamsVersion := {|
  STP_Version := 1; STP_EffectiveEpoch := 1; STP_SettlementWindowEpochs := window;
  STP_MaxRecipientsPerChunk := 32; STP_MaxChunksPerSettlement := 4;
  STP_MinRecipientPayoutAmount := "10000"%string |}.

Lemma sample_founding : founding sample_mode sample_selection_params (sample_settlement_params (2 ^ 62)).
Proof. split; vm_compute; repeat split. Qed.

Definition sample_oversized (mn : MiningStore) : MiningState :=
  {| Ms_Mining := mn; Ms_Rewards := Ap_Rewards sample_open : RewardsStore |}.
Definition sample_founded : MiningState := sample_oversized
  (imported_mining sample_mode sample_selection_params (sample_settlement_params (2 ^ 62))).

Lemma end_block_materializes_witness : ∃ mn',
  MiningEndBlock (Ap_Rewards sample_open : RewardsStore) (Ms_Mining sample_founded) = (mn', Ok tt) ∧
  mining_inv 1 1 (sample_oversized mn').
Proof.
  destruct (end_block_materializes (RK := sample_rewards_keeper) sample_rw 0 1 0 sample_founded)
    as (mn' & Hrun & Hi & _).
  - exact sample_rw_contract.
  - exact (imported_mining_inv _ _ _ (Ap_Rewards sample_open : RewardsStore) sample_founding).
  - exact (proj2 sample_open_good).
  - lia.
  - vm_compute. reflexivity.
  - intros _. exact sample_untouched.
  - exists mn'. exact (conj Hrun Hi).
Defined.

Lemma mode_history_well_formed_witness : ∃ f',
  promoteScheduledDistributionMode 2 (founded sample_mode) = (f', Ok tt) ∧ modes_wf 1 f'.
Proof.
  destruct (mode_history_well_formed 0 (founded sample_mode)) as (f' & Hrun & Hm & _).
  - apply founded_modes; vm_compute; reflexivity.
  - lia.
  - vm_compute. discriminate.
  - exists f'. exact (conj Hrun Hm).
Defined.

(** Versions 1, 2 and 5: 3 is in a gap and 6 above the latest. *)
Definition sample_history : gmap Z Z := {[1 := 1; 4 := 2; 9 := 5]}.
Lemma sample_history_valid : history_valid id (λ _ _, Ok tt) sample_history.
Proof.
  assert (∀ k r, sample_history !! k = Some r → (k = 1 ∧ r = 1) ∨ (k = 4 ∧ r = 2) ∨ (k = 9 ∧ r = 5)) as H.
  { intros k r. unfold sample_history. rewrite !lookup_insert_Some, lookup_singleton_Some. naive_solver. }
  split.
  - done.
  - intros k r Hk. apply H in Hk. unfold id. lia.
  - intros k r k' r' Hk Hk'. apply H in Hk, Hk'. unfold id. lia.
Qed.

Lemma version_lookup_sound_witness :
  answers id sample_history 3 0 versionIntentionalGap ∧ answers id sample_history 6 0 versionAboveLatest.
Proof.
  split.
  - refine (proj1 (version_lookup_sound id (λ _ _, Ok tt) sample_history 3 sample_history_valid)
      ({[1 := 1; 2 := 4; 5 := 9]} : gmap Z Z) 0 versionIntentionalGap _). vm_compute. reflexivity.
  - refine (proj1 (version_lookup_sound id (λ _ _, Ok tt) sample_history 6 sample_history_valid)
      (∅ : gmap Z Z) 0 versionAboveLatest _). vm_compute. reflexivity.
Defined.

Lemma mining_genesis_import_witness :
  MiningExportGenesis (Ap_Mining sample_first) = Ok DefaultMiningGenesis.
Proof.
  assert (MiningInitGenesis (Ap_CoreSlots sample_first) 0 DefaultMiningGenesis emptyMiningStore =
    (Ap_Mining sample_first, Ok tt)) as Hrun by vm_eq.
  exact (proj1 (proj2 (mining_genesis_import (RK := sample_rewards_keeper) (Ap_CoreSlots sample_first) 0
    DefaultMiningGenesis (Ap_Mining sample_first) (Ap_Rewards sample_open) (Ok tt) Hrun))).
Defined.

(** A window of 2^62 epochs: the first settlement can never be finalized. *)
Definition sample_stalled : MiningStore := Eval vm_compute in
  fst (MiningEndBlock (Ap_Rewards sample_open : RewardsStore) (Ms_Mining sample_founded)).

Lemma sample_stalls : MiningEndBlock (Ap_Rewards sample_open : RewardsStore) (Ms_Mining sample_founded) =
  (sample_stalled, Ok tt).
Proof. vm_eq. Qed.
Lemma sample_stalled_inv : mining_inv 1 1 (sample_oversized sample_stalled).
Proof.
  destruct (end_block_spec (RK := sample_rewards_keeper) sample_rw sample_rw_contract 0 1 0 sample_founded)
    as (mn' & Hrun & Hi & _).
  - exact (imported_mining_inv _ _ _ (Ap_Rewards sample_open : RewardsStore) sample_founding).
  - exact (proj2 sample_open_good).
  - lia.
  - vm_compute. reflexivity.
  - intros _. exact sample_untouched.
  - pose proof (eq_trans (eq_sym Hrun) sample_stalls) as He. injection He as ->. exact Hi.
Qed.

Lemma oversized_window_stalls_witness : ∃ e,
  FinalizeSettlement (CK := sample_coreslot_keeper) sample_validator (Ap_CoreSlots sample_open) 361
    (Some sample_finalize) (sample_oversized sample_stalled) = (sample_oversized sample_stalled, Err e).
Proof.
  destruct (Mn_Settlements sample_stalled !! (1, 1)) as [row|] eqn:Hrow;
    [|exfalso; revert Hrow; vm_compute; discriminate].
  destruct (FinalizeSettlement (CK := sample_coreslot_keeper) sample_validator
    (Ap_CoreSlots sample_open) 361 (Some sample_finalize) (sample_oversized sample_stalled))
    as [s' r] eqn:Hf.
  destruct (oversized_window_stalls (CK := sample_coreslot_keeper) (RK := sample_rewards_keeper)
    sample_validator sample_rw (1, 1, sample_oversized sample_stalled)
    (1, 1, sample_oversized sample_stalled) 1 1 row (sample_settlement_params (2 ^ 62)) 360
    {| SEA_Epoch := 1; SEA_CreatedSettlementClock := 1 |}) as [_ Hstall].
  - exact sample_rw_contract.
  - exact (conj sample_stalled_inv (proj2 sample_open_good)).
  - exact Hrow.
  - vm_compute. reflexivity.
  - vm_compute. reflexivity.
  - vm_compute. reflexivity.
  - vm_compute. discriminate.
  - vm_compute. discriminate.
  - vm_compute. reflexivity.
  - apply rtc_refl.
  - destruct (Hstall (Ap_CoreSlots sample_open) 361 sample_finalize s' r eq_refl eq_refl Hf) as [-> Hr].
    destruct r as [?|e]; [discriminate Hr|]. exists e. reflexivity.
Defined.
End sample.
