(* ===== verification/App.v ===== *)
(** * The application, proved

    From the three genesis documents on, through any sequence of blocks, messages
    and foreign transfers: no hook of any module fails, and an entitlement that
    the rewards module booked is settled by the mining module. *)
From S2P Require Import Prelude Checked SdkMath Bounds EconomicAddress RewardsTypes.
From S2P Require Import Collections Allocation RewardConfig Bank Entitlement RewardsKeeper.
From S2P Require Import RewardsInvariant Release Lifecycle.
From S2P Require Import CoreSlotTypes CoreSlotState CoreSlot CoreSlotMsgs.
From S2P Require Import CoreSlotEndBlock CoreSlotInvariant CoreSlotLifecycle CoreSlotValidators.
From S2P Require Import CoreSlotRows CoreSlotGenesis CoreSlotGenesisInvariant CoreSlotTheorems Chain.
From S2P Require Import RewardsGenesis RewardsGenesisTheorems MiningTypes MiningHistory MiningKeeper.
From S2P Require Import MiningSettlement MiningHistories MiningInvariant MiningBlocks MiningMessages.
From S2P Require Import MiningRuns MiningRewards MiningGenesis AppChain AppSample.
From stdpp Require Import relations.
Local Open Scope Z_scope.

(** ** Collecting what is owed *)
Section collect.
Context {SI : SdkInt} {BE : Bech32} {BK : BankKeeper} {PK : PubKeyCodec}.
Context (econ : Validator) (module_addr : AccAddress) (Henv : environment econ module_addr).
#[local] Instance collect_coreslot : CoreSlotKeeper := app_coreslot econ.
#[local] Instance collect_rewards : RewardsKeeper := app_rewards econ.

Lemma app_finalize_total base k h a (msg : MsgFinalizeSettlement) row d reason :
  app_inv econ module_addr base k {| Ac_Height := h; Ac_InBlock := true; Ac_State := a |} →
  Rk_SettlementReleaseEnabled (Ap_Rewards a : RewardsStore) = Ok true →
  Mn_Settlements (Ap_Mining a) !! (MFS_SlotId msg, MFS_Epoch msg) = Some row →
  Stl_Finalized row = false →
  deadline (mining_state econ a) row = Ok d →
  arm_taken econ (Ap_CoreSlots a : CoreSlotStore) (mining_state econ a) row
    (MFS_Signer msg) d reason →
  ∃ a', app_deliver econ h (Finalize (Some msg)) a = (a', Ok tt) ∧
    (∃ row', Mn_Settlements (Ap_Mining a') !! (MFS_SlotId msg, MFS_Epoch msg) = Some row' ∧
       Stl_Finalized row' = true ∧ Stl_FinalizationReason row' = reason) ∧
    ∃ x, SlotEntitlements (Rs_Entitlements (Ap_Rewards a')) !! (MFS_Epoch msg, MFS_SlotId msg) = Some x ∧
      owed x = 0.
Proof using Henv.
  intros [[v Hv] Hm] Hen Hrow Hopen Hd Harm.
  destruct a as [cs s mn]. simpl in *. unfold chain_of, blocks_ended in *. simpl in *.
  assert (rewards_good econ module_addr k s) as Hg by exact (view_good _ _ _ _ _ _ _ _ _ Hv).
  destruct (mi_settles _ _ _ Hm _ _ _ Hrow) as [_ Hst].
  destruct (st_entitled _ _ _ _ Hst) as (x & n & rel & Hx & _).
  pose proof (c_height _ _ _ _ _ _ _ Hv) as Hh. simpl in Hh.
  destruct (inv_start_bounds _ _ _ _ _ _ (proj1 (c_rewards _ _ _ _ _ _ _ Hv))) as (H1 & _).
  destruct (c_position _ _ _ _ _ _ _ Hv) as [_ [Hpos _]]. simpl in Hpos.
  pose proof (rewards_keeps_contract econ module_addr Henv) as Hrc.
  destruct (finalize_total (CK := collect_coreslot) (RK := collect_rewards) econ _ Hrc k (h - 1) cs h msg
    (mining_state econ {| Ap_CoreSlots := cs; Ap_Rewards := s; Ap_Mining := mn |}) row d x n rel reason Hm Hg Hrow Hopen Hen Hd Harm Hx)
    as [s' Hfin]; [lia| |].
  { intros _. eapply (remainder_goes_through econ module_addr Henv k); [exact Hg | exact Hen | exact Hx]. }
  pose proof (finalize_spec (CK := collect_coreslot) (RK := collect_rewards) econ _ Hrc k (h - 1) cs h msg
    _ s' _ Hm Hg Hfin) as Hspec. simpl in Hspec.
  destruct Hspec as (row0 & d0 & x0 & n0 & rel0 & _ & _ & _ & _ & _ & _ & _ & _ & Hrep & Hm' & Hg').
  destruct (replaced_fields _ _ _ _ _ Hrep) as (_ & _ & _ & _ & _ & _ & Hrows).
  exists {| Ap_CoreSlots := cs; Ap_Rewards := Ms_Rewards s'; Ap_Mining := Ms_Mining s' |}. split_and!.
  - erewrite M_bind_run; [reflexivity|]. unfold on_settlements.
    erewrite zoom_run; [reflexivity|]. simpl.
    unfold Msg_FinalizeSettlement. rewrite (M_bind_run _ _ _ _ _ Hfin). reflexivity.
  - eexists. simpl. rewrite Hrows, lookup_insert_eq. by split.
  - assert (Mn_Settlements (Ms_Mining s') !! (MFS_SlotId msg, MFS_Epoch msg) =
      Some (with_finalization row0 (u64 h) reason)) as Hrow' by (by rewrite Hrows, lookup_insert_eq).
    destruct (mi_settles _ _ _ Hm' _ _ _ Hrow') as [_ Hst'].
    destruct (st_entitled _ _ _ _ Hst') as (x' & n' & rel' & Hx' & Hr). simpl in Hr. subst rel'.
    destruct (rg_ledger _ _ _ _ Hg') as (base' & v' & Hl').
    destruct (entitled_lookup econ (Ms_Rewards s') _ _ x' n' n' (i_books _ _ _ _ _ _ Hl') Hx') as (Hk & _).
    exists x'. split; [exact Hk|]. unfold owed.
    by rewrite (et_amount _ _ _ _ _ _ Hx'), (et_released _ _ _ _ _ _ Hx'), Z.sub_diag.
Qed.
End collect.

Section properties.
Context {SI : SdkInt} {BE : Bech32} {BK : BankKeeper} {PK : PubKeyCodec} {DC : DecCodec}.
Context (econ : Validator) (module_addr : AccAddress).
#[local] Instance the_coreslot : CoreSlotKeeper := app_coreslot econ.
#[local] Instance the_rewards : RewardsKeeper := app_rewards econ.

(** C1: from genesis on the application never halts: when the three modules accept
    their documents, then through any sequence of blocks, messages of the three
    modules and foreign transfers, the hooks that are due next succeed: between
    blocks the begin block of the next (heights permitting), inside a block the
    end blocks of CoreSlot, rewards and mining, in this order. *)
Theorem app_never_halts (height h0 base : Z) coreslot rewards mining (bank : Bank) (a : AppState)
    updates (c : AppChain) :
  app_genesis_fits econ module_addr height h0 base coreslot rewards bank →
  AppInitGenesis econ height coreslot rewards mining (emptyApp bank) = (a, Ok updates) →
  rtc (app_step econ module_addr)
    {| Ac_Height := h0 - 1; Ac_InBlock := false; Ac_State := a |} c →
  if Ac_InBlock c
  then ∃ a' updates', AppEndBlock econ (Ac_Height c) (Ac_State c) = (a', Ok updates')
  else Ac_Height c < MaxInt64 →
    ∃ a', AppBeginBlock econ (Ac_Height c + 1) (Ac_State c) = (a', Ok tt).
Proof.
  intros Hfits Hinit Hrun. pose proof (gf_environment _ _ _ _ _ _ _ _ Hfits) as Henv.
  pose proof (app_genesis_inv econ module_addr _ _ _ _ _ _ _ _ _ Hfits Hinit) as Hi.
  destruct (app_run_spec econ module_addr Henv base 0 _ c Hi Hrun) as (k & _ & Hk & _).
  destruct c as [h [|] s]; simpl.
  - destruct (app_end_spec econ module_addr Henv base k h s Hk) as (k' & a' & us & H & _). eauto.
  - intros Hh. destruct (app_begin_spec econ module_addr base k h s Hk ltac:(lia)) as (a' & H & _).
    eauto.
Qed.

(** C3: every entitlement is an obligation of the mining module: in every state
    reachable from genesis, an entitlement the rewards module has booked has its
    settlement, which is open and listed as open until it is finalized, and once
    it is finalized nothing is owed; and no settlement is without entitlement. *)
Theorem app_entitlements_settle (height h0 base : Z) coreslot rewards mining (bank : Bank)
    (a : AppState) updates (c : AppChain) (slot e : Z) :
  app_genesis_fits econ module_addr height h0 base coreslot rewards bank →
  AppInitGenesis econ height coreslot rewards mining (emptyApp bank) = (a, Ok updates) → 0 ≤ e →
  rtc (app_step econ module_addr)
    {| Ac_Height := h0 - 1; Ac_InBlock := false; Ac_State := a |} c →
  let entitlements := SlotEntitlements (Rs_Entitlements (Ap_Rewards (Ac_State c))) in
  let mn := Ap_Mining (Ac_State c) in
  (∀ x, entitlements !! (e, slot) = Some x → is_Some (Mn_Settlements mn !! (slot, e))) ∧
  (∀ row, Mn_Settlements mn !! (slot, e) = Some row →
     ∃ x, entitlements !! (e, slot) = Some x ∧
       (Stl_Finalized row = true → owed x = 0) ∧
       Mn_OpenSettlementsBySlot mn !! (slot, e) = if Stl_Finalized row then None else Some e).
Proof.
  intros Hfits Hinit He Hrun. pose proof (gf_environment _ _ _ _ _ _ _ _ Hfits) as Henv.
  pose proof (app_genesis_inv econ module_addr _ _ _ _ _ _ _ _ _ Hfits Hinit) as Hi.
  destruct (app_run_spec econ module_addr Henv base 0 _ c Hi Hrun) as (k & _ & [[v Hv] Hm] & _).
  pose proof (proj1 (c_rewards _ _ _ _ _ _ _ Hv)) as Hl. simpl in Hl.
  pose proof (i_books _ _ _ _ _ _ Hl) as Hwf. destruct c as [h b [cs s mn]]. simpl in *. split.
  - intros x Hx. destruct (entitled_stored econ s slot e x Hwf Hx) as (n & rel & Hent).
    destruct (entitled_lookup econ s slot e x n rel Hwf Hent) as (_ & Hs & He0).
    pose proof (i_books_epochs _ _ _ _ _ _ Hl _ _ _ Hx).
    apply (mi_complete _ _ _ Hm slot e x n rel Hs); [lia | exact Hent].
  - intros row Hrow. destruct (mi_settles _ _ _ Hm _ _ _ Hrow) as [_ Hst].
    destruct (st_entitled _ _ _ _ Hst) as (x & n & rel & Hx & Hr).
    destruct (entitled_lookup econ s slot e x n rel Hwf Hx) as (Hk & _). exists x. split_and!; [done| |].
    + intros Hf. rewrite Hf in Hr. subst n. unfold owed.
      by rewrite (et_amount _ _ _ _ _ _ Hx), (et_released _ _ _ _ _ _ Hx), Z.sub_diag.
    + destruct (Stl_Finalized row) eqn:Hf.
      * destruct (Mn_OpenSettlementsBySlot mn !! (slot, e)) as [n'|] eqn:E; [|done].
        apply (mi_open _ _ _ Hm) in E as (_ & row' & Hrow' & Hf'). simpl in Hrow'. congruence.
      * apply (mi_open _ _ _ Hm). by eauto.
Qed.

(** C4: what is owed can always be collected: in every state reachable from
    genesis, inside a block with releases enabled, a finalization of an open
    settlement succeeds whenever its signer may take the arm the clock dictates:
    anyone with a decodable address once the deadline has passed, the settlement
    address of the slot before; nothing is owed afterwards. *)
Theorem app_settlement_available (height h0 base : Z) coreslot rewards mining (bank : Bank)
    (a : AppState) updates (c : AppChain) (msg : MsgFinalizeSettlement) row d reason :
  app_genesis_fits econ module_addr height h0 base coreslot rewards bank →
  AppInitGenesis econ height coreslot rewards mining (emptyApp bank) = (a, Ok updates) →
  rtc (app_step econ module_addr)
    {| Ac_Height := h0 - 1; Ac_InBlock := false; Ac_State := a |} c →
  Ac_InBlock c = true →
  Rk_SettlementReleaseEnabled (Ap_Rewards (Ac_State c) : RewardsStore) = Ok true →
  Mn_Settlements (Ap_Mining (Ac_State c)) !! (MFS_SlotId msg, MFS_Epoch msg) = Some row →
  Stl_Finalized row = false →
  deadline (mining_state econ (Ac_State c)) row = Ok d →
  arm_taken econ (Ap_CoreSlots (Ac_State c) : CoreSlotStore) (mining_state econ (Ac_State c)) row
    (MFS_Signer msg) d reason →
  ∃ a', app_deliver econ (Ac_Height c) (Finalize (Some msg)) (Ac_State c) = (a', Ok tt) ∧
    (∃ row', Mn_Settlements (Ap_Mining a') !! (MFS_SlotId msg, MFS_Epoch msg) = Some row' ∧
       Stl_Finalized row' = true ∧ Stl_FinalizationReason row' = reason) ∧
    ∃ x, SlotEntitlements (Rs_Entitlements (Ap_Rewards a')) !! (MFS_Epoch msg, MFS_SlotId msg) = Some x ∧
      owed x = 0.
Proof.
  intros Hfits Hinit Hrun Hb Hen Hrow Hopen Hd Harm.
  pose proof (gf_environment _ _ _ _ _ _ _ _ Hfits) as Henv.
  pose proof (app_genesis_inv econ module_addr _ _ _ _ _ _ _ _ _ Hfits Hinit) as Hi.
  destruct (app_run_spec econ module_addr Henv base 0 _ c Hi Hrun) as (k & _ & Hk & _).
  destruct c as [h b st]. simpl in *. subst b.
  exact (app_finalize_total econ module_addr Henv base k h st msg row d reason Hk Hen Hrow Hopen Hd Harm).
Qed.
End properties.

(** ** The witnesses: the sample run *)
Section sample.
#[local] Existing Instances sdkint_256 bech32_id ledger_bank plain_keys one_decimal.

Lemma app_never_halts_witness : ∃ a updates,
  AppEndBlock sample_validator 361 sample_open = (a, Ok updates).
Proof.
  exact (app_never_halts sample_validator "rewards"%string 0 1 0 sample_genesis DefaultGenesis
    DefaultMiningGenesis empty_ledger sample_first sample_updates (sample_at sample_open)
    sample_fits sample_imports sample_reaches).
Defined.

Lemma app_entitlements_settle_witness :
  is_Some (Mn_Settlements (Ap_Mining sample_open) !! (1, 1)).
Proof.
  assert (0 ≤ 1) as H1 by lia.
  pose proof (proj1 (app_entitlements_settle sample_validator "rewards"%string 0 1 0 sample_genesis
    DefaultGenesis DefaultMiningGenesis empty_ledger sample_first sample_updates
    (sample_at sample_open) 1 1 sample_fits sample_imports H1 sample_reaches)) as Hall.
  destruct (SlotEntitlements (Rs_Entitlements (Ap_Rewards sample_open)) !! (1, 1)) as [x|] eqn:E;
    [|exfalso; revert E; vm_compute; discriminate].
  exact (Hall x E).
Defined.

(** Slot 1 may finalize its settlement of epoch 1 at once, 720 blocks early. *)
Lemma sample_row : Mn_Settlements (Ap_Mining sample_open) !! (1, 1) = Some (opened_row 1 1 1 1).
Proof. vm_compute. reflexivity. Qed.
Lemma sample_deadline : deadline (RK := app_rewards sample_validator)
  (mining_state sample_validator sample_open) (opened_row 1 1 1 1) = Ok 1080.
Proof. vm_compute. reflexivity. Qed.
Lemma sample_arm : arm_taken (CK := app_coreslot sample_validator) (RK := app_rewards sample_validator)
  sample_validator (Ap_CoreSlots sample_open) (mining_state sample_validator sample_open)
  (opened_row 1 1 1 1) "ann"%string 1080 SETTLEMENT_FINALIZATION_REASON_AUTHORIZED_EARLY.
Proof.
  unfold arm_taken. rewrite decide_False by (vm_compute; intros H; apply H; reflexivity).
  split; [reflexivity|]. exists (sample_core_slot 1 "ann" "a" SLOT_STATUS_ACTIVE), "ann"%string.
  repeat split; vm_compute; reflexivity.
Qed.

Lemma app_settlement_available_witness : ∃ a,
  app_deliver sample_validator 361 (Finalize (Some sample_finalize)) sample_open = (a, Ok tt).
Proof.
  destruct (app_settlement_available (BK := ledger_bank) sample_validator "rewards"%string 0 1 0
    sample_genesis DefaultGenesis DefaultMiningGenesis empty_ledger sample_first sample_updates
    (sample_at sample_open) sample_finalize (opened_row 1 1 1 1) 1080
    SETTLEMENT_FINALIZATION_REASON_AUTHORIZED_EARLY) as (a & Hrun & _).
  - exact sample_fits.
  - exact sample_imports.
  - exact sample_reaches.
  - reflexivity.
  - vm_compute. reflexivity.
  - exact sample_row.
  - reflexivity.
  - exact sample_deadline.
  - exact sample_arm.
  - exists a. exact Hrun.
Defined.
End sample.
