(* ===== verification/MiningQueryTheorems.v ===== *)
(** * The query server of x/mining, proved

    A worker that acts on what the queries answer is never misled: over the states
    reachable in the application ([settlement_query_reliable]) and over any state of
    the module's invariant (the rest). *)
From S2P Require Import Prelude Checked SdkMath Bounds EconomicAddress RewardsTypes Collections.
From S2P Require Import Bytes Paging Allocation Bank RewardConfig Entitlement RewardsKeeper RewardsInvariant.
From S2P Require Import CoreSlotTypes CoreSlotState CoreSlot CoreSlotGenesis CoreSlotGenesisInvariant.
From S2P Require Import CoreSlotTheorems Chain RewardsGenesis RewardsGenesisTheorems.
From S2P Require Import MiningTypes MiningHistory MiningKeeper MiningSettlement MiningHistories.
From S2P Require Import MiningInvariant MiningBlocks MiningMessages MiningRuns MiningQueries MiningRewards.
From S2P Require Import MiningGenesis AppChain AppSample MiningTheorems App.
From stdpp Require Import relations.
Local Open Scope Z_scope.

Section application.
Context {SI : SdkInt} {BE : Bech32} {BK : BankKeeper} {PK : PubKeyCodec} {DC : DecCodec}.
Context (econ : Validator) (module_addr : AccAddress).
#[local] Instance q_coreslot : CoreSlotKeeper := app_coreslot econ.
#[local] Instance q_rewards : RewardsKeeper := app_rewards econ.

(** What a client may rely on once a settlement query has answered. *)
Record announced (c : AppChain) (slot e : Z) (v : QuerySettlementResponse) : Prop := {
  an_row : Mn_Settlements (Ap_Mining (Ac_State c)) !! (slot, e) = Some (QS_Settlement v);
  an_amounts : ∃ x a rel, entitled (Ap_Rewards (Ac_State c) : RewardsStore) slot e x a rel ∧
    QS_EntitlementAmount v = Int_String a ∧ QS_ReleasedAmount v = Int_String rel ∧
    QS_RemainingAmount v = Int_String (a - rel) ∧ QS_PayoutAddress v = Ent_PayoutAddress x ∧
    (Stl_Finalized (QS_Settlement v) = true → rel = a);
  an_deadline : deadline (mining_state econ (Ac_State c)) (QS_Settlement v) = Ok (QS_DeadlineClock v);
  an_permissionless : QS_PermissionlessFinalizationNow v =
    bool_decide (Stl_Finalized (QS_Settlement v) = false ∧
      QS_DeadlineClock v ≤ clock_of (mining_state econ (Ac_State c)));
  an_finalize : QS_PermissionlessFinalizationNow v = true → Ac_InBlock c = true →
    Rk_SettlementReleaseEnabled (Ap_Rewards (Ac_State c) : RewardsStore) = Ok true →
    ∀ signer raw, ParseAccountAddress econ signer = Ok raw →
    ∃ a', app_deliver econ (Ac_Height c)
      (Finalize (Some {| MFS_Signer := signer; MFS_SlotId := slot; MFS_Epoch := e |}))
      (Ac_State c) = (a', Ok tt)
}.

(** C10: the settlement query can be acted on: in every state reachable from
    genesis it answers NotFound exactly when there is no such settlement; for a
    settlement it reports the stored row, the amounts of its entitlement, the
    deadline and whether anyone may finalize it now, and when it says so and
    releases are enabled, a finalization signed by any decodable address succeeds;
    Internal is answered only to a settlement whose deadline cannot be computed. *)
Theorem settlement_query_reliable (height h0 base : Z) coreslot rewards mining (bank : Bank)
    (a : AppState) updates (c : AppChain) (slot e : Z) :
  app_genesis_fits econ module_addr height h0 base coreslot rewards bank →
  AppInitGenesis econ height coreslot rewards mining (emptyApp bank) = (a, Ok updates) →
  rtc (app_step econ module_addr)
    {| Ac_Height := h0 - 1; Ac_InBlock := false; Ac_State := a |} c → slot ≠ 0 → e ≠ 0 →
  let row := Mn_Settlements (Ap_Mining (Ac_State c)) !! (slot, e) in
  match QuerySettlement (mining_state econ (Ac_State c)) (settlement_request slot e) with
  | Ok v => announced c slot e v
  | Err status => (status = StatusNotFound ∧ row = None) ∨
      (status = StatusInternal ∧ ∃ r err, row = Some r ∧
         deadline (mining_state econ (Ac_State c)) r = Err err)
  end.
Proof.
  intros Hfits Hinit Hrun Hs He. pose proof (gf_environment _ _ _ _ _ _ _ _ Hfits) as Henv.
  pose proof (app_genesis_inv econ module_addr _ _ _ _ _ _ _ _ _ Hfits Hinit) as Hi.
  destruct (app_run_spec econ module_addr Henv base 0 _ c Hi Hrun) as (k & _ & Hk & _).
  pose proof (ai_mining _ _ _ _ _ Hk) as Hm. cbv zeta.
  destruct (Mn_Settlements (Ap_Mining (Ac_State c)) !! (slot, e)) as [row|] eqn:Hrow.
  2:{ rewrite (query_absent k _ _ slot e Hm Hs He Hrow). by left. }
  destruct (query_present k _ _ slot e row Hm Hrow) as (x & n & rel & an & Hx & Hfull & _ & ->).
  destruct (deadline (mining_state econ (Ac_State c)) row) as [d|err] eqn:Hd; [|right; eauto].
  assert (negb (Stl_Finalized row) && (clock_of (mining_state econ (Ac_State c)) >=? d) =
    bool_decide (Stl_Finalized row = false ∧ d ≤ clock_of (mining_state econ (Ac_State c)))) as Hflag.
  { rewrite Z.geb_leb. destruct (Stl_Finalized row), (Z.leb_spec d (clock_of (mining_state econ (Ac_State c))));
      symmetry; (apply bool_decide_eq_true_2 || apply bool_decide_eq_false_2); naive_solver lia. }
  split; try done; [by exists x, n, rel|].
  cbn [settlement_response QS_PermissionlessFinalizationNow]. rewrite Hflag.
  intros [Hopen Hle]%bool_decide_eq_true_1 Hb Hen signer raw Hraw.
  destruct c as [h b st]. simpl in *. subst b.
  destruct (app_finalize_total econ module_addr Henv base k h st
    {| MFS_Signer := signer; MFS_SlotId := slot; MFS_Epoch := e |} row d
    SETTLEMENT_FINALIZATION_REASON_PERMISSIONLESS_AFTER_DEADLINE Hk Hen Hrow Hopen Hd)
    as (a' & Ha' & _); [|by exists a'].
  unfold arm_taken. rewrite decide_True by done. split; [done | by exists raw].
Qed.
End application.

Section properties.
Context {SI : SdkInt} {BE : Bech32} {CK : CoreSlotKeeper} {RK : RewardsKeeper}.
Context (econ : Validator) (rw_inv : Z → RewardsStore → Prop).
Implicit Types (s : MiningState) (row : Settlement).

(** C11: no open settlement is missing from the listing: following the cursors
    from the first page, with any admitted page size, ends after at most one page
    per settlement of the slot and returns exactly its open settlements, by
    ascending epoch; no page holds more than the page size. *)
Theorem open_settlements_complete (c b slot limit : Z) s :
  mining_inv c b s → slot ≠ 0 → 1 ≤ limit ≤ 100 →
  (∃ l, (∀ fuel, (size (prefix_map slot (Mn_Settlements (Ms_Mining s))) < fuel)%nat →
       follow (open_page (Ms_Mining s) slot limit) fuel EmptyString = Ok l) ∧
     (∀ row, row ∈ l ↔ ∃ e, Mn_Settlements (Ms_Mining s) !! (slot, e) = Some row ∧
        Stl_Finalized row = false) ∧
     StronglySorted (λ r r', Stl_Epoch r < Stl_Epoch r') l) ∧
  (∀ key l response, open_page (Ms_Mining s) slot limit key = Ok (l, response) →
     Z.of_nat (List.length l) ≤ limit).
Proof.
  intros Hi Hs Hl. set (m := prefix_map slot (Mn_Settlements (Ms_Mining s))).
  destruct (open_page_spec c b s slot limit Hi Hs Hl) as [Hfirst Hnext]. fold m in Hfirst, Hnext.
  assert (∀ e row, m !! e = Some row → Stl_Epoch row = e) as Hepoch.
  { intros e row Hrow. unfold m in Hrow. rewrite lookup_prefix_map in Hrow.
    apply (mi_settles _ _ _ Hi) in Hrow as [_ Hst]. by apply (settles_facts s slot e row Hst). }
  split; [|intros key l response; apply open_page_length; lia].
  exists (open_rows (entries m)). split_and!.
  - intros fuel Hfuel. apply (pages_from _ open_rows encodeEpochCursor limit m); try done.
    + exact open_rows_app.
    + lia.
    + by rewrite entries_length.
  - intros row. unfold open_rows. rewrite list_elem_of_filter, list_elem_of_fmap. split.
    + intros (Ho & [e r] & -> & Hin). apply elem_of_entries in Hin. unfold m in Hin.
      rewrite lookup_prefix_map in Hin. by exists e.
    + intros (e & Hrow & Ho). split; [done|]. exists (e, row). split; [done|].
      apply elem_of_entries. unfold m. by rewrite lookup_prefix_map.
  - unfold open_rows. apply StronglySorted_filtered.
    apply (StronglySorted_fmap_in snd (λ p q : Z * Settlement, fst p < fst q)).
    + intros [e r] [e' r'] Hp Hq. apply elem_of_entries, Hepoch in Hp, Hq. simpl. congruence.
    + apply entries_strict.
Qed.

(** C12: what is reported of a target epoch is what happens to it: once a target
    is bound (up to three epochs after the last closed one) the settlement
    parameters and the distribution mode the queries report for it stay the same
    through any run, and every settlement of that epoch carries exactly those
    versions. *)
Theorem reported_binding_holds (x y : MiningPoint) (target : Z) :
  rewards_contract rw_inv → mining_good rw_inv x → rtc (mining_step econ rw_inv) x y →
  1 ≤ target ≤ MaxUint64 → target ≤ fst (fst x) + 3 →
  ∃ p q, QuerySettlementParamsForEpoch (Ms_Mining (snd x)) (Some target) = Ok p ∧
    QueryTargetEpochInterpretation (Ms_Mining (snd x)) (Some target) = Ok q ∧
    QuerySettlementParamsForEpoch (Ms_Mining (snd y)) (Some target) = Ok p ∧
    (∃ q', QueryTargetEpochInterpretation (Ms_Mining (snd y)) (Some target) = Ok q' ∧
       same_mode (QTE_DistributionModeVersion q) (QTE_DistributionModeVersion q') ∧
       QTE_SelectionApplicable q' = QTE_SelectionApplicable q) ∧
    ∀ slot row, Mn_Settlements (Ms_Mining (snd y)) !! (slot, target) = Some row →
      Stl_SettlementParamsVersion row = STP_Version (QPE_SettlementParamsVersion p) ∧
      Stl_DistributionModeVersion row = DM_Version (QTE_DistributionModeVersion q).
Proof.
  intros Hrc Hg Hrun Ht Hle.
  destruct (mining_run_evolves econ rw_inv Hrc x y Hg Hrun) as (_ & [Hiy _] & Hev).
  destruct Hg as [Hi _]. destruct x as [[c b] s], y as [[c' b'] t]. simpl in *.
  destruct (settlement_target c _ target (mi_params _ _ _ Hi) Ht) as (_ & p & Hp & _).
  destruct (mode_target c _ target (mi_modes _ _ _ Hi) Ht) as (_ & m & Hmode & _).
  destruct (ev_modes _ _ _ Hev target m ltac:(lia) ltac:(lia) Hmode) as (m' & Hm' & Hsame).
  pose proof (ev_params _ _ _ Hev target ltac:(lia) ltac:(lia)) as Hp'. rewrite Hp in Hp'.
  destruct (binding_query (Ms_Mining s) target p m Ht Hp Hmode) as [Hpe Hte].
  destruct (binding_query (Ms_Mining t) target p m' Ht Hp' Hm') as [Hpe' Hte'].
  eexists _, _. split; [exact Hpe|]. split; [exact Hte|]. split; [exact Hpe'|]. split.
  - eexists. split; [exact Hte'|]. split; [exact Hsame|]. simpl.
    by destruct Hsame as (_ & -> & _).
  - intros slot row Hrow. destruct (mi_settles _ _ _ Hiy _ _ _ Hrow) as [_ Hst].
    destruct (st_distribution _ _ _ _ Hst) as (m2 & Hm2 & <-).
    destruct (st_params _ _ _ _ Hst) as (p2 & Hp2 & <- & _). simpl.
    destruct Hsame as (Hver & _). split; [congruence|]. rewrite Hm' in Hm2. injection Hm2 as <-. done.
Qed.

(** A query by version number never lies: in a state of the invariant, but
    whatever the derived index holds, a version returned by one of the three
    queries is the one asked for, NotFound means that no version has the number,
    and everything else is Internal; with the index the module keeps, every
    positive number gets one of the first two answers. *)
Theorem version_queries_truthful (c b version : Z) s (index : gmap Z Z) :
  mining_inv c b s → 1 ≤ version →
  let mn := Ms_Mining s in
  truthful DM_Version (Versions (Mn_Modes mn)) version
    (QueryDistributionModeVersion (put_Modes (put_VersionIndex index (Mn_Modes mn)) mn) (Some version)) ∧
  truthful SLP_Version (Versions (Mn_SelectionParams mn)) version
    (QuerySelectionParamsVersion
      (put_SelectionParams (put_VersionIndex index (Mn_SelectionParams mn)) mn) (Some version)) ∧
  truthful STP_Version (Versions (Mn_SettlementParams mn)) version
    (QuerySettlementParamsVersion
      (put_SettlementParams (put_VersionIndex index (Mn_SettlementParams mn)) mn) (Some version)) ∧
  QueryDistributionModeVersion mn (Some version) ≠ Err StatusInternal ∧
  QuerySelectionParamsVersion mn (Some version) ≠ Err StatusInternal ∧
  QuerySettlementParamsVersion mn (Some version) ≠ Err StatusInternal.
Proof.
  intros Hi Hver mn.
  pose proof (mode_genesis c _ (mo_family _ _ (mi_modes _ _ _ Hi))) as (v1 & Hg1 & _).
  pose proof (selection_genesis c _ (mi_selection _ _ _ Hi)) as (v2 & Hg2).
  pose proof (settlement_genesis c _ (mi_params _ _ _ Hi)) as (v3 & Hg3 & _).
  pose proof (mo_family _ _ (mi_modes _ _ _ Hi)) as [Hv1 Hf1 Ho1 _ _].
  pose proof (mi_selection _ _ _ Hi) as [Hv2 Hf2 Ho2 _ _].
  pose proof (mi_params _ _ _ Hi) as [Hv3 Hf3 Ho3 _ _].
  pose proof (λ i, exact_truthful _ _ _ i version validate_mode_plain Hv1 Hver) as H1.
  pose proof (λ i, exact_truthful _ _ _ i version validate_selection_plain Hv2 Hver) as H2.
  pose proof (λ i, exact_truthful _ _ _ i version validate_settlement_plain Hv3 Hver) as H3.
  rewrite (mode_query mn index version v1), (selection_query mn index version v2),
    (settlement_query mn index version v3) by done.
  split_and!; [apply H1 | apply H2 | apply H3 | | |].
  - pose proof (mode_query mn (VersionIndex (Mn_Modes mn)) version v1 Hver Hg1) as Hq.
    rewrite put_Modes_same in Hq. rewrite Hq. by apply H1.
  - pose proof (selection_query mn (VersionIndex (Mn_SelectionParams mn)) version v2 Hver Hg2) as Hq.
    rewrite put_SelectionParams_same in Hq. rewrite Hq. by apply H2.
  - pose proof (settlement_query mn (VersionIndex (Mn_SettlementParams mn)) version v3 Hver Hg3) as Hq.
    rewrite put_SettlementParams_same in Hq. rewrite Hq. by apply H3.
Qed.
End properties.

(** ** The witnesses *)
Section sample.
#[local] Existing Instances sdkint_256 bech32_id ledger_bank plain_keys one_decimal.
#[local] Instance query_coreslot_keeper : CoreSlotKeeper := app_coreslot sample_validator.
#[local] Instance query_rewards_keeper : RewardsKeeper := app_rewards sample_validator.

(** The open settlement of the sample run: it becomes permissionless at 1080. *)
Lemma sample_query :
  match QuerySettlement (mining_state sample_validator sample_open) (settlement_request 1 1) with
  | Ok v => QS_DeadlineClock v = 1080 ∧ QS_PermissionlessFinalizationNow v = false
  | Err _ => False
  end.
Proof. vm_compute. by split. Qed.

Lemma settlement_query_reliable_witness : ∃ v,
  QuerySettlement (mining_state sample_validator sample_open) (settlement_request 1 1) = Ok v ∧
  QS_DeadlineClock v = 1080 ∧ announced sample_validator (sample_at sample_open) 1 1 v.
Proof.
  pose proof (settlement_query_reliable (BK := ledger_bank) sample_validator "rewards"%string 0 1 0
    sample_genesis DefaultGenesis DefaultMiningGenesis empty_ledger sample_first sample_updates
    (sample_at sample_open) 1 1 sample_fits sample_imports sample_reaches
    ltac:(discriminate) ltac:(discriminate)) as H.
  cbv zeta in H. pose proof sample_query as Hq. simpl Ac_State in H.
  destruct (QuerySettlement _ _) as [v|]; [|destruct Hq].
  exists v. exact (conj eq_refl (conj (proj1 Hq) H)).
Defined.

Lemma open_settlements_complete_witness : ∃ l,
  follow (open_page (Ap_Mining sample_open) 1 1) 2 EmptyString = Ok l ∧
  opened_row 1 1 1 1 ∈ l.
Proof.
  destruct (open_settlements_complete 1 360 1 1 (sample_state_of sample_open)
    (proj1 sample_open_good)) as ((l & Hl & Hin & _) & _); [discriminate | split; discriminate |].
  exists l. split.
  - apply (Hl 2%nat). vm_compute. repeat constructor.
  - apply Hin. exists 1. split; [exact sample_row | reflexivity].
Defined.

(** Epoch 3 is bound when epoch 1 has closed. *)
Lemma reported_binding_holds_witness : ∃ p,
  QuerySettlementParamsForEpoch (Ap_Mining sample_open) (Some 3) = Ok p ∧
  QuerySettlementParamsForEpoch (Ap_Mining sample_paid_chunk) (Some 3) = Ok p ∧
  QPE_BindingEpoch p = 1.
Proof.
  destruct (reported_binding_holds sample_validator sample_rw (1, 360, sample_state_of sample_open)
    (1, 360, sample_state_of sample_paid_chunk) 3 sample_rw_contract sample_open_good)
    as (p & q & Hp & _ & Hp' & _).
  - exact sample_chunk_reaches.
  - split; discriminate.
  - discriminate.
  - exists p. split; [exact Hp|]. split; [exact Hp'|].
    revert Hp. vm_compute. by intros [= <-].
Defined.

Lemma version_queries_truthful_witness :
  QueryDistributionModeVersion (Ap_Mining sample_open) (Some 7) ≠ Err StatusInternal ∧
  QuerySelectionParamsVersion (Ap_Mining sample_open) (Some 7) ≠ Err StatusInternal.
Proof.
  destruct (version_queries_truthful 1 360 7 (sample_state_of sample_open) ∅ (proj1 sample_open_good))
    as (_ & _ & _ & Hm & Hs & _); [discriminate|].
  exact (conj Hm Hs).
Defined.
End sample.
