(* ===== verification/RewardsQueryTheorems.v ===== *)
(** * The query server of x/rewards, proved

    Over the states reachable on the chain ([rewards_queries_answer]) and over any
    state of the ledger invariant (the rest): what the queries answer, and that they
    answer. *)
From S2P Require Import Prelude Checked SdkMath Bounds EconomicAddress RewardsTypes Collections.
From S2P Require Import Bytes Paging Emission Allocation EpochHistory RewardConfig Bank Pause Entitlement.
From S2P Require Import CoreSlotTypes RewardsKeeper RewardsInvariant Finalize Chain RewardsQueries.
From stdpp Require Import relations.
Local Open Scope Z_scope.

Section properties.
Context {SI : SdkInt} {BE : Bech32} {BK : BankKeeper} {CK : CoreSlotKeeper} {PG : Paginator}.
Context (econ : Validator) (module_addr : AccAddress).

(** What the query server answers of the ledger in a state of the chain. *)
Record monitored (fee : AccAddress) (c : Chain) (closed : Z) (v : View) : Prop := {
  mo_params : QueryParams (Ch_Rewards c) = Ok (V_params v);
  mo_epoch : ∃ info, QueryEpochInfo (Ch_Rewards c) = Ok info ∧ QEI_State info = V_state v ∧
    QEI_CurrentEpochEndHeight info =
      QEI_CurrentEpochStartHeight info + QEI_CurrentEpochLengthBlocks info - 1 ∧
    QEI_OpenRewardEnabledBlocks info ≤ QEI_CurrentEpochLengthBlocks info ∧
    (Ch_InBlock c = true →
       QEI_CurrentEpochStartHeight info ≤ Ch_Height c ≤ QEI_CurrentEpochEndHeight info);
  mo_halving : ∃ init, ParseAmountString (P_InitialBlockSubsidy (V_params v)) = Ok init ∧
    QueryNextHalving (Ch_Rewards c) = Ok (halving_of (V_max v) init (V_cumulative v)) ∧
    QuerySupplySchedule (Ch_Rewards c) = Ok {| QSS_Params := V_params v;
      QSS_NextHalving := halving_of (V_max v) init (V_cumulative v) |};
  mo_emitted : ∃ r, QueryCumulativeEmitted (Ch_Rewards c) = Ok r ∧
    ParseAmountString (QCE_CumulativeEmitted r) = Ok (V_cumulative v) ∧
    ParseAmountString (QCE_MaxSupply r) = Ok (V_max v) ∧ V_cumulative v ≤ V_max v;
  mo_balances : ∃ liability, 0 ≤ liability ∧
    QueryModuleBalances (Ch_Rewards c) = Ok {|
      QMB_Denom := NativeBaseDenom;
      QMB_RewardsBalance := Int_String (liability + V_carry v);
      QMB_FeePoolBalance := Int_String (GetBalance (Rs_Bank (Ch_Rewards c)) fee NativeBaseDenom);
      QMB_OutstandingEntitlementLiability := Int_String liability;
      QMB_CarryForwardRemainder := Int_String (V_carry v) |};
  mo_pause : ∃ st, QueryRewardsPauseState (Ch_Rewards c) =
      Ok {| QPS_PauseState := st; QPS_ReleaseEnabled := negb (CurrentPaused st) |} ∧
    (HasPending st = true → PendingEffectiveHeight st = Ch_Height c + 1);
  mo_closed : ∀ e, 1 ≤ e ≤ closed →
    ∃ x, QueryEpochReward (Ch_Rewards c) (Some e) = Ok x ∧ EpochNumber x = e
}.

(** C13: the monitoring queries never fail and agree with the ledger: in every
    state reachable from a state of the chain invariant, the parameters, the open
    epoch (whose heights contain the block being executed), the emission totals,
    the halving forecast, the escrow balances (the rewards balance is the
    liability plus the carry), the pause state and the record of every closed
    epoch are answered, with the values of the invariant's view. *)
Theorem rewards_queries_answer (cs_inv : CoreSlotStore → Prop) (cs_step : relation CoreSlotStore)
    (base : Z) (fee : AccAddress) (c c' : Chain) :
  environment econ module_addr → coreslot_contract econ cs_inv cs_step →
  GetModuleAddress FeePoolName = Some fee →
  chain_inv econ module_addr cs_inv base c → rtc (step econ module_addr cs_step) c c' →
  ∃ closed v, chain_view econ module_addr cs_inv base closed c' v ∧ monitored fee c' closed v.
Proof.
  intros Henv Hct Hfee (closed0 & v0 & Hv0) Hsteps.
  destruct (steps_spec econ module_addr cs_inv cs_step Henv Hct base closed0 c c' v0 Hv0 Hsteps)
    as (closed & v & Hv & _). exists closed, v. split; [done|].
  pose proof (proj1 (c_rewards _ _ _ _ _ _ _ Hv)) as Hi.
  destruct (halving_answer econ module_addr base closed _ v Hi) as (init & Hinit & _ & Hhalving).
  split.
  - unfold QueryParams, GetParams. by rewrite (i_params _ _ _ _ _ _ Hi).
  - destruct (epoch_info_answer econ module_addr base closed _ v Hi) as (cfg & Hinfo).
    eexists. split; [exact Hinfo|]. cbn. split_and!; [done..| |].
    + apply (i_enabled_bound _ _ _ _ _ _ Hi).
    + intros Hb. pose proof (c_position _ _ _ _ _ _ _ Hv) as Hpos. rewrite Hb in Hpos.
      unfold position, boundary in Hpos. simpl in Hpos. lia.
  - exists init. split; [done|]. unfold QueryNextHalving, QuerySupplySchedule. rewrite Hhalving.
    unfold GetParams. by rewrite (i_params _ _ _ _ _ _ Hi).
  - unfold QueryCumulativeEmitted. rewrite (inv_GetState _ _ _ _ _ _ Hi). unfold GetParams.
    rewrite (i_params _ _ _ _ _ _ Hi). eexists. split; [done|]. cbn.
    split_and!; [apply (i_cum _ _ _ _ _ _ Hi) | apply (i_max _ _ _ _ _ _ Hi) | apply (i_cum_max _ _ _ _ _ _ Hi)].
  - eexists. split; [|by apply (balances_answer econ module_addr base closed _ v Hi); [eapply env_module|]].
    apply (inv_amounts _ _ _ _ _ _ Hi).
  - destruct (c_pause _ _ _ _ _ _ _ Hv) as (st & Hst & Hval & Hpend). exists st.
    unfold QueryRewardsPauseState, SettlementReleaseEnabled. rewrite Hst.
    unfold RewardsPaused, GetPauseState. by rewrite Hval.
  - intros e He. pose proof (epoch_reward_answer econ module_addr base closed _ v Hi e ltac:(lia)) as Hr.
    destruct (QueryEpochReward (Ch_Rewards c') (Some e)) as [x|err]; [|tauto].
    exists x. split; [done|]. apply Hr. lia.
Qed.

(** C15: the boundaries query foretells the schedule: for an epoch it answers the
    start, the end and the length that the epoch has once the scheduled changes up
    to its successor are consumed, the successor starting right after the end; it
    refuses only epochs past the projection horizon or the range of heights, and
    for the open epoch it always answers, as the epoch query does. *)
Theorem epoch_boundaries_foretell (base closed : Z) (s : Store) (v : View) (e : Z) :
  ledger_inv econ module_addr base closed s v → 1 ≤ e < MaxUint64 →
  match QueryEpochBoundaries s (Some e) with
  | Ok r => foretold s e r
  | Err status => status = StatusOutOfRange ∧ e ≠ CurrentEpoch (V_state v)
  end ∧
  ∃ info r, QueryEpochInfo s = Ok info ∧
    QueryEpochBoundaries s (Some (CurrentEpoch (V_state v))) = Ok r ∧
    QEB_StartHeight r = QEI_CurrentEpochStartHeight info ∧
    QEB_EndHeight r = QEI_CurrentEpochEndHeight info ∧
    QEB_EpochLengthBlocks r = QEI_CurrentEpochLengthBlocks info.
Proof.
  intros Hi He. pose proof (open_boundaries econ module_addr base closed s v Hi) as Hopen. split.
  - pose proof (boundaries_answer econ module_addr base closed s v Hi e He) as Hb.
    destruct (QueryEpochBoundaries s (Some e)) as [r|status] eqn:E; [done|]. split; [done|].
    intros ->. by rewrite Hopen in E.
  - destruct (epoch_info_answer econ module_addr base closed s v Hi) as (cfg & Hinfo).
    eexists _, _. by split; [exact Hinfo|].
Qed.

(** C14: no entitlement is missing from the queries: one asked for by slot and
    epoch is answered as stored and NotFound means there is none; following the
    pages of an epoch, with any admitted page size, returns exactly the
    entitlements the payment path iterates over; following the pages of the open
    epoch's participation returns exactly its credited slots with their blocks. *)
Theorem entitlement_queries_complete (base closed : Z) (s : Store) (v : View)
    (slot e limit : Z) :
  ledger_inv econ module_addr base closed s v →
  1 ≤ slot → 1 ≤ e ≤ MaxUint64 → 1 ≤ limit ≤ 100 →
  QuerySlotEntitlement econ s (entitlement_request slot e) =
    match SlotEntitlements (Rs_Entitlements s) !! (e, slot) with
    | Some x => Ok x
    | None => Err StatusNotFound
    end ∧
  (∃ l, IterateEntitlementsForEpoch (Rs_Entitlements s) e = Ok l ∧
     (∀ x, x ∈ l ↔ ∃ slot, SlotEntitlements (Rs_Entitlements s) !! (e, slot) = Some x) ∧
     ∀ fuel, (List.length l < fuel)%nat →
       follow (entitlement_page econ s e limit) fuel EmptyString = Ok l) ∧
  ∃ blocks, (∀ fuel, (List.length blocks < fuel)%nat →
      follow (active_page s limit) fuel EmptyString = Ok blocks) ∧
    ∀ b, b ∈ blocks ↔
      Rs_ActiveBlocks s !! (CurrentEpoch (V_state v), AB_SlotId b) = Some (AB_BlocksActive b).
Proof.
  intros Hi Hs He Hl. split; [by apply (entitlement_answer econ module_addr base closed s v Hi)|]. split.
  - destruct (entitlement_pages econ module_addr base closed s v Hi e limit He Hl)
      as (l & Hit & -> & Hpages). eexists. split; [exact Hit|]. split; [|exact Hpages].
    intros x. rewrite list_elem_of_fmap. split.
    + intros ([[e' j] y] & -> & [Hj <-]%elem_of_prefix_entries). by exists j.
    + intros (j & Hj). exists ((e, j), x). split; [done|]. by apply elem_of_prefix_entries.
  - pose proof (active_pages econ module_addr base closed s v Hi limit ltac:(lia)) as Hpages.
    set (rows := prefix_map (CurrentEpoch (V_state v)) (Rs_ActiveBlocks s)) in *.
    exists ((λ kv, {| AB_SlotId := fst kv; AB_BlocksActive := snd kv |}) <$> entries rows). split.
    + intros fuel Hfuel. rewrite length_fmap, entries_length in Hfuel. by apply Hpages.
    + intros [j b]. cbn [AB_SlotId AB_BlocksActive]. rewrite <- lookup_prefix_map. fold rows.
      rewrite list_elem_of_fmap. split.
      * by intros ([k y] & [= -> ->] & Hin%elem_of_entries).
      * intros Hj. exists (j, b). split; [done|]. by apply elem_of_entries.
Qed.
End properties.

(** ** Witnesses *)
Section witnesses.
#[local] Existing Instances sdkint_256 bech32_id ledger_bank list_coreslots key_paginator.

Lemma rewards_queries_answer_witness :
  ∃ v info, V_cumulative v = 105 ∧
    QueryEpochInfo (sample_next_store : Store) = Ok info ∧
    QEI_CurrentEpochStartHeight info ≤ 501 ≤ QEI_CurrentEpochEndHeight info.
Proof.
  destruct (@rewards_queries_answer sdkint_256 bech32_id ledger_bank list_coreslots sample_validator
    "rewards"%string sample_cs_inv sample_cs_step 0 FeePoolName sample_chain sample_next)
    as (closed & v & Hv & Hm).
  - exact sample_environment.
  - exact sample_contract.
  - reflexivity.
  - exists 1, sample_view. exact sample_chain_view.
  - apply rtc_once. exact sample_step.
  - destruct (mo_epoch _ _ _ _ Hm) as (info & Hinfo & _ & _ & _ & Hin).
    destruct (mo_emitted _ _ _ _ Hm) as (r & Hr & Hcum & _). vm_compute in Hr. injection Hr as <-.
    vm_compute in Hcum. injection Hcum as Hcum. exists v, info. split_and!.
    + symmetry. exact Hcum.
    + exact Hinfo.
    + apply Hin. reflexivity.
    + apply Hin. reflexivity.
Defined.

Lemma epoch_boundaries_foretell_witness :
  ∃ r, QueryEpochBoundaries (sample_store : Store) (Some 2) = Ok r ∧ QEB_StartHeight r = 361 ∧
    foretold sample_store 2 r.
Proof.
  destruct (@epoch_boundaries_foretell sdkint_256 bech32_id ledger_bank sample_validator
    "rewards"%string 0 1 sample_store sample_view 2) as [H _].
  - exact sample_ledger_inv.
  - split; [lia | vm_compute; reflexivity].
  - destruct (QueryEpochBoundaries (sample_store : Store) (Some 2)) as [r|status] eqn:E.
    + exists r. split; [reflexivity|]. split; [|exact H]. vm_compute in E. injection E as <-. reflexivity.
    + vm_compute in E. discriminate E.
Defined.

Lemma entitlement_queries_complete_witness :
  ∃ l, follow (entitlement_page sample_validator (sample_store : Store)
    1 1) 5 EmptyString = Ok l ∧ List.length l = 1%nat.
Proof.
  destruct (@entitlement_queries_complete sdkint_256 bech32_id ledger_bank key_paginator sample_validator
    "rewards"%string 0 1 sample_store sample_view 7 1 1) as (_ & (l & Hit & _ & Hl) & _).
  - exact sample_ledger_inv.
  - lia.
  - split; [lia | vm_compute; discriminate].
  - lia.
  - exists l. vm_compute in Hit. injection Hit as Hit. split; [apply Hl|]; rewrite <- Hit; simpl.
    + lia.
    + reflexivity.
Defined.
End witnesses.
