(* ===== verification/Telemetry.v ===== *)
(** * Node-local telemetry: the snapshots of the modules and their export

    Models [x/*/keeper/telemetry.go] and [app/telemetry.go].  The exporter runs
    after a block has been committed; what it does is the list of the metrics it
    hands to the sink, in order.  The sink, the build metadata and the switch of
    [app.toml] are parameters; logging is not modelled, and a balance of the bank
    is never a nil integer. *)
From S2P Require Import Prelude Checked SdkMath Bounds EconomicAddress RewardsTypes Collections.
From S2P Require Import Bytes Paging Emission EpochHistory RewardConfig Bank Pause Entitlement.
From S2P Require Import RewardsKeeper RewardsInvariant Finalize Chain RewardsQueries.
From S2P Require Import CoreSlotTypes CoreSlotState CoreSlot CoreSlotInvariant CoreSlotGenesis.
From S2P Require Import MiningTypes MiningHistory MiningKeeper MiningSettlement MiningHistories.
From S2P Require Import MiningInvariant MiningMessages MiningQueries MiningRewards MiningGenesis.
From S2P Require Import Allocation CoreSlotTheorems RewardsGenesis RewardsGenesisTheorems AppChain AppSample.
From stdpp Require Import relations.
From Stdlib Require Import String.
Local Open Scope Z_scope.

(** ** x/rewards/keeper/telemetry.go *)
Record RewardsTelemetrySnapshot := {
  RT_CurrentEpoch : Z;
  RT_CurrentEpochStartHeight : Z;
  RT_CurrentEpochEndHeight : Z;
  RT_BlocksRemainingInEpoch : Z;
  RT_OpenRewardEnabledBlocks : Z;
  RT_LastFinalizedEpoch : Z;
  RT_CumulativeEmitted : Z;
  RT_MaxSupply : Z;
  RT_HalvingTier : Z;
  RT_NextHalvingThreshold : Z;
  RT_EscrowBalance : Z;
  RT_OutstandingLiability : Z;
  RT_CarryForwardRemainder : Z;
  RT_EscrowSolvencyDelta : Z;
  RT_Paused : bool;
  RT_PauseTransitionPending : bool;
  RT_ReleaseEnabled : bool
}.

Section rewards.
Context {SI : SdkInt} {BE : Bech32} {BK : BankKeeper}.

(** Only the key of the last row is read. *)
Definition latestFinalizedEpochNumber (s : Store) : res Z :=
  match seek_max (Rs_FinalizedEpochs s) with
  | None => mret 0
  | Some (epoch, _) =>
      fail_if (epoch =? 0) RwInvalidState ;;
      mret epoch
  end.

Definition RewardsSnapshot (s : Store) (blockHeight : Z) : res RewardsTelemetrySnapshot :=
  height ← wrap RwInvalidState (Uint64FromInt64 blockHeight);
  state ← GetState s;
  endHeight ← EpochEndHeight (Rs_Geometry s) (CurrentEpoch state);
  fail_if (height >? endHeight) RwInvalidState ;;
  let remaining := u64 (endHeight - height) in
  openBlocks ← GetOpenRewardEnabledBlocks s;
  lastFinalized ← latestFinalizedEpochNumber s;
  cumulative ← wrap RwInvalidState (ParseAmountString (CumulativeEmitted state));
  carry ← wrap RwInvalidState (ParseAmountString (CarryForwardRemainder state));
  params ← GetParams s;
  maxSupply ← wrap RwInvalidState (ParseAmountString (P_MaxSupply params));
  tier ← HalvingTier (Some cumulative) (Some maxSupply);
  '(threshold, found) ← NextHalvingThreshold (Some cumulative) (Some maxSupply);
  match GetModuleAddress ModuleName with
  | None => Err RwInvalidState
  | Some address =>
      let balance := GetBalance (Rs_Bank s) address (P_NativeDenom params) in
      liability ← GetOutstandingEntitlementLiability (Rs_Entitlements s);
      owed ← or_err RwInvalidState (Int_SafeAdd liability carry);
      delta ← or_err RwInvalidState (Int_SafeSub balance owed);
      pause ← GetPauseState (Rs_PauseState s);
      mret {|
        RT_CurrentEpoch := CurrentEpoch state;
        RT_CurrentEpochStartHeight := CurrentEpochStartHeight state;
        RT_CurrentEpochEndHeight := endHeight;
        RT_BlocksRemainingInEpoch := remaining;
        RT_OpenRewardEnabledBlocks := openBlocks;
        RT_LastFinalizedEpoch := lastFinalized;
        RT_CumulativeEmitted := cumulative;
        RT_MaxSupply := maxSupply;
        RT_HalvingTier := tier;
        RT_NextHalvingThreshold := if found : bool then threshold else 0;
        RT_EscrowBalance := balance;
        RT_OutstandingLiability := liability;
        RT_CarryForwardRemainder := carry;
        RT_EscrowSolvencyDelta := delta;
        RT_Paused := CurrentPaused pause;
        RT_PauseTransitionPending := HasPending pause;
        RT_ReleaseEnabled := negb (CurrentPaused pause) |}
  end.
End rewards.

(** ** x/coreslot/keeper/telemetry.go *)
Record CoreSlotTelemetrySnapshot := {
  CT_ActiveSlots : Z;
  CT_MinActiveSlots : Z;
  CT_MaxActiveSlots : Z;
  CT_PendingKeyRotations : Z;
  CT_PrimaryNominationPending : bool;
  CT_EmergencyNominationPending : bool;
  CT_Authority : string;
  CT_EmergencyAuthority : string;
  CT_ActiveSlotIDs : list Z
}.

Definition CoreSlotSnapshot (s : CoreSlotState) : res CoreSlotTelemetrySnapshot :=
  params ← getParams s;
  active ← activeCount s;
  let rotations := fold_left (λ count _, u64 (count + 1)) (entries (Cs_Rotations s)) 0 in
  let nominated role := bool_decide (is_Some (Cs_PendingAuthority s !! role)) in
  ids ← activeSlotIDs s;
  mret {|
    CT_ActiveSlots := active;
    CT_MinActiveSlots := MinActiveSlots params;
    CT_MaxActiveSlots := MaxActiveSlots params;
    CT_PendingKeyRotations := rotations;
    CT_PrimaryNominationPending := nominated AUTHORITY_ROLE_PRIMARY;
    CT_EmergencyNominationPending := nominated AUTHORITY_ROLE_EMERGENCY;
    CT_Authority := Authority params;
    CT_EmergencyAuthority := EmergencyAuthority params;
    CT_ActiveSlotIDs := ids |}.

(** ** x/mining/keeper/telemetry.go *)
Record MiningTelemetrySnapshot := {
  MT_SettlementClock : Z;
  MT_LastProcessedRewardEpoch : Z
}.

Definition MiningSnapshot (s : MiningStore) : res MiningTelemetrySnapshot :=
  clock ← GetSettlementClock s;
  cursor ← GetLastProcessedRewardEpoch s;
  mret {| MT_SettlementClock := clock; MT_LastProcessedRewardEpoch := cursor |}.

(** The backlog of a slot: its oldest open settlement. *)
Record SlotBacklog := {
  SB_SlotID : Z;
  SB_OldestOpenEpoch : Z;
  SB_Overdue : bool
}.

Definition SlotSettlementState {SI : SdkInt} {RK : RewardsKeeper} (s : MiningState) (slotID : Z)
    : res SlotBacklog :=
  let mn := Ms_Mining s in
  match entries (prefix_map slotID (Mn_OpenSettlementsBySlot mn)) with
  | [] => mret {| SB_SlotID := slotID; SB_OldestOpenEpoch := 0; SB_Overdue := false |}
  | (epoch, _) :: _ =>
      found ← GetSettlement mn slotID epoch;
      match found with
      | None => Err MnInvalidState
      | Some settlement =>
          fail_if (Stl_Finalized settlement) MnInvalidState ;;
          anchor ← requireEpochAnchor mn (Stl_Epoch settlement);
          clock ← GetSettlementClock mn;
          requireAnchorHasElapsed anchor clock ;;
          deadline ← settlementDeadlineFromAnchor (Ms_Rewards s) mn settlement anchor;
          mret {| SB_SlotID := slotID; SB_OldestOpenEpoch := epoch;
                  SB_Overdue := clock >=? deadline |}
      end
  end.

(** ** app/telemetry.go *)

(** The conversion of an integer to float32: to 24 significant bits, to nearest,
    ties to even; from 2^128 on it is infinite.  An integer that is converted gives
    an integer. *)
Inductive float32 :=
  | F32 (z : Z)
  | F32_Inf (negative : bool).

Definition round24 (n : Z) : Z :=
  let e := Z.log2 n - 23 in
  if e <=? 0 then n
  else
    let q := n / 2 ^ e in
    let r := n mod 2 ^ e in
    let half := 2 ^ (e - 1) in
    let up := (half <? r) || ((r =? half) && Z.odd q) in
    (q + Z.b2z up) * 2 ^ e.

Definition float32_of (z : Z) : float32 :=
  let m := round24 (Z.abs z) in
  if 2 ^ 128 <=? m then F32_Inf (z <? 0) else F32 (Z.sgn z * m).

Definition amountGauge (amount : Z) : float32 := float32_of amount.
Definition boolGauge (value : bool) : float32 := if value then F32 1 else F32 0.

(** A call of the SDK telemetry API. *)
Record Label := { Lb_Name : string; Lb_Value : string }.
Inductive Metric :=
  | SetGauge (keys : list string) (value : float32)
  | SetGaugeWithLabels (keys : list string) (value : float32) (labels : list Label)
  | IncrCounterWithLabels (keys : list string) (value : float32) (labels : list Label).
Definition NewLabel (name value : string) : Label := {| Lb_Name := name; Lb_Value := value |}.

Definition telemetryNamespace : string := "twilight".
Definition buildInfoMetric : string := "twilightd".
Definition unstampedBuild : string := "unstamped".
Definition authorityRoleLabel : string := "authority_role".
Definition coreslotModuleName : string := "coreslot".
Definition miningModuleName : string := "mining".

(** The exporter: what it has handed to the sink so far, and a panic. *)
Abbreviation EM := (M (list Metric)).
Definition record_metric (m : Metric) : EM unit := modify (λ out, out ++ [m]).
Fixpoint each {A} (f : A → EM unit) (l : list A) : EM unit :=
  match l with [] => mret tt | a :: l => f a ;; each f l end.

Definition setGauge (module name : string) (value : float32) : EM unit :=
  record_metric (SetGauge [telemetryNamespace; module; name] value).
Definition setRoleGauge (module name role : string) (pending : bool) : EM unit :=
  record_metric (SetGaugeWithLabels [telemetryNamespace; module; name] (boolGauge pending)
    [NewLabel authorityRoleLabel role]).

Definition countTelemetryReadFailure (module : string) : EM unit :=
  record_metric (IncrCounterWithLabels [telemetryNamespace; "telemetry"; "read_failures_total"]%string
    (F32 1) [NewLabel "module" module]).

(** A read that fails is counted and its gauges are skipped; a panic is no failure. *)
Definition read_snapshot {A} (module : string) (snapshot : res A) (emit : A → EM unit) : EM unit :=
  match snapshot with
  | Ok snap => emit snap
  | Err Panic => mthrow Panic
  | Err _ => countTelemetryReadFailure module
  end.

Definition stampedOr (value : string) : string :=
  if bool_decide (value = EmptyString) then unstampedBuild else value.

Definition emitAuthorityInfo (module authority emergencyAuthority : string) : EM unit :=
  record_metric (SetGaugeWithLabels [telemetryNamespace; module; "authority_info"%string] (F32 1)
    [NewLabel "authority" authority; NewLabel "emergency_authority" emergencyAuthority]).

Definition emitCoreSlotTelemetry (snap : CoreSlotTelemetrySnapshot) : EM unit :=
  let module := coreslotModuleName in
  setGauge module "active_slots" (float32_of (CT_ActiveSlots snap)) ;;
  setGauge module "min_active_slots" (float32_of (CT_MinActiveSlots snap)) ;;
  setGauge module "max_active_slots" (float32_of (CT_MaxActiveSlots snap)) ;;
  setGauge module "pending_key_rotations" (float32_of (CT_PendingKeyRotations snap)) ;;
  setRoleGauge module "pending_authority_nomination" "primary" (CT_PrimaryNominationPending snap) ;;
  setRoleGauge module "pending_authority_nomination" "emergency" (CT_EmergencyNominationPending snap) ;;
  emitAuthorityInfo module (CT_Authority snap) (CT_EmergencyAuthority snap).

Definition emitRewardsTelemetry (snap : RewardsTelemetrySnapshot) : EM unit :=
  let module := ModuleName in
  setGauge module "current_epoch" (float32_of (RT_CurrentEpoch snap)) ;;
  setGauge module "current_epoch_start_height" (float32_of (RT_CurrentEpochStartHeight snap)) ;;
  setGauge module "current_epoch_end_height" (float32_of (RT_CurrentEpochEndHeight snap)) ;;
  setGauge module "epoch_blocks_remaining" (float32_of (RT_BlocksRemainingInEpoch snap)) ;;
  setGauge module "open_reward_enabled_blocks" (float32_of (RT_OpenRewardEnabledBlocks snap)) ;;
  setGauge module "last_finalized_epoch" (float32_of (RT_LastFinalizedEpoch snap)) ;;
  setGauge module "cumulative_emitted_utwlt" (amountGauge (RT_CumulativeEmitted snap)) ;;
  setGauge module "max_supply_utwlt" (amountGauge (RT_MaxSupply snap)) ;;
  setGauge module "halving_tier" (float32_of (RT_HalvingTier snap)) ;;
  setGauge module "next_halving_threshold_utwlt" (amountGauge (RT_NextHalvingThreshold snap)) ;;
  setGauge module "escrow_balance_utwlt" (amountGauge (RT_EscrowBalance snap)) ;;
  setGauge module "outstanding_entitlement_liability_utwlt" (amountGauge (RT_OutstandingLiability snap)) ;;
  setGauge module "carry_forward_remainder_utwlt" (amountGauge (RT_CarryForwardRemainder snap)) ;;
  setGauge module "escrow_solvency_delta_utwlt" (amountGauge (RT_EscrowSolvencyDelta snap)) ;;
  setGauge module "paused" (boolGauge (RT_Paused snap)) ;;
  setGauge module "pause_transition_pending" (boolGauge (RT_PauseTransitionPending snap)) ;;
  setGauge module "release_enabled" (boolGauge (RT_ReleaseEnabled snap)).

Definition emitMiningTelemetry (snap : MiningTelemetrySnapshot) : EM unit :=
  let module := miningModuleName in
  setGauge module "settlement_clock" (float32_of (MT_SettlementClock snap)) ;;
  setGauge module "last_processed_reward_epoch" (float32_of (MT_LastProcessedRewardEpoch snap)).

Definition emitSlotBacklog (backlog : SlotBacklog) : EM unit :=
  let slot := [NewLabel "slot" (dec (Z.to_N (SB_SlotID backlog)))] in
  record_metric (SetGaugeWithLabels
    [telemetryNamespace; miningModuleName; "slot_oldest_open_settlement_epoch"%string]
    (float32_of (SB_OldestOpenEpoch backlog)) slot) ;;
  record_metric (SetGaugeWithLabels
    [telemetryNamespace; miningModuleName; "slot_settlement_overdue"%string]
    (boolGauge (SB_Overdue backlog)) slot).

Section export.
Context {SI : SdkInt} {BE : Bech32} {BK : BankKeeper} {PK : PubKeyCodec} {DC : DecCodec}.
Context (econ : Validator) (version_ commit goVersion : string).
#[local] Instance t_rewards : RewardsKeeper := app_rewards econ.

Definition emitBuildInfo : EM unit :=
  record_metric (SetGaugeWithLabels [buildInfoMetric; "build_info"%string] (F32 1)
    [NewLabel "version" (stampedOr version_); NewLabel "commit" (stampedOr commit);
     NewLabel "go_version" goVersion]).

Definition emitSlotSettlements (s : MiningState) (activeSlotIDs : list Z) : EM unit :=
  each (λ slotID, read_snapshot miningModuleName (SlotSettlementState s slotID) emitSlotBacklog)
    activeSlotIDs.

Definition emitSnapshots (a : AppState) (height : Z) : EM unit :=
  emitBuildInfo ;;
  read_snapshot coreslotModuleName (CoreSlotSnapshot (Ap_CoreSlots a)) (λ snap,
    emitCoreSlotTelemetry snap ;;
    emitSlotSettlements (mining_state econ a) (CT_ActiveSlotIDs snap)) ;;
  read_snapshot ModuleName (RewardsSnapshot (Ap_Rewards a) height) emitRewardsTelemetry ;;
  read_snapshot miningModuleName (MiningSnapshot (Ap_Mining a)) emitMiningTelemetry.

(** A panic is recovered; what was emitted before it stays. *)
Definition emitTelemetry (enabled : bool) (a : AppState) (height : Z) : list Metric :=
  if negb enabled then []
  else
    match emitSnapshots a height [] with
    | (out, Ok _) => out
    | (out, Err _) => fst (countTelemetryReadFailure "app" out)
    end.

(** [commit_] is the answer of [BaseApp.Commit], [a] the state it committed. *)
Definition Commit {R} (enabled : bool) (commit_ : res R) (a : AppState) (height : Z)
    : res R * list Metric :=
  match commit_ with
  | Err e => (Err e, [])
  | Ok r => (Ok r, emitTelemetry enabled a height)
  end.
End export.

(** ** What a gauge keeps of its value *)
Section rounding.
Lemma round24_small n : 0 ≤ n ≤ 2 ^ 24 → round24 n = n.
Proof.
  intros Hn. destruct (Z.eq_dec n (2 ^ 24)) as [->|Hne]; [done|].
  unfold round24. assert (Z.log2 n < 24) as Hl.
  { destruct (Z.eq_dec n 0) as [->|]; [done|]. apply Z.log2_lt_pow2; lia. }
  by destruct (Z.leb_spec (Z.log2 n - 23) 0); [|lia].
Qed.

(** A value with an exponent: its quotient has 24 bits. *)
Lemma round24_large n : 2 ^ 24 ≤ n → let e := Z.log2 n - 23 in
  0 < e ∧ 2 ^ 23 ≤ n / 2 ^ e < 2 ^ 24 ∧
  round24 n = (n / 2 ^ e + Z.b2z ((2 ^ (e - 1) <? n mod 2 ^ e) ||
    ((n mod 2 ^ e =? 2 ^ (e - 1)) && Z.odd (n / 2 ^ e)))) * 2 ^ e.
Proof.
  intros Hn e. destruct (Z.log2_spec n ltac:(lia)) as [Hlo Hhi].
  assert (24 ≤ Z.log2 n) as Hl by (apply Z.log2_le_pow2; lia).
  assert (0 < 2 ^ e) as He by (apply Z.pow_pos_nonneg; lia).
  split; [lia|]. split.
  - split.
    + apply Z.div_le_lower_bound; [done|]. rewrite Z.mul_comm, <- Z.pow_add_r by lia.
      by replace (23 + e) with (Z.log2 n) by lia.
    + apply Z.div_lt_upper_bound; [done|]. rewrite <- Z.pow_add_r by lia.
      by replace (e + 24) with (Z.succ (Z.log2 n)) by lia.
  - unfold round24. fold e. by destruct (Z.leb_spec e 0); [lia|].
Qed.

Lemma round24_error n : 0 ≤ n → Z.abs (round24 n - n) * 2 ^ 24 ≤ n.
Proof.
  intros Hn. destruct (Z_le_dec n (2 ^ 24)).
  { rewrite round24_small by lia. rewrite Z.sub_diag. lia. }
  destruct (round24_large n ltac:(lia)) as (He & Hq & ->). set (e := Z.log2 n - 23) in *.
  assert (2 ^ e = 2 * 2 ^ (e - 1)) as Hp
    by (rewrite <- Z.pow_succ_r by lia; f_equal; lia).
  assert (0 < 2 ^ (e - 1)) as Hh by (apply Z.pow_pos_nonneg; lia).
  pose proof (Z.div_mod n (2 ^ e) ltac:(lia)) as Hdm.
  pose proof (Z.mod_pos_bound n (2 ^ e) ltac:(lia)) as Hr.
  set (q := n / 2 ^ e) in *. set (r := n mod 2 ^ e) in *.
  set (u := (2 ^ (e - 1) <? r) || ((r =? 2 ^ (e - 1)) && Z.odd q)).
  assert (Z.abs ((q + Z.b2z u) * 2 ^ e - n) ≤ 2 ^ (e - 1)) as Hd.
  { unfold u. destruct (Z.ltb_spec (2 ^ (e - 1)) r), (Z.eqb_spec r (2 ^ (e - 1))), (Z.odd q); simpl; nia. }
  nia.
Qed.

Lemma round24_mono n m : 0 ≤ n ≤ m → round24 n ≤ round24 m.
Proof.
  intros H. destruct (Z_lt_dec m (2 ^ 24)).
  { rewrite !round24_small by lia. lia. }
  destruct (round24_large m ltac:(lia)) as (He' & Hq' & ->). set (e' := Z.log2 m - 23) in *.
  assert (0 < 2 ^ e') as Hp' by (apply Z.pow_pos_nonneg; lia).
  destruct (Z_lt_dec n (2 ^ 24)).
  { rewrite round24_small by lia.
    assert (2 * 2 ^ (e' - 1) = 2 ^ e') by (rewrite <- Z.pow_succ_r by lia; f_equal; lia).
    assert (1 ≤ 2 ^ (e' - 1)) by (pose proof (Z.pow_pos_nonneg 2 (e' - 1)); lia).
    destruct (_ || _); simpl; nia. }
  destruct (round24_large n ltac:(lia)) as (He & Hq & ->). set (e := Z.log2 n - 23) in *.
  pose proof (Z.log2_le_mono n m ltac:(lia)) as Hl.
  destruct (Z.eq_dec e e') as [Hee|Hne].
  - rewrite <- Hee in *. clear e' Hee He'.
    pose proof (Z.div_le_mono n m (2 ^ e) ltac:(lia) ltac:(lia)) as Hqq.
    pose proof (Z.div_mod n (2 ^ e) ltac:(lia)) as Hn. pose proof (Z.div_mod m (2 ^ e) ltac:(lia)) as Hm.
    destruct (Z.eq_dec (n / 2 ^ e) (m / 2 ^ e)) as [Heq|Hlt].
    + assert (n mod 2 ^ e ≤ m mod 2 ^ e) as Hr by (rewrite Heq in Hn; lia). rewrite Heq.
      apply Z.mul_le_mono_nonneg_r; [lia|]. apply Z.add_le_mono_l.
      destruct (Z.ltb_spec (2 ^ (e - 1)) (n mod 2 ^ e)), (Z.ltb_spec (2 ^ (e - 1)) (m mod 2 ^ e)),
        (Z.eqb_spec (n mod 2 ^ e) (2 ^ (e - 1))), (Z.eqb_spec (m mod 2 ^ e) (2 ^ (e - 1))),
        (Z.odd (m / 2 ^ e)); simpl; lia.
    + apply Z.mul_le_mono_nonneg_r; [lia|]. destruct (_ || _), (_ || _); simpl; lia.
  - assert (2 * 2 ^ e ≤ 2 ^ e') as Hpow.
    { rewrite <- Z.pow_succ_r by lia. apply Z.pow_le_mono_r; lia. }
    assert (0 < 2 ^ e) by (apply Z.pow_pos_nonneg; lia).
    destruct (_ || _), (_ || _); simpl; nia.
Qed.

(** The order of the values of a gauge. *)
Definition float_le (x y : float32) : Prop :=
  match x, y with
  | F32_Inf true, _ | _, F32_Inf false => True
  | F32 x, F32 y => x ≤ y
  | _, _ => False
  end.

(** A gauge is exact up to 2^24, never off by more than one part in 2^24 below
    2^127, zero for zero only, and never reverses an order. *)
Theorem gauge_rounding (z w : Z) :
  (Z.abs z ≤ 2 ^ 24 → amountGauge z = F32 z) ∧
  (Z.abs z < 2 ^ 127 → ∃ x, amountGauge z = F32 x ∧ Z.abs (x - z) * 2 ^ 24 ≤ Z.abs z) ∧
  (amountGauge z = F32 0 ↔ z = 0) ∧
  (z ≤ w → float_le (amountGauge z) (amountGauge w)).
Proof.
  pose proof (round24_error (Z.abs z) ltac:(lia)) as Hz.
  pose proof (round24_error (Z.abs w) ltac:(lia)) as Hw.
  unfold amountGauge, float32_of. split_and!.
  - intros Hs. rewrite round24_small by lia. destruct (Z.leb_spec (2 ^ 128) (Z.abs z)); [lia|].
    f_equal. by rewrite Z.mul_comm, Z.abs_sgn.
  - intros Hs. destruct (Z.leb_spec (2 ^ 128) (round24 (Z.abs z))); [lia|].
    eexists. split; [done|]. destruct z; simpl in *; lia.
  - destruct (Z.leb_spec (2 ^ 128) (round24 (Z.abs z))).
    + split; [done|]. intros ->. done.
    + split; [|by intros ->]. intros [= Hx]. destruct z; simpl in *; lia.
  - intros Hle. destruct (Z_le_dec 0 z) as [Hz0|Hz0].
    + pose proof (round24_mono (Z.abs z) (Z.abs w) ltac:(lia)).
      destruct (Z.leb_spec (2 ^ 128) (round24 (Z.abs z))), (Z.leb_spec (2 ^ 128) (round24 (Z.abs w)));
        destruct z, w; simpl in *; lia || done.
    + destruct (Z_le_dec 0 w) as [Hw0|Hw0].
      * destruct (Z.leb_spec (2 ^ 128) (round24 (Z.abs z))), (Z.leb_spec (2 ^ 128) (round24 (Z.abs w)));
          destruct z, w; simpl in *; lia || done.
      * pose proof (round24_mono (Z.abs w) (Z.abs z) ltac:(lia)).
        destruct (Z.leb_spec (2 ^ 128) (round24 (Z.abs z))), (Z.leb_spec (2 ^ 128) (round24 (Z.abs w)));
          destruct z, w; simpl in *; lia || done.
Qed.
End rounding.

(** ** What the snapshots read in a state of the invariants *)
Section rewards_read.
Context {SI : SdkInt} {BE : Bech32} {BK : BankKeeper} {CK : CoreSlotKeeper}.
Context (econ : Validator) (module_addr : AccAddress) (cs_inv : CoreSlotStore → Prop).

Lemma last_finalized base closed (s : Store) v :
  ledger_inv econ module_addr base closed s v → latestFinalizedEpochNumber s = Ok closed.
Proof.
  intros Hi. pose proof (i_closed _ _ _ _ _ _ Hi) as Hc. pose proof (i_epoch _ _ _ _ _ _ Hi) as He.
  unfold latestFinalizedEpochNumber.
  destruct (seek_max (Rs_FinalizedEpochs s)) as [[e x]|] eqn:E.
  - apply seek_max_Some in E as [Hx Hmax]. destruct (i_finalized _ _ _ _ _ _ Hi e x Hx) as [Hr _].
    destruct (i_records _ _ _ _ _ _ Hi closed ltac:(lia)) as (y & Hy & _). pose proof (Hmax _ _ Hy).
    destruct (Z.eqb_spec e 0); [lia|]. cbn. f_equal. lia.
  - apply seek_max_None in E. destruct (Z.eq_dec closed 0) as [->|]; [done|].
    destruct (i_records _ _ _ _ _ _ Hi closed ltac:(lia)) as (y & Hy & _). by rewrite E in Hy.
Qed.

(** What an operator may rely on in the snapshot of a committed block. *)
Record rewards_reported (h closed : Z) (s : Store) (v : View) (snap : RewardsTelemetrySnapshot)
    : Prop := {
  rr_epoch : RT_CurrentEpoch snap = CurrentEpoch (V_state v);
  rr_start : RT_CurrentEpochStartHeight snap = CurrentEpochStartHeight (V_state v);
  rr_position : h + RT_BlocksRemainingInEpoch snap = RT_CurrentEpochEndHeight snap ∧
    0 ≤ RT_BlocksRemainingInEpoch snap ∧
    (RT_BlocksRemainingInEpoch snap = 0 ↔ closed = CurrentEpoch (V_state v));
  rr_finalized : RT_LastFinalizedEpoch snap = closed;
  rr_enabled : RT_OpenRewardEnabledBlocks snap = V_enabled v;
  rr_emitted : RT_CumulativeEmitted snap = V_cumulative v ∧ RT_MaxSupply snap = V_max v;
  rr_halving : RT_HalvingTier snap = tier_of (V_max v) (V_cumulative v) ∧
    RT_NextHalvingThreshold snap = if V_cumulative v =? V_max v then 0
      else threshold_of (V_max v) (tier_of (V_max v) (V_cumulative v) + 1);
  rr_escrow : RT_EscrowBalance snap = GetBalance (Rs_Bank s) module_addr NativeBaseDenom ∧
    RT_OutstandingLiability snap = map_sum owed (SlotEntitlements (Rs_Entitlements s)) ∧
    RT_CarryForwardRemainder snap = V_carry v;
  rr_solvent : RT_EscrowSolvencyDelta snap = 0;
  rr_pause : RT_ReleaseEnabled snap = negb (RT_Paused snap) ∧
    SettlementReleaseEnabled (Rs_PauseState s) = Ok (RT_ReleaseEnabled snap)
}.

Lemma rewards_snapshot base closed h (cs : CoreSlotStore) (s : Store) v :
  environment econ module_addr →
  chain_view econ module_addr cs_inv base closed
    {| Ch_Height := h; Ch_InBlock := false; Ch_CoreSlots := cs; Ch_Rewards := s |} v →
  ∃ snap, RewardsSnapshot s h = Ok snap ∧ rewards_reported h closed s v snap.
Proof.
  intros Henv Hv. pose proof (proj1 (c_rewards _ _ _ _ _ _ _ Hv)) as Hi. simpl in Hi.
  pose proof (c_height _ _ _ _ _ _ _ Hv) as Hh. pose proof (c_position _ _ _ _ _ _ _ Hv) as Hpos.
  unfold position, boundary in Hpos. simpl in Hh, Hpos.
  destruct (inv_start_bounds _ _ _ _ _ _ Hi) as (H1 & _ & _ & H4 & H5).
  destruct (inv_amounts _ _ _ _ _ _ Hi) as (Hden & _ & Hmx & Hcum & Hcarry & Hbase & Hliab & Howed & Hbal & _).
  assert (supply_ok (V_max v) (V_cumulative v)) as Hs by (unfold supply_ok; lia).
  pose proof (c_pause _ _ _ _ _ _ _ Hv) as Hp. simpl in Hp.
  pose proof Hp as (st & Hst & _). rewrite Hst in Hp.
  set (stop := CurrentEpochStartHeight (V_state v) +
    length_of (EpochConfigVersions (Rs_Geometry s)) (CurrentEpoch (V_state v)) - 1) in *.
  assert (0 ≤ stop - h ≤ MaxUint64) as Hrem by (unfold stop in *; widths; lia).
  unfold RewardsSnapshot. rewrite (proj2 (Uint64FromInt64_Ok h h ltac:(widths; lia)) ltac:(lia)).
  cbn [wrap map_err mbind res_bind]. rewrite (inv_GetState _ _ _ _ _ _ Hi). cbn [mbind res_bind].
  rewrite (inv_end _ _ _ _ _ _ Hi). fold stop. cbn [mbind res_bind].
  rewrite Z.gtb_ltb. destruct (Z.ltb_spec stop h); [lia|].
  rewrite fail_if_false. cbn [mbind res_bind]. rewrite (u64_small (stop - h)) by (widths; lia).
  unfold GetOpenRewardEnabledBlocks, GetParams.
  rewrite (i_enabled _ _ _ _ _ _ Hi), (i_params _ _ _ _ _ _ Hi).
  cbn [coll_get wrap map_err mbind res_bind]. rewrite (last_finalized base closed s v Hi).
  cbn [mbind res_bind]. rewrite (i_cum _ _ _ _ _ _ Hi), (i_carry _ _ _ _ _ _ Hi), (i_max _ _ _ _ _ _ Hi).
  cbn [wrap map_err mbind res_bind]. rewrite HalvingTier_spec, NextHalvingThreshold_spec by done.
  assert (∃ threshold found, (if V_cumulative v =? V_max v then (0, false) else
      (threshold_of (V_max v) (tier_of (V_max v) (V_cumulative v) + 1), true)) = (threshold, found) ∧
    (if found : bool then threshold else 0) = if V_cumulative v =? V_max v then 0
      else threshold_of (V_max v) (tier_of (V_max v) (V_cumulative v) + 1))
    as (threshold & found & -> & Hth) by (destruct (_ =? _); by eexists _, _).
  cbn [mbind res_bind]. rewrite (env_module _ _ Henv), Hden, Hbal.
  rewrite (ent_liability _ (i_books _ _ _ _ _ _ Hi)).
  set (liability := map_sum owed (SlotEntitlements (Rs_Entitlements s))) in *.
  cbn [mbind res_bind].
  rewrite (proj2 (SafeAdd_Ok RwInvalidState liability (V_carry v) (liability + V_carry v)))
    by (split; [done | apply int_ok_true; lia]). cbn [mbind res_bind].
  rewrite (proj2 (SafeSub_Ok RwInvalidState (liability + V_carry v) (liability + V_carry v) 0))
    by (rewrite Z.sub_diag; done). cbn [mbind res_bind].
  rewrite Hst, (GetPauseState_ok h st Hp). eexists. split; [reflexivity|].
  split; simpl; try done.
  - unfold stop in *. lia.
  - unfold SettlementReleaseEnabled, RewardsPaused. rewrite Hst, (GetPauseState_ok h st Hp). done.
Qed.
End rewards_read.

Section coreslot_read.
Context {BE : Bech32} {PK : PubKeyCodec} (econ : Validator).
Implicit Types (s : CoreSlotState).

Lemma count_entries {A} (l : list (Z * A)) n :
  0 ≤ n → n + Z.of_nat (List.length l) ≤ MaxUint64 →
  fold_left (λ count _, u64 (count + 1)) l n = n + Z.of_nat (List.length l).
Proof.
  revert n. induction l as [|x l IH]; intros n Hn Hl; cbn [fold_left List.length]; [lia|].
  cbn [List.length] in Hl. rewrite u64_small by (widths; lia). rewrite IH by lia. lia.
Qed.

(** A rotation is staged for an active slot only. *)
Lemma rotations_active p s : core_inv econ p s →
  (size (Cs_Rotations s) ≤ size (Cs_ActiveSlots s))%nat.
Proof.
  intros Hi. rewrite <- size_dom. apply subseteq_size. intros id [r Hr]%elem_of_dom.
  destruct (ci_rotations _ _ _ Hi id r Hr) as (_ & _ & slot & Hs & Ha & _).
  apply (ci_active _ _ _ Hi). by exists slot.
Qed.

Record coreslot_reported s (snap : CoreSlotTelemetrySnapshot) : Prop := {
  cr_active : CT_ActiveSlots snap = Z.of_nat (List.length (CT_ActiveSlotIDs snap)) ∧
    1 ≤ CT_ActiveSlots snap ≤ HardMaxActiveCoreSlots;
  cr_ids : NoDup (CT_ActiveSlotIDs snap) ∧ StronglySorted Z.le (CT_ActiveSlotIDs snap) ∧
    ∀ id, id ∈ CT_ActiveSlotIDs snap ↔ is_active s id;
  cr_rotations : CT_PendingKeyRotations snap = Z.of_nat (size (Cs_Rotations s)) ∧
    CT_PendingKeyRotations snap ≤ CT_ActiveSlots snap;
  cr_bounds : CT_MinActiveSlots snap ≤ CT_MaxActiveSlots snap ≤ HardMaxActiveCoreSlots;
  cr_authority : AuthorityOf s = Ok (CT_Authority snap) ∧
    EmergencyAuthorityOf s = Ok (CT_EmergencyAuthority snap);
  cr_nominations :
    (CT_PrimaryNominationPending snap = true ↔
       is_Some (Cs_PendingAuthority s !! AUTHORITY_ROLE_PRIMARY)) ∧
    (CT_EmergencyNominationPending snap = true ↔
       is_Some (Cs_PendingAuthority s !! AUTHORITY_ROLE_EMERGENCY))
}.

Lemma coreslot_snapshot p s : core_inv econ p s →
  ∃ snap, CoreSlotSnapshot s = Ok snap ∧ coreslot_reported s snap.
Proof.
  intros Hi. pose proof (ci_count _ _ _ Hi) as Hc. unfold active_size in Hc.
  pose proof (rotations_active p s Hi) as Hrot. pose proof (ci_bounds _ _ _ Hi) as Hb.
  unfold CoreSlotSnapshot, getParams, activeCount, activeSlotIDs. rewrite (ci_params _ _ _ Hi).
  cbn [coll_get mbind res_bind]. eexists. split; [reflexivity|].
  set (ids := merge_sort Z.le (elements (Cs_ActiveSlots s))).
  assert (ids ≡ₚ elements (Cs_ActiveSlots s)) as Hperm by apply merge_sort_Permutation.
  assert (fold_left (λ count _, u64 (count + 1)) (entries (Cs_Rotations s)) 0 =
    Z.of_nat (size (Cs_Rotations s))) as Hcount.
  { pose proof (entries_length (Cs_Rotations s)) as Hlen.
    unfold HardMaxActiveCoreSlots in Hc. rewrite count_entries by (rewrite ?Hlen; widths; lia). lia. }
  split; cbn.
  - split; [|done]. by rewrite Hperm.
  - split_and!.
    + rewrite Hperm. apply NoDup_elements.
    + apply (StronglySorted_merge_sort Z.le).
    + intros id. rewrite Hperm, elem_of_elements. apply (ci_active _ _ _ Hi).
  - rewrite Hcount. split; [done | lia].
  - split; [apply (pb_min _ Hb) | apply (pb_max _ Hb)].
  - unfold AuthorityOf, EmergencyAuthorityOf, getParams. by rewrite (ci_params _ _ _ Hi).
  - by rewrite !bool_decide_eq_true.
Qed.
End coreslot_read.

Section mining_read.
Context {SI : SdkInt} {RK : RewardsKeeper}.
Implicit Types (s : MiningState) (row : Settlement).

Definition open_in s slot e row : Prop :=
  Mn_Settlements (Ms_Mining s) !! (slot, e) = Some row ∧ Stl_Finalized row = false.

(** The backlog of a slot: nothing, or its oldest open settlement, which is overdue
    when the settlement query says that anyone may finalize it. *)
Definition backlog_reported s slot (b : SlotBacklog) : Prop :=
  SB_SlotID b = slot ∧
  ((SB_OldestOpenEpoch b = 0 ∧ SB_Overdue b = false ∧ ∀ e row, ¬ open_in s slot e row) ∨
   (1 ≤ SB_OldestOpenEpoch b ∧
    (∃ row d, open_in s slot (SB_OldestOpenEpoch b) row ∧ deadline s row = Ok d ∧
      (SB_Overdue b = true ↔ d ≤ clock_of s)) ∧
    (∀ e row, open_in s slot e row → SB_OldestOpenEpoch b ≤ e) ∧
    ∃ q, QuerySettlement s (settlement_request slot (SB_OldestOpenEpoch b)) = Ok q ∧
      QS_PermissionlessFinalizationNow q = SB_Overdue b)).

Lemma open_epochs c b s slot e n :
  mining_inv c b s → (e, n) ∈ entries (prefix_map slot (Mn_OpenSettlementsBySlot (Ms_Mining s))) ↔
  n = e ∧ ∃ row, open_in s slot e row.
Proof.
  intros Hi. rewrite elem_of_entries, lookup_prefix_map, (mi_open _ _ _ Hi). done.
Qed.

Lemma slot_backlog c b s slot :
  mining_inv c b s → slot ≠ 0 →
  match SlotSettlementState s slot with
  | Ok backlog => backlog_reported s slot backlog
  | Err e => e ≠ Panic ∧ ∃ epoch row err, open_in s slot epoch row ∧ deadline s row = Err err
  end.
Proof.
  intros Hi Hs. unfold SlotSettlementState.
  destruct (entries _) as [|[e n] l] eqn:E.
  { split; [done|]. left. split_and!; [done..|]. intros e row Ho.
    pose proof (proj2 (open_epochs c b s slot e e Hi) (conj eq_refl (ex_intro _ row Ho))) as Hin.
    rewrite E in Hin. by apply elem_of_nil in Hin. }
  pose proof (proj1 (open_epochs c b s slot e n Hi)) as Hfirst. rewrite E in Hfirst.
  destruct (Hfirst (list_elem_of_here _ _)) as (-> & row & Hrow & Hopen).
  destruct (mi_settles _ _ _ Hi _ _ _ Hrow) as [Hec Hst].
  destruct (settles_facts s _ _ _ Hst) as (_ & Hep & _ & He & _).
  destruct Hst as [_ _ Hanchor _ (p & Hp & Hpv & _) _].
  destruct (anchor_of c b s e Hi Hanchor) as (an & Han & _ & Hac).
  assert (∀ e' row', open_in s slot e' row' → e ≤ e') as Holdest.
  { intros e' row' Ho.
    pose proof (proj2 (open_epochs c b s slot e' e' Hi) (conj eq_refl (ex_intro _ row' Ho))) as Hin.
    pose proof (entries_sorted (prefix_map slot (Mn_OpenSettlementsBySlot (Ms_Mining s)))) as Hsort.
    rewrite E in Hin, Hsort. apply StronglySorted_inv in Hsort as [_ Hall].
    apply elem_of_cons in Hin as [[= -> _]|Hin]; [done|].
    rewrite Forall_forall in Hall. exact (Hall _ Hin). }
  destruct (query_present c b s slot e row Hi Hrow) as (x & a & rel & an' & _ & _ & _ & Hquery).
  rewrite (get_settlement c b s slot e Hi Hs He), Hrow. cbn [mbind res_bind]. rewrite Hopen, Hep, Han.
  cbn [fail_if mret res_ret mbind res_bind]. rewrite (clock_read c b s Hi). cbn [mbind res_bind].
  unfold requireAnchorHasElapsed. rewrite Z.gtb_ltb.
  destruct (Z.ltb_spec (clock_of s) (SEA_CreatedSettlementClock an)); [lia|].
  cbn [fail_if mret res_ret mbind res_bind].
  assert (deadline s row = settlementDeadlineFromAnchor (Ms_Rewards s) (Ms_Mining s) row an) as Hd
    by (unfold deadline, SettlementDeadlineClock; rewrite Hep, Han; done).
  rewrite <- Hd. destruct (deadline s row) as [d|err] eqn:Hdl; cbn [mbind res_bind].
  - split; [done|]. right. cbn. split_and!; [lia | | exact Holdest |].
    + exists row, d. split; [done|]. split; [done|]. rewrite Z.geb_le. done.
    + eexists. split; [exact Hquery|]. cbn. by rewrite Hopen.
  - split; [|by exists e, row, err].
    rewrite (deadline_read s row an p) in Hdl by (rewrite ?Hep; done).
    apply deadline_error in Hdl as ->. done.
Qed.

Lemma slot_failure c b s slot e :
  mining_inv c b s → slot ≠ 0 → SlotSettlementState s slot = Err e →
  e ≠ Panic ∧ ∃ epoch row err, open_in s slot epoch row ∧ deadline s row = Err err.
Proof. intros Hi Hs He. pose proof (slot_backlog c b s slot Hi Hs) as H. by rewrite He in H. Qed.

Lemma mining_snapshot c b s : mining_inv c b s →
  MiningSnapshot (Ms_Mining s) =
    Ok {| MT_SettlementClock := clock_of s; MT_LastProcessedRewardEpoch := c |}.
Proof.
  intros Hi. unfold MiningSnapshot, GetLastProcessedRewardEpoch.
  by rewrite (clock_read c b s Hi), (mi_cursor _ _ _ Hi).
Qed.
End mining_read.

(** ** What the exporter hands to the sink *)
Section exporter.

(** A program that always completes, whatever was emitted before it. *)
Definition writes (m : EM unit) (l : list Metric) : Prop := ∀ out, m out = (out ++ l, Ok tt).

Lemma writes_record m : writes (record_metric m) [m].
Proof. done. Qed.
Lemma writes_bind m m' l l' : writes m l → writes m' l' → writes (m ;; m') (l ++ l').
Proof. intros H H' out. rewrite (M_bind_run _ _ _ _ _ (H out)), H', app_assoc. done. Qed.
Lemma writes_each {A} (f : A → EM unit) (g : A → list Metric) l :
  (∀ a, a ∈ l → writes (f a) (g a)) → writes (each f l) (l ≫= g).
Proof.
  induction l as [|a l IH]; intros H; [intros out; by rewrite app_nil_r|].
  cbn [each]. rewrite bind_cons. apply writes_bind; [apply H; left|].
  apply IH. intros b Hb. apply H. by right.
Qed.
Lemma writes_read {A} module (r : res A) emit (g : A → list Metric) :
  r ≠ Err Panic → (∀ a, writes (emit a) (g a)) →
  writes (read_snapshot module r emit)
    match r with Ok a => g a | Err _ => fst (countTelemetryReadFailure module []) end.
Proof. intros Hr H. destruct r as [a|e]; [apply H|]. by destruct e. Qed.

(** What a completing program emits. *)
Definition emitted (m : EM unit) : list Metric := fst (m []).

Create HintDb writes discriminated.
#[local] Hint Resolve writes_record : writes.
Ltac writes :=
  lazymatch goal with
  | |- writes (_ ≫= _) _ => apply writes_bind; [writes | cbv beta; writes]
  | _ => solve [auto with writes nocore]
  end.

Lemma writes_coreslot snap : writes (emitCoreSlotTelemetry snap) (emitted (emitCoreSlotTelemetry snap)).
Proof. eapply eq_ind; [unfold emitCoreSlotTelemetry, setGauge, setRoleGauge, emitAuthorityInfo; writes | done]. Qed.
Lemma writes_rewards snap : writes (emitRewardsTelemetry snap) (emitted (emitRewardsTelemetry snap)).
Proof. eapply eq_ind; [unfold emitRewardsTelemetry, setGauge; writes | done]. Qed.
Lemma writes_mining snap : writes (emitMiningTelemetry snap) (emitted (emitMiningTelemetry snap)).
Proof. eapply eq_ind; [unfold emitMiningTelemetry, setGauge; writes | done]. Qed.
Lemma writes_backlog b : writes (emitSlotBacklog b) (emitted (emitSlotBacklog b)).
Proof. eapply eq_ind; [unfold emitSlotBacklog; writes | done]. Qed.
End exporter.

Section properties.
Context {SI : SdkInt} {BE : Bech32} {BK : BankKeeper} {PK : PubKeyCodec} {DC : DecCodec}.
Context (econ : Validator) (module_addr : AccAddress) (version_ commit goVersion : string).
#[local] Instance tp_coreslot : CoreSlotKeeper := app_coreslot econ.
#[local] Instance tp_rewards : RewardsKeeper := app_rewards econ.

Definition escrow_delta : list string :=
  [telemetryNamespace; ModuleName; "escrow_solvency_delta_utwlt"%string].

(** What is exported once the block of [c] is committed, and what it says. *)
Record report (c : AppChain) (out : list Metric) : Prop := {
  ex_snapshots : ∃ cs rw mn base closed v,
    coreslot_reported (Ap_CoreSlots (Ac_State c)) cs ∧
    chain_view econ module_addr (coreslot_valid econ) base closed (chain_of econ c) v ∧
    rewards_reported module_addr (Ac_Height c) closed (Ap_Rewards (Ac_State c)) v rw ∧
    MT_LastProcessedRewardEpoch mn = RT_LastFinalizedEpoch rw ∧
    0 ≤ MT_SettlementClock mn ≤ Ac_Height c ∧
    out = emitted (emitBuildInfo version_ commit goVersion) ++
      emitted (emitCoreSlotTelemetry cs) ++
      emitted (emitSlotSettlements econ (mining_state econ (Ac_State c)) (CT_ActiveSlotIDs cs)) ++
      emitted (emitRewardsTelemetry rw) ++ emitted (emitMiningTelemetry mn);
  ex_solvent : SetGauge escrow_delta (F32 0) ∈ out ∧
    ∀ x, SetGauge escrow_delta x ∈ out → x = F32 0;
  ex_backlogs : ∀ id, is_active (Ap_CoreSlots (Ac_State c)) id →
    match SlotSettlementState (mining_state econ (Ac_State c)) id with
    | Ok b => backlog_reported (mining_state econ (Ac_State c)) id b ∧
        ∀ m, m ∈ emitted (emitSlotBacklog b) → m ∈ out
    | Err _ => True
    end;
  ex_failures : ∀ keys x labels, IncrCounterWithLabels keys x labels ∈ out →
    ∃ id epoch row err, is_active (Ap_CoreSlots (Ac_State c)) id ∧
      open_in (mining_state econ (Ac_State c)) id epoch row ∧
      deadline (mining_state econ (Ac_State c)) row = Err err
}.

(** What the exporter does of the active slots. *)
Definition slot_metrics (s : MiningState) (id : Z) : list Metric :=
  match SlotSettlementState s id with
  | Ok b => emitted (emitSlotBacklog b)
  | Err _ => emitted (countTelemetryReadFailure miningModuleName)
  end.

Lemma writes_slots k b s ids :
  mining_inv k b s → (∀ id, id ∈ ids → id ≠ 0) →
  writes (emitSlotSettlements econ s ids) (ids ≫= slot_metrics s).
Proof.
  intros Hi Hids. apply writes_each. intros id Hid. unfold slot_metrics.
  apply writes_read; [|apply writes_backlog]. intros Hp.
  by destruct (slot_failure k b s id Panic Hi (Hids id Hid) Hp).
Qed.

Lemma slot_metrics_Ok s id b :
  SlotSettlementState s id = Ok b → slot_metrics s id = emitted (emitSlotBacklog b).
Proof. unfold slot_metrics. by intros ->. Qed.

Lemma slot_metric s id m : m ∈ slot_metrics s id →
  match m with
  | SetGauge _ _ => False
  | SetGaugeWithLabels _ _ _ => True
  | IncrCounterWithLabels _ _ _ => ∃ e, SlotSettlementState s id = Err e
  end.
Proof.
  unfold slot_metrics, emitted. destruct (SlotSettlementState s id) as [b|e]; cbn.
  - by intros [->|[->|?%elem_of_nil]%elem_of_cons]%elem_of_cons.
  - intros [->|?%elem_of_nil]%elem_of_cons; [by exists e | done].
Qed.

Lemma exported base k c {R} (r : R) :
  app_inv econ module_addr base k c → environment econ module_addr → Ac_InBlock c = false →
  ∃ cs rw mn v,
    coreslot_reported (Ap_CoreSlots (Ac_State c)) cs ∧
    chain_view econ module_addr (coreslot_valid econ) base k (chain_of econ c) v ∧
    rewards_reported module_addr (Ac_Height c) k (Ap_Rewards (Ac_State c)) v rw ∧
    MT_LastProcessedRewardEpoch mn = k ∧ 0 ≤ MT_SettlementClock mn ≤ Ac_Height c ∧
    (∀ id, id ∈ CT_ActiveSlotIDs cs → id ≠ 0) ∧
    Commit econ version_ commit goVersion true (Ok r) (Ac_State c) (Ac_Height c) =
      (Ok r, emitted (emitBuildInfo version_ commit goVersion) ++
        (emitted (emitCoreSlotTelemetry cs) ++
         (CT_ActiveSlotIDs cs ≫= slot_metrics (mining_state econ (Ac_State c)))) ++
        emitted (emitRewardsTelemetry rw) ++ emitted (emitMiningTelemetry mn)).
Proof.
  intros [[v Hv] Hm] Henv Hb. destruct c as [h b [cs s mn]]. simpl in Hb. subst b.
  unfold chain_of, blocks_ended in Hv, Hm. cbn [Ac_InBlock Ac_Height Ac_State Ap_CoreSlots Ap_Rewards] in *.
  destruct (c_coreslots _ _ _ _ _ _ _ Hv) as [p Hp]. simpl in Hp.
  destruct (coreslot_snapshot econ p cs Hp) as (ct & Hct & Hcr).
  destruct (rewards_snapshot econ module_addr _ base k h _ s v Henv Hv) as (rt & Hrt & Hrr).
  pose proof (mining_snapshot k h _ Hm) as Hmt. simpl in Hmt.
  assert (∀ id, id ∈ CT_ActiveSlotIDs ct → id ≠ 0) as Hids.
  { intros id (slot & Hs & _)%(cr_ids _ _ Hcr).
    pose proof (so_range _ _ _ _ (ci_slots _ _ _ Hp id slot Hs)). lia. }
  destruct (mi_clock _ _ _ Hm) as [_ Hclock]. simpl in Hclock.
  set (a := {| Ap_CoreSlots := cs; Ap_Rewards := s; Ap_Mining := mn |}) in *.
  set (mt := {| MT_SettlementClock := _; MT_LastProcessedRewardEpoch := k |}) in Hmt.
  exists ct, rt, mt, v.
  do 3 (split; [done|]). split; [reflexivity|]. split; [exact Hclock|]. split; [exact Hids|].
  unfold Commit, emitTelemetry. cbn [negb]. f_equal.
  assert (∀ m l, writes m l → match m [] with
    | (out, Ok _) => out
    | (out, Err _) => fst (countTelemetryReadFailure "app" out)
    end = l) as Hall by (intros m l ->; done).
  apply Hall. unfold emitSnapshots.
  change (Ap_CoreSlots a) with cs. change (Ap_Rewards a) with s. change (Ap_Mining a) with mn.
  rewrite Hct, Hrt, Hmt. cbn [read_snapshot].
  apply writes_bind; [apply writes_record|]. apply writes_bind.
  { apply writes_bind; [apply writes_coreslot|]. by apply (writes_slots k h). }
  apply writes_bind; [apply writes_rewards | apply writes_mining].
Qed.

(** Everything but the slots: no failure, and one gauge of the delta. *)
Definition quiet (delta : float32) (m : Metric) : Prop :=
  match m with
  | SetGauge keys x => keys = escrow_delta → x = delta
  | SetGaugeWithLabels _ _ _ => True
  | IncrCounterWithLabels _ _ _ => False
  end.

Lemma quiet_modules cs rw mn :
  Forall (quiet (amountGauge (RT_EscrowSolvencyDelta rw)))
    (emitted (emitBuildInfo version_ commit goVersion) ++ emitted (emitCoreSlotTelemetry cs) ++
     emitted (emitRewardsTelemetry rw) ++ emitted (emitMiningTelemetry mn)).
Proof. repeat constructor; try discriminate. Qed.

Lemma committed_report base k c {R} (r : R) :
  app_inv econ module_addr base k c → environment econ module_addr → Ac_InBlock c = false →
  ∃ out, Commit econ version_ commit goVersion true (Ok r) (Ac_State c) (Ac_Height c) = (Ok r, out) ∧
    report c out.
Proof.
  intros Hi Henv Hb. pose proof (ai_mining _ _ _ _ _ Hi) as Hm. unfold blocks_ended in Hm. rewrite Hb in Hm.
  destruct (exported base k c r Hi Henv Hb)
    as (cs & rw & mn & v & Hcs & Hv & Hrw & Hmn & Hclock & Hids & Hout).
  eexists. split; [exact Hout|]. clear Hout. set (s := mining_state econ (Ac_State c)) in *.
  pose proof (quiet_modules cs rw mn) as Hq. rewrite (rr_solvent _ _ _ _ _ _ Hrw) in Hq.
  rewrite !Forall_app, !Forall_forall in Hq. destruct Hq as (Hq1 & Hq2 & Hq3 & Hq4).
  pose proof (writes_slots k (Ac_Height c) s (CT_ActiveSlotIDs cs) Hm Hids []) as Hslots.
  pose proof (proj2 (proj2 (cr_ids _ _ Hcs))) as Hactive.
  assert (∀ id m, is_active (Ap_CoreSlots (Ac_State c)) id → m ∈ slot_metrics s id →
    m ∈ (CT_ActiveSlotIDs cs ≫= slot_metrics s)) as Hin.
  { intros id m Hid Hmm. apply list_elem_of_bind. exists id. split; [done|]. by apply Hactive. }
  split; fold s.
  - exists cs, rw, mn, base, k, v. split_and!; try done.
    + by rewrite (rr_finalized _ _ _ _ _ _ Hrw).
    + apply Hclock.
    + apply Hclock.
    + assert (emitted (emitSlotSettlements econ s (CT_ActiveSlotIDs cs)) =
        CT_ActiveSlotIDs cs ≫= slot_metrics s) as -> by (unfold emitted; by rewrite Hslots).
      by rewrite <- !app_assoc.
  - split.
    + rewrite !elem_of_app. right. right. left.
      assert (F32 0 = amountGauge (RT_EscrowSolvencyDelta rw)) as ->
        by (by rewrite (rr_solvent _ _ _ _ _ _ Hrw)). cbn. do 13 right. left.
    + intros x. rewrite !elem_of_app, list_elem_of_bind.
      intros [H|[[H|(id & H & _)]|[H|H]]];
        [exact (Hq1 _ H eq_refl) | exact (Hq2 _ H eq_refl) | | exact (Hq3 _ H eq_refl) | exact (Hq4 _ H eq_refl)].
      by apply slot_metric in H.
  - intros id Hid. pose proof (slot_backlog k (Ac_Height c) s id Hm) as Hs.
    destruct (SlotSettlementState s id) as [b|e] eqn:E; [|done].
    split; [apply Hs; apply Hids; by apply Hactive|].
    intros m Hmm. rewrite !elem_of_app. right. left. right.
    apply (Hin id m Hid). by rewrite (slot_metrics_Ok s id b E).
  - intros keys x labels. rewrite !elem_of_app, list_elem_of_bind.
    intros [H|[[H|(id & H & Hid)]|[H|H]]];
      [by apply Hq1 in H | by apply Hq2 in H | | by apply Hq3 in H | by apply Hq4 in H].
    apply slot_metric in H as [e He].
    destruct (slot_failure k (Ac_Height c) s id e Hm (Hids id Hid) He) as (_ & epoch & row & err & Ho & Hd).
    exists id, epoch, row, err.
    split; [by apply Hactive | done].
Qed.

(** C20: the metrics tell the truth: after every block committed on the chain the
    exporter answers what BaseApp did and hands the sink the snapshots of the three
    modules: the escrow delta is zero, the last finalized epoch is the last one
    mining has processed, the height plus the blocks remaining is the end of the
    epoch, the active slots are listed once each, an active slot's oldest open
    settlement is reported overdue exactly when the settlement query lets anyone
    finalize it; a read failure is counted only for a slot whose oldest open
    settlement has no deadline. *)
Theorem telemetry_truthful {R} (height h0 base : Z) coreslot rewards mining (bank : Bank)
    (a : AppState) updates (c : AppChain) (r : R) :
  app_genesis_fits econ module_addr height h0 base coreslot rewards bank →
  AppInitGenesis econ height coreslot rewards mining (emptyApp bank) = (a, Ok updates) →
  rtc (app_step econ module_addr)
    {| Ac_Height := h0 - 1; Ac_InBlock := false; Ac_State := a |} c →
  Ac_InBlock c = false →
  ∃ out, Commit econ version_ commit goVersion true (Ok r) (Ac_State c) (Ac_Height c) = (Ok r, out) ∧
    report c out.
Proof.
  intros Hfits Hinit Hrun Hb. pose proof (gf_environment _ _ _ _ _ _ _ _ Hfits) as Henv.
  pose proof (app_genesis_inv econ module_addr _ _ _ _ _ _ _ _ _ Hfits Hinit) as Hi.
  destruct (app_run_spec econ module_addr Henv base 0 _ c Hi Hrun) as (k & _ & Hk & _).
  by apply (committed_report base k).
Qed.
End properties.

(** ** The witness: the block that closes the first epoch of the sample chain *)
Section witnesses.
#[local] Existing Instances sdkint_256 bech32_id ledger_bank plain_keys one_decimal.

Definition sample_committed : AppChain :=
  {| Ac_Height := 360; Ac_InBlock := false; Ac_State := sample_closed |}.

Lemma sample_commits : rtc (app_step sample_validator "rewards"%string) sample_start sample_committed.
Proof.
  apply (run_blocks_steps sample_validator "rewards"%string 360 0);
    [vm_compute; discriminate | exact sample_runs].
Qed.

Lemma sample_slot_active : is_active (Ap_CoreSlots sample_closed) 1.
Proof. eexists. split; [vm_compute; reflexivity | reflexivity]. Qed.

Lemma sample_backlog : SlotSettlementState (RK := app_rewards sample_validator)
    (mining_state sample_validator sample_closed) 1 =
  Ok {| SB_SlotID := 1; SB_OldestOpenEpoch := 1; SB_Overdue := false |}.
Proof. vm_compute. reflexivity. Qed.

Lemma telemetry_truthful_witness : ∃ out,
  Commit sample_validator "v0.4.0" "" "go1.25" true (@Ok unit tt) sample_closed 360 = (Ok tt, out) ∧
  SetGauge escrow_delta (F32 0) ∈ out ∧
  SetGaugeWithLabels ["twilight"; "mining"; "slot_oldest_open_settlement_epoch"]%string (F32 1)
    [NewLabel "slot" "1"] ∈ out.
Proof.
  destruct (telemetry_truthful (BK := ledger_bank) sample_validator "rewards"%string "v0.4.0" "" "go1.25"
    0 1 0 sample_genesis DefaultGenesis DefaultMiningGenesis empty_ledger sample_first sample_updates
    sample_committed tt) as (out & Hout & Hrep).
  - exact sample_fits.
  - exact sample_imports.
  - exact sample_commits.
  - reflexivity.
  - exists out. split; [exact Hout|]. split; [exact (proj1 (ex_solvent _ _ _ _ _ _ _ Hrep))|].
    pose proof (ex_backlogs _ _ _ _ _ _ _ Hrep 1 sample_slot_active) as Hb.
    change (Ac_State sample_committed) with sample_closed in Hb. rewrite sample_backlog in Hb.
    apply (proj2 Hb). left.
Defined.
End witnesses.
