(* ===== verification/AppWiring.v ===== *)
(** * Application wiring: who may receive value, and what bounds a transfer

    Models [app/config.go] (module accounts), the construction of the
    economic-address rule in [app/app.go], [app/sendrestriction.go] and
    [app/antehandler.go].  The account keeper, coins, transactions and the ante
    chain of the SDK are parameters; [x/bank] is known by the documented contract of
    a send restriction ([executes]): it is called once per output, before the
    recipient's account is created.  What messages other than those of the bank do
    to the accounts is left open ([runs]). *)
From S2P Require Import Prelude Checked SdkMath Bounds EconomicAddress RewardsTypes Collections.
From S2P Require Import Bytes Paging Allocation Bank RewardConfig Entitlement RewardsKeeper RewardsInvariant RewardsQueries.
From S2P Require Import Release CoreSlotTypes CoreSlotState MiningTypes MiningHistory MiningKeeper MiningSettlement.
From S2P Require Import MiningHistories MiningInvariant MiningMessages.
Local Open Scope Z_scope.

Lemma size_union_le (A B : gset AccAddress) : (size (A ∪ B) ≤ size A + size B)%nat.
Proof.
  rewrite (size_union_alt (C := gset string)). apply Nat.add_le_mono_l.
  apply (subseteq_size (C := gset string)). set_solver.
Qed.
Lemma size_insert_le (a : AccAddress) (A : gset AccAddress) :
  (size ({[a]} ∪ A : gset AccAddress) ≤ S (size A))%nat.
Proof.
  etrans; [apply size_union_le|]. rewrite (size_singleton (C := gset string)). done.
Qed.

(** ** app.go, config.go *)
Definition AuthorityModuleName : string := "coreslot-authority"%string.
Definition EmergencyAuthorityModuleName : string := "coreslot-emergency"%string.

Record ModuleAccountPermission := {
  MAP_Account : string;
  MAP_Permissions : list string
}.

Section accounts.
Context {BE : Bech32} (NewModuleAddress : string → AccAddress) (FeeCollectorName Minter : string).

Definition moduleAccountPermissions : list ModuleAccountPermission := [
  {| MAP_Account := FeeCollectorName; MAP_Permissions := [] |};
  {| MAP_Account := AuthorityModuleName; MAP_Permissions := [] |};
  {| MAP_Account := EmergencyAuthorityModuleName; MAP_Permissions := [] |};
  {| MAP_Account := ModuleName; MAP_Permissions := [Minter] |};
  {| MAP_Account := FeePoolName; MAP_Permissions := [] |}
].

Definition ModuleAccountNames : list string := MAP_Account <$> moduleAccountPermissions.

Definition AuthorityAddress : string := AccAddress_String (NewModuleAddress AuthorityModuleName).
Definition EmergencyAuthorityAddress : string :=
  AccAddress_String (NewModuleAddress EmergencyAuthorityModuleName).

(** The application refuses to start without the rule. *)
Definition newEconomicAddresses (addressCodec : option Codec) (blockedAddresses : gmap string bool)
    : res Validator :=
  wrap Panic (New NewModuleAddress addressCodec ModuleAccountNames blockedAddresses).

(** ** sendrestriction.go *)
Definition MinimumAccountFunding : Z := HardMinSettlementPayoutAmount.

Definition protocolPayoutModules : list string := [ModuleName].

Definition protocolPayoutAddresses : gset string :=
  list_to_set ((λ module, AccAddress_String (NewModuleAddress module)) <$> protocolPayoutModules).

Context {Coins : Type} (AmountOf : Coins → string → Z).

Definition newAccountFundingRestriction (protocolPayouts : gset string)
    (HasAccount : AccAddress → bool) (fromAddr toAddr : AccAddress) (amt : Coins) : res AccAddress :=
  if HasAccount toAddr then mret toAddr
  else
    let minimum := MinimumAccountFunding in
    let funding := AmountOf amt NativeBaseDenom in
    if funding >=? minimum then mret toAddr
    else if bool_decide (AccAddress_String fromAddr ∈ protocolPayouts) then mret toAddr
    else Err ErrPlain.

(** ** antehandler.go *)
Definition MaxBankOutputsPerTx : Z := 32.

(** [sdk.Msg], as the type switch of [bankOutputsIn] sees it. *)
Inductive Msg :=
  | BankMsgSend (from to : AccAddress) (amount : Coins)
  | BankMsgMultiSend (from : AccAddress) (Outputs : list (AccAddress * Coins))
  | OtherMsg.

Definition bankOutputsIn (msgs : list Msg) : Z :=
  fold_left (λ outputs msg,
    match msg with
    | BankMsgSend _ _ _ => outputs + 1
    | BankMsgMultiSend _ Outputs => outputs + Z.of_nat (List.length Outputs)
    | OtherMsg => outputs
    end) msgs 0.

Context {Ctx Tx : Type} (GetMsgs : Tx → list Msg).
Definition AnteHandler : Type := Ctx → Tx → bool → Ctx * res unit.

(** [None] is a nil handler. *)
Definition newBankOutputCap (next : option AnteHandler) : res AnteHandler :=
  match next with
  | None => Err Panic
  | Some next => mret (λ ctx tx simulate,
      if bankOutputsIn (GetMsgs tx) >? MaxBankOutputsPerTx then (ctx, Err SdkInvalidRequest)
      else next ctx tx simulate)
  end.

(** ** The transfers of a transaction *)
Definition transfer : Type := AccAddress * AccAddress * Coins.
Definition transfers_of (msg : Msg) : list transfer :=
  match msg with
  | BankMsgSend from to amount => [(from, to, amount)]
  | BankMsgMultiSend from outputs => (λ o, (from, fst o, snd o)) <$> outputs
  | OtherMsg => []
  end.
Definition bank_transfers (msgs : list Msg) : list transfer := msgs ≫= transfers_of.

(** Each transfer passes the restriction, then its recipient has an account. *)
Inductive executes : gset AccAddress → list transfer → gset AccAddress → Prop :=
  | executes_nil accounts : executes accounts [] accounts
  | executes_cons accounts accounts' from to amount recipient l :
      newAccountFundingRestriction protocolPayoutAddresses
        (λ a, bool_decide (a ∈ accounts)) from to amount = Ok recipient →
      executes ({[recipient]} ∪ accounts) l accounts' →
      executes accounts ((from, to, amount) :: l) accounts'.

Lemma bank_outputs_count msgs :
  bankOutputsIn msgs = Z.of_nat (List.length (bank_transfers msgs)).
Proof using Type.
  unfold bankOutputsIn, bank_transfers. rewrite <- (Z.add_0_l (Z.of_nat _)). generalize 0.
  induction msgs as [|msg msgs IH]; intros acc; cbn [fold_left].
  { unfold mbind. simpl. lia. }
  rewrite IH, bind_cons, length_app. destruct msg; simpl; rewrite ?length_fmap; lia.
Qed.

Lemma restriction_Ok payouts has from to amount recipient :
  newAccountFundingRestriction payouts has from to amount = Ok recipient ↔
  recipient = to ∧ (has to = true ∨ MinimumAccountFunding ≤ AmountOf amount NativeBaseDenom ∨
    AccAddress_String from ∈ payouts).
Proof using Type.
  clear NewModuleAddress FeeCollectorName Minter.
  unfold newAccountFundingRestriction, mret, res_ret. rewrite Z.geb_leb.
  destruct (has to); [naive_solver|].
  destruct (Z.leb_spec MinimumAccountFunding (AmountOf amount NativeBaseDenom)); [naive_solver|].
  case_bool_decide; naive_solver lia.
Qed.

(** The messages of a transaction in order: [created] collects the accounts the
    outputs of its bank messages create.  What any other message does to the
    accounts is left open: it may create as many as it likes ([extra]). *)
Inductive runs : gset AccAddress → list Msg → gset AccAddress → Prop :=
  | runs_nil accounts : runs accounts [] ∅
  | runs_bank accounts accounts' msg msgs created :
      msg ≠ OtherMsg → executes accounts (transfers_of msg) accounts' →
      runs accounts' msgs created → runs accounts (msg :: msgs) (accounts' ∖ accounts ∪ created)
  | runs_other accounts extra msgs created :
      runs (extra ∪ accounts) msgs created → runs accounts (OtherMsg :: msgs) created.

(** Some transfer of the list pays [to] at least the funding minimum. *)
Definition funded_by (l : list transfer) (to : AccAddress) : Prop :=
  ∃ from amount, (from, to, amount) ∈ l ∧ MinimumAccountFunding ≤ AmountOf amount NativeBaseDenom.
(** The sender is not an account the protocol pays from. *)
Definition from_user (t : transfer) : Prop :=
  AccAddress_String (fst (fst t)) ∉ protocolPayoutAddresses.

Lemma funded_by_app l l' to : funded_by (l ++ l') to ↔ funded_by l to ∨ funded_by l' to.
Proof using Type.
  clear NewModuleAddress. unfold funded_by. setoid_rewrite elem_of_app. naive_solver.
Qed.

(** Transfers create at most an account each, and each of them is funded. *)
Lemma executes_created accounts l accounts' :
  executes accounts l accounts' → Forall from_user l →
  (size (accounts' ∖ accounts) ≤ List.length l)%nat ∧
  ∀ a, a ∈ accounts' ∖ accounts → funded_by l a.
Proof.
  induction 1 as [a|a a' from to amount r l Hr _ IH]; intros Hall.
  { rewrite difference_diag_L, size_empty. split; [lia | set_solver]. }
  apply Forall_cons in Hall as [Hfrom Hall]. destruct (IH Hall) as [Hsize Hfund].
  apply restriction_Ok in Hr as [-> Hr]. cbn [List.length].
  assert (a' ∖ a ⊆ {[to]} ∪ a' ∖ ({[to]} ∪ a)) as Hsub%subseteq_size.
  { intros x Hx. destruct (decide (x = to)); set_solver. }
  split; [pose proof (Nat.le_trans _ _ _ Hsub (size_insert_le to _)); lia|].
  intros x [Hx Hnew]%elem_of_difference. destruct (decide (x = to)) as [->|Hne].
  - exists from, amount. split; [by left|]. rewrite bool_decide_eq_false_2 in Hr by done.
    by destruct Hr as [?|[?|?]].
  - destruct (Hfund x ltac:(set_solver)) as (f & amt & Hin & Hamt). exists f, amt.
    split; [by right | done].
Qed.

Lemma runs_created accounts msgs created :
  runs accounts msgs created → Forall from_user (bank_transfers msgs) →
  (size created ≤ List.length (bank_transfers msgs))%nat ∧
  ∀ a, a ∈ created → funded_by (bank_transfers msgs) a.
Proof.
  unfold bank_transfers.
  induction 1 as [a|a a' msg msgs created _ Hex _ IH|a extra msgs created _ IH]; intros Hall.
  - rewrite size_empty. split; [lia | set_solver].
  - rewrite bind_cons in Hall |- *. apply Forall_app in Hall as [Hmsg Hall].
    destruct (IH Hall) as [Hsize Hfund], (executes_created _ _ _ Hex Hmsg) as [Hsize' Hfund'].
    rewrite length_app. split.
    + pose proof (size_union_le (a' ∖ a) created). lia.
    + intros x [Hx|Hx]%elem_of_union; apply funded_by_app; auto.
  - rewrite bind_cons in Hall |- *. by apply IH.
Qed.
End accounts.
Arguments Msg : clear implicits.

(** ** Properties *)
Section properties.
Context {SI : SdkInt} {BE : Bech32} {BK : BankKeeper}.
Context (NewModuleAddress : string → AccAddress) (FeeCollectorName Minter : string).
Context {Coins : Type} (AmountOf : Coins → string → Z).

(** The documented behaviour of the account and bank keepers the application is
    wired with: a registered module resolves to its derived address, the blocked
    destinations are the ones the bank lists, and the address codec reads back the
    text of an address. *)
Record keepers_documented (c : Codec) (blockedAddresses : gmap string bool) : Prop := {
  kd_module : GetModuleAddress ModuleName = Some (NewModuleAddress ModuleName);
  kd_blocked : ∀ raw, BlockedAddr raw = true →
    blockedAddresses !! AccAddress_String raw = Some true;
  kd_codec : ∀ text raw, c text = Some raw → raw ≠ EmptyString →
    AccAddress_String raw ≠ EmptyString ∧ c (AccAddress_String raw) = Some raw
}.

(** C26: the address rule the application builds is the one the modules rely on:
    whatever the bank blocks, if the construction succeeds the rewards module's
    environment holds, and no text is accepted as a destination that decodes to
    one of the application's module accounts or to a blocked address. *)
Theorem wired_environment (c : Codec) (blockedAddresses : gmap string bool) (econ : Validator) :
  keepers_documented c blockedAddresses →
  newEconomicAddresses NewModuleAddress FeeCollectorName Minter (Some c) blockedAddresses = Ok econ →
  environment econ (NewModuleAddress ModuleName) ∧
  ∀ text raw, Validate econ text = Ok raw →
    BlockedAddr raw = false ∧
    ∀ name, name ∈ [FeeCollectorName; AuthorityModuleName; EmergencyAuthorityModuleName;
      ModuleName; FeePoolName] → raw ≠ NewModuleAddress name.
Proof.
  intros Hk Hnew. apply wrap_Ok, New_Ok in Hnew as (Hc & Hm & Hb).
  assert (∀ name, name ∈ [FeeCollectorName; AuthorityModuleName; EmergencyAuthorityModuleName;
    ModuleName; FeePoolName] → NewModuleAddress name ∈ moduleAccounts econ) as Hmod
    by (intros name Hn; apply Hm; by exists name).
  assert (∀ text raw, Validate econ text = Ok raw → BlockedAddr raw = false ∧
    raw ∉ moduleAccounts econ ∧ Validate econ (AccAddress_String raw) = Ok raw) as Hval.
  { intros text raw Ht. apply Validate_Ok in Ht as (Hp & Hz & Hma & Hbl).
    apply ParseAccountAddress_Ok in Hp as (c' & Hc' & _ & Hraw & Hne). rewrite Hc in Hc'.
    injection Hc' as <-. destruct (kd_codec _ _ Hk text raw Hraw Hne) as [Hte Htc]. split_and!.
    - destruct (BlockedAddr raw) eqn:E; [|done]. destruct Hbl. apply Hb.
      exists (AccAddress_String raw). split; [by apply (kd_blocked _ _ Hk) | done].
    - done.
    - apply Validate_Ok. split_and!; [|done..]. apply ParseAccountAddress_Ok. by exists c. }
  split.
  - split; [apply (kd_module _ _ Hk) | apply Hmod; set_solver | |]; intros text raw Ht; by apply (Hval text).
  - intros text raw Ht. destruct (Hval text raw Ht) as (H1 & H2 & _). split; [done|].
    intros name Hn ->. by apply H2, Hmod.
Qed.

(** A send the bank makes under a restriction: refused with it, or made to the
    recipient it answers. *)
Definition restricted_send (restriction : AccAddress → AccAddress → Coins → res AccAddress)
    (coin : string → Z → Coins) (module recipient denom : string) (amount : Z) : M Bank unit := λ b,
  match GetModuleAddress module with
  | None => (b, Err Panic)
  | Some from =>
      match restriction from recipient (coin denom amount) with
      | Ok to => SendCoinsFromModuleToAccount module to denom amount b
      | Err e => (b, Err e)
      end
  end.

(** C27: the funding minimum never stops a payment of the protocol: installing the
    restriction leaves every send of the rewards module as it was, whatever
    account exists and however small the amount; and each line of an admitted
    settlement chunk, at most as many as the output cap, would pass from any
    sender. *)
Theorem payouts_unrestricted (coin : string → Z → Coins) (HasAccount : AccAddress → bool)
    (econ : Validator) (params : SettlementParamsVersion) (lines : list (option SettlementChunkPayout))
    (payouts : list EntitlementPayout) (total : Z) :
  GetModuleAddress ModuleName = Some (NewModuleAddress ModuleName) →
  STP_Validate params = Ok tt → admitPayoutSet econ params lines = Ok (payouts, total) →
  let restriction := newAccountFundingRestriction AmountOf (protocolPayoutAddresses NewModuleAddress) HasAccount in
  (∀ recipient denom amount,
     restricted_send restriction coin ModuleName recipient denom amount =
       SendCoinsFromModuleToAccount ModuleName recipient denom amount) ∧
  Z.of_nat (List.length payouts) ≤ MaxBankOutputsPerTx ∧
  ∀ p from to amt, p ∈ payouts → AmountOf amt NativeBaseDenom = line_amount p →
    restriction from to amt = Ok to.
Proof.
  intros Hm Hv Hadmit restriction. pose proof (admitPayoutSet_Ok econ params lines payouts total Hv Hadmit) as Hset.
  split_and!.
  - intros recipient denom amount. unfold restricted_send. rewrite Hm.
    assert (restriction (NewModuleAddress ModuleName) recipient (coin denom amount) = Ok recipient) as ->; [|done].
    unfold restriction. apply restriction_Ok. split; [done|]. right; right.
    unfold protocolPayoutAddresses. set_solver.
  - pose proof (ps_count _ _ _ _ _ Hset). unfold MaxBankOutputsPerTx. lia.
  - intros p from to amt Hp Hamt. unfold restriction. apply restriction_Ok. split; [done|]. right; left. rewrite Hamt.
    destruct (ps_floor _ _ _ _ _ Hset) as (floor & _ & Hle & Hall). rewrite Forall_forall in Hall.
    specialize (Hall p Hp). unfold MinimumAccountFunding, HardMinSettlementPayoutAmount. lia.
Qed.

(** C40: the fan-out of the bank messages of one transaction is bounded: the
    handler the application installs refuses a transaction of more than 32 bank
    outputs before anything else runs and is otherwise the wrapped handler; the
    bank messages of a transaction it admits, sent from accounts the protocol does
    not pay from, create at most 32 accounts, and each account they create is the
    recipient of an output of the transaction that carries at least the funding
    minimum.  Other messages of the transaction may come between them; the accounts
    these create, such as those of a settlement chunk, are not counted and not
    bounded here.  Without a handler to wrap, the application does not start. *)
Theorem bank_fanout_bounded {Ctx Tx : Type} (GetMsgs : Tx → list (Msg Coins))
    (next handler : AnteHandler (Ctx := Ctx) (Tx := Tx)) (tx : Tx) (accounts created : gset AccAddress) :
  newBankOutputCap GetMsgs (Some next) = Ok handler →
  runs NewModuleAddress AmountOf accounts (GetMsgs tx) created →
  Forall (from_user NewModuleAddress) (bank_transfers (GetMsgs tx)) →
  newBankOutputCap GetMsgs (None : option (AnteHandler (Ctx := Ctx))) = Err Panic ∧
  (∀ ctx simulate, handler ctx tx simulate =
     if MaxBankOutputsPerTx <? bankOutputsIn (GetMsgs tx) then (ctx, Err SdkInvalidRequest)
     else next ctx tx simulate) ∧
  ∀ ctx ctx' simulate, handler ctx tx simulate = (ctx', Ok tt) →
    next ctx tx simulate = (ctx', Ok tt) ∧ (size created ≤ 32)%nat ∧
    ∀ a, a ∈ created → ∃ from amount, (from, a, amount) ∈ bank_transfers (GetMsgs tx) ∧
      MinimumAccountFunding ≤ AmountOf amount NativeBaseDenom.
Proof.
  intros [= <-] Hex Hall. split; [done|].
  destruct (runs_created NewModuleAddress AmountOf _ _ _ Hex Hall) as [Hsize Hfund].
  split; [intros; by rewrite Z.gtb_ltb|].
  intros ctx ctx' simulate Hrun. rewrite bank_outputs_count, Z.gtb_ltb in Hrun.
  destruct (Z.ltb_spec MaxBankOutputsPerTx (Z.of_nat (List.length (bank_transfers (GetMsgs tx))))) as [?|Hle]; [done|].
  unfold MaxBankOutputsPerTx in Hle. split_and!; [done | lia | exact Hfund].
Qed.
End properties.

(** ** Witnesses *)
Section witnesses.
#[local] Existing Instances sdkint_256 bech32_id ledger_bank.

Lemma wired_environment_witness :
  ∃ econ, newEconomicAddresses id "fee_collector" "minter" (Some (λ s, Some s))
      {["treasury"%string := true]} = Ok econ ∧
    environment econ "rewards"%string ∧ Validate econ "rewards"%string = Err EAModuleAccount.
Proof.
  eexists. split; [reflexivity|]. split; [|vm_compute; reflexivity].
  apply (@wired_environment bech32_id ledger_bank id "fee_collector"%string "minter"%string
    (λ s, Some s) {["treasury"%string := true]}).
  - split; [reflexivity | discriminate |]. intros text raw [= <-] Hne. split; [exact Hne | reflexivity].
  - reflexivity.
Defined.

(** Coins as denominations with amounts, and the amount of the first match. *)
Definition coin_amount (coins : list (string * Z)) (denom : string) : Z :=
  default 0 (snd <$> List.find (λ c, String.eqb (fst c) denom) coins).
(** Bank messages with another one between them, which creates an account too. *)
Definition sample_transaction : list (Msg (list (string * Z))) := [
  BankMsgSend "ann" "dan" [("utwlt", 10000)]%string;
  OtherMsg;
  BankMsgMultiSend "ann" [("eve", [("utwlt", 20000)]); ("ann", [("utwlt", 1)]);
    ("fay", [("utwlt", 1)])]%string
].

Lemma bank_fanout_bounded_witness :
  ∃ created, runs id coin_amount {["ann"%string]} sample_transaction created ∧
    created = {["dan"%string; "eve"%string]} ∧ (size created ≤ 32)%nat ∧
    ∀ a, a ∈ created → ∃ from amount, (from, a, amount) ∈ bank_transfers sample_transaction ∧
      10000 ≤ coin_amount amount "utwlt".
Proof.
  assert (runs id coin_amount {["ann"%string]} sample_transaction {["dan"%string; "eve"%string]}) as Hex.
  { eapply eq_ind.
    - eapply runs_bank; [discriminate | |].
      { eapply executes_cons; [vm_compute; reflexivity | apply executes_nil]. }
      eapply (runs_other _ _ _ {["fay"%string]}). eapply runs_bank; [discriminate | | apply runs_nil].
      repeat (eapply executes_cons; [vm_compute; reflexivity|]). apply executes_nil.
    - vm_compute. reflexivity. }
  destruct (bank_fanout_bounded id coin_amount (Ctx := unit) (λ _ : unit, sample_transaction)
    (λ ctx _ _, (ctx, Ok tt)) _ tt _ _ eq_refl Hex) as (_ & _ & Hbound).
  - repeat constructor; vm_compute; intros H; discriminate H.
  - destruct (Hbound tt tt false eq_refl) as (_ & Hcreated & Hfund). eexists. split; [exact Hex|].
    split; [reflexivity|]. split; [exact Hcreated | exact Hfund].
Defined.

Definition sample_bounds : SettlementParamsVersion := {|
  STP_Version := 1; STP_EffectiveEpoch := 1; STP_SettlementWindowEpochs := 2;
  STP_MaxRecipientsPerChunk := 32; STP_MaxChunksPerSettlement := 4;
  STP_MinRecipientPayoutAmount := "10000" |}%string.
Definition sample_lines : list (option SettlementChunkPayout) :=
  [Some {| SCP_Recipient := "ann"; SCP_Amount := "10000" |};
   Some {| SCP_Recipient := "bob"; SCP_Amount := "25000" |}]%string.

Lemma payouts_unrestricted_witness :
  ∃ payouts, admitPayoutSet sample_validator sample_bounds sample_lines = Ok (payouts, 35000) ∧
    ∀ p from to amt, p ∈ payouts → coin_amount amt "utwlt" = line_amount p →
      newAccountFundingRestriction coin_amount (protocolPayoutAddresses id) (λ _, false) from to amt = Ok to.
Proof.
  eexists. split; [vm_compute; reflexivity|].
  eapply (payouts_unrestricted id coin_amount (λ denom amount, [(denom, amount)]) (λ _, false)
    sample_validator sample_bounds sample_lines).
  - reflexivity.
  - vm_compute. reflexivity.
  - vm_compute. reflexivity.
Defined.
End witnesses.
